(** * CADHY drawing core: hidden-line projection, planar sections, cross-hatching

    A shallow embedding of the 2D drawing pipeline of
    [crates/cadhy-cad/cpp/bridge.cpp]:

    - [polygon_signed_area], [generate_hatch_lines_for_region],
      [project_point_to_plane], [compute_section_with_hatch]   (section + hatch)
    - [extract_2d_edges], [extract_bbox_edges], [compute_hlr_projection]  (HLR v1)
    - [extract_2d_curves], [compute_hlr_projection_v2]                     (HLR v2)
    - [get_exploded_part_info], [explode_shape], [get_shape_components],
      [count_shape_components]                                  (exploded views)
    - [tessellate], [tessellate_with_angle]                     (triangle meshes)

    Conventions of the embedding.

    - A C++ [double] is read as a real number ([R]); rounding, infinities and
      NaN are outside the model.  [std::numeric_limits<double>::max()] is the
      real constant [DBL_MAX].  Comparisons on doubles are the decidable
      comparisons of [R], wrapped as booleans ([Rltb], [Rleb]).
    - A [rust::Vec] or [std::vector] filled with [push_back] is a [list] in
      push order.  An output parameter passed by reference is threaded
      through as an explicit state.
    - The geometry kernel (OpenCASCADE) is an external collaborator.  What it
      answers for a given shape is carried by the record [OcctShape]: the
      topology counts, the six HLR compounds, the bounding box, the wires of a
      plane section.  A kernel call that throws is a value of type [thrown].
      The meshes and sub-shapes of a shape are carried by [TopoDS_Shape] and
      [OcctAssembly].
    - A [try] block that fills [result] as it goes is an [attempt]: it reaches
      its end, or an exception cuts it short and the handler sees [result] as
      it is at the throw.  The calls that can throw after the first change to
      [result] are the six extraction calls of [HLRBRep_HLRToShape], the
      constructor of [GCPnts_TangentialDeflection], [BRep_Tool::Pnt] on the
      vertices of a section wire and [Poly_Triangulation::Normal].
    - An unsigned integer of the source is a [Z] with its wrap-around written
      out ([cast_uint32], [wrap_size_t]). *)

From Stdlib Require Import Reals Lra Lia ZArith List Bool Sorted.
From Stdlib Require String.
Import ListNotations String.StringSyntax.
Delimit Scope string_scope with string.
Local Open Scope R_scope.

(** ** Doubles *)

Definition DBL_MAX : R := IZR (2 ^ 1024 - 2 ^ 971).

Definition Rltb (a b : R) : bool := if Rlt_dec a b then true else false.
Definition Rleb (a b : R) : bool := if Rle_dec a b then true else false.
Definition Reqb (a b : R) : bool := if Req_dec_T a b then true else false.

(** The range of [int]. *)
Definition INT_MIN : Z := (- 2 ^ 31)%Z.
Definition INT_MAX : Z := (2 ^ 31 - 1)%Z.

(** [static_cast<int>(x)]: truncation toward zero.  When the truncated value
    is outside the range of [int] the conversion is undefined in C++; the
    conversion instruction of the x86-64 build ([cvttsd2si]) then yields
    [INT_MIN], and that is the value taken here. *)
Definition double_to_int (x : R) : Z :=
  let t := if Rleb 0 x then Zfloor x else Zceil x in
  if (INT_MIN <=? t)%Z && (t <=? INT_MAX)%Z then t else INT_MIN.

(** [std::min({a, b, c})] and [std::max({a, b, c})]. *)
Definition Rmin3 (a b c : R) : R := Rmin (Rmin a b) c.
Definition Rmax3 (a b c : R) : R := Rmax (Rmax a b) c.

(** [std::atan2(y, x)], from the arctangent of the library. *)
Definition atan2 (y x : R) : R :=
  if Rltb 0 x then atan (y / x)
  else if Rltb x 0 then (if Rleb 0 y then atan (y / x) + PI else atan (y / x) - PI)
  else if Rltb 0 y then PI / 2
  else if Rltb y 0 then - (PI / 2)
  else 0.

(** The running 2D bounding box [(min_x, min_y, max_x, max_y)] that every
    entry point keeps in its result. *)
Record BBox2D : Type := mkBBox {
  bb_min_x : R;
  bb_min_y : R;
  bb_max_x : R;
  bb_max_y : R
}.

(** The initial extrema: [max()] for the minima, [lowest()] for the maxima. *)
Definition bbox_sentinel : BBox2D := mkBBox DBL_MAX DBL_MAX (- DBL_MAX) (- DBL_MAX).
Definition bbox_zero : BBox2D := mkBBox 0 0 0 0.

Definition bbox_add_point (b : BBox2D) (x y : R) : BBox2D :=
  mkBBox (Rmin (bb_min_x b) x) (Rmin (bb_min_y b) y)
         (Rmax (bb_max_x b) x) (Rmax (bb_max_y b) y).

Definition bbox_scale (b : BBox2D) (scale : R) : BBox2D :=
  mkBBox (bb_min_x b * scale) (bb_min_y b * scale)
         (bb_max_x b * scale) (bb_max_y b * scale).

(** ** Signed area (bridge.cpp, [polygon_signed_area]) *)

(** [std::pair<double, double>]. *)
Definition point2 : Type := (R * R)%type.

Definition nth_point (pts : list point2) (i : nat) : point2 := nth i pts (0, 0).

(** One turn of the loop: [area += pts[i].first * pts[j].second;
    area -= pts[j].first * pts[i].second] with [j = (i + 1) % n]. *)
Definition signed_area_step (pts : list point2) (area : R) (i : nat) : R :=
  let n := length pts in
  let j := ((i + 1) mod n)%nat in
  area + fst (nth_point pts i) * snd (nth_point pts j)
       - fst (nth_point pts j) * snd (nth_point pts i).

Definition polygon_signed_area (pts : list point2) : R :=
  fold_left (signed_area_step pts) (seq 0 (length pts)) 0 / 2.

(** ** Hatcher (bridge.cpp, [generate_hatch_lines_for_region]) *)

Record HatchLineFFI : Type := mkHatchLine {
  hl_start_x : R;
  hl_start_y : R;
  hl_end_x : R;
  hl_end_y : R
}.

(** The body of the loop over the boundary edges [j]: the parameter along the
    hatch line of the crossing with edge [j -> (j + 1) % n], when the edge is
    not near-parallel and the crossing has [0 <= t_edge <= 1]. *)
Definition hatch_edge_crossing (boundary : list point2)
    (cos_a sin_a hx hy : R) (j : nat) : option R :=
  let n := length boundary in
  let k := ((j + 1) mod n)%nat in
  let x1 := fst (nth_point boundary j) in
  let y1 := snd (nth_point boundary j) in
  let x2 := fst (nth_point boundary k) in
  let y2 := snd (nth_point boundary k) in
  let dx := x2 - x1 in
  let dy := y2 - y1 in
  let denom := dx * sin_a - dy * cos_a in
  if Rltb (Rabs denom) 1e-10 then None
  else
    let t_edge := ((hx - x1) * sin_a - (hy - y1) * cos_a) / denom in
    if Rleb 0 t_edge && Rleb t_edge 1 then
      let ix := x1 + t_edge * dx in
      let iy := y1 + t_edge * dy in
      Some ((ix - hx) * cos_a + (iy - hy) * sin_a)
    else None.

Definition hatch_intersections (boundary : list point2)
    (cos_a sin_a hx hy : R) : list R :=
  flat_map
    (fun j => match hatch_edge_crossing boundary cos_a sin_a hx hy j with
              | Some t_hatch => [t_hatch]
              | None => []
              end)
    (seq 0 (length boundary)).

(** [std::sort] on a vector of doubles: the ascending rearrangement. *)
Fixpoint sort_insert (x : R) (l : list R) : list R :=
  match l with
  | [] => [x]
  | y :: l' => if Rleb x y then x :: l else y :: sort_insert x l'
  end.

Definition std_sort (l : list R) : list R := fold_right sort_insert [] l.

(** The pairing loop [for (j = 0; j + 1 < size; j += 2)]: consecutive pairs,
    a trailing single value dropped, segments of length at most 1e-6
    dropped. *)
Fixpoint hatch_segments (hx hy cos_a sin_a : R) (intersections : list R)
    : list HatchLineFFI :=
  match intersections with
  | t1 :: t2 :: rest =>
      let line := mkHatchLine (hx + t1 * cos_a) (hy + t1 * sin_a)
                              (hx + t2 * cos_a) (hy + t2 * sin_a) in
      let len := sqrt ((hl_end_x line - hl_start_x line) ^ 2 +
                       (hl_end_y line - hl_start_y line) ^ 2) in
      (if Rltb 1e-6 len then [line] else [])
        ++ hatch_segments hx hy cos_a sin_a rest
  | _ => []
  end.

(** One candidate hatch line, at the offset [i * spacing] of its turn. *)
Definition hatch_line (boundary : list point2)
    (cos_a sin_a cx cy offset : R) : list HatchLineFFI :=
  let hx := cx + offset * sin_a in
  let hy := cy - offset * cos_a in
  hatch_segments hx hy cos_a sin_a
    (std_sort (hatch_intersections boundary cos_a sin_a hx hy)).

Definition hatch_diag (min_x min_y max_x max_y : R) : R :=
  sqrt ((max_x - min_x) ^ 2 + (max_y - min_y) ^ 2).

(** [int num_lines = static_cast<int>(diag / spacing) + 2].  The sum, and the
    counter of the loop below, are integers of Rocq: they stay in the range of
    [int] as long as the quotient is below [2^31 - 3] or is outside the range
    of the conversion (the count is then [INT_MIN + 2] and the loop runs zero
    times); for the quotients in between the C++ addition or increment
    overflows, which is undefined. *)
Definition hatch_num_lines (spacing min_x min_y max_x max_y : R) : Z :=
  (double_to_int (hatch_diag min_x min_y max_x max_y / spacing) + 2)%Z.

(** The values taken by [i] in [for (int i = lo; i <= hi; i++)]. *)
Definition int_range (lo hi : Z) : list Z :=
  map (fun k => (lo + Z.of_nat k)%Z) (seq 0 (Z.to_nat (hi - lo + 1))).

(** [hatch_lines] is the vector the segments are appended to. *)
Definition generate_hatch_lines_for_region (boundary : list point2)
    (angle_deg spacing : R) (hatch_lines : list HatchLineFFI)
    (min_x min_y max_x max_y : R) : list HatchLineFFI :=
  if (length boundary <? 3)%nat || Rleb spacing 0 then hatch_lines
  else
    let angle_rad := angle_deg * PI / 180 in
    let cos_a := cos angle_rad in
    let sin_a := sin angle_rad in
    let cx := (min_x + max_x) / 2 in
    let cy := (min_y + max_y) / 2 in
    let num_lines := hatch_num_lines spacing min_x min_y max_x max_y in
    hatch_lines ++
    flat_map (fun i => hatch_line boundary cos_a sin_a cx cy (IZR i * spacing))
             (int_range (- num_lines) num_lines).

(** ** Kernel values and exceptions *)

(** Cartesian coordinates; used for [gp_Pnt], [gp_Vec] and [gp_Dir]. *)
Record gp_Pnt : Type := mkPnt {
  pX : R;
  pY : R;
  pZ : R
}.

(** What a [catch] clause of an entry point can see: an OCCT
    [Standard_Failure], a [std::exception], or anything else. *)
Inductive thrown : Type :=
  | Standard_Failure
  | std_exception
  | unknown_exception.

(** A computation inside a [try] block: it throws or it yields a value. *)
Definition kernel (A : Type) : Type := (thrown + A)%type.

Definition kret {A : Type} (a : A) : kernel A := inr a.
Definition kraise {A : Type} (e : thrown) : kernel A := inl e.
Definition kbind {A B : Type} (m : kernel A) (f : A -> kernel B) : kernel B :=
  match m with
  | inl e => inl e
  | inr a => f a
  end.

Notation "x <- m ;; k" := (kbind m (fun x => k))
  (at level 61, m at next level, right associativity).

(** [try { m } catch (...) { fallback }] around a single kernel call. *)
Definition try_or {A : Type} (m : kernel A) (fallback : A) : A :=
  match m with
  | inl _ => fallback
  | inr a => a
  end.

(** A [try] block that changes [result] as it goes: it reaches its end with
    a value, or an exception cuts it short and the value is left as it is at
    the throw. *)
Definition attempt (A : Type) : Type := (thrown * A + A)%type.

(** A kernel call in such a block, where [at_throw] is the value as it stands
    at the call. *)
Definition kcall {A B : Type} (m : kernel A) (at_throw : B)
    (k : A -> attempt B) : attempt B :=
  match m with
  | inl e => inl (e, at_throw)
  | inr a => k a
  end.

(** A loop, or a sequence of statements, whose body can throw: the exception
    ends it. *)
Fixpoint attempt_fold {S G : Type} (step : S -> G -> attempt S)
    (l : list G) (st : S) : attempt S :=
  match l with
  | [] => inr st
  | g :: rest =>
      match step st g with
      | inl x => inl x
      | inr st' => attempt_fold step rest st'
      end
  end.

(** [gp::Resolution()]. *)
Definition gp_Resolution : R := / IZR (2 ^ 1022).

Definition modulus (x y z : R) : R := sqrt (x * x + y * y + z * z).

(** [gp_Dir(x, y, z)]: the unit vector, a construction error when the
    modulus is not above the resolution. *)
Definition gp_Dir (x y z : R) : kernel gp_Pnt :=
  let D := modulus x y z in
  if Rleb D gp_Resolution then kraise Standard_Failure
  else kret (mkPnt (x / D) (y / D) (z / D)).

Definition cross (a b : gp_Pnt) : gp_Pnt :=
  mkPnt (pY a * pZ b - pZ a * pY b)
        (pZ a * pX b - pX a * pZ b)
        (pX a * pY b - pY a * pX b).

Definition dot (a b : gp_Pnt) : R :=
  pX a * pX b + pY a * pY b + pZ a * pZ b.

(** [a.Crossed(b)] on directions. *)
Definition Crossed (a b : gp_Pnt) : kernel gp_Pnt :=
  let c := cross a b in gp_Dir (pX c) (pY c) (pZ c).

(** [startPt.Distance(endPt)]. *)
Definition Distance (a b : gp_Pnt) : R :=
  modulus (pX b - pX a) (pY b - pY a) (pZ b - pZ a).

Inductive GeomAbs_CurveType : Type :=
  | GeomAbs_Line
  | GeomAbs_Circle
  | GeomAbs_Ellipse
  | GeomAbs_OtherCurve.

(** [BRep_Tool::Curve(edge, first, last)] when the handle is not null, with
    the two evaluations [curve->Value(first)] and [curve->Value(last)]. *)
Record EdgeCurve : Type := mkEdgeCurve {
  ec_first : R;
  ec_last : R;
  ec_startPt : gp_Pnt;
  ec_endPt : gp_Pnt
}.

(** An edge of an HLR compound, through the queries the extractors make. *)
Record TopoDS_Edge : Type := mkEdge {
  edge_curve : option EdgeCurve;
  edge_type : GeomAbs_CurveType;
  edge_reversed : bool;
  circ_location : gp_Pnt;
  circ_radius : R;
  elips_location : gp_Pnt;
  elips_major : R;
  elips_minor : R;
  elips_xdir : gp_Pnt;
  edge_discretize : R -> list gp_Pnt
}.

(** A [TopoDS_Shape] holding edges; [None] is the null shape. *)
Definition TopoDS_Compound : Type := option (list TopoDS_Edge).

(** The six compounds of [HLRBRep_HLRToShape], when its six extraction calls
    return. *)
Record HLRCompounds : Type := mkHLRCompounds {
  VCompound : TopoDS_Compound;
  HCompound : TopoDS_Compound;
  Rg1LineVCompound : TopoDS_Compound;
  Rg1LineHCompound : TopoDS_Compound;
  OutLineVCompound : TopoDS_Compound;
  OutLineHCompound : TopoDS_Compound
}.

(** What one extraction call of [HLRBRep_HLRToShape] returns: the compound
    and, for the edge at each position of the explorer, the exception that
    the constructor of [GCPnts_TangentialDeflection] throws for it at a
    deflection, if it throws. *)
Record HLRShape : Type := mkHLRShape {
  hs_compound : TopoDS_Compound;
  hs_discretizer_throws : nat -> R -> option thrown
}.

(** [HLRBRep_HLRToShape]: its six extraction calls, each of which returns a
    shape or throws. *)
Record HLRBRep_HLRToShape : Type := mkHLRToShape {
  call_VCompound : kernel HLRShape;
  call_HCompound : kernel HLRShape;
  call_Rg1LineVCompound : kernel HLRShape;
  call_Rg1LineHCompound : kernel HLRShape;
  call_OutLineVCompound : kernel HLRShape;
  call_OutLineHCompound : kernel HLRShape
}.

(** The six extraction calls in source order, each with the line type it is
    extracted under. *)
Definition hlr_groups (extractor : HLRBRep_HLRToShape)
    : list (kernel HLRShape * Z) :=
  [ (call_VCompound extractor, 0%Z);
    (call_HCompound extractor, 1%Z);
    (call_Rg1LineVCompound extractor, 2%Z);
    (call_Rg1LineHCompound extractor, 3%Z);
    (call_OutLineVCompound extractor, 4%Z);
    (call_OutLineHCompound extractor, 5%Z) ].

(** A wire as [BRepTools_WireExplorer] walks it when every vertex has a
    point: the points of its vertices, in order. *)
Definition TopoDS_Wire : Type := list gp_Pnt.

(** A wire of a section before its vertices are asked for their points:
    [BRep_Tool::Pnt] of each vertex, in the order of the explorer, returns the
    point or throws. *)
Definition SectionWire : Type := list (kernel gp_Pnt).

(** [ShapeAnalysis_FreeBounds] with [GetClosedWires] and [GetOpenWires]. *)
Record ShapeAnalysis_FreeBounds : Type := mkFreeBounds {
  GetClosedWires : list SectionWire;
  GetOpenWires : list SectionWire
}.

(** [BRepAlgoAPI_Section]: it throws, is not done, or is done, and then
    [ShapeAnalysis_FreeBounds] on its shape returns the wires or throws. *)
Inductive SectionOutcome : Type :=
  | SectionThrows (e : thrown)
  | SectionNotDone
  | SectionDone (freeBounds : kernel ShapeAnalysis_FreeBounds).

(** [Bnd_Box::Get(xmin, ymin, zmin, xmax, ymax, zmax)]. *)
Record Bnd_Box : Type := mkBndBox {
  bnd_xmin : R;
  bnd_ymin : R;
  bnd_zmin : R;
  bnd_xmax : R;
  bnd_ymax : R;
  bnd_zmax : R
}.

(** A shape handle together with the kernel's answers about it. *)
Record OcctShape : Type := mkShape {
  is_null : bool;
  topo_faces : nat;
  topo_edges : nat;
  topo_vertices : nat;
  (** [BRepBndLib::Add]; [None] when the box is void. *)
  shape_bnd_box : option Bnd_Box;
  (** Projector, [HLRBRep_Algo] and the constructor of
      [HLRBRep_HLRToShape] for a view direction and an X axis. *)
  shape_hlr : gp_Pnt -> gp_Pnt -> kernel HLRBRep_HLRToShape;
  (** Section by the plane through an origin with a normal. *)
  shape_section : gp_Pnt -> gp_Pnt -> SectionOutcome
}.

Definition count_shape_topology (shape : OcctShape) : nat * nat * nat :=
  (topo_faces shape, topo_edges shape, topo_vertices shape).

(** ** Section with hatching (bridge.cpp, [compute_section_with_hatch]) *)

Record TessPoint2D : Type := mkTess {
  tp_x : R;
  tp_y : R
}.

Record SectionCurveFFI : Type := mkSectionCurve {
  sc_points : list TessPoint2D;
  sc_is_closed : bool
}.

Record HatchRegionFFI : Type := mkHatchRegion {
  hr_boundary : list TessPoint2D;
  hr_hatch_lines : list HatchLineFFI;
  hr_area : R;
  hr_is_outer : bool
}.

(** [sr_bbox] stands for the four fields [min_x], [min_y], [max_x],
    [max_y]. *)
Record SectionWithHatchResult : Type := mkSectionResult {
  sr_curves : list SectionCurveFFI;
  sr_regions : list HatchRegionFFI;
  sr_bbox : BBox2D;
  sr_num_regions : Z;
  sr_num_hatch_lines : Z
}.

Definition project_point_to_plane (pt3d origin xAxis yAxis : gp_Pnt) : R * R :=
  let v := mkPnt (pX pt3d - pX origin) (pY pt3d - pY origin) (pZ pt3d - pZ origin) in
  (dot v xAxis, dot v yAxis).

(** The walk over the vertices of one wire: [curve.points], [boundary] and
    the running bounding box. *)
Definition wire_vertex_step (origin xAxis yAxis : gp_Pnt)
    (acc : list TessPoint2D * list point2 * BBox2D) (pt : gp_Pnt)
    : list TessPoint2D * list point2 * BBox2D :=
  let '(points, boundary, bbox) := acc in
  let '(x2d, y2d) := project_point_to_plane pt origin xAxis yAxis in
  (points ++ [mkTess x2d y2d], boundary ++ [(x2d, y2d)],
   bbox_add_point bbox x2d y2d).

Definition walk_wire (origin xAxis yAxis : gp_Pnt) (bbox : BBox2D)
    (wire : TopoDS_Wire) : list TessPoint2D * list point2 * BBox2D :=
  fold_left (wire_vertex_step origin xAxis yAxis) wire ([], [], bbox).

(** The result under construction together with [closedCount]. *)
Definition section_state : Type := (SectionWithHatchResult * Z)%type.

(** Body of the loop over the closed wires. *)
Definition section_closed_wire (origin xAxis yAxis : gp_Pnt)
    (hatch_angle hatch_spacing : R) (st : section_state) (wire : TopoDS_Wire)
    : section_state :=
  let '(result, closedCount) := st in
  let closedCount := (closedCount + 1)%Z in
  let '(points, boundary, bbox) :=
    walk_wire origin xAxis yAxis (sr_bbox result) wire in
  if (3 <=? length boundary)%nat then
    let curve := mkSectionCurve points true in
    let hatch_lines :=
      generate_hatch_lines_for_region boundary hatch_angle hatch_spacing []
        (bb_min_x bbox) (bb_min_y bbox) (bb_max_x bbox) (bb_max_y bbox) in
    let region :=
      mkHatchRegion (map (fun p => mkTess (fst p) (snd p)) boundary)
                    hatch_lines
                    (Rabs (polygon_signed_area boundary))
                    (Rltb 0 (polygon_signed_area boundary)) in
    (mkSectionResult (sr_curves result ++ [curve])
                     (sr_regions result ++ [region])
                     bbox
                     (sr_num_regions result)
                     (sr_num_hatch_lines result + Z.of_nat (length hatch_lines)),
     closedCount)
  else
    (mkSectionResult (sr_curves result) (sr_regions result) bbox
                     (sr_num_regions result) (sr_num_hatch_lines result),
     closedCount).

(** Body of the loop over the open wires. *)
Definition section_open_wire (origin xAxis yAxis : gp_Pnt)
    (result : SectionWithHatchResult) (wire : TopoDS_Wire)
    : SectionWithHatchResult :=
  let '(points, _, bbox) :=
    walk_wire origin xAxis yAxis (sr_bbox result) wire in
  let curve := mkSectionCurve points false in
  mkSectionResult
    (if (2 <=? length points)%nat then sr_curves result ++ [curve]
     else sr_curves result)
    (sr_regions result) bbox
    (sr_num_regions result) (sr_num_hatch_lines result).

Definition section_result_init : SectionWithHatchResult :=
  mkSectionResult [] [] bbox_sentinel 0 0.

(** From the end of the two loops to the end of the [try] block:
    [num_regions] is set, and the box of a result without curves is zeroed. *)
Definition section_finish (r2 : SectionWithHatchResult) (closedCount : Z)
    : SectionWithHatchResult :=
  let r3 := mkSectionResult (sr_curves r2) (sr_regions r2) (sr_bbox r2)
                            closedCount (sr_num_hatch_lines r2) in
  match sr_curves r3 with
  | [] => mkSectionResult (sr_curves r3) (sr_regions r3) bbox_zero
                          (sr_num_regions r3) (sr_num_hatch_lines r3)
  | _ :: _ => r3
  end.

(** The two loops and what follows them, on wires whose vertices all have a
    point. *)
Definition section_process (origin xAxis yAxis : gp_Pnt)
    (hatch_angle hatch_spacing : R) (closedWires openWires : list TopoDS_Wire)
    : SectionWithHatchResult :=
  let '(r1, closedCount) :=
    fold_left (section_closed_wire origin xAxis yAxis hatch_angle hatch_spacing)
              closedWires (section_result_init, 0%Z) in
  let r2 := fold_left (section_open_wire origin xAxis yAxis) openWires r1 in
  section_finish r2 closedCount.

(** The points of the vertices of a wire up to the first vertex for which
    [BRep_Tool::Pnt] throws, and the exception thrown there. *)
Fixpoint wire_points (wire : SectionWire) : list gp_Pnt * option thrown :=
  match wire with
  | [] => ([], None)
  | inl e :: _ => ([], Some e)
  | inr pt :: rest =>
      let '(pts, x) := wire_points rest in (pt :: pts, x)
  end.

(** [result] when the walk over a wire is cut short: the box has taken the
    points walked so far, the curve under construction is lost. *)
Definition section_wire_cut (origin xAxis yAxis : gp_Pnt)
    (result : SectionWithHatchResult) (walked : list gp_Pnt)
    : SectionWithHatchResult :=
  let '(_, _, bbox) := walk_wire origin xAxis yAxis (sr_bbox result) walked in
  mkSectionResult (sr_curves result) (sr_regions result) bbox
                  (sr_num_regions result) (sr_num_hatch_lines result).

(** Body of the loop over the closed wires, with the exception of
    [BRep_Tool::Pnt]. *)
Definition section_closed_wire_try (origin xAxis yAxis : gp_Pnt)
    (hatch_angle hatch_spacing : R) (st : section_state) (wire : SectionWire)
    : attempt section_state :=
  match wire_points wire with
  | (pts, None) =>
      inr (section_closed_wire origin xAxis yAxis hatch_angle hatch_spacing
                               st pts)
  | (walked, Some e) =>
      let '(result, closedCount) := st in
      inl (e, (section_wire_cut origin xAxis yAxis result walked,
               (closedCount + 1)%Z))
  end.

(** Body of the loop over the open wires, with the exception of
    [BRep_Tool::Pnt]. *)
Definition section_open_wire_try (origin xAxis yAxis : gp_Pnt)
    (result : SectionWithHatchResult) (wire : SectionWire)
    : attempt SectionWithHatchResult :=
  match wire_points wire with
  | (pts, None) => inr (section_open_wire origin xAxis yAxis result pts)
  | (walked, Some e) =>
      inl (e, section_wire_cut origin xAxis yAxis result walked)
  end.

(** The two loops and what follows them.  An exception leaves [result] with
    the curves and regions of the wires walked before, and [num_regions]
    still at its initial 0. *)
Definition section_process_try (origin xAxis yAxis : gp_Pnt)
    (hatch_angle hatch_spacing : R) (closedWires openWires : list SectionWire)
    : attempt SectionWithHatchResult :=
  match attempt_fold
          (section_closed_wire_try origin xAxis yAxis hatch_angle hatch_spacing)
          closedWires (section_result_init, 0%Z) with
  | inl (e, (result, _)) => inl (e, result)
  | inr (r1, closedCount) =>
      match attempt_fold (section_open_wire_try origin xAxis yAxis)
                         openWires r1 with
      | inl (e, result) => inl (e, result)
      | inr r2 => inr (section_finish r2 closedCount)
      end
  end.

(** The [try] block.  Up to the loops over the wires [result] is the initial
    one. *)
Definition section_try (shape : OcctShape)
    (origin_x origin_y origin_z normal_x normal_y normal_z
     up_x up_y up_z hatch_angle hatch_spacing : R)
    : attempt SectionWithHatchResult :=
  if is_null shape then inr section_result_init
  else
    let origin := mkPnt origin_x origin_y origin_z in
    kcall (gp_Dir normal_x normal_y normal_z) section_result_init (fun normal =>
    match shape_section shape origin normal with
    | SectionThrows e => inl (e, section_result_init)
    | SectionNotDone => inr section_result_init
    | SectionDone freeBounds =>
        kcall (gp_Dir up_x up_y up_z) section_result_init (fun upDir =>
        let xAxis := try_or (Crossed upDir normal) (mkPnt 1 0 0) in
        kcall (Crossed normal xAxis) section_result_init (fun yAxis =>
        kcall freeBounds section_result_init (fun freeBounds =>
        section_process_try origin xAxis yAxis hatch_angle hatch_spacing
                            (GetClosedWires freeBounds)
                            (GetOpenWires freeBounds))))
    end).

(** The three handlers: only [Standard_Failure] zeroes the box. *)
Definition section_catch (e : thrown) (result : SectionWithHatchResult)
    : SectionWithHatchResult :=
  match e with
  | Standard_Failure =>
      mkSectionResult (sr_curves result) (sr_regions result) bbox_zero
                      (sr_num_regions result) (sr_num_hatch_lines result)
  | _ => result
  end.

Definition compute_section_with_hatch (shape : OcctShape)
    (origin_x origin_y origin_z normal_x normal_y normal_z
     up_x up_y up_z hatch_angle hatch_spacing : R)
    : SectionWithHatchResult :=
  match section_try shape origin_x origin_y origin_z
                    normal_x normal_y normal_z up_x up_y up_z
                    hatch_angle hatch_spacing with
  | inl (e, result) => section_catch e result
  | inr result => result
  end.

(** ** HLR projection, lines only (bridge.cpp, [compute_hlr_projection]) *)

Record Line2DFFI : Type := mkLine2D {
  ln_start_x : R;
  ln_start_y : R;
  ln_end_x : R;
  ln_end_y : R;
  ln_line_type : Z
}.

(** [hp_bbox] stands for the four fields [min_x], [min_y], [max_x],
    [max_y]. *)
Record HLRProjectionResult : Type := mkHLRResult {
  hp_lines : list Line2DFFI;
  hp_bbox : BBox2D
}.

(** The output parameters of [extract_2d_edges] and its counter
    [extracted]. *)
Definition edges_state : Type := (list Line2DFFI * BBox2D * Z)%type.

(** Body of the loop over the edges of one compound. *)
Definition extract_2d_edges_step (line_type : Z) (st : edges_state)
    (edge : TopoDS_Edge) : edges_state :=
  let '(lines, bbox, extracted) := st in
  match edge_curve edge with
  | None => st
  | Some c =>
      let line := mkLine2D (pX (ec_startPt c)) (pY (ec_startPt c))
                           (pX (ec_endPt c)) (pY (ec_endPt c)) line_type in
      let len := sqrt ((ln_end_x line - ln_start_x line) ^ 2 +
                       (ln_end_y line - ln_start_y line) ^ 2) in
      if Rleb len 1e-7 then st
      else
        (lines ++ [line],
         mkBBox (Rmin3 (bb_min_x bbox) (ln_start_x line) (ln_end_x line))
                (Rmin3 (bb_min_y bbox) (ln_start_y line) (ln_end_y line))
                (Rmax3 (bb_max_x bbox) (ln_start_x line) (ln_end_x line))
                (Rmax3 (bb_max_y bbox) (ln_start_y line) (ln_end_y line)),
         (extracted + 1)%Z)
  end.

(** Returns the updated [lines] and box, and the number extracted by this
    call. *)
Definition extract_2d_edges (shape : TopoDS_Compound) (line_type : Z)
    (lines : list Line2DFFI) (bbox : BBox2D) : edges_state :=
  match shape with
  | None => (lines, bbox, 0%Z)
  | Some edges =>
      fold_left (extract_2d_edges_step line_type) edges (lines, bbox, 0%Z)
  end.

(** The projected rectangle [(p_xmin, p_ymin, p_xmax, p_ymax)] of the
    fallback, by the view direction. *)
Definition bbox_edges_rect (b : Bnd_Box) (dir_x dir_y dir_z scale : R) : BBox2D :=
  if Rltb 0.9 (Rabs dir_y) then
    mkBBox (bnd_xmin b * scale) (bnd_zmin b * scale)
           (bnd_xmax b * scale) (bnd_zmax b * scale)
  else if Rltb 0.9 (Rabs dir_z) then
    mkBBox (bnd_xmin b * scale) (bnd_ymin b * scale)
           (bnd_xmax b * scale) (bnd_ymax b * scale)
  else if Rltb 0.9 (Rabs dir_x) then
    mkBBox (bnd_ymin b * scale) (bnd_zmin b * scale)
           (bnd_ymax b * scale) (bnd_zmax b * scale)
  else
    mkBBox (bnd_xmin b * scale) (bnd_ymin b * scale)
           (bnd_xmax b * scale) (bnd_ymax b * scale).

Definition extract_bbox_edges (shape : OcctShape) (lines : list Line2DFFI)
    (bbox : BBox2D) (dir_x dir_y dir_z scale : R) : list Line2DFFI * BBox2D :=
  match shape_bnd_box shape with
  | None => (lines, bbox)
  | Some b =>
      let p := bbox_edges_rect b dir_x dir_y dir_z scale in
      let p_xmin := bb_min_x p in
      let p_ymin := bb_min_y p in
      let p_xmax := bb_max_x p in
      let p_ymax := bb_max_y p in
      (lines ++ [ mkLine2D p_xmin p_ymin p_xmax p_ymin 4;
                  mkLine2D p_xmax p_ymin p_xmax p_ymax 4;
                  mkLine2D p_xmax p_ymax p_xmin p_ymax 4;
                  mkLine2D p_xmin p_ymax p_xmin p_ymin 4 ],
       mkBBox p_xmin p_ymin p_xmax p_ymax)
  end.

(** The six calls of [extract_2d_edges], in source order, with
    [totalExtracted], when the six extraction calls return the compounds
    [c]. *)
Definition hlr_extract_all (c : HLRCompounds) (lines : list Line2DFFI)
    (bbox : BBox2D) : edges_state :=
  let '(l0, b0, n0) := extract_2d_edges (VCompound c) 0 lines bbox in
  let '(l1, b1, n1) := extract_2d_edges (HCompound c) 1 l0 b0 in
  let '(l2, b2, n2) := extract_2d_edges (Rg1LineVCompound c) 2 l1 b1 in
  let '(l3, b3, n3) := extract_2d_edges (Rg1LineHCompound c) 3 l2 b2 in
  let '(l4, b4, n4) := extract_2d_edges (OutLineVCompound c) 4 l3 b3 in
  let '(l5, b5, n5) := extract_2d_edges (OutLineHCompound c) 5 l4 b4 in
  (l5, b5, (0 + n0 + n1 + n2 + n3 + n4 + n5)%Z).

Definition scale_line (scale : R) (line : Line2DFFI) : Line2DFFI :=
  mkLine2D (ln_start_x line * scale) (ln_start_y line * scale)
           (ln_end_x line * scale) (ln_end_y line * scale)
           (ln_line_type line).

Definition is_empty {A : Type} (l : list A) : bool :=
  match l with
  | [] => true
  | _ :: _ => false
  end.

(** One pair of statements [TopoDS_Shape s = extractor.XCompound();
    totalExtracted += extract_2d_edges(s, line_type, result.lines, ...)]. *)
Definition hlr_extract_group (st : edges_state) (g : kernel HLRShape * Z)
    : attempt edges_state :=
  let '(lines, bbox, totalExtracted) := st in
  match fst g with
  | inl e => inl (e, st)
  | inr s =>
      let '(lines, bbox, n) :=
        extract_2d_edges (hs_compound s) (snd g) lines bbox in
      inr (lines, bbox, (totalExtracted + n)%Z)
  end.

(** The six pairs of statements; an extraction call that throws leaves the
    lines and the box of the groups extracted before it. *)
Definition hlr_extract_all_try (extractor : HLRBRep_HLRToShape)
    (lines : list Line2DFFI) (bbox : BBox2D) : attempt edges_state :=
  attempt_fold hlr_extract_group (hlr_groups extractor) (lines, bbox, 0%Z).

(** From the end of the extraction to the end of the [try] block. *)
Definition hlr_finish_from (shape : OcctShape) (dir_x dir_y dir_z scale : R)
    (st : edges_state) : HLRProjectionResult :=
  let '(lines, bbox, totalExtracted) := st in
  let '(lines, bbox) :=
    if is_empty lines
    then extract_bbox_edges shape lines bbox dir_x dir_y dir_z scale
    else (lines, bbox) in
  let '(lines, bbox) :=
    if negb (Reqb scale 1) && negb (is_empty lines) && (0 <? totalExtracted)%Z
    then (map (scale_line scale) lines, bbox_scale bbox scale)
    else (lines, bbox) in
  if is_empty lines then mkHLRResult lines bbox_zero
  else mkHLRResult lines bbox.

(** The extraction and what follows it, when the six extraction calls return
    the compounds [c]. *)
Definition hlr_finish (shape : OcctShape) (dir_x dir_y dir_z scale : R)
    (c : HLRCompounds) : HLRProjectionResult :=
  hlr_finish_from shape dir_x dir_y dir_z scale
                  (hlr_extract_all c [] bbox_sentinel).

Definition hlr_result_init : HLRProjectionResult :=
  mkHLRResult [] bbox_sentinel.

(** The [try] block.  Up to the extraction [result] is the initial one; the
    extraction writes into [result.lines] and the four extrema. *)
Definition hlr_try (shape : OcctShape)
    (dir_x dir_y dir_z up_x up_y up_z scale : R) : attempt HLRProjectionResult :=
  if is_null shape then inr hlr_result_init
  else
    let '(faces, edges, vertices) := count_shape_topology shape in
    if (faces =? 0)%nat && (edges =? 0)%nat then inr hlr_result_init
    else
      let len := sqrt (dir_x * dir_x + dir_y * dir_y + dir_z * dir_z) in
      if Rltb len 1e-10 then inr hlr_result_init
      else
        let dir_x := dir_x / len in
        let dir_y := dir_y / len in
        let dir_z := dir_z / len in
        kcall (gp_Dir dir_x dir_y dir_z) hlr_result_init (fun viewDir =>
        kcall (gp_Dir up_x up_y up_z) hlr_result_init (fun upDir =>
        let xAxis := try_or (Crossed upDir viewDir) (mkPnt 1 0 0) in
        kcall (shape_hlr shape viewDir xAxis) hlr_result_init (fun extractor =>
        match hlr_extract_all_try extractor [] bbox_sentinel with
        | inl (e, (lines, bbox, _)) => inl (e, mkHLRResult lines bbox)
        | inr st => inr (hlr_finish_from shape dir_x dir_y dir_z scale st)
        end))).

(** All three handlers zero the box. *)
Definition hlr_catch (e : thrown) (result : HLRProjectionResult)
    : HLRProjectionResult :=
  mkHLRResult (hp_lines result) bbox_zero.

Definition compute_hlr_projection (shape : OcctShape)
    (dir_x dir_y dir_z up_x up_y up_z scale : R) : HLRProjectionResult :=
  match hlr_try shape dir_x dir_y dir_z up_x up_y up_z scale with
  | inl (e, result) => hlr_catch e result
  | inr result => result
  end.

(** ** HLR projection with curves (bridge.cpp, [compute_hlr_projection_v2]) *)

Record Curve2DFFI : Type := mkCurve2D {
  cv_curve_type : Z;
  cv_line_type : Z;
  cv_start_x : R;
  cv_start_y : R;
  cv_end_x : R;
  cv_end_y : R;
  cv_center_x : R;
  cv_center_y : R;
  cv_radius : R;
  cv_major_radius : R;
  cv_minor_radius : R;
  cv_start_angle : R;
  cv_end_angle : R;
  cv_rotation : R;
  cv_ccw : bool
}.

Record Polyline2DFFI : Type := mkPolyline2D {
  pl_points : list TessPoint2D;
  pl_line_type : Z
}.

(** [h2_bbox] stands for the four fields [min_x], [min_y], [max_x],
    [max_y]. *)
Record HLRProjectionResultV2 : Type := mkHLRResultV2 {
  h2_curves : list Curve2DFFI;
  h2_polylines : list Polyline2DFFI;
  h2_bbox : BBox2D;
  h2_num_edges : Z;
  h2_num_lines : Z;
  h2_num_arcs : Z;
  h2_num_polylines : Z
}.

(** The output parameters of [extract_2d_curves] and its counter
    [extracted]. *)
Record curves_state : Type := mkCurvesState {
  cs_curves : list Curve2DFFI;
  cs_polylines : list Polyline2DFFI;
  cs_bbox : BBox2D;
  cs_num_lines : Z;
  cs_num_arcs : Z;
  cs_num_polylines : Z;
  cs_extracted : Z
}.

Definition is_GeomAbs_Line (t : GeomAbs_CurveType) : bool :=
  match t with
  | GeomAbs_Line => true
  | _ => false
  end.

(** The loop over the sampled points of a tessellated edge. *)
Definition polyline_point_step (acc : list TessPoint2D * BBox2D) (pt : gp_Pnt)
    : list TessPoint2D * BBox2D :=
  let '(points, bbox) := acc in
  (points ++ [mkTess (pX pt) (pY pt)], bbox_add_point bbox (pX pt) (pY pt)).

(** Body of the loop over the edges of one compound, for an edge whose
    discretizer is constructed without an exception. *)
Definition extract_2d_curves_step (line_type : Z) (deflection : R)
    (st : curves_state) (edge : TopoDS_Edge) : curves_state :=
  match edge_curve edge with
  | None => st
  | Some c =>
      let first := ec_first c in
      let last := ec_last c in
      let curveType := edge_type edge in
      let startPt := ec_startPt c in
      let endPt := ec_endPt c in
      let len := Distance startPt endPt in
      if Rleb len 1e-7 && is_GeomAbs_Line curveType then st
      else
        let bbox :=
          mkBBox (Rmin3 (bb_min_x (cs_bbox st)) (pX startPt) (pX endPt))
                 (Rmin3 (bb_min_y (cs_bbox st)) (pY startPt) (pY endPt))
                 (Rmax3 (bb_max_x (cs_bbox st)) (pX startPt) (pX endPt))
                 (Rmax3 (bb_max_y (cs_bbox st)) (pY startPt) (pY endPt)) in
        match curveType with
        | GeomAbs_Line =>
            let c2 := mkCurve2D 0 line_type
                        (pX startPt) (pY startPt) (pX endPt) (pY endPt)
                        0 0 0 0 0 0 0 0 false in
            mkCurvesState (cs_curves st ++ [c2]) (cs_polylines st) bbox
                          (cs_num_lines st + 1) (cs_num_arcs st)
                          (cs_num_polylines st) (cs_extracted st + 1)
        | GeomAbs_Circle =>
            let center := circ_location edge in
            let radius := circ_radius edge in
            let bbox :=
              mkBBox (Rmin (bb_min_x bbox) (pX center - radius))
                     (Rmin (bb_min_y bbox) (pY center - radius))
                     (Rmax (bb_max_x bbox) (pX center + radius))
                     (Rmax (bb_max_y bbox) (pY center + radius)) in
            let startAngle :=
              atan2 (pY startPt - pY center) (pX startPt - pX center) in
            let endAngle :=
              atan2 (pY endPt - pY center) (pX endPt - pX center) in
            let isFullCircle :=
              Rltb (Rabs first) 1e-10 && Rltb (Rabs (last - 2 * PI)) 1e-10 in
            let c2 := mkCurve2D (if isFullCircle then 2 else 1) line_type
                        (pX startPt) (pY startPt) (pX endPt) (pY endPt)
                        (pX center) (pY center) radius radius radius
                        startAngle endAngle 0 (negb (edge_reversed edge)) in
            mkCurvesState (cs_curves st ++ [c2]) (cs_polylines st) bbox
                          (cs_num_lines st) (cs_num_arcs st + 1)
                          (cs_num_polylines st) (cs_extracted st + 1)
        | GeomAbs_Ellipse =>
            let center := elips_location edge in
            let majorR := elips_major edge in
            let minorR := elips_minor edge in
            let xDir := elips_xdir edge in
            let rotation := atan2 (pY xDir) (pX xDir) in
            let bbox :=
              mkBBox (Rmin (bb_min_x bbox) (pX center - majorR))
                     (Rmin (bb_min_y bbox) (pY center - majorR))
                     (Rmax (bb_max_x bbox) (pX center + majorR))
                     (Rmax (bb_max_y bbox) (pY center + majorR)) in
            let c2 := mkCurve2D 3 line_type
                        (pX startPt) (pY startPt) (pX endPt) (pY endPt)
                        (pX center) (pY center) majorR majorR minorR
                        first last rotation (negb (edge_reversed edge)) in
            mkCurvesState (cs_curves st ++ [c2]) (cs_polylines st) bbox
                          (cs_num_lines st) (cs_num_arcs st + 1)
                          (cs_num_polylines st) (cs_extracted st + 1)
        | GeomAbs_OtherCurve =>
            let sampled := edge_discretize edge deflection in
            if (2 <=? length sampled)%nat then
              let '(points, bbox) :=
                fold_left polyline_point_step sampled ([], bbox) in
              mkCurvesState (cs_curves st)
                            (cs_polylines st ++ [mkPolyline2D points line_type])
                            bbox
                            (cs_num_lines st) (cs_num_arcs st)
                            (cs_num_polylines st + 1) (cs_extracted st + 1)
            else
              mkCurvesState (cs_curves st) (cs_polylines st) bbox
                            (cs_num_lines st) (cs_num_arcs st)
                            (cs_num_polylines st) (cs_extracted st)
        end
  end.

(** One call, when no discretizer throws: [extracted] starts at 0 and is
    returned in [cs_extracted]. *)
Definition extract_2d_curves (shape : TopoDS_Compound) (line_type : Z)
    (deflection : R) (st : curves_state) : curves_state :=
  let st0 := mkCurvesState (cs_curves st) (cs_polylines st) (cs_bbox st)
                           (cs_num_lines st) (cs_num_arcs st)
                           (cs_num_polylines st) 0 in
  match shape with
  | None => st0
  | Some edges => fold_left (extract_2d_curves_step line_type deflection) edges st0
  end.

(** The output parameters when the constructor of the discretizer throws
    for an edge with the curve [c]: the box has taken the end points of the
    edge, nothing is pushed for it. *)
Definition extract_2d_curves_cut (st : curves_state) (c : EdgeCurve)
    : curves_state :=
  let startPt := ec_startPt c in
  let endPt := ec_endPt c in
  mkCurvesState (cs_curves st) (cs_polylines st)
    (mkBBox (Rmin3 (bb_min_x (cs_bbox st)) (pX startPt) (pX endPt))
            (Rmin3 (bb_min_y (cs_bbox st)) (pY startPt) (pY endPt))
            (Rmax3 (bb_max_x (cs_bbox st)) (pX startPt) (pX endPt))
            (Rmax3 (bb_max_y (cs_bbox st)) (pY startPt) (pY endPt)))
    (cs_num_lines st) (cs_num_arcs st) (cs_num_polylines st) (cs_extracted st).

(** The loop over the edges of one compound, the edge at position [j] first.
    The discretizer is constructed for an edge with a curve that is neither a
    line, a circle nor an ellipse, after the box has taken its end points. *)
Fixpoint extract_2d_curves_loop (throws : nat -> R -> option thrown)
    (line_type : Z) (deflection : R) (j : nat) (edges : list TopoDS_Edge)
    (st : curves_state) : attempt curves_state :=
  match edges with
  | [] => inr st
  | edge :: rest =>
      match edge_curve edge, edge_type edge, throws j deflection with
      | Some c, GeomAbs_OtherCurve, Some e =>
          inl (e, extract_2d_curves_cut st c)
      | _, _, _ =>
          extract_2d_curves_loop throws line_type deflection (S j) rest
            (extract_2d_curves_step line_type deflection st edge)
      end
  end.

(** One call of [extract_2d_curves] on the shape of an extraction call. *)
Definition extract_2d_curves_try (shape : HLRShape) (line_type : Z)
    (deflection : R) (st : curves_state) : attempt curves_state :=
  let st0 := mkCurvesState (cs_curves st) (cs_polylines st) (cs_bbox st)
                           (cs_num_lines st) (cs_num_arcs st)
                           (cs_num_polylines st) 0 in
  match hs_compound shape with
  | None => inr st0
  | Some edges =>
      extract_2d_curves_loop (hs_discretizer_throws shape) line_type
                             deflection 0 edges st0
  end.

(** One pair of statements [TopoDS_Shape s = extractor.XCompound();
    result.num_edges += extract_2d_curves(s, line_type, ...)]: the sum is
    stored only when the call returns. *)
Definition hlr2_extract_group (deflection : R) (acc : curves_state * Z)
    (g : kernel HLRShape * Z) : attempt (curves_state * Z) :=
  let '(st, num_edges) := acc in
  match fst g with
  | inl e => inl (e, acc)
  | inr s =>
      match extract_2d_curves_try s (snd g) deflection st with
      | inl (e, st') => inl (e, (st', num_edges))
      | inr st' => inr (st', (num_edges + cs_extracted st')%Z)
      end
  end.

(** The six pairs of statements, from the initial result and counters. *)
Definition hlr2_extract_all_try (extractor : HLRBRep_HLRToShape)
    (deflection : R) : attempt (curves_state * Z) :=
  attempt_fold (hlr2_extract_group deflection) (hlr_groups extractor)
               (mkCurvesState [] [] bbox_sentinel 0 0 0 0, 0%Z).

(** One of the six statements
    [result.num_edges += extract_2d_curves(...)], when nothing throws. *)
Definition hlr2_extract (shape : TopoDS_Compound) (line_type : Z)
    (deflection : R) (acc : curves_state * Z) : curves_state * Z :=
  let '(st, num_edges) := acc in
  let st' := extract_2d_curves shape line_type deflection st in
  (st', (num_edges + cs_extracted st')%Z).

(** The six of them, when the six extraction calls return the compounds
    [c]. *)
Definition hlr2_extract_all (c : HLRCompounds) (deflection : R)
    : curves_state * Z :=
  let a := (mkCurvesState [] [] bbox_sentinel 0 0 0 0, 0%Z) in
  let a := hlr2_extract (VCompound c) 0 deflection a in
  let a := hlr2_extract (HCompound c) 1 deflection a in
  let a := hlr2_extract (Rg1LineVCompound c) 2 deflection a in
  let a := hlr2_extract (Rg1LineHCompound c) 3 deflection a in
  let a := hlr2_extract (OutLineVCompound c) 4 deflection a in
  hlr2_extract (OutLineHCompound c) 5 deflection a.

Definition scale_curve (scale : R) (c : Curve2DFFI) : Curve2DFFI :=
  mkCurve2D (cv_curve_type c) (cv_line_type c)
            (cv_start_x c * scale) (cv_start_y c * scale)
            (cv_end_x c * scale) (cv_end_y c * scale)
            (cv_center_x c * scale) (cv_center_y c * scale)
            (cv_radius c * scale)
            (cv_major_radius c * scale) (cv_minor_radius c * scale)
            (cv_start_angle c) (cv_end_angle c) (cv_rotation c) (cv_ccw c).

Definition scale_polyline (scale : R) (p : Polyline2DFFI) : Polyline2DFFI :=
  mkPolyline2D (map (fun pt => mkTess (tp_x pt * scale) (tp_y pt * scale))
                    (pl_points p))
               (pl_line_type p).

(** From the end of the extraction to the end of the [try] block: the three
    counters are copied into [result], then the scale and the empty case. *)
Definition hlr2_finish_from (scale : R) (acc : curves_state * Z)
    : HLRProjectionResultV2 :=
  let '(st, num_edges) := acc in
  let '(curves, polylines, bbox) :=
    if negb (Reqb scale 1)
    then (map (scale_curve scale) (cs_curves st),
          map (scale_polyline scale) (cs_polylines st),
          bbox_scale (cs_bbox st) scale)
    else (cs_curves st, cs_polylines st, cs_bbox st) in
  mkHLRResultV2 curves polylines
    (if is_empty curves && is_empty polylines then bbox_zero else bbox)
    num_edges (cs_num_lines st) (cs_num_arcs st) (cs_num_polylines st).

(** The extraction and what follows it, when the six extraction calls return
    the compounds [c] and no discretizer throws. *)
Definition hlr2_finish (scale deflection : R) (c : HLRCompounds)
    : HLRProjectionResultV2 :=
  hlr2_finish_from scale (hlr2_extract_all c deflection).

Definition hlr2_result_init : HLRProjectionResultV2 :=
  mkHLRResultV2 [] [] bbox_sentinel 0 0 0 0.

(** The [try] block.  Up to the extraction [result] is the initial one.  The
    extraction writes into [result.curves], [result.polylines], the four
    extrema and [result.num_edges]; the counters [num_lines], [num_arcs] and
    [num_polylines] are locals until the extraction is over, so an exception
    leaves those of [result] at 0. *)
Definition hlr2_try (shape : OcctShape)
    (dir_x dir_y dir_z up_x up_y up_z scale deflection : R)
    : attempt HLRProjectionResultV2 :=
  if is_null shape then inr hlr2_result_init
  else
    let deflection := if Rleb deflection 0 then 0.01 else deflection in
    let len := sqrt (dir_x * dir_x + dir_y * dir_y + dir_z * dir_z) in
    if Rltb len 1e-10 then inr hlr2_result_init
    else
      let dir_x := dir_x / len in
      let dir_y := dir_y / len in
      let dir_z := dir_z / len in
      kcall (gp_Dir dir_x dir_y dir_z) hlr2_result_init (fun viewDir =>
      kcall (gp_Dir up_x up_y up_z) hlr2_result_init (fun upDir =>
      let xAxis := try_or (Crossed upDir viewDir) (mkPnt 1 0 0) in
      kcall (shape_hlr shape viewDir xAxis) hlr2_result_init (fun extractor =>
      match hlr2_extract_all_try extractor deflection with
      | inl (e, (st, num_edges)) =>
          inl (e, mkHLRResultV2 (cs_curves st) (cs_polylines st) (cs_bbox st)
                                num_edges 0 0 0)
      | inr acc => inr (hlr2_finish_from scale acc)
      end))).

(** The three handlers: only [Standard_Failure] zeroes the box. *)
Definition hlr2_catch (e : thrown) (result : HLRProjectionResultV2)
    : HLRProjectionResultV2 :=
  match e with
  | Standard_Failure =>
      mkHLRResultV2 (h2_curves result) (h2_polylines result) bbox_zero
                    (h2_num_edges result) (h2_num_lines result)
                    (h2_num_arcs result) (h2_num_polylines result)
  | _ => result
  end.

Definition compute_hlr_projection_v2 (shape : OcctShape)
    (dir_x dir_y dir_z up_x up_y up_z scale deflection : R)
    : HLRProjectionResultV2 :=
  match hlr2_try shape dir_x dir_y dir_z up_x up_y up_z scale deflection with
  | inl (e, result) => hlr2_catch e result
  | inr result => result
  end.

(** ** Triangle meshes (bridge.cpp, the mesh loops of [tessellate],
    [tessellate_with_angle] and [get_exploded_part_info]) *)

(** [Vertex], used for positions and for normals. *)
Record Vertex : Type := mkVertex {
  v_x : R;
  v_y : R;
  v_z : R
}.

(** The three corners are [uint32_t] indices into the vertices. *)
Record Triangle : Type := mkTriangle {
  t_v1 : Z;
  t_v2 : Z;
  t_v3 : Z
}.

(** Arithmetic in [size_t] and the cast [static_cast<uint32_t>]. *)
Definition wrap_size_t (z : Z) : Z := z mod 2 ^ 64.
Definition cast_uint32 (z : Z) : Z := z mod 2 ^ 32.

(** The [Poly_Triangulation] of a face: the nodes with the location of the
    face applied ([Node(i).Transformed(transform)], [i] from 1), the normal
    at node [i] when [HasNormals()], and the three node numbers of every
    triangle.  [Normal(i)] builds a direction from the stored normal, and
    throws when that is null. *)
Record Poly_Triangulation : Type := mkTriangulation {
  tri_nodes : list gp_Pnt;
  tri_normal : option (nat -> kernel gp_Pnt);
  tri_triangles : list (Z * Z * Z)
}.

Inductive GeomAbs_SurfaceType : Type :=
  | GeomAbs_Plane
  | GeomAbs_Cylinder
  | GeomAbs_Cone
  | GeomAbs_Sphere
  | GeomAbs_Torus
  | GeomAbs_BezierSurface
  | GeomAbs_BSplineSurface
  | GeomAbs_OtherSurface.

(** What [tessellate] asks about the surface of a face: the
    [BRepAdaptor_Surface] (type, parameter range, the two derivatives of
    [D1]), the [GProp_GProps] of [BRepGProp::SurfaceProperties] and the
    number of edges the explorer finds. *)
Record FaceQueries : Type := mkFaceQueries {
  surf_type : GeomAbs_SurfaceType;
  surf_FirstUParameter : R;
  surf_LastUParameter : R;
  surf_FirstVParameter : R;
  surf_LastVParameter : R;
  surf_D1 : R -> R -> gp_Pnt * gp_Pnt;
  props_Mass : R;
  props_CentreOfMass : gp_Pnt;
  face_edge_count : Z
}.

(** A face as the explorer gives it.  [face_triangulation] is [None] for a
    null handle; [face_queries] throws when one of the surface queries
    does. *)
Record TopoDS_Face : Type := mkFace {
  face_triangulation : option Poly_Triangulation;
  face_reversed : bool;
  face_queries : kernel FaceQueries
}.

(** [BRepMesh_IncrementalMesh] after [Perform()]: whether it [IsDone()],
    and the faces of the shape as the explorer then gives them. *)
Record BRepMesh : Type := mkBRepMesh {
  mesh_IsDone : bool;
  mesh_faces : list TopoDS_Face
}.

(** A [TopoDS_Shape] through the queries made about it: its
    [ShapeType()] as an integer (2 is [TopAbs_SOLID]), the centre of mass by
    [VolumeProperties] and by [SurfaceProperties], the mesher with a
    deflection and with a deflection and an angle, and the box of
    [BRepBndLib::Add], [None] when [Get] throws because the box is void. *)
Record TopoDS_Shape : Type := mkTopoShape {
  ts_ShapeType : Z;
  ts_volume_centre : kernel gp_Pnt;
  ts_surface_centre : kernel gp_Pnt;
  ts_mesh : R -> kernel BRepMesh;
  ts_mesh_angle : R -> R -> kernel BRepMesh;
  ts_bnd_box : option Bnd_Box
}.

Definition node_vertex (point : gp_Pnt) : Vertex :=
  mkVertex (pX point) (pY point) (pZ point).

(** The normal pushed for node [i], when [Normal(i)] does not throw. *)
Definition node_normal (triangulation : Poly_Triangulation) (i : nat)
    : kernel Vertex :=
  match tri_normal triangulation with
  | Some Normal =>
      normalVec <- Normal i ;;
      let len := modulus (pX normalVec) (pY normalVec) (pZ normalVec) in
      kret (if Rltb 1e-10 len
            then mkVertex (pX normalVec / len) (pY normalVec / len)
                          (pZ normalVec / len)
            else mkVertex 0 0 1)
  | None => kret (mkVertex 0 0 1)
  end.

(** The loop over the nodes from number [i] on: one vertex and one normal
    for each.  An exception of [Normal(i)] comes after the vertex of node [i]
    is pushed and before its normal is. *)
Fixpoint mesh_nodes (triangulation : Poly_Triangulation) (i : nat)
    (nodes : list gp_Pnt) (vertices normals : list Vertex)
    : attempt (list Vertex * list Vertex) :=
  match nodes with
  | [] => inr (vertices, normals)
  | point :: rest =>
      let vertices := vertices ++ [node_vertex point] in
      match node_normal triangulation i with
      | inl e => inl (e, (vertices, normals))
      | inr n =>
          mesh_nodes triangulation (S i) rest vertices (normals ++ [n])
      end
  end.

(** A loop whose body can throw, in a function that has no handler: the
    exception leaves the function. *)
Fixpoint kfold {S G : Type} (step : S -> G -> kernel S) (l : list G) (st : S)
    : kernel S :=
  match l with
  | [] => kret st
  | g :: rest => st' <- step st g ;; kfold step rest st'
  end.

(** [static_cast<uint32_t>(vertexOffset + n - 1)]. *)
Definition mesh_index (vertexOffset n : Z) : Z :=
  cast_uint32 (wrap_size_t (vertexOffset + n - 1)).

Definition mesh_triangle (reversed : bool) (vertexOffset : Z)
    (tri : Z * Z * Z) : Triangle :=
  let '(n1, n2, n3) := tri in
  if reversed
  then mkTriangle (mesh_index vertexOffset n1) (mesh_index vertexOffset n3)
                  (mesh_index vertexOffset n2)
  else mkTriangle (mesh_index vertexOffset n1) (mesh_index vertexOffset n2)
                  (mesh_index vertexOffset n3).

(** ** Exploded views (bridge.cpp, [get_exploded_part_info],
    [explode_shape], [get_shape_components], [count_shape_components]) *)

Record ExplodedPart : Type := mkExplodedPart {
  ep_index : Z;
  ep_shape_type : Z;
  ep_center_x : R;
  ep_center_y : R;
  ep_center_z : R;
  ep_offset_x : R;
  ep_offset_y : R;
  ep_offset_z : R;
  ep_vertices : list Vertex;
  ep_normals : list Vertex;
  ep_triangles : list Triangle
}.

(** The buffers of a part while its faces are walked, with
    [vertexOffset]. *)
Record part_mesh : Type := mkPartMesh {
  pm_vertices : list Vertex;
  pm_normals : list Vertex;
  pm_triangles : list Triangle;
  pm_vertexOffset : Z
}.

(** Body of the loop over the faces of a part.  The function has no
    handler: an exception of [Normal(i)] leaves it, and the part is lost. *)
Definition part_face_step (st : part_mesh) (face : TopoDS_Face)
    : kernel part_mesh :=
  match face_triangulation face with
  | None => kret st
  | Some triangulation =>
      match mesh_nodes triangulation 1 (tri_nodes triangulation)
                       (pm_vertices st) (pm_normals st) with
      | inl (e, _) => kraise e
      | inr (vertices, normals) =>
          let reversed := face_reversed face in
          kret (mkPartMesh vertices normals
                  (pm_triangles st
                   ++ map (mesh_triangle reversed (pm_vertexOffset st))
                          (tri_triangles triangulation))
                  (wrap_size_t (pm_vertexOffset st
                                + Z.of_nat (length (tri_nodes triangulation)))))
      end
  end.

(** The offset of a part: along the line from the parent's centre to its
    own, or, when the two coincide, in a direction of the XY plane chosen by
    the index. *)
Definition part_offset (subCenter parentCenter : gp_Pnt) (index : Z)
    (distance : R) : gp_Pnt :=
  let dx := pX subCenter - pX parentCenter in
  let dy := pY subCenter - pY parentCenter in
  let dz := pZ subCenter - pZ parentCenter in
  let magnitude := modulus dx dy dz in
  if Rltb 1e-10 magnitude then
    mkPnt (dx / magnitude * distance) (dy / magnitude * distance)
          (dz / magnitude * distance)
  else
    let angle := 2 * PI * IZR index / 8 in
    mkPnt (cos angle * distance) (sin angle * distance) 0.

Definition get_exploded_part_info (subShape : TopoDS_Shape) (index : Z)
    (parentCenter : gp_Pnt) (distance deflection : R) : kernel ExplodedPart :=
  subCenter <- (if (ts_ShapeType subShape <=? 2)%Z
                then ts_volume_centre subShape
                else ts_surface_centre subShape) ;;
  let offset := part_offset subCenter parentCenter index distance in
  mesh <- ts_mesh subShape deflection ;;
  st <- kfold part_face_step (mesh_faces mesh) (mkPartMesh [] [] [] 0) ;;
  kret (mkExplodedPart index (ts_ShapeType subShape)
          (pX subCenter) (pY subCenter) (pZ subCenter)
          (pX offset) (pY offset) (pZ offset)
          (pm_vertices st) (pm_normals st) (pm_triangles st)).

Inductive TopAbs_ShapeEnum : Type :=
  | TopAbs_SOLID
  | TopAbs_SHELL
  | TopAbs_FACE.

(** The handle that the exploding functions receive: whether it is null, the
    shape, and the sub-shapes that a [TopExp_Explorer] of the shape finds for
    a type, in its order. *)
Record OcctAssembly : Type := mkAssembly {
  as_is_null : bool;
  as_shape : TopoDS_Shape;
  as_explore : TopAbs_ShapeEnum -> list TopoDS_Shape
}.

Record ExplodeResult : Type := mkExplodeResult {
  er_parts : list ExplodedPart;
  er_parent_center_x : R;
  er_parent_center_y : R;
  er_parent_center_z : R;
  er_success : bool
}.

(** The [switch] on the level. *)
Definition explore_type (level : Z) : TopAbs_ShapeEnum :=
  if (level =? 0)%Z then TopAbs_SOLID
  else if (level =? 1)%Z then TopAbs_SHELL
  else TopAbs_FACE.

(** The loop over the sub-shapes with its [uint32_t] index.  The parts
    pushed so far, and the exception that ended the loop, if any. *)
Fixpoint explode_parts (subShapes : list TopoDS_Shape) (index : Z)
    (parentCenter : gp_Pnt) (distance deflection : R)
    (parts : list ExplodedPart) : list ExplodedPart * option thrown :=
  match subShapes with
  | [] => (parts, None)
  | subShape :: rest =>
      match get_exploded_part_info subShape index parentCenter distance
                                   deflection with
      | inl e => (parts, Some e)
      | inr part =>
          explode_parts rest (cast_uint32 (index + 1)) parentCenter distance
                        deflection (parts ++ [part])
      end
  end.

Definition explode_result_init : ExplodeResult :=
  mkExplodeResult [] 0 0 0 false.

(** One activation of [explode_shape]; [next] is what the call for
    [level + 1] returns.  Both handlers leave [result] as it is at the
    throw. *)
Definition explode_level (shape : OcctAssembly) (level : Z)
    (distance deflection : R) (next : ExplodeResult) : ExplodeResult :=
  if as_is_null shape then explode_result_init
  else
    match ts_volume_centre (as_shape shape) with
    | inl e => explode_result_init
    | inr parentCenter =>
        let with_parts parts success :=
          mkExplodeResult parts (pX parentCenter) (pY parentCenter)
                          (pZ parentCenter) success in
        let subShapes := as_explore shape (explore_type level) in
        let count := length subShapes in
        if (count =? 0)%nat && (level <? 2)%Z then next
        else if (count =? 0)%nat then
          match get_exploded_part_info (as_shape shape) 0 parentCenter 0
                                       deflection with
          | inl e => with_parts [] false
          | inr wholePart => with_parts [wholePart] true
          end
        else
          match explode_parts subShapes 0 parentCenter distance deflection []
          with
          | (parts, Some e) => with_parts parts false
          | (parts, None) => with_parts parts true
          end
    end.

(** [explode_shape] calls itself with [level + 1] while [level < 2]: [n]
    bounds the calls that can follow, and with none left [level >= 2], so
    that [next] is not looked at. *)
Fixpoint explode_shape_from (n : nat) (shape : OcctAssembly) (level : Z)
    (distance deflection : R) : ExplodeResult :=
  explode_level shape level distance deflection
    match n with
    | O => explode_result_init
    | S n' => explode_shape_from n' shape (level + 1) distance deflection
    end.

Definition explode_shape (shape : OcctAssembly) (level : Z)
    (distance deflection : R) : ExplodeResult :=
  explode_shape_from (Z.to_nat (2 - level)) shape level distance deflection.

Definition get_shape_components (shape : OcctAssembly) (level : Z)
    (deflection : R) : list ExplodedPart :=
  if as_is_null shape then []
  else
    match ts_volume_centre (as_shape shape) with
    | inl e => []
    | inr parentCenter =>
        fst (explode_parts (as_explore shape (explore_type level)) 0
                           parentCenter 0 deflection [])
    end.

(** The counter is an [int32_t]; a shape has fewer sub-shapes than
    [2^31]. *)
Definition count_shape_components (shape : OcctAssembly) (level : Z) : Z :=
  if as_is_null shape then 0%Z
  else Z.of_nat (length (as_explore shape (explore_type level))).

(** ** Tessellation (bridge.cpp, [tessellate] and [tessellate_with_angle]) *)

Record FaceInfo : Type := mkFaceInfo {
  fi_index : Z;
  fi_is_reversed : bool;
  fi_surface_type : Z;
  fi_normal_x : R;
  fi_normal_y : R;
  fi_normal_z : R;
  fi_area : R;
  fi_num_edges : Z;
  fi_label : String.string
}.

Record MeshResult : Type := mkMeshResult {
  mr_vertices : list Vertex;
  mr_normals : list Vertex;
  mr_triangles : list Triangle;
  mr_face_ids : list Z;
  mr_faces : list FaceInfo
}.

(** The [switch] on the surface type. *)
Definition surface_type_code (surfType : GeomAbs_SurfaceType) : Z :=
  match surfType with
  | GeomAbs_Plane => 0
  | GeomAbs_Cylinder => 1
  | GeomAbs_Cone => 2
  | GeomAbs_Sphere => 3
  | GeomAbs_Torus => 4
  | GeomAbs_BezierSurface => 5
  | GeomAbs_BSplineSurface => 6
  | GeomAbs_OtherSurface => 7
  end.

(** The normal of the face at the middle of its parameter range:
    [du.Crossed(dv)], normalised and turned with the face when it is long
    enough. *)
Definition face_normal (q : FaceQueries) (is_reversed : bool) : gp_Pnt :=
  let uMid := (surf_FirstUParameter q + surf_LastUParameter q) / 2 in
  let vMid := (surf_FirstVParameter q + surf_LastVParameter q) / 2 in
  let '(du, dv) := surf_D1 q uMid vMid in
  let faceNormal := cross du dv in
  let magnitude := modulus (pX faceNormal) (pY faceNormal) (pZ faceNormal) in
  if Rltb 1e-10 magnitude then
    let normalized := mkPnt (pX faceNormal / magnitude) (pY faceNormal / magnitude)
                            (pZ faceNormal / magnitude) in
    if is_reversed
    then mkPnt (- pX normalized) (- pY normalized) (- pZ normalized)
    else normalized
  else faceNormal.

(** The semantic label of a face. *)
Definition face_label (surfType : GeomAbs_SurfaceType)
    (normal_x normal_y normal_z faceCenter_z zmin zmax capTolerance : R)
    : String.string :=
  match surfType with
  | GeomAbs_Plane =>
      let nx := Rabs normal_x in
      let ny := Rabs normal_y in
      let nz := Rabs normal_z in
      let tolerance := 0.9 in
      if Rltb tolerance nz then
        if Rltb (Rabs (faceCenter_z - zmin)) capTolerance then "inlet_cap"%string
        else if Rltb (Rabs (faceCenter_z - zmax)) capTolerance
             then "outlet_cap"%string
        else if Rltb 0 normal_z then "top"%string else "bottom"%string
      else if Rltb tolerance ny then
        if Rltb 0 normal_y then "back"%string else "front"%string
      else if Rltb tolerance nx then
        if Rltb 0 normal_x then "right"%string else "left"%string
      else "side"%string
  | GeomAbs_Cylinder | GeomAbs_Cone => "curved_side"%string
  | GeomAbs_Sphere => "spherical"%string
  | GeomAbs_Torus => "toroidal"%string
  | _ => "freeform"%string
  end.

(** Body of the loop over the faces: the result so far and
    [vertexOffset].  A face without triangulation is passed over; the
    surface queries come before the first [push_back] of the face, the
    [FaceInfo] is pushed before the nodes are walked, and an exception of
    [Normal(i)] leaves the vertices and the normals pushed before it. *)
Definition tessellate_face (zmin zmax capTolerance : R) (faceIndex : Z)
    (st : MeshResult * Z) (face : TopoDS_Face) : attempt (MeshResult * Z) :=
  match face_triangulation face with
  | None => inr st
  | Some triangulation =>
      kcall (face_queries face) st (fun q =>
      let '(result, vertexOffset) := st in
      let is_reversed := face_reversed face in
      let normal := face_normal q is_reversed in
      let faceCenter := props_CentreOfMass q in
      let label := face_label (surf_type q) (pX normal) (pY normal) (pZ normal)
                              (pZ faceCenter) zmin zmax capTolerance in
      let faceInfo := mkFaceInfo faceIndex is_reversed
                        (surface_type_code (surf_type q))
                        (pX normal) (pY normal) (pZ normal)
                        (props_Mass q) (face_edge_count q) label in
      let faces := mr_faces result ++ [faceInfo] in
      match mesh_nodes triangulation 1 (tri_nodes triangulation)
                       (mr_vertices result) (mr_normals result) with
      | inl (e, (vertices, normals)) =>
          inl (e, (mkMeshResult vertices normals (mr_triangles result)
                                (mr_face_ids result) faces,
                   vertexOffset))
      | inr (vertices, normals) =>
          inr (mkMeshResult vertices normals
                 (mr_triangles result
                  ++ map (mesh_triangle is_reversed vertexOffset)
                         (tri_triangles triangulation))
                 (mr_face_ids result
                  ++ map (fun _ => faceIndex) (tri_triangles triangulation))
                 faces,
               wrap_size_t (vertexOffset
                            + Z.of_nat (length (tri_nodes triangulation))))
      end)
  end.

(** The loop over the faces with its [uint32_t] counter; an exception ends
    it and leaves the result as it is at the throw. *)
Fixpoint tessellate_faces (zmin zmax capTolerance : R)
    (faces : list TopoDS_Face) (faceIndex : Z) (st : MeshResult * Z)
    : MeshResult * Z :=
  match faces with
  | [] => st
  | face :: rest =>
      match tessellate_face zmin zmax capTolerance faceIndex st face with
      | inl (e, st') => st'
      | inr st' =>
          tessellate_faces zmin zmax capTolerance rest
                           (cast_uint32 (faceIndex + 1)) st'
      end
  end.

Definition mesh_result_init : MeshResult := mkMeshResult [] [] [] [] [].

(** What follows the construction of the mesher in both functions. *)
Definition tessellate_meshed (shape : TopoDS_Shape) (mesh : kernel BRepMesh)
    : MeshResult :=
  match mesh with
  | inl e => mesh_result_init
  | inr mesh =>
      if negb (mesh_IsDone mesh) then mesh_result_init
      else
        match ts_bnd_box shape with
        | None => mesh_result_init
        | Some shapeBox =>
            let zmin := bnd_zmin shapeBox in
            let zmax := bnd_zmax shapeBox in
            let shapeZLength := zmax - zmin in
            let capTolerance := Rmax 0.01 (shapeZLength * 0.001) in
            fst (tessellate_faces zmin zmax capTolerance (mesh_faces mesh) 0
                                  (mesh_result_init, 0%Z))
        end
  end.

Definition tessellate (shape : TopoDS_Shape) (deflection : R) : MeshResult :=
  tessellate_meshed shape (ts_mesh shape deflection).

Definition tessellate_with_angle (shape : TopoDS_Shape) (deflection angle : R)
    : MeshResult :=
  tessellate_meshed shape (ts_mesh_angle shape deflection angle).

(** * Vocabulary of the properties *)

(** ** Polygons *)

(** The term of the shoelace sum for the edge from [p] to [q]. *)
Definition cross2 (p q : point2) : R := fst p * snd q - fst q * snd p.

(** The shoelace sum along an open path. *)
Fixpoint path_sum (l : list point2) : R :=
  match l with
  | a :: (b :: _) as t => cross2 a b + path_sum t
  | _ => 0
  end.

(** The vertex list followed by its first vertex again. *)
Definition closed_path (pts : list point2) : list point2 :=
  pts ++ [hd (0, 0) pts].

Definition unit_square : list point2 := [(0, 0); (1, 0); (1, 1); (0, 1)].

(** The polygon moved by [(dx, dy)], and the polygon enlarged [k] times from
    the origin. *)
Definition translate_points (dx dy : R) (pts : list point2) : list point2 :=
  map (fun p => (fst p + dx, snd p + dy)) pts.

Definition scale_points (k : R) (pts : list point2) : list point2 :=
  map (fun p => (k * fst p, k * snd p)) pts.

(** Edge [j] of a closed polygon: from vertex [j] to vertex [(j + 1) mod n]. *)
Definition polygon_edge (b : list point2) (j : nat) : point2 * point2 :=
  (nth_point b j, nth_point b ((j + 1) mod length b)).

Definition on_segment (p : point2) (e : point2 * point2) : Prop :=
  exists t : R,
    0 <= t <= 1 /\
    fst p = fst (fst e) + t * (fst (snd e) - fst (fst e)) /\
    snd p = snd (fst e) + t * (snd (snd e) - snd (fst e)).

Definition on_boundary (b : list point2) (p : point2) : Prop :=
  exists j : nat, (j < length b)%nat /\ on_segment p (polygon_edge b j).

(** A simple polygon: two distinct edges meet only when they are
    consecutive, and then only in the vertex they share. *)
Definition simple_polygon (b : list point2) : Prop :=
  forall i j : nat,
    (i < length b)%nat -> (j < length b)%nat -> i <> j ->
    forall p : point2,
      on_segment p (polygon_edge b i) -> on_segment p (polygon_edge b j) ->
      (j = ((i + 1) mod length b)%nat /\ p = nth_point b j) \/
      (i = ((j + 1) mod length b)%nat /\ p = nth_point b i).

(** The even-odd point-in-polygon test: the edges crossed by the ray from
    [p] in the direction of growing x. *)
Definition ray_crosses (p : point2) (e : point2 * point2) : bool :=
  negb (Bool.eqb (Rltb (snd p) (snd (fst e))) (Rltb (snd p) (snd (snd e)))) &&
  Rltb (fst p)
       ((fst (snd e) - fst (fst e)) * (snd p - snd (fst e))
          / (snd (snd e) - snd (fst e)) + fst (fst e)).

Definition point_in_polygon (b : list point2) (p : point2) : bool :=
  Nat.odd (length (filter (fun j => ray_crosses p (polygon_edge b j))
                          (seq 0 (length b)))).

(** The vertical ray from [p] upward never meets the boundary. *)
Definition escapes_upward (b : list point2) (p : point2) : Prop :=
  forall t : R, 0 <= t -> ~ on_boundary b (fst p, snd p + t).

Definition midpoint (l : HatchLineFFI) : point2 :=
  ((hl_start_x l + hl_end_x l) / 2, (hl_start_y l + hl_end_y l) / 2).

Definition hatch_length (l : HatchLineFFI) : R :=
  sqrt ((hl_end_x l - hl_start_x l) ^ 2 + (hl_end_y l - hl_start_y l) ^ 2).

(** A pentagon whose vertex [(2, 0)] lies on the line [y = 0] between two
    other crossings of that line. *)
Definition notch_polygon : list point2 :=
  [(2, 0); (-5, 3); (5, -3); (7, 3); (3, -1)].

(** ** Sections *)

Definition project_wire (origin xAxis yAxis : gp_Pnt) (wire : TopoDS_Wire)
    : list point2 :=
  map (fun pt => project_point_to_plane pt origin xAxis yAxis) wire.

Definition tess_points (l : list TessPoint2D) : list point2 :=
  map (fun t => (tp_x t, tp_y t)) l.

Definition tess_of (b : list point2) : list TessPoint2D :=
  map (fun p => mkTess (fst p) (snd p)) b.

Definition at_least (n : nat) (l : list point2) : bool := (n <=? length l)%nat.

Definition bbox_add_points (bbox : BBox2D) (b : list point2) : BBox2D :=
  fold_left (fun bb p => bbox_add_point bb (fst p) (snd p)) b bbox.

(** The point lies within the box. *)
Definition covers (bbox : BBox2D) (p : point2) : Prop :=
  bb_min_x bbox <= fst p <= bb_max_x bbox /\
  bb_min_y bbox <= snd p <= bb_max_y bbox.

(** The hatch segments attached to a list of regions, counted. *)
Definition hatch_total (regions : list HatchRegionFFI) : Z :=
  fold_right (fun r acc => (Z.of_nat (length (hr_hatch_lines r)) + acc)%Z)
             0%Z regions.

(** The shoelace signed area of a polygon: half the sum of the terms
    [x_i * y_(i+1) - x_(i+1) * y_i] around the closed boundary. *)
Definition shoelace_area (pts : list point2) : R :=
  path_sum (closed_path pts) / 2.

(** The area of a region is the absolute value of the shoelace signed area of
    its boundary, and the region is outer exactly when that signed area is
    positive. *)
Definition region_measured (r : HatchRegionFFI) : Prop :=
  hr_area r = Rabs (shoelace_area (tess_points (hr_boundary r))) /\
  (hr_is_outer r = true <-> 0 < shoelace_area (tess_points (hr_boundary r))).

(** A curve of a section result as its points and its [is_closed] flag. *)
Definition curve_view (c : SectionCurveFFI) : list point2 * bool :=
  (tess_points (sc_points c), sc_is_closed c).

(** The unit square in the plane [z = 0], as a wire. *)
Definition square_wire : TopoDS_Wire :=
  [mkPnt 0 0 0; mkPnt 1 0 0; mkPnt 1 1 0; mkPnt 0 1 0].

(** The wire whose vertices have the points [w]. *)
Definition wire_of (w : TopoDS_Wire) : SectionWire := map inr w.

(** An extraction call that returns the compound [comp], all of whose edges
    can be discretized. *)
Definition call_of (comp : TopoDS_Compound) : kernel HLRShape :=
  inr (mkHLRShape comp (fun _ _ => None)).

(** The extractor whose six calls return the compounds [c]. *)
Definition extractor_of (c : HLRCompounds) : HLRBRep_HLRToShape :=
  mkHLRToShape (call_of (VCompound c)) (call_of (HCompound c))
               (call_of (Rg1LineVCompound c)) (call_of (Rg1LineHCompound c))
               (call_of (OutLineVCompound c)) (call_of (OutLineHCompound c)).

(** A shape whose section by any plane consists of the wires [cw] and
    [ow], and whose hidden-line stage gives the compounds [c]; no kernel call
    on it throws. *)
Definition sample_shape (cw ow : list TopoDS_Wire) (c : HLRCompounds)
    (box : option Bnd_Box) : OcctShape :=
  mkShape false 6 12 8 box (fun _ _ => inr (extractor_of c))
          (fun _ _ => SectionDone (inr (mkFreeBounds (map wire_of cw)
                                                     (map wire_of ow)))).

Definition no_compounds : HLRCompounds :=
  mkHLRCompounds None None None None None None.

(** The call gets as far as the two loops: the shape is not null, the plane
    normal and the up vector are directions, the section is done, the plane
    basis is [(xAxis, yAxis)] and the free bounds are [freeBounds]. *)
Definition section_stage (shape : OcctShape)
    (origin_x origin_y origin_z normal_x normal_y normal_z up_x up_y up_z : R)
    (xAxis yAxis : gp_Pnt) (freeBounds : ShapeAnalysis_FreeBounds) : Prop :=
  is_null shape = false /\
  exists normal upDir : gp_Pnt,
    gp_Dir normal_x normal_y normal_z = inr normal /\
    shape_section shape (mkPnt origin_x origin_y origin_z) normal
      = SectionDone (inr freeBounds) /\
    gp_Dir up_x up_y up_z = inr upDir /\
    xAxis = try_or (Crossed upDir normal) (mkPnt 1 0 0) /\
    Crossed normal xAxis = inr yAxis.

(** The call runs through the two loops without an exception: it gets as far
    as the loops, the free bounds are the closed wires [cw] and the open
    wires [ow], and every vertex of these wires has a point. *)
Definition section_reaches (shape : OcctShape)
    (origin_x origin_y origin_z normal_x normal_y normal_z up_x up_y up_z : R)
    (xAxis yAxis : gp_Pnt) (cw ow : list TopoDS_Wire) : Prop :=
  section_stage shape origin_x origin_y origin_z normal_x normal_y normal_z
                up_x up_y up_z xAxis yAxis
                (mkFreeBounds (map wire_of cw) (map wire_of ow)).

(** On a shape that is not null, an exception [e] before the two loops: it
    is thrown by the construction of the normal, by the section, by the
    construction of the up direction or of the Y axis, or by the free
    bounds. *)
Definition section_stage_throws (shape : OcctShape)
    (origin_x origin_y origin_z normal_x normal_y normal_z up_x up_y up_z : R)
    (e : thrown) : Prop :=
  is_null shape = false /\
  (gp_Dir normal_x normal_y normal_z = inl e \/
   exists normal : gp_Pnt,
     gp_Dir normal_x normal_y normal_z = inr normal /\
     (shape_section shape (mkPnt origin_x origin_y origin_z) normal
        = SectionThrows e \/
      exists freeBounds : kernel ShapeAnalysis_FreeBounds,
        shape_section shape (mkPnt origin_x origin_y origin_z) normal
          = SectionDone freeBounds /\
        (gp_Dir up_x up_y up_z = inl e \/
         exists upDir : gp_Pnt,
           gp_Dir up_x up_y up_z = inr upDir /\
           (Crossed normal (try_or (Crossed upDir normal) (mkPnt 1 0 0)) = inl e \/
            (exists yAxis : gp_Pnt,
               Crossed normal (try_or (Crossed upDir normal) (mkPnt 1 0 0))
               = inr yAxis) /\
            freeBounds = inl e)))).

(** The result [rs] of a section cut short by the exception [e], against the
    result [r] of the wires walked before the throw: the same curves, regions
    and hatch count, [num_regions] still 0, and a zeroed box when [e] is a
    [Standard_Failure]. *)
Definition section_cut_short (rs r : SectionWithHatchResult) (e : thrown)
    : Prop :=
  sr_curves rs = sr_curves r /\
  sr_regions rs = sr_regions r /\
  sr_num_hatch_lines rs = sr_num_hatch_lines r /\
  sr_num_regions rs = 0%Z /\
  (e = Standard_Failure -> sr_bbox rs = bbox_zero).

(** ** HLR *)

(** An extraction call returns, and returns the compound [comp]. *)
Definition call_returns (call : kernel HLRShape) (comp : TopoDS_Compound)
    : Prop :=
  exists s : HLRShape, call = inr s /\ hs_compound s = comp.

(** The six extraction calls return the compounds [c]. *)
Definition extractor_gives (extractor : HLRBRep_HLRToShape) (c : HLRCompounds)
    : Prop :=
  call_returns (call_VCompound extractor) (VCompound c) /\
  call_returns (call_HCompound extractor) (HCompound c) /\
  call_returns (call_Rg1LineVCompound extractor) (Rg1LineVCompound c) /\
  call_returns (call_Rg1LineHCompound extractor) (Rg1LineHCompound c) /\
  call_returns (call_OutLineVCompound extractor) (OutLineVCompound c) /\
  call_returns (call_OutLineHCompound extractor) (OutLineHCompound c).

(** No discretizer throws on an edge of the shape that a call returns. *)
Definition call_discretizes (call : kernel HLRShape) : Prop :=
  forall s : HLRShape, call = inr s ->
    forall (j : nat) (d : R), hs_discretizer_throws s j d = None.

Definition extractor_discretizes (extractor : HLRBRep_HLRToShape) : Prop :=
  Forall (fun g => call_discretizes (fst g)) (hlr_groups extractor).

(** The hidden-line stage is passed: the shape is not null, the view
    direction is not shorter than 1e-10, the up vector is a direction and the
    kernel's hidden-line stage gave the extractor. *)
Definition hlr_stage (shape : OcctShape)
    (dir_x dir_y dir_z up_x up_y up_z : R) (extractor : HLRBRep_HLRToShape)
    : Prop :=
  let len := sqrt (dir_x * dir_x + dir_y * dir_y + dir_z * dir_z) in
  is_null shape = false /\
  1e-10 <= len /\
  exists viewDir upDir : gp_Pnt,
    gp_Dir (dir_x / len) (dir_y / len) (dir_z / len) = inr viewDir /\
    gp_Dir up_x up_y up_z = inr upDir /\
    shape_hlr shape viewDir (try_or (Crossed upDir viewDir) (mkPnt 1 0 0))
      = inr extractor.

(** On a shape that is not null and with a view direction not shorter than
    1e-10, an exception [e] before the extraction: it is thrown by the
    construction of the view direction or of the up direction, or by the
    kernel's hidden-line stage. *)
Definition hlr_stage_throws (shape : OcctShape)
    (dir_x dir_y dir_z up_x up_y up_z : R) (e : thrown) : Prop :=
  let len := sqrt (dir_x * dir_x + dir_y * dir_y + dir_z * dir_z) in
  is_null shape = false /\
  1e-10 <= len /\
  (gp_Dir (dir_x / len) (dir_y / len) (dir_z / len) = inl e \/
   exists viewDir : gp_Pnt,
     gp_Dir (dir_x / len) (dir_y / len) (dir_z / len) = inr viewDir /\
     (gp_Dir up_x up_y up_z = inl e \/
      exists upDir : gp_Pnt,
        gp_Dir up_x up_y up_z = inr upDir /\
        shape_hlr shape viewDir (try_or (Crossed upDir viewDir) (mkPnt 1 0 0))
        = inl e)).

(** The six compounds in the order of the extraction calls. *)
Definition compounds_list (c : HLRCompounds) : list TopoDS_Compound :=
  [ VCompound c; HCompound c; Rg1LineVCompound c; Rg1LineHCompound c;
    OutLineVCompound c; OutLineHCompound c ].

(** The compounds [c] up to position [k], the others taken as null shapes. *)
Definition first_compounds (k : nat) (c : HLRCompounds) : HLRCompounds :=
  let keep (i : nat) (comp : TopoDS_Compound) : TopoDS_Compound :=
    if (i <? k)%nat then comp else None in
  mkHLRCompounds (keep 0%nat (VCompound c)) (keep 1%nat (HCompound c))
                 (keep 2%nat (Rg1LineVCompound c))
                 (keep 3%nat (Rg1LineHCompound c))
                 (keep 4%nat (OutLineVCompound c))
                 (keep 5%nat (OutLineHCompound c)).

(** The extraction calls before position [k] return the compounds of [c],
    and the call at position [k] throws [e]. *)
Definition extractor_throws_at (extractor : HLRBRep_HLRToShape)
    (c : HLRCompounds) (k : nat) (e : thrown) : Prop :=
  Forall2 call_returns (firstn k (map fst (hlr_groups extractor)))
                       (firstn k (compounds_list c)) /\
  nth_error (map fst (hlr_groups extractor)) k = Some (inl e).

(** The call runs through the extraction without an exception: the
    hidden-line stage is passed, the six extraction calls return the
    compounds [c], and no discretizer throws on their edges. *)
Definition hlr2_reaches (shape : OcctShape)
    (dir_x dir_y dir_z up_x up_y up_z : R) (c : HLRCompounds) : Prop :=
  exists extractor : HLRBRep_HLRToShape,
    hlr_stage shape dir_x dir_y dir_z up_x up_y up_z extractor /\
    extractor_gives extractor c /\
    extractor_discretizes extractor.

(** The same for [compute_hlr_projection], which also wants a face or an
    edge, and constructs no discretizer. *)
Definition hlr_reaches (shape : OcctShape)
    (dir_x dir_y dir_z up_x up_y up_z : R) (c : HLRCompounds) : Prop :=
  (topo_faces shape <> 0%nat \/ topo_edges shape <> 0%nat) /\
  exists extractor : HLRBRep_HLRToShape,
    hlr_stage shape dir_x dir_y dir_z up_x up_y up_z extractor /\
    extractor_gives extractor c.

(** The same handle and the same hidden-line and section answers, with
    other topology counts and another bounding box. *)
Definition with_topology (shape : OcctShape) (faces edges vertices : nat)
    (box : option Bnd_Box) : OcctShape :=
  mkShape (is_null shape) faces edges vertices box
          (shape_hlr shape) (shape_section shape).

(** A null handle; the kernel is never asked about it. *)
Definition null_shape : OcctShape :=
  mkShape true 0 0 0 None (fun _ _ => inl Standard_Failure)
          (fun _ _ => SectionNotDone).

(** The rectangle of the fallback as four segments. *)
Definition rectangle_edges (p : BBox2D) : list Line2DFFI :=
  [ mkLine2D (bb_min_x p) (bb_min_y p) (bb_max_x p) (bb_min_y p) 4;
    mkLine2D (bb_max_x p) (bb_min_y p) (bb_max_x p) (bb_max_y p) 4;
    mkLine2D (bb_max_x p) (bb_max_y p) (bb_min_x p) (bb_max_y p) 4;
    mkLine2D (bb_min_x p) (bb_max_y p) (bb_min_x p) (bb_min_y p) 4 ].

(** The number of edges in the six compounds. *)
Definition compound_size (s : TopoDS_Compound) : nat :=
  match s with
  | None => 0
  | Some edges => length edges
  end.

Definition compounds_size (c : HLRCompounds) : nat :=
  compound_size (VCompound c) + compound_size (HCompound c) +
  compound_size (Rg1LineVCompound c) + compound_size (Rg1LineHCompound c) +
  compound_size (OutLineVCompound c) + compound_size (OutLineHCompound c).

(** The least and the greatest element of a non-empty list. *)
Definition list_min (l : list R) : R :=
  match l with
  | [] => 0
  | x :: l' => fold_left Rmin l' x
  end.

Definition list_max (l : list R) : R :=
  match l with
  | [] => 0
  | x :: l' => fold_left Rmax l' x
  end.

(** The coordinates that count for the extent of an emitted primitive: the
    two end points, and for arcs, circles and ellipses [center - radius] and
    [center + radius]. *)
Definition curve_xs (c : Curve2DFFI) : list R :=
  [cv_start_x c; cv_end_x c] ++
  (if (cv_curve_type c =? 0)%Z then []
   else [cv_center_x c - cv_radius c; cv_center_x c + cv_radius c]).

Definition curve_ys (c : Curve2DFFI) : list R :=
  [cv_start_y c; cv_end_y c] ++
  (if (cv_curve_type c =? 0)%Z then []
   else [cv_center_y c - cv_radius c; cv_center_y c + cv_radius c]).

Definition emitted_xs (curves : list Curve2DFFI) (polylines : list Polyline2DFFI)
    : list R :=
  flat_map curve_xs curves ++
  flat_map (fun p => map tp_x (pl_points p)) polylines.

Definition emitted_ys (curves : list Curve2DFFI) (polylines : list Polyline2DFFI)
    : list R :=
  flat_map curve_ys curves ++
  flat_map (fun p => map tp_y (pl_points p)) polylines.

Definition extent (xs ys : list R) : BBox2D :=
  mkBBox (list_min xs) (list_min ys) (list_max xs) (list_max ys).

(** [m] is the least (the greatest) element of [l]. *)
Definition is_min (m : R) (l : list R) : Prop :=
  In m l /\ forall x : R, In x l -> m <= x.

Definition is_max (m : R) (l : list R) : Prop :=
  In m l /\ forall x : R, In x l -> x <= m.

(** A coordinate a double can hold. *)
Definition finite (x : R) : Prop := - DBL_MAX <= x <= DBL_MAX.

Definition finite_pnt (p : gp_Pnt) : Prop := finite (pX p) /\ finite (pY p).

(** What the kernel answers for an edge is within the range of doubles, a
    radius is not negative, and a tessellated edge is sampled in at least two
    points that include its two ends. *)
Definition edge_regular (deflection : R) (e : TopoDS_Edge) : Prop :=
  match edge_curve e with
  | None => True
  | Some c =>
      finite_pnt (ec_startPt c) /\ finite_pnt (ec_endPt c) /\
      match edge_type e with
      | GeomAbs_Line => True
      | GeomAbs_Circle =>
          0 <= circ_radius e /\
          finite (pX (circ_location e) - circ_radius e) /\
          finite (pX (circ_location e) + circ_radius e) /\
          finite (pY (circ_location e) - circ_radius e) /\
          finite (pY (circ_location e) + circ_radius e)
      | GeomAbs_Ellipse =>
          0 <= elips_major e /\
          finite (pX (elips_location e) - elips_major e) /\
          finite (pX (elips_location e) + elips_major e) /\
          finite (pY (elips_location e) - elips_major e) /\
          finite (pY (elips_location e) + elips_major e)
      | GeomAbs_OtherCurve =>
          (2 <= length (edge_discretize e deflection))%nat /\
          In (ec_startPt c) (edge_discretize e deflection) /\
          In (ec_endPt c) (edge_discretize e deflection) /\
          Forall finite_pnt (edge_discretize e deflection)
      end
  end.

Definition compound_regular (deflection : R) (s : TopoDS_Compound) : Prop :=
  match s with
  | None => True
  | Some edges => Forall (edge_regular deflection) edges
  end.

Definition compounds_regular (deflection : R) (c : HLRCompounds) : Prop :=
  compound_regular deflection (VCompound c) /\
  compound_regular deflection (HCompound c) /\
  compound_regular deflection (Rg1LineVCompound c) /\
  compound_regular deflection (Rg1LineHCompound c) /\
  compound_regular deflection (OutLineVCompound c) /\
  compound_regular deflection (OutLineHCompound c).

(** The running box of an extraction against what has been emitted so far:
    the extrema are those of the emitted coordinates together with the
    initial values, everything emitted is finite and no polyline is empty. *)
Definition curves_inv (st : curves_state) : Prop :=
  let xs := emitted_xs (cs_curves st) (cs_polylines st) in
  let ys := emitted_ys (cs_curves st) (cs_polylines st) in
  is_min (bb_min_x (cs_bbox st)) (DBL_MAX :: xs) /\
  is_min (bb_min_y (cs_bbox st)) (DBL_MAX :: ys) /\
  is_max (bb_max_x (cs_bbox st)) (- DBL_MAX :: xs) /\
  is_max (bb_max_y (cs_bbox st)) (- DBL_MAX :: ys) /\
  Forall finite xs /\ Forall finite ys /\
  Forall (fun p => pl_points p <> []) (cs_polylines st).

(** The primitives emitted so far. *)
Definition emitted_count (st : curves_state) : nat :=
  length (cs_curves st) + length (cs_polylines st).

(** A single straight edge from [a] to [b]. *)
Definition line_edge (a b : gp_Pnt) : TopoDS_Edge :=
  mkEdge (Some (mkEdgeCurve 0 1 a b)) GeomAbs_Line false
         (mkPnt 0 0 0) 0 (mkPnt 0 0 0) 0 0 (mkPnt 1 0 0) (fun _ => []).

(** Compounds with one visible sharp edge and nothing else. *)
Definition one_visible_edge (e : TopoDS_Edge) : HLRCompounds :=
  mkHLRCompounds (Some [e]) None None None None None.

(** A shape on which nothing throws before the extraction, whose first
    extraction call returns the single edge [edge] and whose second throws
    [x]; its section has the square as a closed wire, followed by a closed
    wire whose second vertex has no point. *)
Definition sample_cut_shape (edge : TopoDS_Edge) (x : thrown) : OcctShape :=
  mkShape false 6 12 8 None
    (fun _ _ => inr (mkHLRToShape (call_of (Some [edge])) (inl x)
                                  (call_of None) (call_of None)
                                  (call_of None) (call_of None)))
    (fun _ _ => SectionDone
                  (inr (mkFreeBounds
                          [wire_of square_wire; [inr (mkPnt 2 2 0); inl x]]
                          []))).

(** The calls of [extract_2d_curves] on a list of compounds, each with its
    line type, when nothing throws. *)
Definition hlr2_extract_list (deflection : R)
    (gs : list (TopoDS_Compound * Z)) (acc : curves_state * Z)
    : curves_state * Z :=
  fold_left (fun a g => hlr2_extract (fst g) (snd g) deflection a) gs acc.

(** The deflection [compute_hlr_projection_v2] works with. *)
Definition effective_deflection (deflection : R) : R :=
  if Rleb deflection 0 then 0.01 else deflection.

(** The length of a projected segment. *)
Definition line_length (l : Line2DFFI) : R :=
  sqrt ((ln_end_x l - ln_start_x l) ^ 2 + (ln_end_y l - ln_start_y l) ^ 2).

(** The coordinates of the end points of the returned segments. *)
Definition lines_xs (lines : list Line2DFFI) : list R :=
  flat_map (fun l => [ln_start_x l; ln_end_x l]) lines.

Definition lines_ys (lines : list Line2DFFI) : list R :=
  flat_map (fun l => [ln_start_y l; ln_end_y l]) lines.

(** Every edge of the compound (of the six compounds) satisfies [Q]. *)
Definition compound_all (Q : TopoDS_Edge -> Prop) (s : TopoDS_Compound) : Prop :=
  match s with
  | None => True
  | Some edges => Forall Q edges
  end.

Definition compounds_all (Q : TopoDS_Edge -> Prop) (c : HLRCompounds) : Prop :=
  compound_all Q (VCompound c) /\
  compound_all Q (HCompound c) /\
  compound_all Q (Rg1LineVCompound c) /\
  compound_all Q (Rg1LineHCompound c) /\
  compound_all Q (OutLineVCompound c) /\
  compound_all Q (OutLineHCompound c).

(** The end points the kernel answers for the edge are within the range of
    doubles. *)
Definition edge_ends_finite (e : TopoDS_Edge) : Prop :=
  match edge_curve e with
  | None => True
  | Some c => finite_pnt (ec_startPt c) /\ finite_pnt (ec_endPt c)
  end.

(** The kernel's box of the shape, when it is not void, has its corners in
    order. *)
Definition box_in_order (shape : OcctShape) : Prop :=
  match shape_bnd_box shape with
  | None => True
  | Some b =>
      bnd_xmin b <= bnd_xmax b /\ bnd_ymin b <= bnd_ymax b /\
      bnd_zmin b <= bnd_zmax b
  end.

(** Lines of the classes [0..t], in the order of the classes, none shorter
    than the threshold. *)
Definition lines_classified (t : Z) (lines : list Line2DFFI) : Prop :=
  Forall (fun l => (0 <= ln_line_type l <= t)%Z /\ 1e-7 < line_length l) lines /\
  StronglySorted Z.le (map ln_line_type lines).

(** The running box of [extract_2d_edges] against the lines so far. *)
Definition lines_boxed (lines : list Line2DFFI) (bbox : BBox2D) : Prop :=
  is_min (bb_min_x bbox) (DBL_MAX :: lines_xs lines) /\
  is_min (bb_min_y bbox) (DBL_MAX :: lines_ys lines) /\
  is_max (bb_max_x bbox) (- DBL_MAX :: lines_xs lines) /\
  is_max (bb_max_y bbox) (- DBL_MAX :: lines_ys lines) /\
  Forall finite (lines_xs lines) /\ Forall finite (lines_ys lines).

(** A result with every coordinate multiplied by [scale]. *)
Definition scale_hlr (scale : R) (r : HLRProjectionResult) : HLRProjectionResult :=
  mkHLRResult (map (scale_line scale) (hp_lines r)) (bbox_scale (hp_bbox r) scale).

(** Straight primitives and the others among the curves. *)
Definition is_line_curve (c : Curve2DFFI) : bool := (cv_curve_type c =? 0)%Z.

Definition count_lines (curves : list Curve2DFFI) : Z :=
  Z.of_nat (length (filter is_line_curve curves)).

Definition count_arcs (curves : list Curve2DFFI) : Z :=
  Z.of_nat (length (filter (fun c => negb (is_line_curve c)) curves)).

Definition angle_in_range (a : R) : Prop := - PI <= a <= PI.

(** What the fields of a curve of class at most [t] hold, by its kind:
    0 line, 1 arc, 2 circle, 3 ellipse. *)
Definition curve_well_formed (t : Z) (c : Curve2DFFI) : Prop :=
  (0 <= cv_curve_type c <= 3)%Z /\ (0 <= cv_line_type c <= t)%Z /\
  (cv_curve_type c = 0%Z ->
   cv_center_x c = 0 /\ cv_center_y c = 0 /\ cv_radius c = 0 /\
   cv_major_radius c = 0 /\ cv_minor_radius c = 0 /\
   cv_start_angle c = 0 /\ cv_end_angle c = 0 /\ cv_rotation c = 0 /\
   cv_ccw c = false) /\
  (cv_curve_type c = 1%Z \/ cv_curve_type c = 2%Z ->
   cv_major_radius c = cv_radius c /\ cv_minor_radius c = cv_radius c /\
   cv_rotation c = 0 /\
   angle_in_range (cv_start_angle c) /\ angle_in_range (cv_end_angle c)) /\
  (cv_curve_type c = 3%Z ->
   cv_radius c = cv_major_radius c /\ angle_in_range (cv_rotation c)).

Definition polyline_well_formed (t : Z) (p : Polyline2DFFI) : Prop :=
  (2 <= length (pl_points p))%nat /\ (0 <= pl_line_type p <= t)%Z.

(** The primitives so far are well formed and in the order of the classes,
    and the three counters count them. *)
Definition primitives_inv (t : Z) (st : curves_state) : Prop :=
  Forall (curve_well_formed t) (cs_curves st) /\
  Forall (polyline_well_formed t) (cs_polylines st) /\
  StronglySorted Z.le (map cv_line_type (cs_curves st)) /\
  StronglySorted Z.le (map pl_line_type (cs_polylines st)) /\
  cs_num_lines st = count_lines (cs_curves st) /\
  cs_num_arcs st = count_arcs (cs_curves st) /\
  cs_num_polylines st = Z.of_nat (length (cs_polylines st)).

(** A result with every length multiplied by [scale]; angles, tags and
    counters are kept. *)
Definition scale_hlr2 (scale : R) (r : HLRProjectionResultV2)
    : HLRProjectionResultV2 :=
  mkHLRResultV2 (map (scale_curve scale) (h2_curves r))
                (map (scale_polyline scale) (h2_polylines r))
                (bbox_scale (h2_bbox r) scale)
                (h2_num_edges r) (h2_num_lines r) (h2_num_arcs r)
                (h2_num_polylines r).

(** The two deflections give the same sample points on the edge, if it is
    one that is tessellated. *)
Definition same_tessellation (d1 d2 : R) (e : TopoDS_Edge) : Prop :=
  edge_type e = GeomAbs_OtherCurve ->
  edge_discretize e (effective_deflection d1)
  = edge_discretize e (effective_deflection d2).

(** ** Meshes and exploded views *)

Definition vertex_norm (v : Vertex) : R := modulus (v_x v) (v_y v) (v_z v).

Definition part_offset_norm (p : ExplodedPart) : R :=
  modulus (ep_offset_x p) (ep_offset_y p) (ep_offset_z p).

(** Every corner of the triangle is the index of one of [n] vertices. *)
Definition triangle_within (n : nat) (t : Triangle) : Prop :=
  (0 <= t_v1 t < Z.of_nat n)%Z /\ (0 <= t_v2 t < Z.of_nat n)%Z /\
  (0 <= t_v3 t < Z.of_nat n)%Z.

(** The triangles of the triangulation name nodes of the triangulation. *)
Definition triangulation_valid (t : Poly_Triangulation) : Prop :=
  Forall (fun tri : Z * Z * Z =>
            let n := Z.of_nat (length (tri_nodes t)) in
            (1 <= fst (fst tri) <= n)%Z /\ (1 <= snd (fst tri) <= n)%Z /\
            (1 <= snd tri <= n)%Z)
         (tri_triangles t).

Definition face_valid (f : TopoDS_Face) : Prop :=
  match face_triangulation f with
  | None => True
  | Some t => triangulation_valid t
  end.

(** The nodes of the triangulated faces, counted. *)
Definition node_count (faces : list TopoDS_Face) : nat :=
  fold_right (fun f n =>
                match face_triangulation f with
                | None => n
                | Some t => (length (tri_nodes t) + n)%nat
                end) 0%nat faces.

(** A mesh of the shape for the deflection, if the mesher gives one, has
    valid triangulations and fewer than [2^32] nodes. *)
Definition shape_mesh_valid (deflection : R) (s : TopoDS_Shape) : Prop :=
  forall mesh : BRepMesh,
    ts_mesh s deflection = inr mesh ->
    Forall face_valid (mesh_faces mesh) /\
    (Z.of_nat (node_count (mesh_faces mesh)) < 2 ^ 32)%Z.

Definition assembly_mesh_valid (deflection : R) (shape : OcctAssembly) : Prop :=
  shape_mesh_valid deflection (as_shape shape) /\
  forall ty : TopAbs_ShapeEnum,
    Forall (shape_mesh_valid deflection) (as_explore shape ty).

(** The buffers of the part fit together: a normal of length 1 for every
    vertex. *)
Definition part_mesh_consistent (p : ExplodedPart) : Prop :=
  length (ep_normals p) = length (ep_vertices p) /\
  Forall (fun n => vertex_norm n = 1) (ep_normals p).

(** The first [n] values of a [uint32_t] counter that starts at 0. *)
Definition uint32_indices (n : nat) : list Z :=
  map (fun k => cast_uint32 (Z.of_nat k)) (seq 0 n).

(** The first list of the candidates that is not empty, or [[]]. *)
Fixpoint first_nonempty {A : Type} (candidates : list (list A)) : list A :=
  match candidates with
  | [] => []
  | l :: rest => match l with
                 | [] => first_nonempty rest
                 | _ :: _ => l
                 end
  end.

(** The sub-shapes that [explode_shape] ends up exploding for a level: those
    of the level itself, or of the next levels down to the faces when
    there are none; a negative level starts with the faces and goes on with
    solids and shells. *)
Definition explored (shape : OcctAssembly) (level : Z) : list TopoDS_Shape :=
  first_nonempty
    (map (as_explore shape)
         (if (level <? 0)%Z then [TopAbs_FACE; TopAbs_SOLID; TopAbs_SHELL]
          else if (level =? 0)%Z then [TopAbs_SOLID; TopAbs_SHELL; TopAbs_FACE]
          else if (level =? 1)%Z then [TopAbs_SHELL; TopAbs_FACE]
          else [TopAbs_FACE])).

(** [explode_shape] for sub-shapes that are known: the whole shape as one
    part when there is none, a part for each otherwise. *)
Definition explode_subshapes (shape : OcctAssembly)
    (subShapes : list TopoDS_Shape) (distance deflection : R) : ExplodeResult :=
  if as_is_null shape then explode_result_init
  else
    match ts_volume_centre (as_shape shape) with
    | inl e => explode_result_init
    | inr parentCenter =>
        let with_parts parts success :=
          mkExplodeResult parts (pX parentCenter) (pY parentCenter)
                          (pZ parentCenter) success in
        match subShapes with
        | [] =>
            match get_exploded_part_info (as_shape shape) 0 parentCenter 0
                                         deflection with
            | inl e => with_parts [] false
            | inr wholePart => with_parts [wholePart] true
            end
        | _ :: _ =>
            match explode_parts subShapes 0 parentCenter distance deflection []
            with
            | (parts, Some e) => with_parts parts false
            | (parts, None) => with_parts parts true
            end
        end
    end.

(** The part with its offset cleared. *)
Definition without_offset (p : ExplodedPart) : ExplodedPart :=
  mkExplodedPart (ep_index p) (ep_shape_type p)
                 (ep_center_x p) (ep_center_y p) (ep_center_z p) 0 0 0
                 (ep_vertices p) (ep_normals p) (ep_triangles p).

(** [Normal(i)] throws for no node of the triangulation (of the face). *)
Definition normals_return (t : Poly_Triangulation) : Prop :=
  match tri_normal t with
  | None => True
  | Some Normal =>
      forall k : nat, (1 <= k <= length (tri_nodes t))%nat ->
        exists v : gp_Pnt, Normal k = inr v
  end.

Definition face_normals_return (f : TopoDS_Face) : Prop :=
  match face_triangulation f with
  | None => True
  | Some t => normals_return t
  end.

(** No kernel query about the sub-shape throws. *)
Definition part_builds (deflection : R) (s : TopoDS_Shape) : Prop :=
  (exists c : gp_Pnt,
     (if (ts_ShapeType s <=? 2)%Z then ts_volume_centre s
      else ts_surface_centre s) = inr c) /\
  exists mesh : BRepMesh,
    ts_mesh s deflection = inr mesh /\
    Forall face_normals_return (mesh_faces mesh).

(** A solid with the given centre and no mesh, and an assembly of such
    solids. *)
Definition sample_solid (c : gp_Pnt) : TopoDS_Shape :=
  mkTopoShape 2 (inr c) (inr c) (fun _ => inr (mkBRepMesh true []))
              (fun _ _ => inr (mkBRepMesh true [])) None.

Definition sample_assembly (solids : list TopoDS_Shape) : OcctAssembly :=
  mkAssembly false (sample_solid (mkPnt 0 0 0))
             (fun ty => match ty with
                        | TopAbs_SOLID => solids
                        | _ => []
                        end).

(** A reversed face meshed with one triangle, and a solid with that face
    alone. *)
Definition sample_face : TopoDS_Face :=
  mkFace (Some (mkTriangulation [mkPnt 0 0 0; mkPnt 1 0 0; mkPnt 0 1 0] None
                                [(1, 2, 3)%Z]))
         true (inl Standard_Failure).

Definition sample_meshed_solid : TopoDS_Shape :=
  mkTopoShape 2 (inr (mkPnt 1 0 0)) (inr (mkPnt 1 0 0))
              (fun _ => inr (mkBRepMesh true [sample_face]))
              (fun _ _ => inr (mkBRepMesh true [sample_face])) None.

(** ** Tessellated shapes *)

(** The buffers of a mesh fit together: a normal of length 1 for every
    vertex, a face id for every triangle, and every face id is the index of
    one of the faces described. *)
Definition mesh_consistent (r : MeshResult) : Prop :=
  length (mr_normals r) = length (mr_vertices r) /\
  Forall (fun n => vertex_norm n = 1) (mr_normals r) /\
  length (mr_face_ids r) = length (mr_triangles r) /\
  Forall (fun id => In id (map fi_index (mr_faces r))) (mr_face_ids r).

(** The buffers of a mesh that an exception may have cut short: the last
    vertex may be without its normal. *)
Definition mesh_nearly_consistent (r : MeshResult) : Prop :=
  (length (mr_normals r) <= length (mr_vertices r)
     <= length (mr_normals r) + 1)%nat /\
  Forall (fun n => vertex_norm n = 1) (mr_normals r) /\
  length (mr_face_ids r) = length (mr_triangles r) /\
  Forall (fun id => In id (map fi_index (mr_faces r))) (mr_face_ids r).

(** [Normal(i)] throws for no node of a face of the mesh. *)
Definition mesh_normals_return (mesh : kernel BRepMesh) : Prop :=
  forall m : BRepMesh, mesh = inr m ->
    Forall face_normals_return (mesh_faces m).

(** The description that [tessellate] pushes for a face with the answers
    [q] of the surface queries. *)
Definition described_face (zmin zmax capTolerance : R) (faceIndex : Z)
    (face : TopoDS_Face) (q : FaceQueries) : FaceInfo :=
  let normal := face_normal q (face_reversed face) in
  mkFaceInfo faceIndex (face_reversed face) (surface_type_code (surf_type q))
             (pX normal) (pY normal) (pZ normal)
             (props_Mass q) (face_edge_count q)
             (face_label (surf_type q) (pX normal) (pY normal) (pZ normal)
                         (pZ (props_CentreOfMass q)) zmin zmax capTolerance).

(** A face whose second normal cannot be read, and the shape that has the
    flat triangular face followed by it. *)
Definition sample_cut_face : TopoDS_Face :=
  mkFace (Some (mkTriangulation
                  [mkPnt 0 0 1; mkPnt 1 0 1; mkPnt 0 1 1]
                  (Some (fun i => if (i =? 2)%nat then inl Standard_Failure
                                  else inr (mkPnt 0 0 1)))
                  [(1, 2, 3)%Z]))
         false
         (inr (mkFaceQueries GeomAbs_Plane 0 1 0 1
                 (fun _ _ => (mkPnt 1 0 0, mkPnt 0 1 0))
                 (1 / 2) (mkPnt (1 / 3) (1 / 3) 1) 3)).

(** What a label says about the face that carries it. *)
Definition face_info_sound (f : FaceInfo) : Prop :=
  let l := fi_label f in
  let t := fi_surface_type f in
  let nx := fi_normal_x f in
  let ny := fi_normal_y f in
  let nz := fi_normal_z f in
  (l = "inlet_cap"%string \/ l = "outlet_cap"%string ->
   t = 0%Z /\ 0.9 < Rabs nz) /\
  (l = "top"%string -> t = 0%Z /\ 0.9 < nz) /\
  (l = "bottom"%string -> t = 0%Z /\ nz < -0.9) /\
  (l = "back"%string -> t = 0%Z /\ 0.9 < ny /\ Rabs nz <= 0.9) /\
  (l = "front"%string -> t = 0%Z /\ ny < -0.9 /\ Rabs nz <= 0.9) /\
  (l = "right"%string ->
   t = 0%Z /\ 0.9 < nx /\ Rabs ny <= 0.9 /\ Rabs nz <= 0.9) /\
  (l = "left"%string ->
   t = 0%Z /\ nx < -0.9 /\ Rabs ny <= 0.9 /\ Rabs nz <= 0.9) /\
  (l = "side"%string ->
   t = 0%Z /\ Rabs nx <= 0.9 /\ Rabs ny <= 0.9 /\ Rabs nz <= 0.9) /\
  (l = "curved_side"%string -> t = 1%Z \/ t = 2%Z) /\
  (l = "spherical"%string -> t = 3%Z) /\
  (l = "toroidal"%string -> t = 4%Z) /\
  (l = "freeform"%string -> (5 <= t <= 7)%Z) /\
  In l ["inlet_cap"; "outlet_cap"; "top"; "bottom"; "back"; "front"; "right";
        "left"; "side"; "curved_side"; "spherical"; "toroidal";
        "freeform"]%string /\
  (modulus nx ny nz = 1 \/ modulus nx ny nz <= 1e-10).

(** A flat triangular face in the plane [z = 0], meshed with one triangle,
    and the shape that has this face alone. *)
Definition sample_plane_face : TopoDS_Face :=
  mkFace (Some (mkTriangulation [mkPnt 0 0 0; mkPnt 1 0 0; mkPnt 0 1 0] None
                                [(1, 2, 3)%Z]))
         false
         (inr (mkFaceQueries GeomAbs_Plane 0 1 0 1
                 (fun _ _ => (mkPnt 1 0 0, mkPnt 0 1 0))
                 (1 / 2) (mkPnt (1 / 3) (1 / 3) 0) 3)).

Definition sample_plane_shape : TopoDS_Shape :=
  mkTopoShape 4 (inr (mkPnt (1 / 3) (1 / 3) 0)) (inr (mkPnt (1 / 3) (1 / 3) 0))
              (fun _ => inr (mkBRepMesh true [sample_plane_face]))
              (fun _ _ => inr (mkBRepMesh true [sample_plane_face]))
              (Some (mkBndBox 0 0 0 1 1 0)).

Definition sample_cut_mesh_shape : TopoDS_Shape :=
  mkTopoShape 4 (inr (mkPnt (1 / 3) (1 / 3) 0)) (inr (mkPnt (1 / 3) (1 / 3) 0))
              (fun _ => inr (mkBRepMesh true [sample_plane_face; sample_cut_face]))
              (fun _ _ => inr (mkBRepMesh true [sample_plane_face; sample_cut_face]))
              (Some (mkBndBox 0 0 0 1 1 1)).

(** * Properties *)

(** ** Comparisons and square roots *)

Lemma Rltb_true (a b : R) : a < b -> Rltb a b = true.
Proof. intros H. unfold Rltb. destruct (Rlt_dec a b); [reflexivity | contradiction]. Qed.

Lemma Rltb_false (a b : R) : ~ a < b -> Rltb a b = false.
Proof. intros H. unfold Rltb. destruct (Rlt_dec a b); [contradiction | reflexivity]. Qed.

Lemma Rleb_true (a b : R) : a <= b -> Rleb a b = true.
Proof. intros H. unfold Rleb. destruct (Rle_dec a b); [reflexivity | contradiction]. Qed.

Lemma Rleb_false (a b : R) : ~ a <= b -> Rleb a b = false.
Proof. intros H. unfold Rleb. destruct (Rle_dec a b); [contradiction | reflexivity]. Qed.

Lemma Rltb_iff (a b : R) : Rltb a b = true <-> a < b.
Proof. unfold Rltb. destruct (Rlt_dec a b); split; intros; [assumption|reflexivity|discriminate|contradiction]. Qed.

Lemma Rleb_iff (a b : R) : Rleb a b = true <-> a <= b.
Proof. unfold Rleb. destruct (Rle_dec a b); split; intros; [assumption|reflexivity|discriminate|contradiction]. Qed.

Lemma Reqb_true (a b : R) : a = b -> Reqb a b = true.
Proof. intros H. unfold Reqb. destruct (Req_dec_T a b); [reflexivity | contradiction]. Qed.

Lemma Reqb_false (a b : R) : a <> b -> Reqb a b = false.
Proof. intros H. unfold Reqb. destruct (Req_dec_T a b); [contradiction | reflexivity]. Qed.

(** Split a conjunction into its parts, and nothing else. *)
Ltac splits := repeat match goal with |- _ /\ _ => split end.

(** Decide the comparisons between closed real expressions that occur in the
    goal. *)
Ltac solve_R := solve [ lra | unfold Rabs; repeat destruct (Rcase_abs _); lra ].

Ltac decide_R :=
  repeat match goal with
  | |- context [Rltb ?a ?b] =>
      first [ rewrite (Rltb_true a b) by solve_R
            | rewrite (Rltb_false a b) by solve_R ]
  | |- context [Rleb ?a ?b] =>
      first [ rewrite (Rleb_true a b) by solve_R
            | rewrite (Rleb_false a b) by solve_R ]
  | |- context [Reqb ?a ?b] =>
      first [ rewrite (Reqb_true a b) by solve_R
            | rewrite (Reqb_false a b) by solve_R ]
  end.

Lemma DBL_MAX_pos : 0 < DBL_MAX.
Proof. unfold DBL_MAX. apply IZR_lt. reflexivity. Qed.

Lemma gp_Resolution_small : gp_Resolution < 1e-11.
Proof.
  unfold gp_Resolution.
  apply Rlt_trans with (/ IZR (10 ^ 12)).
  - apply Rinv_lt_contravar.
    + apply Rmult_lt_0_compat; apply IZR_lt; reflexivity.
    + apply IZR_lt. reflexivity.
  - change (10 ^ 12)%Z with 1000000000000%Z. lra.
Qed.

Lemma sqrt_gt (a x : R) : 0 <= a -> a * a < x -> a < sqrt x.
Proof.
  intros Ha H. rewrite <- (sqrt_square a Ha). apply sqrt_lt_1_alt. nra.
Qed.

Lemma sqrt_le_bound (a x : R) : 0 <= a -> x <= a * a -> sqrt x <= a.
Proof.
  intros Ha H. rewrite <- (sqrt_square a Ha).
  destruct (Rle_dec 0 x) as [Hx|Hx].
  - apply sqrt_le_1_alt. exact H.
  - rewrite (sqrt_neg_0 x) by lra. apply sqrt_pos.
Qed.

Lemma sqrt_lt_bound (a x : R) : 0 < a -> x < a * a -> sqrt x < a.
Proof.
  intros Ha H.
  destruct (Rle_dec 0 x) as [Hx|Hx].
  - apply Rlt_le_trans with (sqrt (a * a)).
    + apply sqrt_lt_1_alt. lra.
    + rewrite sqrt_square by lra. lra.
  - rewrite (sqrt_neg_0 x) by lra. exact Ha.
Qed.

Lemma sqrt_ge_bound (a x : R) : 0 <= a -> a * a <= x -> a <= sqrt x.
Proof.
  intros Ha H. rewrite <- (sqrt_square a Ha). apply sqrt_le_1_alt. exact H.
Qed.

(** The planar distance of two points is at most their distance in space. *)
Lemma planar_le_Distance (a b : gp_Pnt) :
  sqrt ((pX b - pX a) ^ 2 + (pY b - pY a) ^ 2) <= Distance a b.
Proof.
  unfold Distance, modulus. apply sqrt_le_1_alt.
  pose proof (Rle_0_sqr (pZ b - pZ a)) as Hz. unfold Rsqr in Hz. simpl. lra.
Qed.

(** ** The try block as a whole *)

Lemma kbind_inr {A B : Type} (m : kernel A) (f : A -> kernel B) (a : A) :
  m = inr a -> kbind m f = f a.
Proof. intros ->. reflexivity. Qed.

(** A view direction divided by its length is a direction for the kernel. *)
Lemma modulus_normalized (x y z : R) :
  let len := sqrt (x * x + y * y + z * z) in
  0 < len -> modulus (x / len) (y / len) (z / len) = 1.
Proof.
  intros len Hlen. unfold modulus.
  assert (Hsq : len * len = x * x + y * y + z * z).
  { unfold len. apply sqrt_def.
    destruct (Rle_dec 0 (x * x + y * y + z * z)) as [H|H]; [exact H|].
    exfalso. unfold len in Hlen. rewrite sqrt_neg_0 in Hlen by lra. lra. }
  replace (x / len * (x / len) + y / len * (y / len) + z / len * (z / len))
    with 1.
  - apply sqrt_1.
  - field_simplify_eq; [|lra]. lra.
Qed.

Lemma gp_Dir_normalized (x y z : R) :
  let len := sqrt (x * x + y * y + z * z) in
  1e-10 <= len ->
  gp_Dir (x / len) (y / len) (z / len)
    = inr (mkPnt (x / len / 1) (y / len / 1) (z / len / 1)).
Proof.
  intros len Hlen. subst len. unfold gp_Dir.
  rewrite modulus_normalized by (cbv zeta; lra).
  rewrite Rleb_false; [reflexivity|].
  pose proof gp_Resolution_small. lra.
Qed.

(** ** The shoelace sum *)

Lemma cross2_antisym p q : cross2 q p = - cross2 p q.
Proof. unfold cross2; ring. Qed.

Lemma signed_area_step_cross pts area i :
  signed_area_step pts area i =
  area + cross2 (nth_point pts i) (nth_point pts ((i + 1) mod length pts)).
Proof. unfold signed_area_step, cross2; ring. Qed.

Lemma path_sum_cons2 a b t : path_sum (a :: b :: t) = cross2 a b + path_sum (b :: t).
Proof. reflexivity. Qed.

Lemma path_sum_join l1 x l2 :
  path_sum (l1 ++ x :: l2) = path_sum (l1 ++ [x]) + path_sum (x :: l2).
Proof.
  induction l1 as [|a l1 IH].
  - simpl. lra.
  - destruct l1 as [|b l1].
    + simpl. lra.
    + rewrite <- !app_comm_cons in *.
      rewrite !path_sum_cons2, IH. lra.
Qed.

Lemma signed_area_fold_suffix pts :
  forall suf pre acc,
    pts = pre ++ suf -> suf <> [] ->
    fold_left (signed_area_step pts) (seq (length pre) (length suf)) acc =
    acc + path_sum (suf ++ [hd (0, 0) pts]).
Proof.
  induction suf as [|a suf IH]; intros pre acc Hpts Hne; [congruence|].
  cbn [length seq fold_left].
  rewrite signed_area_step_cross.
  assert (Hi : nth_point pts (length pre) = a).
  { unfold nth_point. rewrite Hpts, app_nth2, Nat.sub_diag by lia. reflexivity. }
  assert (Hn : length pts = (length pre + S (length suf))%nat).
  { rewrite Hpts, length_app. reflexivity. }
  rewrite Hi.
  destruct suf as [|b suf].
  - assert (Hj : ((length pre + 1) mod length pts = 0)%nat).
    { rewrite Hn. cbn [length]. rewrite Nat.Div0.mod_same. reflexivity. }
    rewrite Hj. cbn [length seq fold_left app path_sum].
    unfold nth_point. destruct pts; simpl; lra.
  - assert (Hj : ((length pre + 1) mod length pts = length pre + 1)%nat).
    { apply Nat.mod_small. rewrite Hn. cbn [length]. lia. }
    rewrite Hj.
    assert (Hb : nth_point pts (length pre + 1) = b).
    { unfold nth_point. rewrite Hpts, app_nth2 by lia.
      replace (length pre + 1 - length pre)%nat with 1%nat by lia. reflexivity. }
    rewrite Hb.
    specialize (IH (pre ++ [a]) (acc + cross2 a b)).
    rewrite length_app in IH. cbn [length] in IH.
    replace (S (length pre)) with (length pre + 1)%nat by lia.
    cbn [length]. rewrite IH.
    + change ((a :: b :: suf) ++ [hd (0, 0) pts]) with (a :: b :: (suf ++ [hd (0, 0) pts])).
      rewrite path_sum_cons2. change (b :: suf ++ [hd (0,0) pts]) with ((b :: suf) ++ [hd (0,0) pts]). lra.
    + rewrite <- app_assoc. exact Hpts.
    + discriminate.
Qed.

Lemma polygon_signed_area_path pts :
  polygon_signed_area pts = path_sum (closed_path pts) / 2.
Proof.
  unfold polygon_signed_area, closed_path.
  destruct pts as [|p pts].
  - simpl. reflexivity.
  - pose proof (signed_area_fold_suffix (p :: pts) (p :: pts) [] 0 eq_refl) as H.
    cbn [length] in H |- *. rewrite H by discriminate.
    f_equal. lra.
Qed.

Lemma closed_path_split (a0 b0 : point2) (a b : list point2) :
  closed_path ((a0 :: a) ++ b0 :: b) = (a0 :: a) ++ b0 :: (b ++ [a0]).
Proof.
  unfold closed_path. cbn [app hd]. rewrite <- app_assoc. reflexivity.
Qed.

Lemma closed_path_rotate a b :
  path_sum (closed_path (b ++ a)) = path_sum (closed_path (a ++ b)).
Proof.
  destruct a as [|a0 a]; [rewrite app_nil_r; reflexivity|].
  destruct b as [|b0 b]; [rewrite app_nil_r; reflexivity|].
  rewrite !closed_path_split.
  rewrite (path_sum_join (b0 :: b) a0), (path_sum_join (a0 :: a) b0).
  cbn [app]. lra.
Qed.

Lemma path_sum_rev l : path_sum (rev l) = - path_sum l.
Proof.
  induction l as [|a l IH]; [simpl; lra|].
  destruct l as [|b l]; [simpl; lra|].
  rewrite path_sum_cons2.
  change (rev (a :: b :: l)) with (rev (b :: l) ++ [a]).
  cbn [rev] in IH |- *. rewrite <- app_assoc. cbn [app].
  rewrite path_sum_join, IH. cbn [path_sum].
  rewrite (cross2_antisym a b). lra.
Qed.

Lemma closed_path_rev pts :
  path_sum (closed_path (rev pts)) = - path_sum (closed_path pts).
Proof.
  destruct pts as [|p pts]; [simpl; lra|].
  cbn [rev]. rewrite (closed_path_rotate [p] (rev pts)).
  unfold closed_path. cbn [app hd].
  rewrite <- path_sum_rev. f_equal.
  cbn [rev]. rewrite rev_app_distr. reflexivity.
Qed.

(** The sum does not depend on the vertex the loop starts from. *)
Lemma polygon_signed_area_rotate (a b : list point2) :
  polygon_signed_area (b ++ a) = polygon_signed_area (a ++ b).
Proof.
  rewrite !polygon_signed_area_path, closed_path_rotate. reflexivity.
Qed.

Lemma polygon_signed_area_rev (pts : list point2) :
  polygon_signed_area (rev pts) = - polygon_signed_area pts.
Proof.
  rewrite !polygon_signed_area_path, closed_path_rev. lra.
Qed.

Lemma polygon_signed_area_unit_square : polygon_signed_area unit_square = 1.
Proof.
  rewrite polygon_signed_area_path.
  unfold unit_square, closed_path. cbn [app hd path_sum].
  unfold cross2. cbn [fst snd]. lra.
Qed.

(** ** The section loops *)

Lemma tess_points_of (b : list point2) : tess_points (tess_of b) = b.
Proof.
  unfold tess_points, tess_of.
  induction b as [|[x y] b IH]; [reflexivity|]. cbn [map fst snd tp_x tp_y].
  rewrite IH. reflexivity.
Qed.

Lemma walk_wire_acc (origin xAxis yAxis : gp_Pnt) (wire : TopoDS_Wire) :
  forall points boundary bbox,
    fold_left (wire_vertex_step origin xAxis yAxis) wire (points, boundary, bbox)
    = (points ++ tess_of (project_wire origin xAxis yAxis wire),
       boundary ++ project_wire origin xAxis yAxis wire,
       bbox_add_points bbox (project_wire origin xAxis yAxis wire)).
Proof.
  induction wire as [|pt wire IH]; intros points boundary bbox.
  - cbn. rewrite !app_nil_r. reflexivity.
  - cbn [fold_left]. unfold wire_vertex_step at 2.
    destruct (project_point_to_plane pt origin xAxis yAxis) as [x2d y2d] eqn:E.
    rewrite IH. unfold project_wire, tess_of, bbox_add_points.
    cbn [map fold_left]. rewrite E. cbn [fst snd].
    rewrite <- !app_assoc. reflexivity.
Qed.

Lemma walk_wire_spec (origin xAxis yAxis : gp_Pnt) (bbox : BBox2D)
    (wire : TopoDS_Wire) :
  walk_wire origin xAxis yAxis bbox wire
  = (tess_of (project_wire origin xAxis yAxis wire),
     project_wire origin xAxis yAxis wire,
     bbox_add_points bbox (project_wire origin xAxis yAxis wire)).
Proof. unfold walk_wire. rewrite walk_wire_acc. reflexivity. Qed.

Lemma length_tess_of (b : list point2) : length (tess_of b) = length b.
Proof. unfold tess_of. apply length_map. Qed.

Lemma hatch_total_snoc (l : list HatchRegionFFI) (x : HatchRegionFFI) :
  hatch_total (l ++ [x])
  = (hatch_total l + Z.of_nat (length (hr_hatch_lines x)))%Z.
Proof.
  induction l as [|y l IH]; cbn [app hatch_total fold_right].
  - lia.
  - unfold hatch_total in IH. rewrite IH. lia.
Qed.

Section SectionLoops.

Variables origin xAxis yAxis : gp_Pnt.
Variables hatch_angle hatch_spacing : R.

Let proj := project_wire origin xAxis yAxis.
Let closed_step := section_closed_wire origin xAxis yAxis hatch_angle hatch_spacing.
Let open_step := section_open_wire origin xAxis yAxis.

Let boundaries (r : SectionWithHatchResult) : list (list point2) :=
  map (fun reg => tess_points (hr_boundary reg)) (sr_regions r).

(** One closed wire. *)
Lemma section_closed_wire_facts (r0 : SectionWithHatchResult) (n0 : Z)
    (w : TopoDS_Wire) :
  let r := fst (closed_step (r0, n0) w) in
  let n := snd (closed_step (r0, n0) w) in
  n = (n0 + 1)%Z /\
  boundaries r = boundaries r0 ++ filter (at_least 3) [proj w] /\
  map curve_view (sr_curves r)
    = map curve_view (sr_curves r0)
      ++ map (fun b => (b, true)) (filter (at_least 3) [proj w]) /\
  (Forall region_measured (sr_regions r0) ->
   Forall region_measured (sr_regions r)) /\
  (sr_num_hatch_lines r - hatch_total (sr_regions r)
    = sr_num_hatch_lines r0 - hatch_total (sr_regions r0))%Z /\
  sr_bbox r = bbox_add_points (sr_bbox r0) (proj w).
Proof.
  unfold closed_step, section_closed_wire, boundaries.
  rewrite walk_wire_spec. fold proj.
  change (map (fun p : point2 => mkTess (fst p) (snd p)) (proj w))
    with (tess_of (proj w)).
  cbn [filter]. unfold at_least.
  destruct (3 <=? length (proj w))%nat;
    cbn [fst snd sr_regions sr_curves sr_num_hatch_lines sr_bbox].
  - rewrite !map_app. cbn [map hr_boundary].
    splits; try reflexivity.
    + rewrite tess_points_of. reflexivity.
    + unfold curve_view at 2. cbn [sc_points sc_is_closed].
      rewrite tess_points_of. reflexivity.
    + intros H0. apply Forall_app. split; [exact H0|].
      constructor; [|constructor].
      unfold region_measured. cbn [hr_area hr_is_outer hr_boundary].
      rewrite tess_points_of. unfold shoelace_area.
      rewrite <- polygon_signed_area_path. split; [reflexivity|apply Rltb_iff].
    + rewrite hatch_total_snoc. cbn [hr_hatch_lines]. lia.
  - rewrite !app_nil_r. splits; auto.
Qed.

(** What the loop over the closed wires keeps true. *)
Lemma section_closed_fold (cw : list TopoDS_Wire) :
  forall (r0 : SectionWithHatchResult) (n0 : Z),
    let r := fst (fold_left closed_step cw (r0, n0)) in
    let n := snd (fold_left closed_step cw (r0, n0)) in
    n = (n0 + Z.of_nat (length cw))%Z /\
    boundaries r = boundaries r0 ++ filter (at_least 3) (map proj cw) /\
    map curve_view (sr_curves r)
      = map curve_view (sr_curves r0)
        ++ map (fun b => (b, true)) (filter (at_least 3) (map proj cw)) /\
    (Forall region_measured (sr_regions r0) ->
     Forall region_measured (sr_regions r)) /\
    (sr_num_hatch_lines r - hatch_total (sr_regions r)
      = sr_num_hatch_lines r0 - hatch_total (sr_regions r0))%Z /\
    sr_bbox r = fold_left bbox_add_points (map proj cw) (sr_bbox r0).
Proof.
  induction cw as [|w cw IH]; intros r0 n0.
  - cbn. rewrite !app_nil_r. splits; try lia; auto.
  - cbn [fold_left length map].
    pose proof (section_closed_wire_facts r0 n0 w) as F. cbv zeta in F.
    destruct (closed_step (r0, n0) w) as [r1 n1].
    cbn [fst snd] in F. destruct F as (Fn & Fr & Fc & Fm & Fh & Fb).
    specialize (IH r1 n1). cbv zeta in IH.
    destruct IH as (Hn & Hr & Hc & Hm & Hh & Hb).
    change (proj w :: map proj cw) with ([proj w] ++ map proj cw).
    rewrite filter_app, map_app.
    splits.
    + rewrite Hn, Fn. lia.
    + rewrite Hr, Fr, <- app_assoc. reflexivity.
    + rewrite Hc, Fc, <- app_assoc. reflexivity.
    + intros H0. apply Hm, Fm, H0.
    + rewrite Hh, Fh. reflexivity.
    + rewrite Hb, Fb. reflexivity.
Qed.

(** One open wire. *)
Lemma section_open_wire_facts (r0 : SectionWithHatchResult) (w : TopoDS_Wire) :
  let r := open_step r0 w in
  sr_regions r = sr_regions r0 /\
  sr_num_regions r = sr_num_regions r0 /\
  sr_num_hatch_lines r = sr_num_hatch_lines r0 /\
  map curve_view (sr_curves r)
    = map curve_view (sr_curves r0)
      ++ map (fun b => (b, false)) (filter (at_least 2) [proj w]) /\
  sr_bbox r = bbox_add_points (sr_bbox r0) (proj w).
Proof.
  unfold open_step, section_open_wire.
  rewrite walk_wire_spec. fold proj.
  cbn [sr_regions sr_curves sr_num_hatch_lines sr_num_regions sr_bbox filter].
  unfold at_least. rewrite length_tess_of.
  splits; try reflexivity.
  destruct (2 <=? length (proj w))%nat.
  - rewrite map_app. cbn [map]. unfold curve_view at 2.
    cbn [sc_points sc_is_closed]. rewrite tess_points_of. reflexivity.
  - cbn [map]. rewrite app_nil_r. reflexivity.
Qed.

(** The loop over the open wires touches the curves and the box only. *)
Lemma section_open_fold (ow : list TopoDS_Wire) :
  forall r0 : SectionWithHatchResult,
    let r := fold_left open_step ow r0 in
    sr_regions r = sr_regions r0 /\
    sr_num_regions r = sr_num_regions r0 /\
    sr_num_hatch_lines r = sr_num_hatch_lines r0 /\
    map curve_view (sr_curves r)
      = map curve_view (sr_curves r0)
        ++ map (fun b => (b, false)) (filter (at_least 2) (map proj ow)) /\
    sr_bbox r = fold_left bbox_add_points (map proj ow) (sr_bbox r0).
Proof.
  induction ow as [|w ow IH]; intros r0.
  - cbn. rewrite app_nil_r. auto.
  - cbn [fold_left map].
    pose proof (section_open_wire_facts r0 w) as F. cbv zeta in F.
    destruct F as (Fr & Fn & Fh & Fc & Fb).
    specialize (IH (open_step r0 w)). cbv zeta in IH.
    destruct IH as (Hr & Hn & Hh & Hc & Hb).
    change (proj w :: map proj ow) with ([proj w] ++ map proj ow).
    rewrite filter_app, map_app.
    splits; try congruence.
    rewrite Hc, Fc, <- app_assoc. reflexivity.
Qed.

(** The two loops and the closing statements together. *)
Lemma section_process_facts (cw ow : list TopoDS_Wire) :
  let r := section_process origin xAxis yAxis hatch_angle hatch_spacing cw ow in
  sr_num_regions r = Z.of_nat (length cw) /\
  boundaries r = filter (at_least 3) (map proj cw) /\
  map curve_view (sr_curves r)
    = map (fun b => (b, true)) (filter (at_least 3) (map proj cw))
      ++ map (fun b => (b, false)) (filter (at_least 2) (map proj ow)) /\
  Forall region_measured (sr_regions r) /\
  sr_num_hatch_lines r = hatch_total (sr_regions r).
Proof.
  unfold section_process, section_finish. fold closed_step. fold open_step.
  pose proof (section_closed_fold cw section_result_init 0%Z) as C.
  cbv zeta in C.
  destruct (fold_left closed_step cw (section_result_init, 0%Z)) as [r1 n1].
  cbn [fst snd] in C. destruct C as (Cn & Cr & Cc & Cm & Ch & _).
  pose proof (section_open_fold ow r1) as O. cbv zeta in O.
  destruct O as (Or & _ & Oh & Oc & _).
  set (r2 := fold_left open_step ow r1) in *.
  assert (Hfin : forall bb,
    let r := mkSectionResult (sr_curves r2) (sr_regions r2) bb n1
                             (sr_num_hatch_lines r2) in
    sr_num_regions r = Z.of_nat (length cw) /\
    boundaries r = filter (at_least 3) (map proj cw) /\
    map curve_view (sr_curves r)
      = map (fun b => (b, true)) (filter (at_least 3) (map proj cw))
        ++ map (fun b => (b, false)) (filter (at_least 2) (map proj ow)) /\
    Forall region_measured (sr_regions r) /\
    sr_num_hatch_lines r = hatch_total (sr_regions r)).
  { intros bb. unfold boundaries in *.
    cbn [sr_num_regions sr_regions sr_curves sr_num_hatch_lines].
    rewrite Or, Oc, Cc, Cr, Oh. cbn [section_result_init sr_curves sr_regions map app] in *.
    splits; try reflexivity.
    - lia.
    - apply Cm. constructor.
    - change (sr_num_hatch_lines section_result_init) with 0%Z in Ch.
      change (hatch_total []) with 0%Z in Ch. lia. }
  cbn [sr_curves sr_regions sr_bbox sr_num_regions sr_num_hatch_lines].
  destruct (sr_curves r2); apply Hfin.
Qed.

End SectionLoops.

(** ** Loops that an exception can cut short *)

(** A loop in which nothing throws is the plain loop. *)
Lemma attempt_fold_returns {S G H : Type} (step : S -> G -> attempt S)
    (pure : S -> H -> S) (inj : H -> G) :
  (forall st h, step st (inj h) = inr (pure st h)) ->
  forall (l : list H) (st : S),
    attempt_fold step (map inj l) st = inr (fold_left pure l st).
Proof.
  intros Hstep l. induction l as [|h l IH]; intros st; cbn [map attempt_fold fold_left].
  - reflexivity.
  - rewrite Hstep. apply IH.
Qed.

(** A loop that gets through the items [l] and throws at the next one. *)
Lemma attempt_fold_app {S G : Type} (step : S -> G -> attempt S)
    (l1 l2 : list G) (st : S) :
  attempt_fold step (l1 ++ l2) st
  = match attempt_fold step l1 st with
    | inl x => inl x
    | inr st' => attempt_fold step l2 st'
    end.
Proof.
  revert st. induction l1 as [|g l1 IH]; intros st; cbn [app attempt_fold].
  - reflexivity.
  - destruct (step st g) as [x|st']; [reflexivity | apply IH].
Qed.

Lemma wire_points_of (w : TopoDS_Wire) : wire_points (wire_of w) = (w, None).
Proof.
  induction w as [|pt w IH]; cbn [wire_of map wire_points].
  - reflexivity.
  - unfold wire_of in IH. rewrite IH. reflexivity.
Qed.

Lemma section_closed_wire_try_returns (origin xAxis yAxis : gp_Pnt)
    (hatch_angle hatch_spacing : R) (st : section_state) (w : TopoDS_Wire) :
  section_closed_wire_try origin xAxis yAxis hatch_angle hatch_spacing st
                          (wire_of w)
  = inr (section_closed_wire origin xAxis yAxis hatch_angle hatch_spacing st w).
Proof. unfold section_closed_wire_try. rewrite wire_points_of. reflexivity. Qed.

Lemma section_open_wire_try_returns (origin xAxis yAxis : gp_Pnt)
    (r : SectionWithHatchResult) (w : TopoDS_Wire) :
  section_open_wire_try origin xAxis yAxis r (wire_of w)
  = inr (section_open_wire origin xAxis yAxis r w).
Proof. unfold section_open_wire_try. rewrite wire_points_of. reflexivity. Qed.

(** On wires whose vertices all have a point the loops run to their end. *)
Lemma section_process_try_returns (origin xAxis yAxis : gp_Pnt)
    (hatch_angle hatch_spacing : R) (cw ow : list TopoDS_Wire) :
  section_process_try origin xAxis yAxis hatch_angle hatch_spacing
                      (map wire_of cw) (map wire_of ow)
  = inr (section_process origin xAxis yAxis hatch_angle hatch_spacing cw ow).
Proof.
  unfold section_process_try, section_process.
  rewrite (attempt_fold_returns _
             (section_closed_wire origin xAxis yAxis hatch_angle hatch_spacing)
             wire_of)
    by (intros; apply section_closed_wire_try_returns).
  destruct (fold_left _ cw _) as [r1 closedCount].
  rewrite (attempt_fold_returns _ (section_open_wire origin xAxis yAxis) wire_of)
    by (intros; apply section_open_wire_try_returns).
  reflexivity.
Qed.

(** When the call gets through the loops it returns what they build. *)
Lemma section_reaches_result (shape : OcctShape)
    (ox oy oz nx ny nz ux uy uz hatch_angle hatch_spacing : R)
    (xAxis yAxis : gp_Pnt) (cw ow : list TopoDS_Wire) :
  section_reaches shape ox oy oz nx ny nz ux uy uz xAxis yAxis cw ow ->
  compute_section_with_hatch shape ox oy oz nx ny nz ux uy uz
                             hatch_angle hatch_spacing
  = section_process (mkPnt ox oy oz) xAxis yAxis hatch_angle hatch_spacing cw ow.
Proof.
  intros (Hnull & normal & upDir & Hn & Hs & Hu & Hx & Hy).
  unfold compute_section_with_hatch, section_try.
  rewrite Hnull, Hn. cbn [kcall]. rewrite Hs, Hu. cbn [kcall].
  rewrite <- Hx, Hy. cbn [kcall GetClosedWires GetOpenWires].
  rewrite section_process_try_returns. reflexivity.
Qed.

(** A direction of modulus one is kept as it is. *)
Lemma gp_Dir_unit (x y z : R) :
  modulus x y z = 1 -> gp_Dir x y z = inr (mkPnt x y z).
Proof.
  intros H. unfold gp_Dir. rewrite H.
  rewrite Rleb_false by (pose proof gp_Resolution_small; lra).
  unfold kret. do 2 f_equal; lra.
Qed.

Lemma modulus_axis_x : modulus 1 0 0 = 1.
Proof. unfold modulus. replace (1 * 1 + 0 * 0 + 0 * 0) with 1 by lra. apply sqrt_1. Qed.

Lemma modulus_axis_y : modulus 0 1 0 = 1.
Proof. unfold modulus. replace (0 * 0 + 1 * 1 + 0 * 0) with 1 by lra. apply sqrt_1. Qed.

Lemma modulus_axis_z : modulus 0 0 1 = 1.
Proof. unfold modulus. replace (0 * 0 + 0 * 0 + 1 * 1) with 1 by lra. apply sqrt_1. Qed.

(** The plane [z = 0] seen with [y] up: the basis is the one of the
    coordinates. *)
Lemma sample_section_reaches (cw ow : list TopoDS_Wire) (c : HLRCompounds)
    (box : option Bnd_Box) :
  section_reaches (sample_shape cw ow c box) 0 0 0 0 0 1 0 1 0
                  (mkPnt 1 0 0) (mkPnt 0 1 0) cw ow.
Proof.
  split; [reflexivity|].
  exists (mkPnt 0 0 1), (mkPnt 0 1 0).
  assert (Hx : Crossed (mkPnt 0 1 0) (mkPnt 0 0 1) = inr (mkPnt 1 0 0)).
  { unfold Crossed, cross. cbn [pX pY pZ].
    replace (1 * 1 - 0 * 0) with 1 by lra.
    replace (0 * 0 - 0 * 1) with 0 by lra.
    replace (0 * 0 - 1 * 0) with 0 by lra.
    apply gp_Dir_unit, modulus_axis_x. }
  splits.
  - apply gp_Dir_unit, modulus_axis_z.
  - reflexivity.
  - apply gp_Dir_unit, modulus_axis_y.
  - rewrite Hx. reflexivity.
  - unfold Crossed, cross. cbn [pX pY pZ].
    replace (0 * 0 - 1 * 0) with 0 by lra.
    replace (1 * 1 - 0 * 0) with 1 by lra.
    replace (0 * 0 - 0 * 1) with 0 by lra.
    apply gp_Dir_unit, modulus_axis_y.
Qed.

Lemma project_square_wire :
  project_wire (mkPnt 0 0 0) (mkPnt 1 0 0) (mkPnt 0 1 0) square_wire = unit_square.
Proof.
  unfold project_wire, square_wire, unit_square, project_point_to_plane, dot.
  cbn [map pX pY pZ].
  repeat (f_equal; try (f_equal; lra)).
Qed.

(** ** Regions and curves of a section *)

(** C2.  In a call of [compute_section_with_hatch] that runs through its two
    loops (the shape is not null, the normal and the up vector are
    directions, the section is done, no exception), the regions are in
    one-to-one correspondence, in order, with the closed wires whose
    projection has at least 3 points: each region carries the projected
    boundary, its area is the absolute value of the shoelace signed area of
    that boundary (half the sum of [x_i * y_(i+1) - x_(i+1) * y_i] around
    it) and [is_outer] holds exactly when that signed area is positive.  The curves are those closed wires (flagged closed) followed by
    the open wires with at least 2 projected points (flagged open); a closed
    wire with fewer than 3 points gives neither curve nor region, and every
    hatch segment counted in [num_hatch_lines] belongs to a region. *)
Theorem section_closed_and_open_wires
    (shape : OcctShape)
    (ox oy oz nx ny nz ux uy uz hatch_angle hatch_spacing : R)
    (xAxis yAxis : gp_Pnt) (cw ow : list TopoDS_Wire) :
  section_reaches shape ox oy oz nx ny nz ux uy uz xAxis yAxis cw ow ->
  let r := compute_section_with_hatch shape ox oy oz nx ny nz ux uy uz
                                      hatch_angle hatch_spacing in
  let proj := project_wire (mkPnt ox oy oz) xAxis yAxis in
  map (fun reg => tess_points (hr_boundary reg)) (sr_regions r)
    = filter (at_least 3) (map proj cw) /\
  Forall region_measured (sr_regions r) /\
  map curve_view (sr_curves r)
    = map (fun b => (b, true)) (filter (at_least 3) (map proj cw))
      ++ map (fun b => (b, false)) (filter (at_least 2) (map proj ow)) /\
  sr_num_hatch_lines r = hatch_total (sr_regions r).
Proof.
  intros Hreach r proj. subst r.
  rewrite (section_reaches_result _ _ _ _ _ _ _ _ _ _ hatch_angle hatch_spacing
             _ _ _ _ Hreach).
  pose proof (section_process_facts (mkPnt ox oy oz) xAxis yAxis
                hatch_angle hatch_spacing cw ow) as F.
  cbv zeta in F. destruct F as (_ & Fb & Fc & Fm & Fh).
  splits; assumption.
Qed.

Lemma section_closed_and_open_wires_witness :
  let cw := [square_wire; [mkPnt 0 0 0; mkPnt 1 0 0]] in
  let ow := [[mkPnt 0 0 0; mkPnt 2 0 0]; [mkPnt 5 5 0]] in
  let r := compute_section_with_hatch (sample_shape cw ow no_compounds None)
                                      0 0 0 0 0 1 0 1 0 45 1 in
  let proj := project_wire (mkPnt 0 0 0) (mkPnt 1 0 0) (mkPnt 0 1 0) in
  map (fun reg => tess_points (hr_boundary reg)) (sr_regions r)
    = filter (at_least 3) (map proj cw) /\
  Forall region_measured (sr_regions r) /\
  map curve_view (sr_curves r)
    = map (fun b => (b, true)) (filter (at_least 3) (map proj cw))
      ++ map (fun b => (b, false)) (filter (at_least 2) (map proj ow)) /\
  sr_num_hatch_lines r = hatch_total (sr_regions r).
Proof.
  intros cw ow.
  exact (section_closed_and_open_wires
           (sample_shape cw ow no_compounds None) 0 0 0 0 0 1 0 1 0 45 1
           (mkPnt 1 0 0) (mkPnt 0 1 0) cw ow
           (sample_section_reaches cw ow no_compounds None)).
Defined.

(** C9.  [num_regions] is the number of closed wires of the partition,
    whether or not a wire gave a region: the regions are only the closed
    wires with at least 3 projected points, so there are at most
    [num_regions] of them, and there can be fewer. *)
Theorem section_num_regions_counts_closed_wires :
  (forall (shape : OcctShape)
          (ox oy oz nx ny nz ux uy uz hatch_angle hatch_spacing : R)
          (xAxis yAxis : gp_Pnt) (cw ow : list TopoDS_Wire),
     section_reaches shape ox oy oz nx ny nz ux uy uz xAxis yAxis cw ow ->
     let r := compute_section_with_hatch shape ox oy oz nx ny nz ux uy uz
                                         hatch_angle hatch_spacing in
     sr_num_regions r = Z.of_nat (length cw) /\
     length (sr_regions r)
       = length (filter (at_least 3)
                        (map (project_wire (mkPnt ox oy oz) xAxis yAxis) cw)) /\
     (Z.of_nat (length (sr_regions r)) <= sr_num_regions r)%Z) /\
  (exists (shape : OcctShape)
          (ox oy oz nx ny nz ux uy uz hatch_angle hatch_spacing : R),
     let r := compute_section_with_hatch shape ox oy oz nx ny nz ux uy uz
                                         hatch_angle hatch_spacing in
     (Z.of_nat (length (sr_regions r)) < sr_num_regions r)%Z).
Proof.
  assert (Hall : forall (shape : OcctShape)
          (ox oy oz nx ny nz ux uy uz hatch_angle hatch_spacing : R)
          (xAxis yAxis : gp_Pnt) (cw ow : list TopoDS_Wire),
     section_reaches shape ox oy oz nx ny nz ux uy uz xAxis yAxis cw ow ->
     let r := compute_section_with_hatch shape ox oy oz nx ny nz ux uy uz
                                         hatch_angle hatch_spacing in
     sr_num_regions r = Z.of_nat (length cw) /\
     length (sr_regions r)
       = length (filter (at_least 3)
                        (map (project_wire (mkPnt ox oy oz) xAxis yAxis) cw)) /\
     (Z.of_nat (length (sr_regions r)) <= sr_num_regions r)%Z).
  { intros shape ox oy oz nx ny nz ux uy uz hatch_angle hatch_spacing
           xAxis yAxis cw ow Hreach r. subst r.
    rewrite (section_reaches_result _ _ _ _ _ _ _ _ _ _ hatch_angle hatch_spacing
               _ _ _ _ Hreach).
    pose proof (section_process_facts (mkPnt ox oy oz) xAxis yAxis
                  hatch_angle hatch_spacing cw ow) as F.
    cbv zeta in F. destruct F as (Fn & Fb & _).
    assert (Hlen : length (sr_regions (section_process (mkPnt ox oy oz) xAxis yAxis
                     hatch_angle hatch_spacing cw ow))
                   = length (filter (at_least 3)
                       (map (project_wire (mkPnt ox oy oz) xAxis yAxis) cw))).
    { rewrite <- Fb, length_map. reflexivity. }
    splits; [exact Fn | exact Hlen |].
    rewrite Fn, Hlen. apply inj_le.
    etransitivity; [apply filter_length_le|]. rewrite length_map. lia. }
  split; [exact Hall|].
  exists (sample_shape [[mkPnt 0 0 0; mkPnt 1 0 0]] [] no_compounds None),
         0, 0, 0, 0, 0, 1, 0, 1, 0, 45, 1.
  destruct (Hall _ 0 0 0 0 0 1 0 1 0 45 1 _ _ _ _
              (sample_section_reaches [[mkPnt 0 0 0; mkPnt 1 0 0]] []
                                      no_compounds None)) as (Hn & Hl & _).
  cbv zeta. rewrite Hn, Hl. cbn. lia.
Qed.

Lemma section_num_regions_counts_closed_wires_witness :
  let r := compute_section_with_hatch
             (sample_shape [square_wire; [mkPnt 0 0 0; mkPnt 1 0 0]] []
                           no_compounds None)
             0 0 0 0 0 1 0 1 0 45 1 in
  sr_num_regions r = 2%Z /\ length (sr_regions r) = 1%nat.
Proof.
  destruct (proj1 section_num_regions_counts_closed_wires
              (sample_shape [square_wire; [mkPnt 0 0 0; mkPnt 1 0 0]] []
                            no_compounds None)
              0 0 0 0 0 1 0 1 0 45 1 (mkPnt 1 0 0) (mkPnt 0 1 0) _ _
              (sample_section_reaches _ _ no_compounds None))
    as (Hn & Hl & _).
  split; [exact Hn | exact Hl].
Defined.

(** C3.  [polygon_signed_area] does not change when the point list is
    rotated cyclically, and changes sign when the list is reversed.  On the
    unit square (0,0), (1,0), (1,1), (0,1) it is 1, and the region that
    [compute_section_with_hatch] derives from that square has area 1 and
    [is_outer] set. *)
Theorem polygon_signed_area_rotation_reversal_square :
  (forall (k : nat) (pts : list point2),
     polygon_signed_area (skipn k pts ++ firstn k pts) = polygon_signed_area pts) /\
  (forall pts : list point2,
     polygon_signed_area (rev pts) = - polygon_signed_area pts) /\
  polygon_signed_area unit_square = 1 /\
  (let r := compute_section_with_hatch
              (sample_shape [square_wire] [] no_compounds None)
              0 0 0 0 0 1 0 1 0 45 1 in
   map (fun reg => tess_points (hr_boundary reg)) (sr_regions r) = [unit_square] /\
   map hr_area (sr_regions r) = [1] /\
   map hr_is_outer (sr_regions r) = [true]).
Proof.
  splits.
  - intros k pts. rewrite polygon_signed_area_rotate, firstn_skipn. reflexivity.
  - apply polygon_signed_area_rev.
  - apply polygon_signed_area_unit_square.
  - intros r. subst r.
    rewrite (section_reaches_result _ _ _ _ _ _ _ _ _ _ 45 1 _ _ _ _
               (sample_section_reaches [square_wire] [] no_compounds None)).
    pose proof (section_process_facts (mkPnt 0 0 0) (mkPnt 1 0 0) (mkPnt 0 1 0)
                  45 1 [square_wire] []) as F.
    cbv zeta in F. destruct F as (_ & Fb & _ & Fm & _).
    cbn [map filter] in Fb. rewrite project_square_wire in Fb.
    change (at_least 3 unit_square) with true in Fb. cbn iota in Fb.
    destruct (sr_regions (section_process (mkPnt 0 0 0) (mkPnt 1 0 0)
                (mkPnt 0 1 0) 45 1 [square_wire] [])) as [|reg [|reg' regs]];
      cbn [map] in Fb; try discriminate.
    injection Fb as Fb. inversion Fm as [|? ? [Ha Ho] _]; subst.
    unfold shoelace_area in Ha, Ho.
    rewrite <- polygon_signed_area_path in Ha, Ho.
    rewrite Fb, polygon_signed_area_unit_square in Ha, Ho.
    cbn [map]. splits.
    + rewrite Fb. reflexivity.
    + rewrite Ha, Rabs_R1. reflexivity.
    + f_equal. apply Ho. lra.
Qed.

(** ** The candidate hatch lines *)

Lemma int_range_In (lo hi i : Z) :
  In i (int_range lo hi) <-> (lo <= i <= hi)%Z.
Proof.
  unfold int_range. rewrite in_map_iff. split.
  - intros (k & Hk & Hin). apply in_seq in Hin. lia.
  - intros H. exists (Z.to_nat (i - lo)). split; [lia|].
    apply in_seq. lia.
Qed.

Lemma int_range_length (lo hi : Z) :
  length (int_range lo hi) = Z.to_nat (hi - lo + 1).
Proof. unfold int_range. rewrite length_map, length_seq. reflexivity. Qed.

Lemma int_range_nth (lo hi : Z) (k : nat) :
  (k < Z.to_nat (hi - lo + 1))%nat ->
  nth k (int_range lo hi) 0%Z = (lo + Z.of_nat k)%Z.
Proof.
  intros Hk. unfold int_range.
  rewrite (nth_indep _ 0%Z (lo + Z.of_nat 0)%Z)
    by (rewrite length_map, length_seq; exact Hk).
  rewrite (map_nth (fun k => (lo + Z.of_nat k)%Z)), seq_nth by exact Hk.
  reflexivity.
Qed.

Lemma hatch_diag_nonneg (min_x min_y max_x max_y : R) :
  0 <= hatch_diag min_x min_y max_x max_y.
Proof. unfold hatch_diag. apply sqrt_pos. Qed.

Lemma hatch_quotient_nonneg (spacing min_x min_y max_x max_y : R) :
  0 < spacing -> 0 <= hatch_diag min_x min_y max_x max_y / spacing.
Proof.
  intros Hs. apply Rmult_le_pos; [apply hatch_diag_nonneg|].
  left. apply Rinv_0_lt_compat. exact Hs.
Qed.

(** Within the range of [int] the conversion of a non-negative double is its
    floor. *)
Lemma double_to_int_floor (x : R) :
  0 <= x < IZR (2 ^ 31) -> double_to_int x = Zfloor x.
Proof.
  intros [H0 H1]. unfold double_to_int. rewrite Rleb_true by exact H0.
  assert (Hlo : (0 <= Zfloor x)%Z) by (apply Zfloor_lub; exact H0).
  assert (Hhi : (Zfloor x < 2 ^ 31)%Z).
  { apply lt_IZR. pose proof (Zfloor_bound x). lra. }
  cbv zeta. unfold INT_MIN, INT_MAX.
  replace ((- 2 ^ 31 <=? Zfloor x)%Z && (Zfloor x <=? 2 ^ 31 - 1)%Z) with true;
    [reflexivity|].
  symmetry. apply andb_true_intro. split; apply Z.leb_le; lia.
Qed.

(** Beyond the range of [int] the conversion yields [INT_MIN]. *)
Lemma double_to_int_beyond (x : R) :
  IZR (2 ^ 31) <= x -> double_to_int x = INT_MIN.
Proof.
  intros H1. unfold double_to_int.
  assert (H0 : 0 <= x).
  { apply Rle_trans with (IZR (2 ^ 31)); [apply IZR_le; lia | exact H1]. }
  rewrite Rleb_true by exact H0.
  assert (Hhi : (2 ^ 31 <= Zfloor x)%Z) by (apply Zfloor_lub; exact H1).
  cbv zeta. unfold INT_MIN, INT_MAX.
  replace (Zfloor x <=? 2 ^ 31 - 1)%Z with false
    by (symmetry; apply Z.leb_gt; lia).
  rewrite andb_false_r. reflexivity.
Qed.

(** With a positive spacing and a quotient in the range of [int] the
    conversion is a floor. *)
Lemma hatch_num_lines_floor (spacing min_x min_y max_x max_y : R) :
  0 < spacing ->
  hatch_diag min_x min_y max_x max_y / spacing < IZR (2 ^ 31) ->
  hatch_num_lines spacing min_x min_y max_x max_y
  = (Zfloor (hatch_diag min_x min_y max_x max_y / spacing) + 2)%Z.
Proof.
  intros Hs Hq. unfold hatch_num_lines.
  rewrite double_to_int_floor; [reflexivity|].
  split; [apply hatch_quotient_nonneg; exact Hs | exact Hq].
Qed.

Lemma hatch_num_lines_ge_2 (spacing min_x min_y max_x max_y : R) :
  0 < spacing ->
  hatch_diag min_x min_y max_x max_y / spacing < IZR (2 ^ 31) ->
  (2 <= hatch_num_lines spacing min_x min_y max_x max_y)%Z.
Proof.
  intros Hs Hq. rewrite hatch_num_lines_floor by assumption.
  pose proof (Zfloor_lub 0 _ (hatch_quotient_nonneg spacing min_x min_y max_x max_y Hs)).
  lia.
Qed.

(** A quotient beyond the range of [int] gives a negative count. *)
Lemma hatch_num_lines_beyond (spacing min_x min_y max_x max_y : R) :
  IZR (2 ^ 31) <= hatch_diag min_x min_y max_x max_y / spacing ->
  hatch_num_lines spacing min_x min_y max_x max_y = (INT_MIN + 2)%Z.
Proof.
  intros Hq. unfold hatch_num_lines. rewrite double_to_int_beyond by exact Hq.
  reflexivity.
Qed.

Lemma int_range_empty (lo hi : Z) : (hi < lo)%Z -> int_range lo hi = [].
Proof.
  intros H. unfold int_range.
  replace (Z.to_nat (hi - lo + 1)) with 0%nat by lia. reflexivity.
Qed.

Lemma Zceil_of_integer (x : R) : x = IZR (Zfloor x) -> Zceil x = Zfloor x.
Proof.
  intros H. apply Zceil_eq. rewrite <- H. lra.
Qed.

Lemma Zceil_of_fraction (x : R) : x <> IZR (Zfloor x) -> Zceil x = (Zfloor x + 1)%Z.
Proof.
  intros H. apply Zceil_eq. rewrite plus_IZR.
  pose proof (Zfloor_bound x). lra.
Qed.

Lemma generate_hatch_lines_unfold (boundary : list point2)
    (angle_deg spacing : R) (hatch_lines : list HatchLineFFI)
    (min_x min_y max_x max_y : R) :
  (3 <= length boundary)%nat -> 0 < spacing ->
  generate_hatch_lines_for_region boundary angle_deg spacing hatch_lines
                                  min_x min_y max_x max_y
  = hatch_lines ++
    flat_map (fun i => hatch_line boundary
                         (cos (angle_deg * PI / 180)) (sin (angle_deg * PI / 180))
                         ((min_x + max_x) / 2) ((min_y + max_y) / 2)
                         (IZR i * spacing))
             (int_range (- hatch_num_lines spacing min_x min_y max_x max_y)
                        (hatch_num_lines spacing min_x min_y max_x max_y)).
Proof.
  intros Hn Hs. unfold generate_hatch_lines_for_region.
  replace (length boundary <? 3)%nat with false
    by (symmetry; apply Nat.ltb_ge; exact Hn).
  rewrite Rleb_false by lra. reflexivity.
Qed.

Lemma hatch_diag_3_4 : hatch_diag 0 0 3 4 = 5.
Proof.
  unfold hatch_diag. replace ((3 - 0) ^ 2 + (4 - 0) ^ 2) with (5 * 5) by lra.
  apply sqrt_square. lra.
Qed.

Lemma notch_num_lines_ge_2 : (2 <= hatch_num_lines 1 (-5) (-3) 7 3)%Z.
Proof.
  apply hatch_num_lines_ge_2; [lra|].
  apply Rlt_trans with 14; [| apply IZR_lt; reflexivity].
  unfold hatch_diag. replace (_ / 1) with (sqrt ((7 - -5) ^ 2 + (3 - -3) ^ 2))
    by (field).
  replace 14 with (sqrt (14 * 14)) by (apply sqrt_square; lra).
  apply sqrt_lt_1_alt. lra.
Qed.

Lemma hatch_quotient_3_4 : hatch_diag 0 0 3 4 / 2 < IZR (2 ^ 31 - 3).
Proof.
  rewrite hatch_diag_3_4. apply Rlt_trans with 3; [lra|].
  apply IZR_lt. reflexivity.
Qed.

Lemma IZR_int_bound : IZR (2 ^ 31 - 3) < IZR (2 ^ 31).
Proof. apply IZR_lt. reflexivity. Qed.

(** C7, as stated, fails: for a rectangle of diagonal 5 and spacing 2 the
    quotient is 2.5, the code takes 2 + 2 = 4 and the ceiling gives
    3 + 2 = 5. *)
Lemma hatch_num_lines_is_not_ceil :
  hatch_num_lines 2 0 0 3 4 = 4%Z /\
  (Zceil (hatch_diag 0 0 3 4 / 2) + 2)%Z = 5%Z /\
  hatch_num_lines 2 0 0 3 4 <> (Zceil (hatch_diag 0 0 3 4 / 2) + 2)%Z.
Proof.
  assert (H1 : hatch_num_lines 2 0 0 3 4 = 4%Z).
  { rewrite hatch_num_lines_floor;
      [| lra | pose proof hatch_quotient_3_4; pose proof IZR_int_bound; lra].
    rewrite hatch_diag_3_4.
    rewrite (Zfloor_eq 2 (5 / 2)); [reflexivity | lra]. }
  assert (H2 : (Zceil (hatch_diag 0 0 3 4 / 2) + 2)%Z = 5%Z).
  { rewrite hatch_diag_3_4. rewrite (Zceil_eq 3 (5 / 2)); [reflexivity | lra]. }
  splits; [exact H1 | exact H2 |]. rewrite H1, H2. discriminate.
Qed.

(** C7, amended.  Take a boundary of at least 3 points and a positive
    spacing, with [L] the diagonal of the rectangle and [N] the line count.
    When [L / spacing] is below [2^31 - 3], so that the count and the loop
    counter stay in the range of [int]: [N = floor(L / spacing) + 2]; the
    candidate lines are those at the offsets [i * spacing] for exactly the
    integers [i] from [-N] to [N], each once and in ascending order; and [N]
    is [ceil(L / spacing) + 2] exactly when [L / spacing] is an integer, and
    one less otherwise.  When [L / spacing] is [2^31] or more, beyond the
    range of the conversion to [int], no candidate line is generated and the
    hatch lines are left as they were. *)
Theorem hatch_candidate_lines
    (boundary : list point2) (angle_deg spacing : R)
    (hatch_lines : list HatchLineFFI) (min_x min_y max_x max_y : R) :
  (3 <= length boundary)%nat -> 0 < spacing ->
  let L := hatch_diag min_x min_y max_x max_y in
  let N := hatch_num_lines spacing min_x min_y max_x max_y in
  (L / spacing < IZR (2 ^ 31 - 3) ->
   IZR (N - 2) <= L / spacing < IZR (N - 2) + 1 /\
   (2 <= N <= INT_MAX - 1)%Z /\
   generate_hatch_lines_for_region boundary angle_deg spacing hatch_lines
                                   min_x min_y max_x max_y
   = hatch_lines ++
     flat_map (fun i => hatch_line boundary
                          (cos (angle_deg * PI / 180)) (sin (angle_deg * PI / 180))
                          ((min_x + max_x) / 2) ((min_y + max_y) / 2)
                          (IZR i * spacing))
              (int_range (- N) N) /\
   (forall i : Z, In i (int_range (- N) N) <-> (- N <= i <= N)%Z) /\
   length (int_range (- N) N) = Z.to_nat (2 * N + 1) /\
   (forall k : nat, (k < Z.to_nat (2 * N + 1))%nat ->
      nth k (int_range (- N) N) 0%Z = (Z.of_nat k - N)%Z) /\
   (L / spacing = IZR (Zfloor (L / spacing)) -> N = (Zceil (L / spacing) + 2)%Z) /\
   (L / spacing <> IZR (Zfloor (L / spacing)) -> N = (Zceil (L / spacing) + 1)%Z)) /\
  (IZR (2 ^ 31) <= L / spacing ->
   generate_hatch_lines_for_region boundary angle_deg spacing hatch_lines
                                   min_x min_y max_x max_y
   = hatch_lines).
Proof.
  intros Hn Hs L N. split.
  - intros Hq.
    assert (Hq' : L / spacing < IZR (2 ^ 31))
      by (pose proof IZR_int_bound; lra).
    assert (HN : N = (Zfloor (L / spacing) + 2)%Z)
      by (apply hatch_num_lines_floor; assumption).
    assert (Hfl : (Zfloor (L / spacing) < 2 ^ 31 - 3)%Z).
    { apply lt_IZR. pose proof (Zfloor_bound (L / spacing)). lra. }
    split; [|split; [|splits]].
    + replace (N - 2)%Z with (Zfloor (L / spacing)) by lia. apply Zfloor_bound.
    + pose proof (hatch_num_lines_ge_2 spacing min_x min_y max_x max_y Hs Hq').
      fold N in H. unfold INT_MAX. lia.
    + apply generate_hatch_lines_unfold; assumption.
    + intros i. apply int_range_In.
    + rewrite int_range_length. f_equal. lia.
    + intros k Hk.
      rewrite int_range_nth
        by (replace (N - - N + 1)%Z with (2 * N + 1)%Z by lia; exact Hk).
      lia.
    + intros Hint. rewrite (Zceil_of_integer _ Hint). exact HN.
    + intros Hfrac. rewrite (Zceil_of_fraction _ Hfrac). lia.
  - intros Hq. rewrite generate_hatch_lines_unfold by assumption.
    fold N. replace N with (INT_MIN + 2)%Z
      by (symmetry; apply hatch_num_lines_beyond; exact Hq).
    rewrite int_range_empty by (unfold INT_MIN; lia).
    cbn [flat_map]. apply app_nil_r.
Qed.

Lemma hatch_candidate_lines_witness :
  let N := hatch_num_lines 2 0 0 3 4 in
  IZR (N - 2) <= hatch_diag 0 0 3 4 / 2 < IZR (N - 2) + 1 /\
  (forall i : Z, In i (int_range (- N) N) <-> (- N <= i <= N)%Z) /\
  length (int_range (- N) N) = Z.to_nat (2 * N + 1).
Proof.
  assert (H3 : (3 <= length unit_square)%nat) by (cbn; lia).
  assert (Hs : 0 < 2) by lra.
  destruct (hatch_candidate_lines unit_square 45 2 [] 0 0 3 4 H3 Hs)
    as (Hmain & _).
  destruct (Hmain hatch_quotient_3_4) as (Hb & _ & _ & Hin & Hlen & _).
  split; [exact Hb | split; [exact Hin | exact Hlen]].
Defined.

(** ** Crossings of one hatch line *)

Lemma mkHatchLine_eq (a b c d a' b' c' d' : R) :
  a = a' -> b = b' -> c = c' -> d = d' ->
  mkHatchLine a b c d = mkHatchLine a' b' c' d'.
Proof. intros; subst; reflexivity. Qed.

(** An edge that is not near-parallel and meets the hatch line at the
    parameter [t] of the edge, within the closed interval [0, 1], is
    collected. *)
Lemma hatch_edge_crossing_at (b : list point2) (c s hx hy : R) (j : nat)
    (x1 y1 x2 y2 t th : R) :
  polygon_edge b j = ((x1, y1), (x2, y2)) ->
  1e-10 <= Rabs ((x2 - x1) * s - (y2 - y1) * c) ->
  t * ((x2 - x1) * s - (y2 - y1) * c) = (hx - x1) * s - (hy - y1) * c ->
  0 <= t <= 1 ->
  th = (x1 + t * (x2 - x1) - hx) * c + (y1 + t * (y2 - y1) - hy) * s ->
  hatch_edge_crossing b c s hx hy j = Some th.
Proof.
  intros He Hden Ht Hrange Hth.
  unfold polygon_edge in He. injection He as E1 E2.
  unfold hatch_edge_crossing. rewrite E1, E2. cbn [fst snd].
  set (denom := (x2 - x1) * s - (y2 - y1) * c) in *.
  assert (Hnz : denom <> 0).
  { intros H0. rewrite H0, Rabs_R0 in Hden. lra. }
  rewrite Rltb_false by lra.
  replace (((hx - x1) * s - (hy - y1) * c) / denom) with t
    by (rewrite <- Ht; field; exact Hnz).
  rewrite !Rleb_true by lra. cbn [andb]. rewrite Hth. reflexivity.
Qed.

(** Along a unit direction the length of a segment is the difference of its
    two parameters. *)
Lemma hatch_segment_length (hx hy c s t1 t2 : R) :
  c * c + s * s = 1 ->
  sqrt ((hx + t2 * c - (hx + t1 * c)) ^ 2 + (hy + t2 * s - (hy + t1 * s)) ^ 2)
  = Rabs (t2 - t1).
Proof.
  intros Hu. rewrite <- sqrt_Rsqr_abs. f_equal. unfold Rsqr.
  replace ((hx + t2 * c - (hx + t1 * c)) ^ 2 + (hy + t2 * s - (hy + t1 * s)) ^ 2)
    with ((t2 - t1) * (t2 - t1) * (c * c + s * s)) by ring.
  rewrite Hu. ring.
Qed.

(** ** The pentagon with a vertex on a hatch line *)

Lemma notch_intersections :
  hatch_intersections notch_polygon 1 0 1 0 = [1; -1; 5; 3; 1].
Proof.
  unfold hatch_intersections.
  change (seq 0 (length notch_polygon)) with [0; 1; 2; 3; 4]%nat.
  cbn [flat_map].
  rewrite (hatch_edge_crossing_at notch_polygon 1 0 1 0 0 2 0 (-5) 3 0 1)
    by (try reflexivity; solve_R).
  rewrite (hatch_edge_crossing_at notch_polygon 1 0 1 0 1 (-5) 3 5 (-3) (1/2) (-1))
    by (try reflexivity; solve_R).
  rewrite (hatch_edge_crossing_at notch_polygon 1 0 1 0 2 5 (-3) 7 3 (1/2) 5)
    by (try reflexivity; solve_R).
  rewrite (hatch_edge_crossing_at notch_polygon 1 0 1 0 3 7 3 3 (-1) (3/4) 3)
    by (try reflexivity; solve_R).
  rewrite (hatch_edge_crossing_at notch_polygon 1 0 1 0 4 3 (-1) 2 0 1 1)
    by (try reflexivity; solve_R).
  reflexivity.
Qed.

Lemma notch_sorted : std_sort [1; -1; 5; 3; 1] = [-1; 1; 1; 3; 5].
Proof.
  unfold std_sort. cbn [fold_right sort_insert].
  repeat (decide_R; cbn [sort_insert]).
  reflexivity.
Qed.

(** The hatch line [y = 0] through the pentagon: the vertex (2, 0) is
    collected once for each of its two edges, and the pairing gives the
    segment from x = 2 to x = 4. *)
Lemma notch_hatch_line :
  hatch_line notch_polygon 1 0 1 0 0
  = [mkHatchLine 0 0 2 0; mkHatchLine 2 0 4 0].
Proof.
  unfold hatch_line.
  replace (1 + 0 * 0) with 1 by lra.
  replace (0 - 0 * 1) with 0 by lra.
  rewrite notch_intersections, notch_sorted.
  cbn [hatch_segments hl_start_x hl_start_y hl_end_x hl_end_y].
  rewrite !hatch_segment_length by lra.
  decide_R. cbn [app].
  f_equal; [|f_equal]; apply mkHatchLine_eq; lra.
Qed.

Lemma notch_simple : simple_polygon notch_polygon.
Proof.
  intros i j Hi Hj Hne [px py] (t & Ht & Hx & Hy) (s & Hs & Hx' & Hy').
  change (length notch_polygon) with 5%nat in *.
  assert (Hi5 : (i = 0 \/ i = 1 \/ i = 2 \/ i = 3 \/ i = 4)%nat) by lia.
  assert (Hj5 : (j = 0 \/ j = 1 \/ j = 2 \/ j = 3 \/ j = 4)%nat) by lia.
  destruct Hi5 as [-> | [-> | [-> | [-> | ->]]]];
    destruct Hj5 as [-> | [-> | [-> | [-> | ->]]]];
    try (exfalso; apply Hne; reflexivity);
    cbn [polygon_edge notch_polygon nth_point nth fst snd length Nat.modulo
         Nat.divmod Nat.add Nat.sub] in *;
    first [ exfalso; lra
          | left; split; [reflexivity | f_equal; lra]
          | right; split; [reflexivity | f_equal; lra] ].
Qed.

Lemma notch_point_outside : point_in_polygon notch_polygon (3, 0) = false.
Proof.
  unfold point_in_polygon.
  change (seq 0 (length notch_polygon)) with [0; 1; 2; 3; 4]%nat.
  assert (H0 : ray_crosses (3, 0) (polygon_edge notch_polygon 0) = false).
  { unfold ray_crosses. cbn [polygon_edge notch_polygon nth_point nth fst snd
      length Nat.modulo Nat.divmod Nat.add Nat.sub].
    replace ((-5 - 2) * (0 - 0) / (3 - 0) + 2) with 2 by (field; lra).
    decide_R. reflexivity. }
  assert (H1 : ray_crosses (3, 0) (polygon_edge notch_polygon 1) = false).
  { unfold ray_crosses. cbn [polygon_edge notch_polygon nth_point nth fst snd
      length Nat.modulo Nat.divmod Nat.add Nat.sub].
    replace ((5 - -5) * (0 - 3) / (-3 - 3) + -5) with 0 by (field; lra).
    decide_R. reflexivity. }
  assert (H2 : ray_crosses (3, 0) (polygon_edge notch_polygon 2) = true).
  { unfold ray_crosses. cbn [polygon_edge notch_polygon nth_point nth fst snd
      length Nat.modulo Nat.divmod Nat.add Nat.sub].
    replace ((7 - 5) * (0 - -3) / (3 - -3) + 5) with 6 by (field; lra).
    decide_R. reflexivity. }
  assert (H3 : ray_crosses (3, 0) (polygon_edge notch_polygon 3) = true).
  { unfold ray_crosses. cbn [polygon_edge notch_polygon nth_point nth fst snd
      length Nat.modulo Nat.divmod Nat.add Nat.sub].
    replace ((3 - 7) * (0 - 3) / (-1 - 3) + 7) with 4 by (field; lra).
    decide_R. reflexivity. }
  assert (H4 : ray_crosses (3, 0) (polygon_edge notch_polygon 4) = false).
  { unfold ray_crosses. cbn [polygon_edge notch_polygon nth_point nth fst snd
      length Nat.modulo Nat.divmod Nat.add Nat.sub].
    replace ((2 - 3) * (0 - -1) / (0 - -1) + 3) with 2 by (field; lra).
    decide_R. reflexivity. }
  cbn [filter]. rewrite H0, H1, H2, H3, H4. reflexivity.
Qed.

Lemma notch_point_escapes : escapes_upward notch_polygon (3, 0).
Proof.
  intros t Ht (j & Hj & s & Hs & Hx & Hy).
  change (length notch_polygon) with 5%nat in *.
  cbn [fst snd] in Hx, Hy.
  assert (Hj5 : (j = 0 \/ j = 1 \/ j = 2 \/ j = 3 \/ j = 4)%nat) by lia.
  destruct Hj5 as [-> | [-> | [-> | [-> | ->]]]];
    cbn [polygon_edge notch_polygon nth_point nth fst snd length Nat.modulo
         Nat.divmod Nat.add Nat.sub] in *;
    lra.
Qed.

(** C1.  The claim fails on the pentagon (2,0), (-5,3), (5,-3), (7,3),
    (3,-1), a simple polygon, hatched at angle 0 with spacing 1 inside its own
    bounding rectangle.  The hatch line [y = 0] passes through the vertex
    (2,0); the vertex is collected for both of its edges, so the sorted
    crossings are -1, 1, 1, 3, 5 and the second pair gives the segment from
    (2,0) to (4,0).  Its midpoint (3,0) fails the even-odd point-in-polygon
    test, and the vertical ray from it never meets the boundary: it lies
    outside the polygon. *)
Theorem hatch_vertex_on_line_counted_twice :
  simple_polygon notch_polygon /\
  (3 <= length notch_polygon)%nat /\
  let segments :=
    generate_hatch_lines_for_region notch_polygon 0 1 [] (-5) (-3) 7 3 in
  In (mkHatchLine 2 0 4 0) segments /\
  midpoint (mkHatchLine 2 0 4 0) = (3, 0) /\
  point_in_polygon notch_polygon (3, 0) = false /\
  escapes_upward notch_polygon (3, 0).
Proof.
  split; [exact notch_simple|]. split; [cbn; lia|]. cbv zeta. splits.
  - rewrite generate_hatch_lines_unfold by (cbn; lia || lra).
    cbn [app]. apply in_flat_map. exists 0%Z. split.
    + apply int_range_In.
      pose proof notch_num_lines_ge_2. lia.
    + replace (0 * PI / 180) with 0 by lra. rewrite cos_0, sin_0.
      replace ((-5 + 7) / 2) with 1 by lra.
      replace ((-3 + 3) / 2) with 0 by lra.
      replace (0 * 1) with 0 by lra.
      rewrite notch_hatch_line. right. left. reflexivity.
  - unfold midpoint. cbn [hl_start_x hl_start_y hl_end_x hl_end_y].
    f_equal; lra.
  - exact notch_point_outside.
  - exact notch_point_escapes.
Qed.

(** ** Reaching the extraction *)

Lemma normalized_sq (x y z : R) :
  let len := sqrt (x * x + y * y + z * z) in
  0 < len ->
  x / len * (x / len) + y / len * (y / len) + z / len * (z / len) = 1.
Proof.
  intros len Hlen.
  assert (Hsq : len * len = x * x + y * y + z * z).
  { unfold len. apply sqrt_def.
    destruct (Rle_dec 0 (x * x + y * y + z * z)) as [H|H]; [exact H|].
    exfalso. unfold len in Hlen. rewrite sqrt_neg_0 in Hlen by lra. lra. }
  field_simplify_eq; [|lra]. lra.
Qed.

(** The six groups when every extraction call returns. *)
Lemma hlr_extract_all_try_gives (extractor : HLRBRep_HLRToShape)
    (c : HLRCompounds) (lines : list Line2DFFI) (bbox : BBox2D) :
  extractor_gives extractor c ->
  hlr_extract_all_try extractor lines bbox
  = inr (hlr_extract_all c lines bbox).
Proof.
  intros ((s0 & H0 & C0) & (s1 & H1 & C1) & (s2 & H2 & C2) & (s3 & H3 & C3)
          & (s4 & H4 & C4) & (s5 & H5 & C5)).
  unfold hlr_extract_all_try, hlr_groups, hlr_extract_all.
  rewrite H0, H1, H2, H3, H4, H5.
  cbn [attempt_fold hlr_extract_group fst snd]. rewrite C0.
  destruct (extract_2d_edges (VCompound c) 0 lines bbox) as [[l0 b0] n0].
  cbn [attempt_fold hlr_extract_group fst snd]. rewrite C1.
  destruct (extract_2d_edges (HCompound c) 1 l0 b0) as [[l1 b1] n1].
  cbn [attempt_fold hlr_extract_group fst snd]. rewrite C2.
  destruct (extract_2d_edges (Rg1LineVCompound c) 2 l1 b1) as [[l2 b2] n2].
  cbn [attempt_fold hlr_extract_group fst snd]. rewrite C3.
  destruct (extract_2d_edges (Rg1LineHCompound c) 3 l2 b2) as [[l3 b3] n3].
  cbn [attempt_fold hlr_extract_group fst snd]. rewrite C4.
  destruct (extract_2d_edges (OutLineVCompound c) 4 l3 b3) as [[l4 b4] n4].
  cbn [attempt_fold hlr_extract_group fst snd]. rewrite C5.
  destruct (extract_2d_edges (OutLineHCompound c) 5 l4 b4) as [[l5 b5] n5].
  reflexivity.
Qed.

(** The six groups when the call at position [k] throws: the lines and the
    box are those of the compounds before it. *)
Lemma hlr_extract_all_try_throws (extractor : HLRBRep_HLRToShape)
    (c : HLRCompounds) (k : nat) (e : thrown)
    (lines : list Line2DFFI) (bbox : BBox2D) :
  extractor_throws_at extractor c k e ->
  exists n : Z,
    hlr_extract_all_try extractor lines bbox
    = inl (e, (fst (hlr_extract_all (first_compounds k c) lines bbox), n)).
Proof.
  intros [Hret Hk]. destruct extractor as [c0 c1 c2 c3 c4 c5].
  unfold hlr_extract_all_try, hlr_extract_all, first_compounds, hlr_groups in *.
  cbn [map fst snd call_VCompound call_HCompound call_Rg1LineVCompound
       call_Rg1LineHCompound call_OutLineVCompound call_OutLineHCompound
       VCompound HCompound Rg1LineVCompound Rg1LineHCompound OutLineVCompound
       OutLineHCompound] in *.
  destruct k as [|[|[|[|[|[|k]]]]]];
    cbn [firstn nth_error compounds_list Nat.ltb Nat.leb] in *;
    try (destruct k; discriminate);
    injection Hk as ->;
    repeat match goal with
           | H : Forall2 _ (_ :: _) (_ :: _) |- _ =>
               apply Forall2_cons_iff in H;
               let s := fresh "s" in
               let Hs := fresh "Hs" in
               let Hc := fresh "Hc" in
               destruct H as [(s & Hs & Hc) H]; rewrite Hs, <- Hc
           end;
    repeat (cbn [attempt_fold hlr_extract_group fst snd];
            match goal with
            | |- context [extract_2d_edges (hs_compound ?s) ?t ?l ?b] =>
                destruct (extract_2d_edges (hs_compound s) t l b) as [[? ?] ?]
            end);
    cbn [attempt_fold hlr_extract_group extract_2d_edges fst snd];
    eexists; reflexivity.
Qed.

(** Either every extraction call returns, or one of them is the first to
    throw. *)
Lemma extractor_cases (extractor : HLRBRep_HLRToShape) :
  (exists c : HLRCompounds, extractor_gives extractor c) \/
  (exists (c : HLRCompounds) (k : nat) (e : thrown),
     extractor_throws_at extractor c k e).
Proof.
  destruct extractor as [c0 c1 c2 c3 c4 c5].
  unfold extractor_gives, extractor_throws_at, hlr_groups.
  cbn [map fst call_VCompound call_HCompound call_Rg1LineVCompound
       call_Rg1LineHCompound call_OutLineVCompound call_OutLineHCompound].
  assert (Hr : forall s : HLRShape, call_returns (inr s) (hs_compound s))
    by (intros s; exists s; split; reflexivity).
  destruct c0 as [e|s0];
    [right; exists no_compounds, 0%nat, e; split; [constructor | reflexivity]|].
  destruct c1 as [e|s1];
    [right; exists (mkHLRCompounds (hs_compound s0) None None None None None),
                   1%nat, e;
     split; [repeat constructor; apply Hr | reflexivity]|].
  destruct c2 as [e|s2];
    [right; exists (mkHLRCompounds (hs_compound s0) (hs_compound s1)
                                   None None None None), 2%nat, e;
     split; [repeat constructor; apply Hr | reflexivity]|].
  destruct c3 as [e|s3];
    [right; exists (mkHLRCompounds (hs_compound s0) (hs_compound s1)
                                   (hs_compound s2) None None None), 3%nat, e;
     split; [repeat constructor; apply Hr | reflexivity]|].
  destruct c4 as [e|s4];
    [right; exists (mkHLRCompounds (hs_compound s0) (hs_compound s1)
                                   (hs_compound s2) (hs_compound s3)
                                   None None), 4%nat, e;
     split; [repeat constructor; apply Hr | reflexivity]|].
  destruct c5 as [e|s5];
    [right; exists (mkHLRCompounds (hs_compound s0) (hs_compound s1)
                                   (hs_compound s2) (hs_compound s3)
                                   (hs_compound s4) None), 5%nat, e;
     split; [repeat constructor; apply Hr | reflexivity]|].
  left. exists (mkHLRCompounds (hs_compound s0) (hs_compound s1)
                               (hs_compound s2) (hs_compound s3)
                               (hs_compound s4) (hs_compound s5)).
  cbn [VCompound HCompound Rg1LineVCompound Rg1LineHCompound OutLineVCompound
       OutLineHCompound].
  repeat split; apply Hr.
Qed.

(** The loop over the edges when no discretizer throws. *)
Lemma extract_2d_curves_loop_returns (throws : nat -> R -> option thrown)
    (line_type : Z) (deflection : R) (edges : list TopoDS_Edge) :
  (forall j d, throws j d = None) ->
  forall (j : nat) (st : curves_state),
    extract_2d_curves_loop throws line_type deflection j edges st
    = inr (fold_left (extract_2d_curves_step line_type deflection) edges st).
Proof.
  intros Hq. induction edges as [|edge edges IH]; intros j st;
    cbn [extract_2d_curves_loop fold_left].
  - reflexivity.
  - rewrite Hq. rewrite IH.
    destruct (edge_curve edge); [destruct (edge_type edge)|]; reflexivity.
Qed.

Lemma extract_2d_curves_try_returns (s : HLRShape) (line_type : Z)
    (deflection : R) (st : curves_state) :
  (forall j d, hs_discretizer_throws s j d = None) ->
  extract_2d_curves_try s line_type deflection st
  = inr (extract_2d_curves (hs_compound s) line_type deflection st).
Proof.
  intros Hq. unfold extract_2d_curves_try, extract_2d_curves.
  destruct (hs_compound s) as [edges|]; [|reflexivity].
  apply extract_2d_curves_loop_returns. exact Hq.
Qed.

Lemma hlr2_extract_group_returns (deflection : R) (acc : curves_state * Z)
    (call : kernel HLRShape) (comp : TopoDS_Compound) (line_type : Z) :
  call_returns call comp -> call_discretizes call ->
  hlr2_extract_group deflection acc (call, line_type)
  = inr (hlr2_extract comp line_type deflection acc).
Proof.
  intros (s & Hs & Hc) Hq. unfold hlr2_extract_group, hlr2_extract.
  destruct acc as [st num_edges]. cbn [fst snd]. rewrite Hs.
  rewrite extract_2d_curves_try_returns by (apply Hq; exact Hs).
  rewrite Hc. reflexivity.
Qed.

(** The six groups when every extraction call returns and no discretizer
    throws. *)
Lemma hlr2_extract_all_try_gives (extractor : HLRBRep_HLRToShape)
    (c : HLRCompounds) (deflection : R) :
  extractor_gives extractor c -> extractor_discretizes extractor ->
  hlr2_extract_all_try extractor deflection
  = inr (hlr2_extract_all c deflection).
Proof.
  intros (G0 & G1 & G2 & G3 & G4 & G5) Hq.
  unfold extractor_discretizes, hlr_groups in Hq.
  repeat match goal with
         | H : Forall _ (_ :: _) |- _ =>
             let Hh := fresh "Q" in
             apply Forall_cons_iff in H; destruct H as [Hh H]; cbn [fst] in Hh
         end.
  unfold hlr2_extract_all_try, hlr_groups, hlr2_extract_all.
  cbn [attempt_fold].
  repeat (erewrite hlr2_extract_group_returns by eassumption).
  reflexivity.
Qed.

Lemma hlr2_reaches_result (shape : OcctShape)
    (dir_x dir_y dir_z up_x up_y up_z scale deflection : R) (c : HLRCompounds) :
  hlr2_reaches shape dir_x dir_y dir_z up_x up_y up_z c ->
  compute_hlr_projection_v2 shape dir_x dir_y dir_z up_x up_y up_z
                            scale deflection
  = hlr2_finish scale (effective_deflection deflection) c.
Proof.
  intros (extractor & (Hnull & Hlen & viewDir & upDir & Hv & Hu & Hc) & Hg & Hq).
  unfold compute_hlr_projection_v2, hlr2_try.
  rewrite Hnull, Rltb_false by lra.
  rewrite Hv. cbn [kcall]. rewrite Hu. cbn [kcall]. rewrite Hc. cbn [kcall].
  rewrite (hlr2_extract_all_try_gives extractor c) by assumption.
  reflexivity.
Qed.

Lemma hlr_reaches_result (shape : OcctShape)
    (dir_x dir_y dir_z up_x up_y up_z scale : R) (c : HLRCompounds) :
  hlr_reaches shape dir_x dir_y dir_z up_x up_y up_z c ->
  let len := sqrt (dir_x * dir_x + dir_y * dir_y + dir_z * dir_z) in
  compute_hlr_projection shape dir_x dir_y dir_z up_x up_y up_z scale
  = hlr_finish shape (dir_x / len) (dir_y / len) (dir_z / len) scale c.
Proof.
  intros (Htopo & extractor & (Hnull & Hlen & viewDir & upDir & Hv & Hu & Hc) & Hg)
         len.
  unfold compute_hlr_projection, hlr_try, count_shape_topology.
  rewrite Hnull.
  assert (Ht : ((topo_faces shape =? 0)%nat && (topo_edges shape =? 0)%nat) = false).
  { apply andb_false_iff. destruct Htopo as [H|H]; [left|right];
      apply Nat.eqb_neq; exact H. }
  rewrite Ht, Rltb_false by lra.
  rewrite Hv. cbn [kcall]. rewrite Hu. cbn [kcall]. rewrite Hc. cbn [kcall].
  rewrite (hlr_extract_all_try_gives extractor c) by assumption.
  reflexivity.
Qed.

Lemma sqrt_axis_z : sqrt (0 * 0 + 0 * 0 + 1 * 1) = 1.
Proof. replace (0 * 0 + 0 * 0 + 1 * 1) with 1 by lra. apply sqrt_1. Qed.

Lemma call_of_returns (comp : TopoDS_Compound) : call_returns (call_of comp) comp.
Proof. exists (mkHLRShape comp (fun _ _ => None)). split; reflexivity. Qed.

Lemma call_of_discretizes (comp : TopoDS_Compound) : call_discretizes (call_of comp).
Proof. intros s Hs j d. injection Hs as <-. reflexivity. Qed.

Lemma extractor_of_gives (c : HLRCompounds) : extractor_gives (extractor_of c) c.
Proof. repeat split; apply call_of_returns. Qed.

Lemma extractor_of_discretizes (c : HLRCompounds) :
  extractor_discretizes (extractor_of c).
Proof.
  unfold extractor_discretizes, hlr_groups, extractor_of.
  cbn [call_VCompound call_HCompound call_Rg1LineVCompound
       call_Rg1LineHCompound call_OutLineVCompound call_OutLineHCompound].
  repeat constructor; apply call_of_discretizes.
Qed.

(** The view from above with [y] up passes the hidden-line stage of a sample
    shape. *)
Lemma sample_hlr_stage (cw ow : list TopoDS_Wire) (c : HLRCompounds)
    (box : option Bnd_Box) :
  hlr_stage (sample_shape cw ow c box) 0 0 1 0 1 0 (extractor_of c).
Proof.
  unfold hlr_stage. rewrite sqrt_axis_z.
  splits; [reflexivity | lra |].
  exists (mkPnt (0 / 1) (0 / 1) (1 / 1)), (mkPnt 0 1 0).
  splits.
  - apply gp_Dir_unit. unfold modulus.
    replace (0 / 1 * (0 / 1) + 0 / 1 * (0 / 1) + 1 / 1 * (1 / 1)) with 1 by lra.
    apply sqrt_1.
  - apply gp_Dir_unit, modulus_axis_y.
  - reflexivity.
Qed.

(** The view from above with [y] up reaches the extraction of a sample
    shape. *)
Lemma sample_hlr2_reaches (cw ow : list TopoDS_Wire) (c : HLRCompounds)
    (box : option Bnd_Box) :
  hlr2_reaches (sample_shape cw ow c box) 0 0 1 0 1 0 c.
Proof.
  exists (extractor_of c).
  splits; [apply sample_hlr_stage | apply extractor_of_gives
           | apply extractor_of_discretizes].
Qed.

Lemma sample_hlr_reaches (cw ow : list TopoDS_Wire) (c : HLRCompounds)
    (box : option Bnd_Box) :
  hlr_reaches (sample_shape cw ow c box) 0 0 1 0 1 0 c.
Proof.
  split; [left; discriminate |].
  exists (extractor_of c).
  split; [apply sample_hlr_stage | apply extractor_of_gives].
Qed.

(** ** Extraction of lines *)

(** One edge adds at most one line, and the counter follows. *)
Lemma extract_2d_edges_step_grows (line_type : Z) (lines : list Line2DFFI)
    (bbox : BBox2D) (n : Z) (edge : TopoDS_Edge) :
  exists new : list Line2DFFI,
    fst (fst (extract_2d_edges_step line_type (lines, bbox, n) edge))
      = lines ++ new /\
    snd (extract_2d_edges_step line_type (lines, bbox, n) edge)
      = (n + Z.of_nat (length new))%Z /\
    (length new <= 1)%nat /\
    Forall (fun l => ln_line_type l = line_type) new.
Proof.
  unfold extract_2d_edges_step.
  destruct (edge_curve edge) as [c|].
  - destruct (Rleb _ 1e-7).
    + exists []. cbn. rewrite app_nil_r. splits; auto; lia.
    + eexists [_]. cbn [fst snd length]. splits; auto.
  - exists []. cbn. rewrite app_nil_r. splits; auto; lia.
Qed.

Lemma extract_2d_edges_fold_grows (line_type : Z) (edges : list TopoDS_Edge) :
  forall (lines : list Line2DFFI) (bbox : BBox2D) (n : Z),
  exists new : list Line2DFFI,
    fst (fst (fold_left (extract_2d_edges_step line_type) edges (lines, bbox, n)))
      = lines ++ new /\
    snd (fold_left (extract_2d_edges_step line_type) edges (lines, bbox, n))
      = (n + Z.of_nat (length new))%Z /\
    (length new <= length edges)%nat /\
    Forall (fun l => ln_line_type l = line_type) new.
Proof.
  induction edges as [|e edges IH]; intros lines bbox n.
  - exists []. cbn. rewrite app_nil_r. splits; auto; lia.
  - cbn [fold_left].
    destruct (extract_2d_edges_step_grows line_type lines bbox n e)
      as (new1 & H1 & H2 & H3 & H4).
    destruct (extract_2d_edges_step line_type (lines, bbox, n) e)
      as [[lines1 bbox1] n1].
    cbn [fst snd] in H1, H2. subst lines1 n1.
    destruct (IH (lines ++ new1) bbox1 (n + Z.of_nat (length new1))%Z)
      as (new2 & G1 & G2 & G3 & G4).
    exists (new1 ++ new2). rewrite G1, G2, length_app, app_assoc.
    splits; auto.
    + lia.
    + cbn [length]. lia.
    + apply Forall_app. split; assumption.
Qed.

Lemma extract_2d_edges_grows (shape : TopoDS_Compound) (line_type : Z)
    (lines : list Line2DFFI) (bbox : BBox2D) :
  exists new : list Line2DFFI,
    fst (fst (extract_2d_edges shape line_type lines bbox)) = lines ++ new /\
    snd (extract_2d_edges shape line_type lines bbox) = Z.of_nat (length new) /\
    (length new <= compound_size shape)%nat /\
    Forall (fun l => ln_line_type l = line_type) new.
Proof.
  unfold extract_2d_edges. destruct shape as [edges|].
  - destruct (extract_2d_edges_fold_grows line_type edges lines bbox 0)
      as (new & H1 & H2 & H3 & H4).
    exists new. splits; auto.
  - exists []. cbn. rewrite app_nil_r. splits; auto.
Qed.

(** The six calls together: [totalExtracted] counts the lines added. *)
Lemma hlr_extract_all_grows (c : HLRCompounds) (lines : list Line2DFFI)
    (bbox : BBox2D) :
  exists new : list Line2DFFI,
    fst (fst (hlr_extract_all c lines bbox)) = lines ++ new /\
    snd (hlr_extract_all c lines bbox) = Z.of_nat (length new) /\
    (length new <= compounds_size c)%nat.
Proof.
  unfold hlr_extract_all, compounds_size.
  destruct (extract_2d_edges_grows (VCompound c) 0 lines bbox)
    as (w0 & A0 & B0 & C0 & _).
  destruct (extract_2d_edges (VCompound c) 0 lines bbox) as [[l0 b0] n0].
  cbn [fst snd] in A0, B0. subst l0 n0.
  destruct (extract_2d_edges_grows (HCompound c) 1 (lines ++ w0) b0)
    as (w1 & A1 & B1 & C1 & _).
  destruct (extract_2d_edges (HCompound c) 1 (lines ++ w0) b0) as [[l1 b1] n1].
  cbn [fst snd] in A1, B1. subst l1 n1.
  destruct (extract_2d_edges_grows (Rg1LineVCompound c) 2 ((lines ++ w0) ++ w1) b1)
    as (w2 & A2 & B2 & C2 & _).
  destruct (extract_2d_edges (Rg1LineVCompound c) 2 ((lines ++ w0) ++ w1) b1)
    as [[l2 b2] n2].
  cbn [fst snd] in A2, B2. subst l2 n2.
  destruct (extract_2d_edges_grows (Rg1LineHCompound c) 3
              (((lines ++ w0) ++ w1) ++ w2) b2)
    as (w3 & A3 & B3 & C3 & _).
  destruct (extract_2d_edges (Rg1LineHCompound c) 3
              (((lines ++ w0) ++ w1) ++ w2) b2) as [[l3 b3] n3].
  cbn [fst snd] in A3, B3. subst l3 n3.
  destruct (extract_2d_edges_grows (OutLineVCompound c) 4
              ((((lines ++ w0) ++ w1) ++ w2) ++ w3) b3)
    as (w4 & A4 & B4 & C4 & _).
  destruct (extract_2d_edges (OutLineVCompound c) 4
              ((((lines ++ w0) ++ w1) ++ w2) ++ w3) b3) as [[l4 b4] n4].
  cbn [fst snd] in A4, B4. subst l4 n4.
  destruct (extract_2d_edges_grows (OutLineHCompound c) 5
              (((((lines ++ w0) ++ w1) ++ w2) ++ w3) ++ w4) b4)
    as (w5 & A5 & B5 & C5 & _).
  destruct (extract_2d_edges (OutLineHCompound c) 5
              (((((lines ++ w0) ++ w1) ++ w2) ++ w3) ++ w4) b4) as [[l5 b5] n5].
  cbn [fst snd] in A5, B5. subst l5 n5.
  exists (w0 ++ w1 ++ w2 ++ w3 ++ w4 ++ w5). cbn [fst snd].
  rewrite !length_app, <- !app_assoc. splits; [reflexivity| lia | lia].
Qed.

(** ** The bounding-box fallback *)

Lemma Rabs_above_sq (a : R) : 0.9 < Rabs a -> 0.81 < a * a.
Proof. unfold Rabs. destruct (Rcase_abs a); intros H; nra. Qed.

(** On a unit direction at most one component exceeds 0.9, so the order of
    the three tests does not matter. *)
Lemma bbox_edges_rect_plane (b : Bnd_Box) (nx ny nz scale : R) :
  nx * nx + ny * ny + nz * nz = 1 ->
  let rect := bbox_edges_rect b nx ny nz scale in
  (0.9 < Rabs ny ->
   rect = mkBBox (bnd_xmin b * scale) (bnd_zmin b * scale)
                 (bnd_xmax b * scale) (bnd_zmax b * scale)) /\
  (0.9 < Rabs nz ->
   rect = mkBBox (bnd_xmin b * scale) (bnd_ymin b * scale)
                 (bnd_xmax b * scale) (bnd_ymax b * scale)) /\
  (0.9 < Rabs nx ->
   rect = mkBBox (bnd_ymin b * scale) (bnd_zmin b * scale)
                 (bnd_ymax b * scale) (bnd_zmax b * scale)) /\
  (Rabs nx <= 0.9 -> Rabs ny <= 0.9 -> Rabs nz <= 0.9 ->
   rect = mkBBox (bnd_xmin b * scale) (bnd_ymin b * scale)
                 (bnd_xmax b * scale) (bnd_ymax b * scale)).
Proof.
  intros Hu rect. subst rect. unfold bbox_edges_rect, Rltb.
  pose proof (Rle_0_sqr nx) as Px. pose proof (Rle_0_sqr ny) as Py.
  pose proof (Rle_0_sqr nz) as Pz. unfold Rsqr in Px, Py, Pz.
  destruct (Rlt_dec 0.9 (Rabs ny)) as [Hy|Hy];
    destruct (Rlt_dec 0.9 (Rabs nz)) as [Hz|Hz];
    destruct (Rlt_dec 0.9 (Rabs nx)) as [Hx|Hx];
    splits; intros; try reflexivity; try contradiction; try (exfalso; lra);
    repeat match goal with
           | H : 0.9 < Rabs ?a |- _ =>
               pose proof (Rabs_above_sq a H); clear H
           end;
    exfalso; lra.
Qed.

(** What [compute_hlr_projection] returns once the six compounds gave no
    line. *)
Lemma hlr_finish_fallback (shape : OcctShape) (dir_x dir_y dir_z scale : R)
    (c : HLRCompounds) :
  fst (fst (hlr_extract_all c [] bbox_sentinel)) = [] ->
  hlr_finish shape dir_x dir_y dir_z scale c
  = match shape_bnd_box shape with
    | None => mkHLRResult [] bbox_zero
    | Some b =>
        mkHLRResult (rectangle_edges (bbox_edges_rect b dir_x dir_y dir_z scale))
                    (bbox_edges_rect b dir_x dir_y dir_z scale)
    end.
Proof.
  intros Hempty. unfold hlr_finish, hlr_finish_from.
  destruct (hlr_extract_all_grows c [] bbox_sentinel) as (new & A & B & _).
  destruct (hlr_extract_all c [] bbox_sentinel) as [[lines bbox] total].
  cbn [fst snd app] in A, B, Hempty.
  assert (Hnew : new = []) by congruence.
  rewrite Hnew in B. cbn [length] in B. rewrite B, Hempty.
  cbn [is_empty]. unfold extract_bbox_edges.
  destruct (shape_bnd_box shape) as [b|].
  - cbn [app is_empty negb]. rewrite !andb_false_r.
    unfold rectangle_edges. destruct (bbox_edges_rect b dir_x dir_y dir_z scale).
    reflexivity.
  - cbn [is_empty negb]. rewrite !andb_false_r. reflexivity.
Qed.

(** C4, as stated, fails when the kernel reports a void bounding box: the
    fallback then returns before emitting anything, and the result is empty
    with a zeroed box. *)
Lemma hlr_fallback_void_box :
  let shape := sample_shape [] [] no_compounds None in
  fst (fst (hlr_extract_all no_compounds [] bbox_sentinel)) = [] /\
  compute_hlr_projection shape 0 0 1 0 1 0 1 = mkHLRResult [] bbox_zero /\
  length (hp_lines (compute_hlr_projection shape 0 0 1 0 1 0 1)) <> 4%nat.
Proof.
  intros shape.
  assert (He : fst (fst (hlr_extract_all no_compounds [] bbox_sentinel)) = [])
    by reflexivity.
  assert (Hr : compute_hlr_projection shape 0 0 1 0 1 0 1 = mkHLRResult [] bbox_zero).
  { pose proof (hlr_reaches_result shape 0 0 1 0 1 0 1 no_compounds
                  (sample_hlr_reaches [] [] no_compounds None)) as H.
    cbv zeta in H. rewrite H, hlr_finish_fallback by exact He. reflexivity. }
  splits; [exact He | exact Hr |]. rewrite Hr. cbn. discriminate.
Qed.

(** C4, amended.  When the six compounds gave no line and the shape's 3D
    bounding box is not void, the result consists of exactly the 4 edges of
    a rectangle, each tagged 4 (VisibleOutline), and the returned box is that
    rectangle.  The rectangle is the 3D box projected by the normalised view
    direction [n]: on XZ when [|n.y| > 0.9], on XY when [|n.z| > 0.9], on YZ
    when [|n.x| > 0.9], on XY otherwise; each coordinate is multiplied by
    [scale] once. *)
Theorem hlr_fallback_rectangle
    (shape : OcctShape) (dir_x dir_y dir_z up_x up_y up_z scale : R)
    (c : HLRCompounds) (b : Bnd_Box) :
  hlr_reaches shape dir_x dir_y dir_z up_x up_y up_z c ->
  fst (fst (hlr_extract_all c [] bbox_sentinel)) = [] ->
  shape_bnd_box shape = Some b ->
  let len := sqrt (dir_x * dir_x + dir_y * dir_y + dir_z * dir_z) in
  let r := compute_hlr_projection shape dir_x dir_y dir_z up_x up_y up_z scale in
  hp_lines r = rectangle_edges (hp_bbox r) /\
  length (hp_lines r) = 4%nat /\
  Forall (fun l => ln_line_type l = 4%Z) (hp_lines r) /\
  (0.9 < Rabs (dir_y / len) ->
   hp_bbox r = mkBBox (bnd_xmin b * scale) (bnd_zmin b * scale)
                      (bnd_xmax b * scale) (bnd_zmax b * scale)) /\
  (0.9 < Rabs (dir_z / len) ->
   hp_bbox r = mkBBox (bnd_xmin b * scale) (bnd_ymin b * scale)
                      (bnd_xmax b * scale) (bnd_ymax b * scale)) /\
  (0.9 < Rabs (dir_x / len) ->
   hp_bbox r = mkBBox (bnd_ymin b * scale) (bnd_zmin b * scale)
                      (bnd_ymax b * scale) (bnd_zmax b * scale)) /\
  (Rabs (dir_x / len) <= 0.9 -> Rabs (dir_y / len) <= 0.9 ->
   Rabs (dir_z / len) <= 0.9 ->
   hp_bbox r = mkBBox (bnd_xmin b * scale) (bnd_ymin b * scale)
                      (bnd_xmax b * scale) (bnd_ymax b * scale)).
Proof.
  intros Hreach Hempty Hbox len r. subst r.
  pose proof (hlr_reaches_result shape dir_x dir_y dir_z up_x up_y up_z scale c
                Hreach) as Hres.
  cbv zeta in Hres. fold len in Hres.
  rewrite Hres, hlr_finish_fallback, Hbox by exact Hempty.
  cbn [hp_lines hp_bbox].
  assert (Hlen : 0 < len).
  { destruct Hreach as (_ & ? & (_ & Hl & _) & _). fold len in Hl. lra. }
  pose proof (bbox_edges_rect_plane b (dir_x / len) (dir_y / len) (dir_z / len)
                scale (normalized_sq dir_x dir_y dir_z Hlen)) as Hplane.
  cbv zeta in Hplane. destruct Hplane as (Py & Pz & Px & Pd).
  splits; try assumption; try reflexivity.
  unfold rectangle_edges. repeat constructor.
Qed.

Lemma hlr_fallback_rectangle_witness :
  let b := mkBndBox (-1) (-2) (-3) 1 2 3 in
  let r := compute_hlr_projection (sample_shape [] [] no_compounds (Some b))
                                  0 0 1 0 1 0 2 in
  hp_lines r = rectangle_edges (hp_bbox r) /\
  hp_bbox r = mkBBox (-1 * 2) (-2 * 2) (1 * 2) (2 * 2).
Proof.
  intros b.
  destruct (hlr_fallback_rectangle (sample_shape [] [] no_compounds (Some b))
              0 0 1 0 1 0 2 no_compounds b
              (sample_hlr_reaches [] [] no_compounds (Some b))
              eq_refl eq_refl)
    as (Hl & _ & _ & _ & Hz & _).
  split; [exact Hl|]. apply Hz.
  rewrite sqrt_axis_z. unfold Rabs. destruct (Rcase_abs (1 / 1)); lra.
Defined.

(** ** Degenerate edges *)

Lemma Distance_same (p : gp_Pnt) : Distance p p = 0.
Proof.
  unfold Distance, modulus.
  replace ((pX p - pX p) * (pX p - pX p) + (pY p - pY p) * (pY p - pY p) +
           (pZ p - pZ p) * (pZ p - pZ p)) with 0 by ring.
  apply sqrt_0.
Qed.

(** C8.  An edge whose two endpoint evaluations are less than 1e-7 apart is
    dropped by [extract_2d_edges], and by [extract_2d_curves] when it is
    classified as a straight line: the loop body leaves lines, curves, box
    and counters as they were, so a compound made of such an edge alone
    yields no line primitive. *)
Theorem degenerate_line_edge_dropped
    (line_type : Z) (deflection : R) (edge : TopoDS_Edge) (c : EdgeCurve) :
  edge_curve edge = Some c ->
  Distance (ec_startPt c) (ec_endPt c) < 1e-7 ->
  (forall st : edges_state, extract_2d_edges_step line_type st edge = st) /\
  (forall (lines : list Line2DFFI) (bbox : BBox2D),
     extract_2d_edges (Some [edge]) line_type lines bbox = (lines, bbox, 0%Z)) /\
  (edge_type edge = GeomAbs_Line ->
   (forall st : curves_state,
      extract_2d_curves_step line_type deflection st edge = st) /\
   (forall st : curves_state,
      let st' := extract_2d_curves (Some [edge]) line_type deflection st in
      cs_curves st' = cs_curves st /\ cs_polylines st' = cs_polylines st /\
      cs_bbox st' = cs_bbox st /\ cs_num_lines st' = cs_num_lines st /\
      cs_extracted st' = 0%Z)).
Proof.
  intros Hc Hd.
  assert (Hstep : forall st : edges_state,
            extract_2d_edges_step line_type st edge = st).
  { intros [[lines bbox] n]. unfold extract_2d_edges_step. rewrite Hc.
    cbn [ln_start_x ln_start_y ln_end_x ln_end_y].
    rewrite Rleb_true; [reflexivity|].
    pose proof (planar_le_Distance (ec_startPt c) (ec_endPt c)). lra. }
  assert (Hstep2 : edge_type edge = GeomAbs_Line ->
            forall st : curves_state,
              extract_2d_curves_step line_type deflection st edge = st).
  { intros Ht st. unfold extract_2d_curves_step. rewrite Hc, Ht.
    rewrite Rleb_true by lra. reflexivity. }
  splits.
  - exact Hstep.
  - intros lines bbox. unfold extract_2d_edges. cbn [fold_left]. apply Hstep.
  - intros Ht. split; [exact (Hstep2 Ht)|].
    intros st st'. subst st'. unfold extract_2d_curves. cbn [fold_left].
    rewrite (Hstep2 Ht). cbn. auto.
Qed.

Lemma degenerate_line_edge_dropped_witness :
  let p := mkPnt 1 2 3 in
  let edge := mkEdge (Some (mkEdgeCurve 0 1 p p)) GeomAbs_Line false
                     p 0 p 0 0 p (fun _ => []) in
  extract_2d_edges (Some [edge]) 0 [] bbox_sentinel = ([], bbox_sentinel, 0%Z) /\
  cs_curves (extract_2d_curves (Some [edge]) 0 0.01
               (mkCurvesState [] [] bbox_sentinel 0 0 0 0)) = [].
Proof.
  intros p edge.
  assert (Hd : Distance (ec_startPt (mkEdgeCurve 0 1 p p))
                        (ec_endPt (mkEdgeCurve 0 1 p p)) < 1e-7).
  { cbn [ec_startPt ec_endPt]. rewrite Distance_same. lra. }
  destruct (degenerate_line_edge_dropped 0 0.01 edge (mkEdgeCurve 0 1 p p)
              eq_refl Hd) as (_ & He & Hl).
  split; [apply He|].
  destruct (Hl eq_refl) as (_ & Hc).
  apply (Hc (mkCurvesState [] [] bbox_sentinel 0 0 0 0)).
Defined.

(** ** Invalid input *)

Lemma bbox_sentinel_not_zero : bbox_sentinel <> bbox_zero.
Proof.
  unfold bbox_sentinel, bbox_zero. intros H. injection H as H _ _ _.
  pose proof DBL_MAX_pos. lra.
Qed.

(** A plane normal along [z], however short above the kernel's resolution,
    is a valid direction, and the section goes through. *)
Lemma section_reaches_short_normal (nz : R) (cw ow : list TopoDS_Wire)
    (c : HLRCompounds) (box : option Bnd_Box) :
  gp_Resolution < nz -> 0 < nz ->
  section_reaches (sample_shape cw ow c box) 0 0 0 0 0 nz 0 1 0
                  (mkPnt 1 0 0) (mkPnt 0 1 0) cw ow.
Proof.
  intros Hres Hpos.
  destruct (sample_section_reaches cw ow c box)
    as (Hnull & normal & upDir & Hn & Hs & Hu & Hx & Hy).
  split; [exact Hnull|].
  exists normal, upDir. splits; try assumption.
  rewrite <- Hn. unfold gp_Dir.
  assert (Hm : modulus 0 0 nz = nz).
  { unfold modulus. replace (0 * 0 + 0 * 0 + nz * nz) with (nz * nz) by ring.
    apply sqrt_square. lra. }
  rewrite Hm, modulus_axis_z.
  rewrite !Rleb_false by (pose proof gp_Resolution_small; lra).
  unfold kret. do 2 f_equal; field; lra.
Qed.

(** C6, as stated, fails.  For a null shape [compute_hlr_projection] returns
    with the initial extrema in the box, not zeros.  And
    [compute_section_with_hatch] has no test of the normal's length against
    1e-10: with a normal of length 1e-11 the section is computed and the
    result is not empty. *)
Lemma invalid_input_not_short_circuited :
  hp_bbox (compute_hlr_projection null_shape 0 0 1 0 1 0 1) = bbox_sentinel /\
  bbox_sentinel <> bbox_zero /\
  modulus 0 0 1e-11 < 1e-10 /\
  sr_curves (compute_section_with_hatch
               (sample_shape [square_wire] [] no_compounds None)
               0 0 0 0 0 1e-11 0 1 0 45 1) <> [].
Proof.
  splits.
  - reflexivity.
  - exact bbox_sentinel_not_zero.
  - unfold modulus. replace (0 * 0 + 0 * 0 + 1e-11 * 1e-11) with (1e-11 * 1e-11) by ring.
    rewrite sqrt_square by lra. lra.
  - assert (Hr : section_reaches (sample_shape [square_wire] [] no_compounds None)
                   0 0 0 0 0 1e-11 0 1 0 (mkPnt 1 0 0) (mkPnt 0 1 0)
                   [square_wire] []).
    { apply section_reaches_short_normal; [|lra].
      pose proof gp_Resolution_small. lra. }
    rewrite (section_reaches_result _ _ _ _ _ _ _ _ _ _ 45 1 _ _ _ _ Hr).
    pose proof (section_process_facts (mkPnt 0 0 0) (mkPnt 1 0 0) (mkPnt 0 1 0)
                  45 1 [square_wire] []) as F.
    cbv zeta in F. destruct F as (_ & _ & Fc & _).
    intros Hnil. rewrite Hnil in Fc. cbn in Fc. discriminate.
Qed.


(** ** Least and greatest elements *)

Lemma is_min_ext (m : R) (l l' : list R) :
  (forall x, In x l <-> In x l') -> is_min m l -> is_min m l'.
Proof.
  intros H [Hin Hle]. split.
  - apply H, Hin.
  - intros x Hx. apply Hle, H, Hx.
Qed.

Lemma is_max_ext (m : R) (l l' : list R) :
  (forall x, In x l <-> In x l') -> is_max m l -> is_max m l'.
Proof.
  intros H [Hin Hle]. split.
  - apply H, Hin.
  - intros x Hx. apply Hle, H, Hx.
Qed.

Lemma is_min_unique (m m' : R) (l : list R) :
  is_min m l -> is_min m' l -> m = m'.
Proof.
  intros [H1 H2] [H3 H4]. apply Rle_antisym; auto.
Qed.

Lemma is_max_unique (m m' : R) (l : list R) :
  is_max m l -> is_max m' l -> m = m'.
Proof.
  intros [H1 H2] [H3 H4]. apply Rle_antisym; auto.
Qed.

Lemma is_min_fold (add : list R) :
  forall (m : R) (l : list R),
    is_min m l -> is_min (fold_left Rmin add m) (l ++ add).
Proof.
  induction add as [|a add IH]; intros m l H.
  - cbn. rewrite app_nil_r. exact H.
  - cbn [fold_left].
    apply (is_min_ext _ ((l ++ [a]) ++ add)).
    { intros x. rewrite <- app_assoc. reflexivity. }
    apply IH. destruct H as [Hin Hle]. split.
    + apply in_app_iff. unfold Rmin. destruct (Rle_dec m a); [left|right]; cbn; auto.
    + intros x Hx. apply in_app_iff in Hx. destruct Hx as [Hx|[<-|[]]].
      * apply Rle_trans with m; [apply Rmin_l | apply Hle, Hx].
      * apply Rmin_r.
Qed.

Lemma is_max_fold (add : list R) :
  forall (m : R) (l : list R),
    is_max m l -> is_max (fold_left Rmax add m) (l ++ add).
Proof.
  induction add as [|a add IH]; intros m l H.
  - cbn. rewrite app_nil_r. exact H.
  - cbn [fold_left].
    apply (is_max_ext _ ((l ++ [a]) ++ add)).
    { intros x. rewrite <- app_assoc. reflexivity. }
    apply IH. destruct H as [Hin Hle]. split.
    + apply in_app_iff. unfold Rmax. destruct (Rle_dec m a); [right|left]; cbn; auto.
    + intros x Hx. apply in_app_iff in Hx. destruct Hx as [Hx|[<-|[]]].
      * apply Rle_trans with m; [apply Hle, Hx | apply Rmax_l].
      * apply Rmax_r.
Qed.

(** An element above one that is already there does not change the least
    element; likewise below for the greatest. *)
Lemma is_min_above (m x y : R) (l : list R) :
  is_min m l -> In y l -> y <= x -> is_min m (l ++ [x]).
Proof.
  intros [Hin Hle] Hy Hyx. split.
  - apply in_app_iff. left. exact Hin.
  - intros z Hz. apply in_app_iff in Hz. destruct Hz as [Hz|[<-|[]]].
    + apply Hle, Hz.
    + apply Rle_trans with y; [apply Hle, Hy | exact Hyx].
Qed.

Lemma is_max_below (m x y : R) (l : list R) :
  is_max m l -> In y l -> x <= y -> is_max m (l ++ [x]).
Proof.
  intros [Hin Hle] Hy Hyx. split.
  - apply in_app_iff. left. exact Hin.
  - intros z Hz. apply in_app_iff in Hz. destruct Hz as [Hz|[<-|[]]].
    + apply Hle, Hz.
    + apply Rle_trans with y; [exact Hyx | apply Hle, Hy].
Qed.

Lemma list_min_is_min (l : list R) : l <> [] -> is_min (list_min l) l.
Proof.
  destruct l as [|x l]; [congruence|]. intros _. unfold list_min.
  apply (is_min_fold l x [x]). split; [left; reflexivity|].
  intros y [<-|[]]. lra.
Qed.

Lemma list_max_is_max (l : list R) : l <> [] -> is_max (list_max l) l.
Proof.
  destruct l as [|x l]; [congruence|]. intros _. unfold list_max.
  apply (is_max_fold l x [x]). split; [left; reflexivity|].
  intros y [<-|[]]. lra.
Qed.

(** Multiplying by a non-negative factor keeps the least and the greatest
    element in place. *)
Lemma is_min_scale (m s : R) (l : list R) :
  0 <= s -> is_min m l -> is_min (m * s) (map (fun x => x * s) l).
Proof.
  intros Hs [Hin Hle]. split.
  - apply (in_map (fun x => x * s)), Hin.
  - intros x Hx. apply in_map_iff in Hx. destruct Hx as (y & <- & Hy).
    apply Rmult_le_compat_r; [exact Hs | apply Hle, Hy].
Qed.

Lemma is_max_scale (m s : R) (l : list R) :
  0 <= s -> is_max m l -> is_max (m * s) (map (fun x => x * s) l).
Proof.
  intros Hs [Hin Hle]. split.
  - apply (in_map (fun x => x * s)), Hin.
  - intros x Hx. apply in_map_iff in Hx. destruct Hx as (y & <- & Hy).
    apply Rmult_le_compat_r; [exact Hs | apply Hle, Hy].
Qed.

(** The initial value leaves once something not above it is there. *)
Lemma is_min_drop_sentinel (m top : R) (l : list R) :
  l <> [] -> (forall x, In x l -> x <= top) ->
  is_min m (top :: l) -> is_min m l.
Proof.
  intros Hne Htop [Hin Hle]. split.
  - destruct Hin as [<-|Hin]; [|exact Hin].
    destruct l as [|x l]; [congruence|].
    assert (Hx : x = top).
    { apply Rle_antisym; [apply Htop; left; reflexivity|].
      apply Hle. right. left. reflexivity. }
    left. exact Hx.
  - intros x Hx. apply Hle. right. exact Hx.
Qed.

Lemma is_max_drop_sentinel (m bot : R) (l : list R) :
  l <> [] -> (forall x, In x l -> bot <= x) ->
  is_max m (bot :: l) -> is_max m l.
Proof.
  intros Hne Hbot [Hin Hle]. split.
  - destruct Hin as [<-|Hin]; [|exact Hin].
    destruct l as [|x l]; [congruence|].
    assert (Hx : x = bot).
    { apply Rle_antisym; [|apply Hbot; left; reflexivity].
      apply Hle. right. left. reflexivity. }
    left. exact Hx.
  - intros x Hx. apply Hle. right. exact Hx.
Qed.

(** ** Extraction of curves: the running box *)

Lemma emitted_xs_add_curve (cs : list Curve2DFFI) (ps : list Polyline2DFFI)
    (c : Curve2DFFI) (x : R) :
  In x (emitted_xs (cs ++ [c]) ps) <-> In x (emitted_xs cs ps ++ curve_xs c).
Proof.
  unfold emitted_xs. rewrite flat_map_app. cbn [flat_map].
  rewrite app_nil_r, !in_app_iff. tauto.
Qed.

Lemma emitted_ys_add_curve (cs : list Curve2DFFI) (ps : list Polyline2DFFI)
    (c : Curve2DFFI) (y : R) :
  In y (emitted_ys (cs ++ [c]) ps) <-> In y (emitted_ys cs ps ++ curve_ys c).
Proof.
  unfold emitted_ys. rewrite flat_map_app. cbn [flat_map].
  rewrite app_nil_r, !in_app_iff. tauto.
Qed.

Lemma emitted_xs_add_polyline (cs : list Curve2DFFI) (ps : list Polyline2DFFI)
    (p : Polyline2DFFI) :
  emitted_xs cs (ps ++ [p]) = emitted_xs cs ps ++ map tp_x (pl_points p).
Proof.
  unfold emitted_xs. rewrite flat_map_app. cbn [flat_map].
  rewrite app_nil_r, app_assoc. reflexivity.
Qed.

Lemma emitted_ys_add_polyline (cs : list Curve2DFFI) (ps : list Polyline2DFFI)
    (p : Polyline2DFFI) :
  emitted_ys cs (ps ++ [p]) = emitted_ys cs ps ++ map tp_y (pl_points p).
Proof.
  unfold emitted_ys. rewrite flat_map_app. cbn [flat_map].
  rewrite app_nil_r, app_assoc. reflexivity.
Qed.

Lemma Forall_ext_In {A : Type} (P : A -> Prop) (l l' : list A) :
  (forall x, In x l' -> In x l) -> Forall P l -> Forall P l'.
Proof.
  intros H Hl. apply Forall_forall. intros x Hx.
  apply (proj1 (Forall_forall P l) Hl), H, Hx.
Qed.

(** A new curve, with a box that is right for the old coordinates together
    with those of the curve. *)
Lemma curves_inv_add_curve (st : curves_state) (c : Curve2DFFI) (bbox : BBox2D)
    (n1 n2 n3 n4 : Z) :
  let xs := emitted_xs (cs_curves st) (cs_polylines st) in
  let ys := emitted_ys (cs_curves st) (cs_polylines st) in
  curves_inv st ->
  is_min (bb_min_x bbox) (DBL_MAX :: xs ++ curve_xs c) ->
  is_min (bb_min_y bbox) (DBL_MAX :: ys ++ curve_ys c) ->
  is_max (bb_max_x bbox) (- DBL_MAX :: xs ++ curve_xs c) ->
  is_max (bb_max_y bbox) (- DBL_MAX :: ys ++ curve_ys c) ->
  Forall finite (curve_xs c) -> Forall finite (curve_ys c) ->
  curves_inv (mkCurvesState (cs_curves st ++ [c]) (cs_polylines st) bbox
                            n1 n2 n3 n4).
Proof.
  intros xs ys (_ & _ & _ & _ & Fx & Fy & Fp) H1 H2 H3 H4 Gx Gy.
  unfold curves_inv. cbn [cs_curves cs_polylines cs_bbox].
  splits.
  - eapply is_min_ext; [|exact H1]. intros x. cbn [In].
    rewrite emitted_xs_add_curve. reflexivity.
  - eapply is_min_ext; [|exact H2]. intros x. cbn [In].
    rewrite emitted_ys_add_curve. reflexivity.
  - eapply is_max_ext; [|exact H3]. intros x. cbn [In].
    rewrite emitted_xs_add_curve. reflexivity.
  - eapply is_max_ext; [|exact H4]. intros x. cbn [In].
    rewrite emitted_ys_add_curve. reflexivity.
  - apply (Forall_ext_In finite (xs ++ curve_xs c)).
    + intros x. apply emitted_xs_add_curve.
    + apply Forall_app. split; assumption.
  - apply (Forall_ext_In finite (ys ++ curve_ys c)).
    + intros y. apply emitted_ys_add_curve.
    + apply Forall_app. split; assumption.
  - exact Fp.
Qed.

(** The loop over the sampled points. *)
Lemma polyline_points_fold (pts : list gp_Pnt) :
  forall (acc : list TessPoint2D) (bbox : BBox2D),
    fold_left polyline_point_step pts (acc, bbox)
    = (acc ++ map (fun pt => mkTess (pX pt) (pY pt)) pts,
       mkBBox (fold_left Rmin (map pX pts) (bb_min_x bbox))
              (fold_left Rmin (map pY pts) (bb_min_y bbox))
              (fold_left Rmax (map pX pts) (bb_max_x bbox))
              (fold_left Rmax (map pY pts) (bb_max_y bbox))).
Proof.
  induction pts as [|pt pts IH]; intros acc bbox.
  - cbn. rewrite app_nil_r. destruct bbox. reflexivity.
  - cbn [fold_left map]. unfold polyline_point_step at 2.
    rewrite IH. unfold bbox_add_point.
    cbn [bb_min_x bb_min_y bb_max_x bb_max_y].
    rewrite <- app_assoc. reflexivity.
Qed.

Lemma finite_coordinates (pts : list gp_Pnt) :
  Forall finite_pnt pts ->
  Forall finite (map pX pts) /\ Forall finite (map pY pts).
Proof.
  intros H. split; apply Forall_map; eapply Forall_impl; [|exact H| |exact H];
    intros p [Hx Hy]; assumption.
Qed.

Lemma in_coordinates (p : gp_Pnt) (pts : list gp_Pnt) :
  In p pts -> In (pX p) (map pX pts) /\ In (pY p) (map pY pts).
Proof. intros H. split; apply in_map; exact H. Qed.

Lemma tess_coordinates (pts : list gp_Pnt) :
  map tp_x (map (fun pt => mkTess (pX pt) (pY pt)) pts) = map pX pts /\
  map tp_y (map (fun pt => mkTess (pX pt) (pY pt)) pts) = map pY pts.
Proof. rewrite !map_map. split; reflexivity. Qed.

(** One edge keeps the running box right. *)
Lemma extract_2d_curves_step_inv (line_type : Z) (deflection : R)
    (st : curves_state) (e : TopoDS_Edge) :
  edge_regular deflection e -> curves_inv st ->
  curves_inv (extract_2d_curves_step line_type deflection st e).
Proof.
  intros Hreg Hinv. unfold extract_2d_curves_step, edge_regular in *.
  destruct (edge_curve e) as [c|]; [|exact Hinv].
  destruct Hreg as ((Fsx & Fsy) & (Fex & Fey) & Hkind).
  destruct (Rleb (Distance (ec_startPt c) (ec_endPt c)) 1e-7
            && is_GeomAbs_Line (edge_type e)); [exact Hinv|].
  pose proof Hinv as (I1 & I2 & I3 & I4 & Fx & Fy & Fp).
  set (xs := emitted_xs (cs_curves st) (cs_polylines st)) in *.
  set (ys := emitted_ys (cs_curves st) (cs_polylines st)) in *.
  set (sx := pX (ec_startPt c)) in *. set (sy := pY (ec_startPt c)) in *.
  set (ex := pX (ec_endPt c)) in *. set (ey := pY (ec_endPt c)) in *.
  destruct (edge_type e).
  - (* line *)
    apply curves_inv_add_curve; try exact Hinv;
      cbn [curve_xs curve_ys cv_curve_type cv_start_x cv_start_y cv_end_x cv_end_y
           Z.eqb app bb_min_x bb_min_y bb_max_x bb_max_y]; fold xs; fold ys.
    + exact (is_min_fold [sx; ex] _ (DBL_MAX :: xs) I1).
    + exact (is_min_fold [sy; ey] _ (DBL_MAX :: ys) I2).
    + exact (is_max_fold [sx; ex] _ (- DBL_MAX :: xs) I3).
    + exact (is_max_fold [sy; ey] _ (- DBL_MAX :: ys) I4).
    + repeat (apply Forall_cons; [assumption|]); apply Forall_nil.
    + repeat (apply Forall_cons; [assumption|]); apply Forall_nil.
  - (* circle *)
    destruct Hkind as (Hr & G1 & G2 & G3 & G4).
    set (cx := pX (circ_location e)) in *. set (cy := pY (circ_location e)) in *.
    set (r := circ_radius e) in *.
    assert (Ht : forall b : bool, ((if b then 2 else 1) =? 0)%Z = false)
      by (intros []; reflexivity).
    apply curves_inv_add_curve; try exact Hinv;
      cbn [curve_xs curve_ys cv_curve_type cv_start_x cv_start_y cv_end_x cv_end_y
           cv_center_x cv_center_y cv_radius
           app bb_min_x bb_min_y bb_max_x bb_max_y]; rewrite ?Ht; cbn [app];
      fold xs; fold ys.
    + pose proof (is_min_fold [sx; ex; cx - r] _ (DBL_MAX :: xs) I1) as H.
      apply (is_min_above _ (cx + r) (cx - r)) in H;
        [| apply in_app_iff; right; cbn; auto | lra].
      eapply is_min_ext; [|exact H]. intros x. cbn [In app].
      rewrite !in_app_iff. cbn [In]. tauto.
    + pose proof (is_min_fold [sy; ey; cy - r] _ (DBL_MAX :: ys) I2) as H.
      apply (is_min_above _ (cy + r) (cy - r)) in H;
        [| apply in_app_iff; right; cbn; auto | lra].
      eapply is_min_ext; [|exact H]. intros x. cbn [In app].
      rewrite !in_app_iff. cbn [In]. tauto.
    + pose proof (is_max_fold [sx; ex; cx + r] _ (- DBL_MAX :: xs) I3) as H.
      apply (is_max_below _ (cx - r) (cx + r)) in H;
        [| apply in_app_iff; right; cbn; auto | lra].
      eapply is_max_ext; [|exact H]. intros x. cbn [In app].
      rewrite !in_app_iff. cbn [In]. tauto.
    + pose proof (is_max_fold [sy; ey; cy + r] _ (- DBL_MAX :: ys) I4) as H.
      apply (is_max_below _ (cy - r) (cy + r)) in H;
        [| apply in_app_iff; right; cbn; auto | lra].
      eapply is_max_ext; [|exact H]. intros x. cbn [In app].
      rewrite !in_app_iff. cbn [In]. tauto.
    + repeat (apply Forall_cons; [assumption|]); apply Forall_nil.
    + repeat (apply Forall_cons; [assumption|]); apply Forall_nil.
  - (* ellipse *)
    destruct Hkind as (Hr & G1 & G2 & G3 & G4).
    set (cx := pX (elips_location e)) in *. set (cy := pY (elips_location e)) in *.
    set (r := elips_major e) in *.
    apply curves_inv_add_curve; try exact Hinv;
      cbn [curve_xs curve_ys cv_curve_type cv_start_x cv_start_y cv_end_x cv_end_y
           cv_center_x cv_center_y cv_radius Z.eqb
           app bb_min_x bb_min_y bb_max_x bb_max_y]; fold xs; fold ys.
    + pose proof (is_min_fold [sx; ex; cx - r] _ (DBL_MAX :: xs) I1) as H.
      apply (is_min_above _ (cx + r) (cx - r)) in H;
        [| apply in_app_iff; right; cbn; auto | lra].
      eapply is_min_ext; [|exact H]. intros x. cbn [In app].
      rewrite !in_app_iff. cbn [In]. tauto.
    + pose proof (is_min_fold [sy; ey; cy - r] _ (DBL_MAX :: ys) I2) as H.
      apply (is_min_above _ (cy + r) (cy - r)) in H;
        [| apply in_app_iff; right; cbn; auto | lra].
      eapply is_min_ext; [|exact H]. intros x. cbn [In app].
      rewrite !in_app_iff. cbn [In]. tauto.
    + pose proof (is_max_fold [sx; ex; cx + r] _ (- DBL_MAX :: xs) I3) as H.
      apply (is_max_below _ (cx - r) (cx + r)) in H;
        [| apply in_app_iff; right; cbn; auto | lra].
      eapply is_max_ext; [|exact H]. intros x. cbn [In app].
      rewrite !in_app_iff. cbn [In]. tauto.
    + pose proof (is_max_fold [sy; ey; cy + r] _ (- DBL_MAX :: ys) I4) as H.
      apply (is_max_below _ (cy - r) (cy + r)) in H;
        [| apply in_app_iff; right; cbn; auto | lra].
      eapply is_max_ext; [|exact H]. intros x. cbn [In app].
      rewrite !in_app_iff. cbn [In]. tauto.
    + repeat (apply Forall_cons; [assumption|]); apply Forall_nil.
    + repeat (apply Forall_cons; [assumption|]); apply Forall_nil.
  - (* tessellated *)
    destruct Hkind as (Hlen & Hs & He & Hfin).
    set (pts := edge_discretize e deflection) in *.
    replace (2 <=? length pts)%nat with true
      by (symmetry; apply Nat.leb_le; exact Hlen).
    rewrite polyline_points_fold. cbn [app bb_min_x bb_min_y bb_max_x bb_max_y].
    destruct (finite_coordinates pts Hfin) as (Px & Py).
    destruct (in_coordinates _ pts Hs) as (Sx & Sy).
    destruct (in_coordinates _ pts He) as (Ex & Ey).
    destruct (tess_coordinates pts) as (Tx & Ty).
    unfold curves_inv. cbn [cs_curves cs_polylines cs_bbox bb_min_x bb_min_y
                            bb_max_x bb_max_y].
    rewrite emitted_xs_add_polyline, emitted_ys_add_polyline.
    cbn [pl_points]. rewrite Tx, Ty. fold xs. fold ys. fold sx sy ex ey in Sx, Sy, Ex, Ey |- *.
    splits.
    + pose proof (is_min_fold ([sx; ex] ++ map pX pts) _ (DBL_MAX :: xs) I1) as H.
      rewrite fold_left_app in H.
      eapply is_min_ext; [|exact H]. intros x. cbn [In app].
      rewrite !in_app_iff. cbn [In]. split; [|tauto].
      intros [H0|[H0|[H0|[H0|H0]]]]; subst; auto.
    + pose proof (is_min_fold ([sy; ey] ++ map pY pts) _ (DBL_MAX :: ys) I2) as H.
      rewrite fold_left_app in H.
      eapply is_min_ext; [|exact H]. intros x. cbn [In app].
      rewrite !in_app_iff. cbn [In]. split; [|tauto].
      intros [H0|[H0|[H0|[H0|H0]]]]; subst; auto.
    + pose proof (is_max_fold ([sx; ex] ++ map pX pts) _ (- DBL_MAX :: xs) I3) as H.
      rewrite fold_left_app in H.
      eapply is_max_ext; [|exact H]. intros x. cbn [In app].
      rewrite !in_app_iff. cbn [In]. split; [|tauto].
      intros [H0|[H0|[H0|[H0|H0]]]]; subst; auto.
    + pose proof (is_max_fold ([sy; ey] ++ map pY pts) _ (- DBL_MAX :: ys) I4) as H.
      rewrite fold_left_app in H.
      eapply is_max_ext; [|exact H]. intros x. cbn [In app].
      rewrite !in_app_iff. cbn [In]. split; [|tauto].
      intros [H0|[H0|[H0|[H0|H0]]]]; subst; auto.
    + apply Forall_app. split; assumption.
    + apply Forall_app. split; assumption.
    + apply Forall_app. split; [exact Fp|]. constructor; [|constructor].
      cbn [pl_points]. destruct pts; [cbn in Hlen; lia | discriminate].
Qed.

Lemma extract_2d_curves_fold_inv (line_type : Z) (deflection : R)
    (edges : list TopoDS_Edge) :
  forall st : curves_state,
    Forall (edge_regular deflection) edges -> curves_inv st ->
    curves_inv (fold_left (extract_2d_curves_step line_type deflection) edges st).
Proof.
  induction edges as [|e edges IH]; intros st Hreg Hinv; [exact Hinv|].
  cbn [fold_left]. inversion Hreg; subst.
  apply IH; [assumption|]. apply extract_2d_curves_step_inv; assumption.
Qed.

Lemma extract_2d_curves_inv (shape : TopoDS_Compound) (line_type : Z)
    (deflection : R) (st : curves_state) :
  compound_regular deflection shape -> curves_inv st ->
  curves_inv (extract_2d_curves shape line_type deflection st).
Proof.
  intros Hreg Hinv. unfold extract_2d_curves.
  assert (H0 : curves_inv (mkCurvesState (cs_curves st) (cs_polylines st)
                             (cs_bbox st) (cs_num_lines st) (cs_num_arcs st)
                             (cs_num_polylines st) 0)) by exact Hinv.
  destruct shape as [edges|]; [|exact H0].
  apply extract_2d_curves_fold_inv; assumption.
Qed.

Lemma curves_inv_init : curves_inv (mkCurvesState [] [] bbox_sentinel 0 0 0 0).
Proof.
  unfold curves_inv, is_min, is_max. cbn.
  splits; auto; intros x [<-|[]]; lra.
Qed.

Lemma hlr2_extract_all_inv (c : HLRCompounds) (deflection : R) :
  compounds_regular deflection c ->
  curves_inv (fst (hlr2_extract_all c deflection)).
Proof.
  intros (R0 & R1 & R2 & R3 & R4 & R5).
  unfold hlr2_extract_all, hlr2_extract. cbn [fst].
  repeat (apply extract_2d_curves_inv; [assumption|]).
  exact curves_inv_init.
Qed.

(** ** Extraction of curves: the counters *)

Lemma extract_2d_curves_step_count (line_type : Z) (deflection : R)
    (st : curves_state) (e : TopoDS_Edge) :
  let st' := extract_2d_curves_step line_type deflection st e in
  (emitted_count st <= emitted_count st' <= emitted_count st + 1)%nat /\
  (cs_extracted st' - Z.of_nat (emitted_count st')
   = cs_extracted st - Z.of_nat (emitted_count st))%Z.
Proof.
  unfold extract_2d_curves_step, emitted_count.
  destruct (edge_curve e) as [c|]; [|cbn; lia].
  destruct (Rleb _ _ && is_GeomAbs_Line _); [cbn; lia|].
  destruct (edge_type e);
    try (cbn [cs_curves cs_polylines cs_extracted]; rewrite !length_app;
         cbn [length]; lia).
  destruct (2 <=? length (edge_discretize e deflection))%nat.
  - destruct (fold_left polyline_point_step _ _) as [points bbox].
    cbn [cs_curves cs_polylines cs_extracted]. rewrite !length_app.
    cbn [length]. lia.
  - cbn [cs_curves cs_polylines cs_extracted]. lia.
Qed.

Lemma extract_2d_curves_fold_count (line_type : Z) (deflection : R)
    (edges : list TopoDS_Edge) :
  forall st : curves_state,
    let st' := fold_left (extract_2d_curves_step line_type deflection) edges st in
    (emitted_count st <= emitted_count st'
       <= emitted_count st + length edges)%nat /\
    (cs_extracted st' - Z.of_nat (emitted_count st')
     = cs_extracted st - Z.of_nat (emitted_count st))%Z.
Proof.
  induction edges as [|e edges IH]; intros st; [cbn; lia|].
  cbn [fold_left length].
  pose proof (extract_2d_curves_step_count line_type deflection st e) as H1.
  pose proof (IH (extract_2d_curves_step line_type deflection st e)) as H2.
  cbv zeta in *. lia.
Qed.

Lemma extract_2d_curves_count (shape : TopoDS_Compound) (line_type : Z)
    (deflection : R) (st : curves_state) :
  let st' := extract_2d_curves shape line_type deflection st in
  (emitted_count st <= emitted_count st'
     <= emitted_count st + compound_size shape)%nat /\
  cs_extracted st' = (Z.of_nat (emitted_count st') - Z.of_nat (emitted_count st))%Z.
Proof.
  unfold extract_2d_curves. destruct shape as [edges|].
  - match goal with
    | |- context [fold_left _ edges ?s0] =>
        pose proof (extract_2d_curves_fold_count line_type deflection edges s0) as H
    end.
    cbv zeta in *. unfold emitted_count in *.
    cbn [cs_curves cs_polylines cs_extracted compound_size] in *. lia.
  - unfold emitted_count. cbn. lia.
Qed.

Lemma hlr2_extract_count (shape : TopoDS_Compound) (line_type : Z)
    (deflection : R) (st : curves_state) (n : Z) :
  let a := hlr2_extract shape line_type deflection (st, n) in
  (emitted_count st <= emitted_count (fst a)
     <= emitted_count st + compound_size shape)%nat /\
  (snd a - Z.of_nat (emitted_count (fst a)) = n - Z.of_nat (emitted_count st))%Z.
Proof.
  unfold hlr2_extract. cbn [fst snd].
  pose proof (extract_2d_curves_count shape line_type deflection st) as H.
  cbv zeta in H. lia.
Qed.

(** The six calls: nothing is emitted that is not an edge of a compound, and
    [num_edges] counts what was emitted. *)
Lemma hlr2_extract_all_count (c : HLRCompounds) (deflection : R) :
  let a := hlr2_extract_all c deflection in
  (emitted_count (fst a) <= compounds_size c)%nat /\
  snd a = Z.of_nat (emitted_count (fst a)).
Proof.
  unfold hlr2_extract_all, compounds_size.
  set (a0 := (mkCurvesState [] [] bbox_sentinel 0 0 0 0, 0%Z)).
  set (a1 := hlr2_extract (VCompound c) 0 deflection a0).
  set (a2 := hlr2_extract (HCompound c) 1 deflection a1).
  set (a3 := hlr2_extract (Rg1LineVCompound c) 2 deflection a2).
  set (a4 := hlr2_extract (Rg1LineHCompound c) 3 deflection a3).
  set (a5 := hlr2_extract (OutLineVCompound c) 4 deflection a4).
  pose proof (hlr2_extract_count (VCompound c) 0 deflection (fst a0) (snd a0)) as H1.
  pose proof (hlr2_extract_count (HCompound c) 1 deflection (fst a1) (snd a1)) as H2.
  pose proof (hlr2_extract_count (Rg1LineVCompound c) 2 deflection (fst a2) (snd a2)) as H3.
  pose proof (hlr2_extract_count (Rg1LineHCompound c) 3 deflection (fst a3) (snd a3)) as H4.
  pose proof (hlr2_extract_count (OutLineVCompound c) 4 deflection (fst a4) (snd a4)) as H5.
  pose proof (hlr2_extract_count (OutLineHCompound c) 5 deflection (fst a5) (snd a5)) as H6.
  rewrite <- !surjective_pairing in *.
  fold a1 in H1. fold a2 in H2. fold a3 in H3. fold a4 in H4. fold a5 in H5.
  cbv zeta in *.
  change (emitted_count (fst a0)) with 0%nat in *.
  change (snd a0) with 0%Z in *.
  lia.
Qed.

(** ** The returned box *)

Lemma curve_xs_scale (s : R) (c : Curve2DFFI) :
  curve_xs (scale_curve s c) = map (fun x => x * s) (curve_xs c).
Proof.
  unfold curve_xs, scale_curve.
  cbn [cv_curve_type cv_start_x cv_end_x cv_center_x cv_radius].
  destruct (cv_curve_type c =? 0)%Z; cbn [app map]; [reflexivity|].
  do 2 f_equal. f_equal; [ring | f_equal; ring].
Qed.

Lemma curve_ys_scale (s : R) (c : Curve2DFFI) :
  curve_ys (scale_curve s c) = map (fun y => y * s) (curve_ys c).
Proof.
  unfold curve_ys, scale_curve.
  cbn [cv_curve_type cv_start_y cv_end_y cv_center_y cv_radius].
  destruct (cv_curve_type c =? 0)%Z; cbn [app map]; [reflexivity|].
  do 2 f_equal. f_equal; [ring | f_equal; ring].
Qed.

Lemma emitted_xs_scale (s : R) (cs : list Curve2DFFI) (ps : list Polyline2DFFI) :
  emitted_xs (map (scale_curve s) cs) (map (scale_polyline s) ps)
  = map (fun x => x * s) (emitted_xs cs ps).
Proof.
  unfold emitted_xs. rewrite map_app. f_equal.
  - induction cs as [|c cs IH]; [reflexivity|].
    cbn [map flat_map]. rewrite map_app, IH, curve_xs_scale. reflexivity.
  - induction ps as [|p ps IH]; [reflexivity|].
    cbn [map flat_map]. rewrite map_app, IH. f_equal.
    unfold scale_polyline. cbn [pl_points]. rewrite !map_map. reflexivity.
Qed.

Lemma emitted_ys_scale (s : R) (cs : list Curve2DFFI) (ps : list Polyline2DFFI) :
  emitted_ys (map (scale_curve s) cs) (map (scale_polyline s) ps)
  = map (fun y => y * s) (emitted_ys cs ps).
Proof.
  unfold emitted_ys. rewrite map_app. f_equal.
  - induction cs as [|c cs IH]; [reflexivity|].
    cbn [map flat_map]. rewrite map_app, IH, curve_ys_scale. reflexivity.
  - induction ps as [|p ps IH]; [reflexivity|].
    cbn [map flat_map]. rewrite map_app, IH. f_equal.
    unfold scale_polyline. cbn [pl_points]. rewrite !map_map. reflexivity.
Qed.

(** Something emitted means some coordinate. *)
Lemma emitted_nonempty (cs : list Curve2DFFI) (ps : list Polyline2DFFI) :
  is_empty cs && is_empty ps = false ->
  Forall (fun p => pl_points p <> []) ps ->
  emitted_xs cs ps <> [] /\ emitted_ys cs ps <> [].
Proof.
  intros Hne Hp. unfold emitted_xs, emitted_ys.
  destruct cs as [|c cs].
  - destruct ps as [|p ps]; [discriminate|].
    inversion Hp as [|? ? Hpts _]; subst.
    destruct (pl_points p) as [|pt pts] eqn:E; [congruence|].
    cbn [flat_map app]. rewrite E. cbn. split; discriminate.
  - cbn. split; discriminate.
Qed.

(** A box whose extrema are those of the coordinates and of the initial
    values is the extent of the coordinates, once there are some and none
    exceeds the initial values. *)
Lemma box_is_extent (b : BBox2D) (xs ys : list R) (top : R) :
  xs <> [] -> ys <> [] ->
  (forall x, In x xs -> - top <= x <= top) ->
  (forall y, In y ys -> - top <= y <= top) ->
  is_min (bb_min_x b) (top :: xs) -> is_min (bb_min_y b) (top :: ys) ->
  is_max (bb_max_x b) (- top :: xs) -> is_max (bb_max_y b) (- top :: ys) ->
  b = extent xs ys.
Proof.
  intros Hx Hy Fx Fy I1 I2 I3 I4. destruct b as [a1 a2 a3 a4].
  cbn [bb_min_x bb_min_y bb_max_x bb_max_y] in *. unfold extent.
  apply is_min_drop_sentinel in I1; [|exact Hx|intros x Hin; apply Fx, Hin].
  apply is_min_drop_sentinel in I2; [|exact Hy|intros y Hin; apply Fy, Hin].
  apply is_max_drop_sentinel in I3; [|exact Hx|intros x Hin; apply Fx, Hin].
  apply is_max_drop_sentinel in I4; [|exact Hy|intros y Hin; apply Fy, Hin].
  rewrite (is_min_unique _ _ _ I1 (list_min_is_min xs Hx)).
  rewrite (is_min_unique _ _ _ I2 (list_min_is_min ys Hy)).
  rewrite (is_max_unique _ _ _ I3 (list_max_is_max xs Hx)).
  rewrite (is_max_unique _ _ _ I4 (list_max_is_max ys Hy)).
  reflexivity.
Qed.

Lemma finite_scaled (s : R) (l : list R) :
  0 <= s -> Forall finite l ->
  forall x, In x (map (fun x => x * s) l) -> - (DBL_MAX * s) <= x <= DBL_MAX * s.
Proof.
  intros Hs Hl x Hx. apply in_map_iff in Hx. destruct Hx as (y & <- & Hy).
  destruct (proj1 (Forall_forall finite l) Hl y Hy) as [H1 H2]. nra.
Qed.

Lemma map_nonempty {A B : Type} (f : A -> B) (l : list A) :
  l <> [] -> map f l <> [].
Proof. destruct l; [congruence | discriminate]. Qed.

(** The end of [compute_hlr_projection_v2] on a state whose running box is
    right. *)
Lemma hlr2_finish_box (scale deflection : R) (c : HLRCompounds) :
  0 <= scale -> compounds_regular deflection c ->
  let r := hlr2_finish scale deflection c in
  h2_bbox r
  = if is_empty (h2_curves r) && is_empty (h2_polylines r) then bbox_zero
    else extent (emitted_xs (h2_curves r) (h2_polylines r))
                (emitted_ys (h2_curves r) (h2_polylines r)).
Proof.
  intros Hs Hreg r. subst r. unfold hlr2_finish, hlr2_finish_from.
  pose proof (hlr2_extract_all_inv c deflection Hreg) as Hinv.
  destruct (hlr2_extract_all c deflection) as [st n]. cbn [fst] in Hinv.
  destruct Hinv as (I1 & I2 & I3 & I4 & Fx & Fy & Fp).
  set (xs := emitted_xs (cs_curves st) (cs_polylines st)) in *.
  set (ys := emitted_ys (cs_curves st) (cs_polylines st)) in *.
  destruct (Reqb scale 1); cbn [negb h2_bbox h2_curves h2_polylines].
  - destruct (is_empty (cs_curves st) && is_empty (cs_polylines st)) eqn:E;
      [reflexivity|].
    destruct (emitted_nonempty _ _ E Fp) as (Nx & Ny). fold xs in Nx. fold ys in Ny.
    apply (box_is_extent _ xs ys DBL_MAX); try assumption.
    + intros x Hx. exact (proj1 (Forall_forall finite xs) Fx x Hx).
    + intros y Hy. exact (proj1 (Forall_forall finite ys) Fy y Hy).
  - assert (Hemp : is_empty (map (scale_curve scale) (cs_curves st))
                   && is_empty (map (scale_polyline scale) (cs_polylines st))
                   = is_empty (cs_curves st) && is_empty (cs_polylines st)).
    { destruct (cs_curves st); destruct (cs_polylines st); reflexivity. }
    rewrite Hemp.
    destruct (is_empty (cs_curves st) && is_empty (cs_polylines st)) eqn:E;
      [reflexivity|].
    destruct (emitted_nonempty _ _ E Fp) as (Nx & Ny). fold xs in Nx. fold ys in Ny.
    rewrite emitted_xs_scale, emitted_ys_scale. fold xs. fold ys.
    apply (box_is_extent _ _ _ (DBL_MAX * scale)).
    + apply map_nonempty, Nx.
    + apply map_nonempty, Ny.
    + apply finite_scaled; assumption.
    + apply finite_scaled; assumption.
    + exact (is_min_scale _ scale _ Hs I1).
    + exact (is_min_scale _ scale _ Hs I2).
    + replace (- (DBL_MAX * scale)) with (- DBL_MAX * scale) by ring.
      exact (is_max_scale _ scale _ Hs I3).
    + replace (- (DBL_MAX * scale)) with (- DBL_MAX * scale) by ring.
      exact (is_max_scale _ scale _ Hs I4).
Qed.

Lemma Distance_unit_diagonal : 1e-7 < Distance (mkPnt 0 0 0) (mkPnt 1 1 0).
Proof.
  unfold Distance, modulus. cbn [pX pY pZ]. apply sqrt_gt; lra.
Qed.

(** A null compound leaves everything but the counter of the call. *)
Lemma hlr2_extract_null (line_type : Z) (deflection : R)
    (cs : list Curve2DFFI) (ps : list Polyline2DFFI) (bbox : BBox2D)
    (n1 n2 n3 n4 n : Z) :
  hlr2_extract None line_type deflection
               (mkCurvesState cs ps bbox n1 n2 n3 n4, n)
  = (mkCurvesState cs ps bbox n1 n2 n3 0, (n + 0)%Z).
Proof. reflexivity. Qed.

(** A straight edge longer than 1e-7 becomes one line primitive. *)
Lemma extract_2d_curves_step_line (line_type : Z) (deflection : R)
    (cs : list Curve2DFFI) (ps : list Polyline2DFFI) (bbox : BBox2D)
    (n1 n2 n3 n4 : Z) (a b : gp_Pnt) :
  1e-7 < Distance a b ->
  extract_2d_curves_step line_type deflection
    (mkCurvesState cs ps bbox n1 n2 n3 n4) (line_edge a b)
  = mkCurvesState
      (cs ++ [mkCurve2D 0 line_type (pX a) (pY a) (pX b) (pY b)
                        0 0 0 0 0 0 0 0 false])
      ps
      (mkBBox (Rmin3 (bb_min_x bbox) (pX a) (pX b))
              (Rmin3 (bb_min_y bbox) (pY a) (pY b))
              (Rmax3 (bb_max_x bbox) (pX a) (pX b))
              (Rmax3 (bb_max_y bbox) (pY a) (pY b)))
      (n1 + 1) n2 n3 (n4 + 1).
Proof.
  intros Hd. unfold extract_2d_curves_step, line_edge.
  cbn [edge_curve edge_type ec_first ec_last ec_startPt ec_endPt is_GeomAbs_Line
       cs_curves cs_polylines cs_bbox cs_num_lines cs_num_arcs cs_num_polylines
       cs_extracted].
  rewrite Rleb_false by lra. reflexivity.
Qed.

Lemma hlr2_extract_all_one_line (deflection : R) (a b : gp_Pnt) :
  1e-7 < Distance a b ->
  fst (hlr2_extract_all (one_visible_edge (line_edge a b)) deflection)
  = mkCurvesState
      [mkCurve2D 0 0 (pX a) (pY a) (pX b) (pY b) 0 0 0 0 0 0 0 0 false] []
      (mkBBox (Rmin3 DBL_MAX (pX a) (pX b)) (Rmin3 DBL_MAX (pY a) (pY b))
              (Rmax3 (- DBL_MAX) (pX a) (pX b)) (Rmax3 (- DBL_MAX) (pY a) (pY b)))
      1 0 0 0.
Proof.
  intros Hd. unfold hlr2_extract_all, one_visible_edge.
  cbn [VCompound HCompound Rg1LineVCompound Rg1LineHCompound OutLineVCompound
       OutLineHCompound].
  unfold hlr2_extract at 6. unfold extract_2d_curves.
  cbn [cs_curves cs_polylines cs_bbox cs_num_lines cs_num_arcs cs_num_polylines
       fold_left].
  rewrite extract_2d_curves_step_line by exact Hd.
  cbn [cs_extracted app bbox_sentinel bb_min_x bb_min_y bb_max_x bb_max_y].
  rewrite !hlr2_extract_null. reflexivity.
Qed.

(** C5, as stated, fails for a negative scale: the two corners of the box
    are multiplied by the scale and change sides.  One visible straight edge
    from (0,0) to (1,1) with scale -1 is drawn from (0,0) to (-1,-1); the
    returned box has [min = (0,0)] and [max = (-1,-1)]. *)
Lemma hlr2_box_negative_scale :
  let shape := sample_shape [] []
                 (one_visible_edge (line_edge (mkPnt 0 0 0) (mkPnt 1 1 0))) None in
  let r := compute_hlr_projection_v2 shape 0 0 1 0 1 0 (-1) 0.01 in
  emitted_xs (h2_curves r) (h2_polylines r) = [0 * -1; 1 * -1] /\
  emitted_ys (h2_curves r) (h2_polylines r) = [0 * -1; 1 * -1] /\
  h2_bbox r = mkBBox 0 0 (-1) (-1) /\
  extent (emitted_xs (h2_curves r) (h2_polylines r))
         (emitted_ys (h2_curves r) (h2_polylines r)) = mkBBox (-1) (-1) 0 0 /\
  h2_bbox r <> extent (emitted_xs (h2_curves r) (h2_polylines r))
                      (emitted_ys (h2_curves r) (h2_polylines r)).
Proof.
  intros shape r. subst r shape.
  rewrite (hlr2_reaches_result _ 0 0 1 0 1 0 (-1) 0.01 _
             (sample_hlr2_reaches [] [] _ None)).
  unfold hlr2_finish, hlr2_finish_from.
  pose proof (hlr2_extract_all_one_line (effective_deflection 0.01)
                (mkPnt 0 0 0) (mkPnt 1 1 0) Distance_unit_diagonal) as Hst.
  destruct (hlr2_extract_all _ _) as [st n]. cbn [fst] in Hst. subst st.
  cbn [cs_curves cs_polylines cs_bbox cs_num_lines cs_num_arcs cs_num_polylines
       pX pY].
  rewrite (Reqb_false (-1) 1) by lra.
  cbn [negb map is_empty andb h2_curves h2_polylines h2_bbox].
  assert (Hx : emitted_xs [scale_curve (-1)
                 (mkCurve2D 0 0 0 0 1 1 0 0 0 0 0 0 0 0 false)] [] = [0 * -1; 1 * -1])
    by reflexivity.
  assert (Hy : emitted_ys [scale_curve (-1)
                 (mkCurve2D 0 0 0 0 1 1 0 0 0 0 0 0 0 0 false)] [] = [0 * -1; 1 * -1])
    by reflexivity.
  rewrite Hx, Hy.
  assert (Hb : bbox_scale
                 (mkBBox (Rmin3 DBL_MAX 0 1) (Rmin3 DBL_MAX 0 1)
                         (Rmax3 (- DBL_MAX) 0 1) (Rmax3 (- DBL_MAX) 0 1)) (-1)
               = mkBBox 0 0 (-1) (-1)).
  { pose proof DBL_MAX_pos as HD.
    unfold bbox_scale, Rmin3, Rmax3.
    cbn [bb_min_x bb_min_y bb_max_x bb_max_y].
    rewrite (Rmin_right DBL_MAX 0) by lra. rewrite (Rmin_left 0 1) by lra.
    rewrite (Rmax_right (- DBL_MAX) 0) by lra. rewrite (Rmax_right 0 1) by lra.
    f_equal; lra. }
  assert (He : extent [0 * -1; 1 * -1] [0 * -1; 1 * -1] = mkBBox (-1) (-1) 0 0).
  { unfold extent, list_min, list_max. cbn [fold_left].
    rewrite (Rmin_right (0 * -1) (1 * -1)) by lra.
    rewrite (Rmax_left (0 * -1) (1 * -1)) by lra.
    f_equal; lra. }
  rewrite Hb, He. splits; try reflexivity.
  intros H. injection H as H _ _ _. lra.
Qed.

(** C5, amended.  When the call gets as far as the extraction, the scale is
    not negative, the kernel's values are finite with non-negative radii, and
    every tessellated edge is sampled in at least two points that include its
    two end points, the returned box is the componentwise minimum and maximum
    over the coordinates of the emitted primitives: the end points of every
    curve, [center - radius] and [center + radius] for arcs, circles and
    ellipses (the radius of an ellipse being its major radius), and the points
    of every polyline.  It is the zero rectangle when nothing was emitted. *)
Theorem hlr2_box_is_extent
    (shape : OcctShape)
    (dir_x dir_y dir_z up_x up_y up_z scale deflection : R) (c : HLRCompounds) :
  hlr2_reaches shape dir_x dir_y dir_z up_x up_y up_z c ->
  0 <= scale ->
  compounds_regular (effective_deflection deflection) c ->
  let r := compute_hlr_projection_v2 shape dir_x dir_y dir_z up_x up_y up_z
                                     scale deflection in
  h2_bbox r
  = if is_empty (h2_curves r) && is_empty (h2_polylines r) then bbox_zero
    else extent (emitted_xs (h2_curves r) (h2_polylines r))
                (emitted_ys (h2_curves r) (h2_polylines r)).
Proof.
  intros Hreach Hs Hreg r. subst r.
  rewrite (hlr2_reaches_result _ _ _ _ _ _ _ scale deflection _ Hreach).
  apply hlr2_finish_box; assumption.
Qed.

Lemma finite_small (x : R) : -1 <= x <= 1 -> finite x.
Proof.
  intros H. unfold finite.
  assert (1 <= DBL_MAX) by (unfold DBL_MAX; apply IZR_le; discriminate).
  lra.
Qed.

Lemma hlr2_box_is_extent_witness :
  let shape := sample_shape [] []
                 (one_visible_edge (line_edge (mkPnt 0 0 0) (mkPnt 1 1 0))) None in
  let r := compute_hlr_projection_v2 shape 0 0 1 0 1 0 2 0.01 in
  h2_bbox r
  = if is_empty (h2_curves r) && is_empty (h2_polylines r) then bbox_zero
    else extent (emitted_xs (h2_curves r) (h2_polylines r))
                (emitted_ys (h2_curves r) (h2_polylines r)).
Proof.
  intros shape.
  apply (hlr2_box_is_extent shape 0 0 1 0 1 0 2 0.01
           (one_visible_edge (line_edge (mkPnt 0 0 0) (mkPnt 1 1 0)))).
  - apply sample_hlr2_reaches.
  - lra.
  - unfold compounds_regular, one_visible_edge, compound_regular.
    cbn [VCompound HCompound Rg1LineVCompound Rg1LineHCompound OutLineVCompound
         OutLineHCompound].
    splits; auto. constructor; [|constructor].
    unfold edge_regular, line_edge, finite_pnt.
    cbn [edge_curve edge_type ec_startPt ec_endPt pX pY].
    splits; auto; apply finite_small; lra.
Defined.

(** ** No fallback in the second entry point *)

Lemma length_zero_nil {A : Type} (l : list A) : length l = 0%nat -> l = [].
Proof. destruct l; [reflexivity | discriminate]. Qed.

Lemma hlr2_finish_emitted (scale deflection : R) (c : HLRCompounds) :
  let r := hlr2_finish scale deflection c in
  let st := fst (hlr2_extract_all c deflection) in
  length (h2_curves r) = length (cs_curves st) /\
  length (h2_polylines r) = length (cs_polylines st) /\
  h2_num_edges r = snd (hlr2_extract_all c deflection) /\
  (cs_curves st = [] -> cs_polylines st = [] ->
   h2_curves r = [] /\ h2_polylines r = [] /\ h2_bbox r = bbox_zero).
Proof.
  unfold hlr2_finish, hlr2_finish_from.
  destruct (hlr2_extract_all c deflection) as [st n]. cbn [fst snd].
  destruct (negb (Reqb scale 1));
    cbn [h2_curves h2_polylines h2_bbox h2_num_edges];
    rewrite ?length_map; splits; try reflexivity;
    intros Hc Hp; rewrite Hc, Hp; cbn; auto.
Qed.

(** C10.  [compute_hlr_projection_v2] emits nothing that is not an edge of
    one of the six compounds: the curves and polylines are at most as many as
    those edges.  When the extraction gave neither curve nor polyline, and so
    in particular when the compounds hold no edge, it returns empty lists and
    the box (0,0)-(0,0), where [compute_hlr_projection] emits the 4 edges of
    the bounding rectangle if the shape's box is not void.  Its result does
    not depend on the counts of faces and edges nor on the bounding box of
    the shape, while [compute_hlr_projection] returns at once, without
    lines, for a shape with no face and no edge. *)
Theorem hlr2_has_no_fallback
    (shape : OcctShape)
    (dir_x dir_y dir_z up_x up_y up_z scale deflection : R) (c : HLRCompounds) :
  hlr2_reaches shape dir_x dir_y dir_z up_x up_y up_z c ->
  let r := compute_hlr_projection_v2 shape dir_x dir_y dir_z up_x up_y up_z
                                     scale deflection in
  let st := fst (hlr2_extract_all c (effective_deflection deflection)) in
  (length (h2_curves r) + length (h2_polylines r) <= compounds_size c)%nat /\
  (cs_curves st = [] -> cs_polylines st = [] ->
   h2_curves r = [] /\ h2_polylines r = [] /\ h2_bbox r = bbox_zero) /\
  (compounds_size c = 0%nat ->
   h2_curves r = [] /\ h2_polylines r = [] /\ h2_bbox r = bbox_zero) /\
  (forall (faces edges vertices : nat) (box : option Bnd_Box),
     compute_hlr_projection_v2 (with_topology shape faces edges vertices box)
       dir_x dir_y dir_z up_x up_y up_z scale deflection = r) /\
  (forall (vertices : nat) (box : option Bnd_Box),
     hp_lines (compute_hlr_projection (with_topology shape 0 0 vertices box)
                 dir_x dir_y dir_z up_x up_y up_z scale) = []) /\
  (forall (faces edges vertices : nat) (b : Bnd_Box),
     (faces <> 0 \/ edges <> 0)%nat -> compounds_size c = 0%nat ->
     length (hp_lines (compute_hlr_projection
                         (with_topology shape faces edges vertices (Some b))
                         dir_x dir_y dir_z up_x up_y up_z scale)) = 4%nat).
Proof.
  intros Hreach r st. subst r st.
  rewrite (hlr2_reaches_result _ _ _ _ _ _ _ scale deflection _ Hreach).
  set (d := effective_deflection deflection).
  pose proof (hlr2_finish_emitted scale d c) as F. cbv zeta in F.
  destruct F as (Fc & Fp & _ & Fe).
  pose proof (hlr2_extract_all_count c d) as C. cbv zeta in C.
  destruct C as (Cle & _). unfold emitted_count in Cle.
  splits.
  - rewrite Fc, Fp. exact Cle.
  - exact Fe.
  - intros Hz. apply Fe; apply length_zero_nil; lia.
  - intros faces edges vertices box.
    assert (Hreach' : hlr2_reaches (with_topology shape faces edges vertices box)
                        dir_x dir_y dir_z up_x up_y up_z c) by exact Hreach.
    rewrite (hlr2_reaches_result _ _ _ _ _ _ _ scale deflection _ Hreach').
    reflexivity.
  - intros vertices box. unfold compute_hlr_projection, hlr_try.
    cbn [count_shape_topology with_topology topo_faces topo_edges topo_vertices
         is_null Nat.eqb andb].
    destruct (is_null shape); reflexivity.
  - intros faces edges vertices b Htopo Hz.
    assert (Hreach' : hlr_reaches (with_topology shape faces edges vertices (Some b))
                        dir_x dir_y dir_z up_x up_y up_z c)
      by (destruct Hreach as (extractor & Hst & Hg & _);
          split; [exact Htopo | exists extractor; split; [exact Hst | exact Hg]]).
    pose proof (hlr_reaches_result _ _ _ _ _ _ _ scale _ Hreach') as Hres.
    cbv zeta in Hres. rewrite Hres.
    rewrite hlr_finish_fallback.
    + reflexivity.
    + destruct (hlr_extract_all_grows c [] bbox_sentinel) as (new & A & _ & B).
      rewrite A. cbn [app]. apply length_zero_nil. lia.
Qed.

Lemma hlr2_has_no_fallback_witness :
  let b := mkBndBox (-1) (-2) (-3) 1 2 3 in
  let shape := sample_shape [] [] no_compounds (Some b) in
  h2_curves (compute_hlr_projection_v2 shape 0 0 1 0 1 0 2 0.01) = [] /\
  h2_polylines (compute_hlr_projection_v2 shape 0 0 1 0 1 0 2 0.01) = [] /\
  h2_bbox (compute_hlr_projection_v2 shape 0 0 1 0 1 0 2 0.01) = bbox_zero.
Proof.
  intros b shape.
  destruct (hlr2_has_no_fallback shape 0 0 1 0 1 0 2 0.01 no_compounds
              (sample_hlr2_reaches [] [] no_compounds (Some b)))
    as (_ & _ & Hz & _).
  exact (Hz eq_refl).
Defined.

(** * Further properties *)

(** ** Sorting *)

Lemma sort_insert_In (x y : R) (l : list R) :
  In y (sort_insert x l) <-> y = x \/ In y l.
Proof.
  induction l as [|z l IH]; cbn [sort_insert].
  - cbn. intuition.
  - destruct (Rleb x z); cbn [In]; [intuition|].
    rewrite IH. intuition.
Qed.

Lemma std_sort_In (y : R) (l : list R) : In y (std_sort l) <-> In y l.
Proof.
  unfold std_sort. induction l as [|x l IH]; cbn [fold_right]; [reflexivity|].
  rewrite sort_insert_In, IH. cbn. intuition.
Qed.



Lemma sort_insert_sorted (x : R) (l : list R) :
  StronglySorted Rle l -> StronglySorted Rle (sort_insert x l).
Proof.
  induction l as [|z l IH]; intros Hs; cbn [sort_insert].
  - constructor; constructor.
  - inversion Hs as [|? ? Hl Hz]; subst.
    unfold Rleb. destruct (Rle_dec x z) as [Hxz|Hxz].
    + constructor; [exact Hs|]. constructor; [exact Hxz|].
      eapply Forall_impl; [|exact Hz]. intros a Ha. lra.
    + constructor; [apply IH, Hl|].
      apply Forall_forall. intros a Ha. apply sort_insert_In in Ha.
      destruct Ha as [->|Ha]; [lra|].
      exact (proj1 (Forall_forall _ _) Hz a Ha).
Qed.

Lemma std_sort_sorted (l : list R) : StronglySorted Rle (std_sort l).
Proof.
  unfold std_sort. induction l as [|x l IH]; cbn [fold_right].
  - constructor.
  - apply sort_insert_sorted, IH.
Qed.

(** ** Hatch segments *)

(** Induction two elements at a time, as the pairing loop goes. *)
Lemma pair_induction {A : Type} (P : list A -> Prop) :
  P [] -> (forall a, P [a]) ->
  (forall a b l, P l -> P (a :: b :: l)) ->
  forall l, P l.
Proof.
  intros H0 H1 H2.
  assert (H : forall l, P l /\ forall a, P (a :: l)).
  { induction l as [|b l [IH1 IH2]]; split; auto. }
  intros l. apply H.
Qed.

(** What a segment of one hatch line is made of. *)
Lemma hatch_segments_In (hx hy c s : R) (ts : list R) (seg : HatchLineFFI) :
  c * c + s * s = 1 -> StronglySorted Rle ts ->
  In seg (hatch_segments hx hy c s ts) ->
  exists t1 t2 : R,
    In t1 ts /\ In t2 ts /\ 1e-6 < t2 - t1 /\
    seg = mkHatchLine (hx + t1 * c) (hy + t1 * s) (hx + t2 * c) (hy + t2 * s).
Proof.
  intros Hu. revert ts.
  apply (pair_induction (fun ts => StronglySorted Rle ts ->
           In seg (hatch_segments hx hy c s ts) -> _)).
  - intros _ [].
  - intros a _ [].
  - intros a b l IH Hs Hin. cbn [hatch_segments] in Hin.
    inversion Hs as [|? ? Hs1 Ha]; subst.
    inversion Hs1 as [|? ? Hs2 Hb]; subst.
    apply in_app_iff in Hin. destruct Hin as [Hin|Hin].
    + cbn [hl_start_x hl_start_y hl_end_x hl_end_y] in Hin.
      rewrite hatch_segment_length in Hin by exact Hu.
      destruct (Rltb 1e-6 (Rabs (b - a))) eqn:E; [|destruct Hin].
      destruct Hin as [<-|[]].
      apply Rltb_iff in E.
      assert (Hab : a <= b) by (inversion Ha; assumption).
      rewrite Rabs_right in E by lra.
      exists a, b. cbn [In]. auto 6.
    + destruct (IH Hs2 Hin) as (t1 & t2 & H1 & H2 & H3 & H4).
      exists t1, t2. cbn [In]. auto 6.
Qed.


(** A collected parameter is the position, along the hatch line, of a point
    of the edge it came from. *)
Lemma hatch_edge_crossing_on_edge (b : list point2) (c s hx hy : R) (j : nat)
    (t : R) :
  c * c + s * s = 1 ->
  hatch_edge_crossing b c s hx hy j = Some t ->
  on_segment (hx + t * c, hy + t * s) (polygon_edge b j).
Proof.
  intros Hu. unfold hatch_edge_crossing, polygon_edge, on_segment.
  destruct (nth_point b j) as [x1 y1].
  destruct (nth_point b ((j + 1) mod length b)) as [x2 y2].
  cbn [fst snd].
  set (denom := (x2 - x1) * s - (y2 - y1) * c).
  unfold Rltb, Rleb.
  destruct (Rlt_dec (Rabs denom) 1e-10) as [Hd|Hd]; [discriminate|].
  set (te := ((hx - x1) * s - (hy - y1) * c) / denom).
  destruct (Rle_dec 0 te) as [H0|H0]; [|discriminate].
  destruct (Rle_dec te 1) as [H1|H1]; [|discriminate].
  cbn [andb]. intros Ht. injection Ht as <-.
  assert (Hnz : denom <> 0).
  { intros Hz. rewrite Hz, Rabs_R0 in Hd. lra. }
  assert (Hte : te * denom = (hx - x1) * s - (hy - y1) * c).
  { unfold te. field. exact Hnz. }
  clearbody te. unfold denom in Hte. clear Hd Hnz denom.
  exists te. split; [lra|].
  assert (Hpar : (x1 + te * (x2 - x1) - hx) * s = (y1 + te * (y2 - y1) - hy) * c)
    by lra.
  remember (x1 + te * (x2 - x1)) as ix eqn:Eix.
  remember (y1 + te * (y2 - y1)) as iy eqn:Eiy.
  split.
  - replace (hx + ((ix - hx) * c + (iy - hy) * s) * c)
      with (hx + (ix - hx) * (c * c) + ((iy - hy) * c) * s) by ring.
    rewrite <- Hpar.
    replace (hx + (ix - hx) * (c * c) + (ix - hx) * s * s)
      with (hx + (ix - hx) * (c * c + s * s)) by ring.
    rewrite Hu. ring.
  - replace (hy + ((ix - hx) * c + (iy - hy) * s) * s)
      with (hy + ((ix - hx) * s) * c + (iy - hy) * (s * s)) by ring.
    rewrite Hpar.
    replace (hy + (iy - hy) * c * c + (iy - hy) * (s * s))
      with (hy + (iy - hy) * (c * c + s * s)) by ring.
    rewrite Hu. ring.
Qed.

Lemma hatch_intersections_In (b : list point2) (c s hx hy t : R) :
  In t (hatch_intersections b c s hx hy) ->
  exists j : nat, (j < length b)%nat /\ hatch_edge_crossing b c s hx hy j = Some t.
Proof.
  unfold hatch_intersections. intros H. apply in_flat_map in H.
  destruct H as (j & Hj & Ht). apply in_seq in Hj.
  exists j. split; [lia|].
  destruct (hatch_edge_crossing b c s hx hy j) as [t'|]; [|destruct Ht].
  destruct Ht as [->|[]]. reflexivity.
Qed.


Lemma unit_direction (angle : R) : cos angle * cos angle + sin angle * sin angle = 1.
Proof.
  pose proof (sin2_cos2 angle) as H. unfold Rsqr in H. lra.
Qed.

(** The segments of the candidate line at one offset. *)
Lemma hatch_line_In (b : list point2) (c s cx cy offset : R) (seg : HatchLineFFI) :
  c * c + s * s = 1 ->
  In seg (hatch_line b c s cx cy offset) ->
  exists t1 t2 : R,
    1e-6 < t2 - t1 /\
    seg = mkHatchLine (cx + offset * s + t1 * c) (cy - offset * c + t1 * s)
                      (cx + offset * s + t2 * c) (cy - offset * c + t2 * s) /\
    on_boundary b (hl_start_x seg, hl_start_y seg) /\
    on_boundary b (hl_end_x seg, hl_end_y seg).
Proof.
  intros Hu Hin. unfold hatch_line in Hin.
  destruct (hatch_segments_In _ _ _ _ _ _ Hu (std_sort_sorted _) Hin)
    as (t1 & t2 & H1 & H2 & Hlen & ->).
  apply (proj1 (std_sort_In _ _)) in H1. apply (proj1 (std_sort_In _ _)) in H2.
  destruct (hatch_intersections_In _ _ _ _ _ _ H1) as (j1 & Hj1 & Hc1).
  destruct (hatch_intersections_In _ _ _ _ _ _ H2) as (j2 & Hj2 & Hc2).
  exists t1, t2. cbn [hl_start_x hl_start_y hl_end_x hl_end_y].
  splits; [exact Hlen | reflexivity | |].
  - exists j1. split; [exact Hj1|].
    exact (hatch_edge_crossing_on_edge _ _ _ _ _ _ _ Hu Hc1).
  - exists j2. split; [exact Hj2|].
    exact (hatch_edge_crossing_on_edge _ _ _ _ _ _ _ Hu Hc2).
Qed.

(** Everything about one emitted segment: its line, its two parameters and
    its end points. *)
Lemma generate_hatch_lines_In (boundary : list point2) (angle_deg spacing : R)
    (min_x min_y max_x max_y : R) (seg : HatchLineFFI) :
  In seg (generate_hatch_lines_for_region boundary angle_deg spacing []
            min_x min_y max_x max_y) ->
  let c := cos (angle_deg * PI / 180) in
  let s := sin (angle_deg * PI / 180) in
  let cx := (min_x + max_x) / 2 in
  let cy := (min_y + max_y) / 2 in
  let N := hatch_num_lines spacing min_x min_y max_x max_y in
  (3 <= length boundary)%nat /\ 0 < spacing /\
  exists (i : Z) (t1 t2 : R),
    (- N <= i <= N)%Z /\ 1e-6 < t2 - t1 /\
    seg = mkHatchLine (cx + IZR i * spacing * s + t1 * c)
                      (cy - IZR i * spacing * c + t1 * s)
                      (cx + IZR i * spacing * s + t2 * c)
                      (cy - IZR i * spacing * c + t2 * s) /\
    on_boundary boundary (hl_start_x seg, hl_start_y seg) /\
    on_boundary boundary (hl_end_x seg, hl_end_y seg).
Proof.
  intros Hin c s cx cy N.
  unfold generate_hatch_lines_for_region in Hin.
  destruct (length boundary <? 3)%nat eqn:E3; [destruct Hin|].
  unfold Rleb in Hin. destruct (Rle_dec spacing 0) as [Hs|Hs]; [destruct Hin|].
  cbn [orb app] in Hin. apply in_flat_map in Hin.
  destruct Hin as (i & Hi & Hseg). apply int_range_In in Hi.
  apply Nat.ltb_ge in E3.
  destruct (hatch_line_In _ _ _ _ _ _ _ (unit_direction _) Hseg)
    as (t1 & t2 & Hlen & Heq & Hb1 & Hb2).
  splits; [exact E3 | lra |].
  exists i, t1, t2.
  split; [exact Hi|]. split; [exact Hlen|]. split; [exact Heq|].
  split; assumption.
Qed.

(** The first segment of the hatch line [y = 0] through the pentagon. *)
Lemma notch_segment_emitted :
  In (mkHatchLine 0 0 2 0)
     (generate_hatch_lines_for_region notch_polygon 0 1 [] (-5) (-3) 7 3).
Proof.
  rewrite generate_hatch_lines_unfold by (cbn; lia || lra).
  cbn [app]. apply in_flat_map. exists 0%Z. split.
  - apply int_range_In.
    pose proof notch_num_lines_ge_2. lia.
  - replace (0 * PI / 180) with 0 by lra. rewrite cos_0, sin_0.
    replace ((-5 + 7) / 2) with 1 by lra.
    replace ((-3 + 3) / 2) with 0 by lra.
    replace (0 * 1) with 0 by lra.
    rewrite notch_hatch_line. left. reflexivity.
Qed.

(** X1.  Both end points of every segment that
    [generate_hatch_lines_for_region] emits lie on the boundary polygon, for
    every boundary, angle, spacing and rectangle. *)
Theorem hatch_segment_ends_on_boundary
    (boundary : list point2) (angle_deg spacing min_x min_y max_x max_y : R)
    (seg : HatchLineFFI) :
  In seg (generate_hatch_lines_for_region boundary angle_deg spacing []
            min_x min_y max_x max_y) ->
  on_boundary boundary (hl_start_x seg, hl_start_y seg) /\
  on_boundary boundary (hl_end_x seg, hl_end_y seg).
Proof.
  intros Hin.
  destruct (generate_hatch_lines_In _ _ _ _ _ _ _ _ Hin)
    as (_ & _ & i & t1 & t2 & _ & _ & _ & H1 & H2).
  split; assumption.
Qed.

Lemma hatch_segment_ends_on_boundary_witness :
  on_boundary notch_polygon (0, 0) /\ on_boundary notch_polygon (2, 0).
Proof.
  exact (hatch_segment_ends_on_boundary notch_polygon 0 1 (-5) (-3) 7 3
           (mkHatchLine 0 0 2 0) notch_segment_emitted).
Defined.

(** X2.  Every emitted hatch segment runs from its start in the direction
    [(cos a, sin a)] of the hatch angle, over a length greater than 1e-6. *)
Theorem hatch_segment_direction_and_length
    (boundary : list point2) (angle_deg spacing min_x min_y max_x max_y : R)
    (seg : HatchLineFFI) :
  In seg (generate_hatch_lines_for_region boundary angle_deg spacing []
            min_x min_y max_x max_y) ->
  exists len : R,
    1e-6 < len /\
    hl_end_x seg = hl_start_x seg + len * cos (angle_deg * PI / 180) /\
    hl_end_y seg = hl_start_y seg + len * sin (angle_deg * PI / 180) /\
    hatch_length seg = len.
Proof.
  intros Hin.
  destruct (generate_hatch_lines_In _ _ _ _ _ _ _ _ Hin)
    as (_ & _ & i & t1 & t2 & _ & Hlen & -> & _ & _).
  exists (t2 - t1). cbn [hl_start_x hl_start_y hl_end_x hl_end_y].
  splits; [exact Hlen | ring | ring |].
  unfold hatch_length. cbn [hl_start_x hl_start_y hl_end_x hl_end_y].
  rewrite hatch_segment_length by apply unit_direction.
  apply Rabs_right. lra.
Qed.

Lemma hatch_segment_direction_and_length_witness :
  exists len : R,
    1e-6 < len /\
    2 = 0 + len * cos (0 * PI / 180) /\
    0 = 0 + len * sin (0 * PI / 180) /\
    hatch_length (mkHatchLine 0 0 2 0) = len.
Proof.
  exact (hatch_segment_direction_and_length notch_polygon 0 1 (-5) (-3) 7 3
           (mkHatchLine 0 0 2 0) notch_segment_emitted).
Defined.







(** ** More on the signed area *)

Lemma last_cons_default {A : Type} (l : list A) :
  forall a b : A, last (b :: l) a = last l b.
Proof.
  induction l as [|c l IH]; intros a b; [reflexivity|].
  change (last (b :: c :: l) a) with (last (c :: l) a).
  rewrite (IH a c), (IH b c). reflexivity.
Qed.

Lemma path_sum_translate (dx dy : R) (l : list point2) :
  forall a : point2,
    path_sum (translate_points dx dy (a :: l))
    = path_sum (a :: l)
      + dx * (snd (last l a) - snd a) - dy * (fst (last l a) - fst a).
Proof.
  induction l as [|b l IH]; intros a.
  - cbn. ring.
  - change (translate_points dx dy (a :: b :: l))
      with ((fst a + dx, snd a + dy) :: translate_points dx dy (b :: l)).
    change (translate_points dx dy (b :: l))
      with ((fst b + dx, snd b + dy) :: translate_points dx dy l) at 1.
    rewrite !path_sum_cons2.
    change ((fst b + dx, snd b + dy) :: translate_points dx dy l)
      with (translate_points dx dy (b :: l)).
    rewrite IH.
    rewrite (last_cons_default l a b).
    unfold cross2. cbn [fst snd]. ring.
Qed.

Lemma closed_path_last (p : point2) (pts : list point2) :
  last (pts ++ [p]) p = p.
Proof. apply last_last. Qed.

Lemma path_sum_scale (k : R) (l : list point2) :
  path_sum (scale_points k l) = k * k * path_sum l.
Proof.
  induction l as [|a l IH]; [cbn; ring|].
  destruct l as [|b l]; [cbn; ring|].
  change (scale_points k (a :: b :: l))
    with ((k * fst a, k * snd a) :: (k * fst b, k * snd b) :: scale_points k l).
  rewrite !path_sum_cons2.
  change ((k * fst b, k * snd b) :: scale_points k l)
    with (scale_points k (b :: l)).
  rewrite IH. unfold cross2. cbn [fst snd]. ring.
Qed.

(** X5.  The signed area does not depend on where the polygon lies: moving
    every point by the same vector leaves [polygon_signed_area] unchanged. *)
Theorem polygon_signed_area_translation (dx dy : R) (pts : list point2) :
  polygon_signed_area (translate_points dx dy pts) = polygon_signed_area pts.
Proof.
  rewrite !polygon_signed_area_path.
  destruct pts as [|p pts]; [reflexivity|].
  assert (Hc : closed_path (translate_points dx dy (p :: pts))
               = translate_points dx dy (p :: pts ++ [p])).
  { unfold closed_path, translate_points. cbn [map hd app].
    rewrite map_app. reflexivity. }
  rewrite Hc, path_sum_translate, closed_path_last.
  unfold closed_path. cbn [hd app].
  match goal with
  | |- (?X + _ - _) / 2 = ?Y / 2 => change Y with X
  end.
  lra.
Qed.

(** X6.  Enlarging a polygon [k] times multiplies its signed area by
    [k * k]. *)
Theorem polygon_signed_area_scaling (k : R) (pts : list point2) :
  polygon_signed_area (scale_points k pts) = k * k * polygon_signed_area pts.
Proof.
  rewrite !polygon_signed_area_path.
  destruct pts as [|p pts]; [cbn; lra|].
  assert (Hc : closed_path (scale_points k (p :: pts))
               = scale_points k (closed_path (p :: pts))).
  { unfold closed_path, scale_points. cbn [map hd app].
    rewrite map_app. reflexivity. }
  rewrite Hc, path_sum_scale. lra.
Qed.

(** X7.  A point list of fewer than 3 points has signed area 0; a triangle
    has half the cross product of two of its sides, and an axis-parallel
    rectangle listed counter-clockwise has width times height. *)
Theorem polygon_signed_area_small_polygons :
  (forall pts : list point2,
     (length pts < 3)%nat -> polygon_signed_area pts = 0) /\
  (forall a b c : point2,
     polygon_signed_area [a; b; c]
     = ((fst b - fst a) * (snd c - snd a) - (fst c - fst a) * (snd b - snd a)) / 2) /\
  (forall x0 y0 x1 y1 : R,
     polygon_signed_area [(x0, y0); (x1, y0); (x1, y1); (x0, y1)]
     = (x1 - x0) * (y1 - y0)).
Proof.
  splits.
  - intros pts Hlen. rewrite polygon_signed_area_path.
    destruct pts as [|a [|b [|c pts]]]; [| | |cbn in Hlen; lia];
      unfold closed_path; cbn [app hd path_sum]; unfold cross2; lra.
  - intros a b c. rewrite polygon_signed_area_path.
    unfold closed_path. cbn [app hd path_sum]. unfold cross2. lra.
  - intros x0 y0 x1 y1. rewrite polygon_signed_area_path.
    unfold closed_path. cbn [app hd path_sum]. unfold cross2. cbn [fst snd]. lra.
Qed.

Lemma polygon_signed_area_small_polygons_witness :
  polygon_signed_area [(3, 4); (5, 6)] = 0.
Proof.
  apply (proj1 polygon_signed_area_small_polygons). cbn. lia.
Defined.

(** ** More on sections *)

Lemma bbox_add_point_grows (b : BBox2D) (x y : R) (p : point2) :
  covers b p -> covers (bbox_add_point b x y) p.
Proof.
  unfold covers, bbox_add_point. cbn [bb_min_x bb_min_y bb_max_x bb_max_y].
  intros ((H1 & H2) & (H3 & H4)).
  pose proof (Rmin_l (bb_min_x b) x). pose proof (Rmin_l (bb_min_y b) y).
  pose proof (Rmax_l (bb_max_x b) x). pose proof (Rmax_l (bb_max_y b) y).
  split; split; lra.
Qed.

Lemma bbox_add_point_covers (b : BBox2D) (x y : R) :
  covers (bbox_add_point b x y) (x, y).
Proof.
  unfold covers, bbox_add_point. cbn [bb_min_x bb_min_y bb_max_x bb_max_y fst snd].
  pose proof (Rmin_r (bb_min_x b) x). pose proof (Rmin_r (bb_min_y b) y).
  pose proof (Rmax_r (bb_max_x b) x). pose proof (Rmax_r (bb_max_y b) y).
  split; split; lra.
Qed.

Lemma bbox_add_points_grows (pts : list point2) :
  forall (b : BBox2D) (p : point2),
    covers b p -> covers (bbox_add_points b pts) p.
Proof.
  unfold bbox_add_points.
  induction pts as [|q pts IH]; intros b p H; [exact H|].
  cbn [fold_left]. apply IH, bbox_add_point_grows, H.
Qed.

Lemma bbox_add_points_covers (pts : list point2) :
  forall (b : BBox2D) (p : point2),
    In p pts -> covers (bbox_add_points b pts) p.
Proof.
  induction pts as [|q pts IH]; intros b p Hin; [destruct Hin|].
  unfold bbox_add_points. cbn [fold_left].
  destruct Hin as [->|Hin].
  - apply (bbox_add_points_grows pts). destruct p as [x y].
    apply bbox_add_point_covers.
  - apply IH, Hin.
Qed.

Lemma bbox_wires_grows (wires : list (list point2)) :
  forall (b : BBox2D) (p : point2),
    covers b p -> covers (fold_left bbox_add_points wires b) p.
Proof.
  induction wires as [|w wires IH]; intros b p H; [exact H|].
  cbn [fold_left]. apply IH, bbox_add_points_grows, H.
Qed.

Lemma bbox_wires_covers (wires : list (list point2)) :
  forall (b : BBox2D) (w : list point2) (p : point2),
    In w wires -> In p w -> covers (fold_left bbox_add_points wires b) p.
Proof.
  induction wires as [|v wires IH]; intros b w p Hw Hp; [destruct Hw|].
  cbn [fold_left]. destruct Hw as [->|Hw].
  - apply bbox_wires_grows, bbox_add_points_covers, Hp.
  - exact (IH _ w p Hw Hp).
Qed.

(** The box and the regions of [section_process], from the two loops. *)
Lemma section_process_box_regions (origin xAxis yAxis : gp_Pnt)
    (hatch_angle hatch_spacing : R) (cw ow : list TopoDS_Wire) :
  let r := section_process origin xAxis yAxis hatch_angle hatch_spacing cw ow in
  let proj := project_wire origin xAxis yAxis in
  sr_bbox r
    = (if is_empty (sr_curves r) then bbox_zero
       else fold_left bbox_add_points (map proj ow)
              (fold_left bbox_add_points (map proj cw) bbox_sentinel)) /\
  sr_regions r
    = sr_regions (fst (fold_left
        (section_closed_wire origin xAxis yAxis hatch_angle hatch_spacing)
        cw (section_result_init, 0%Z))).
Proof.
  unfold section_process, section_finish.
  pose proof (section_closed_fold origin xAxis yAxis hatch_angle hatch_spacing
                cw section_result_init 0%Z) as C.
  cbv zeta in C.
  destruct (fold_left
              (section_closed_wire origin xAxis yAxis hatch_angle hatch_spacing)
              cw (section_result_init, 0%Z)) as [r1 n1].
  cbn [fst snd] in C. destruct C as (_ & _ & _ & _ & _ & Cb).
  change (sr_bbox section_result_init) with bbox_sentinel in Cb.
  pose proof (section_open_fold origin xAxis yAxis ow r1) as O. cbv zeta in O.
  destruct O as (Or & _ & _ & _ & Ob).
  set (r2 := fold_left (section_open_wire origin xAxis yAxis) ow r1) in *.
  cbn [sr_curves sr_regions sr_bbox sr_num_regions sr_num_hatch_lines fst].
  destruct (sr_curves r2) eqn:E;
    cbn [sr_curves sr_regions sr_bbox is_empty]; rewrite ?E; cbn [is_empty].
  - split; [reflexivity | exact Or].
  - split; [|exact Or]. rewrite Ob, Cb. reflexivity.
Qed.

(** The section of the sample shape keeps the curve of the unit square. *)
Lemma sample_section_keeps_square (ow : list TopoDS_Wire)
    (hatch_angle hatch_spacing : R) :
  sr_curves (compute_section_with_hatch
               (sample_shape [square_wire] ow no_compounds None)
               0 0 0 0 0 1 0 1 0 hatch_angle hatch_spacing) <> [].
Proof.
  rewrite (section_reaches_result _ _ _ _ _ _ _ _ _ _ hatch_angle hatch_spacing
             _ _ _ _ (sample_section_reaches [square_wire] ow no_compounds None)).
  pose proof (section_process_facts (mkPnt 0 0 0) (mkPnt 1 0 0) (mkPnt 0 1 0)
                hatch_angle hatch_spacing [square_wire] ow) as F.
  cbv zeta in F. destruct F as (_ & _ & Fc & _).
  intros E. rewrite E in Fc. cbn [map] in Fc.
  rewrite project_square_wire in Fc. discriminate Fc.
Qed.

(** X8.  When [compute_section_with_hatch] runs through its loops without
    an exception (the shape is not null, the plane normal and the up vector
    are directions, the section is done and every vertex of its wires has a
    point): if the section keeps at least one curve, the returned box
    contains every projected vertex of every wire of the section, closed or
    open, kept or not; if it keeps none the box is (0,0)-(0,0). *)
Theorem section_box_covers_every_vertex
    (shape : OcctShape)
    (ox oy oz nx ny nz ux uy uz hatch_angle hatch_spacing : R)
    (xAxis yAxis : gp_Pnt) (cw ow : list TopoDS_Wire) :
  section_reaches shape ox oy oz nx ny nz ux uy uz xAxis yAxis cw ow ->
  let r := compute_section_with_hatch shape ox oy oz nx ny nz ux uy uz
                                      hatch_angle hatch_spacing in
  (sr_curves r = [] -> sr_bbox r = bbox_zero) /\
  (sr_curves r <> [] ->
   forall (w : TopoDS_Wire) (p : point2),
     In w (cw ++ ow) -> In p (project_wire (mkPnt ox oy oz) xAxis yAxis w) ->
     covers (sr_bbox r) p).
Proof.
  intros Hreach r. subst r.
  rewrite (section_reaches_result _ _ _ _ _ _ _ _ _ _ hatch_angle hatch_spacing
             _ _ _ _ Hreach).
  pose proof (section_process_box_regions (mkPnt ox oy oz) xAxis yAxis
                hatch_angle hatch_spacing cw ow) as F.
  cbv zeta in F. destruct F as (Fb & _). rewrite Fb.
  split.
  - intros ->. reflexivity.
  - intros Hne w p Hw Hp.
    destruct (sr_curves _); [congruence|]. cbn [is_empty].
    apply in_app_iff in Hw. destruct Hw as [Hw|Hw].
    + apply bbox_wires_grows.
      apply (bbox_wires_covers _ _ (project_wire (mkPnt ox oy oz) xAxis yAxis w));
        [apply in_map; exact Hw | exact Hp].
    + apply (bbox_wires_covers _ _ (project_wire (mkPnt ox oy oz) xAxis yAxis w));
        [apply in_map; exact Hw | exact Hp].
Qed.

Lemma section_box_covers_every_vertex_witness :
  covers
    (sr_bbox (compute_section_with_hatch
                (sample_shape [square_wire] [[mkPnt 2 3 0]] no_compounds None)
                0 0 0 0 0 1 0 1 0 45 1))
    (project_point_to_plane (mkPnt 2 3 0)
                            (mkPnt 0 0 0) (mkPnt 1 0 0) (mkPnt 0 1 0)).
Proof.
  apply (proj2 (section_box_covers_every_vertex
                  (sample_shape [square_wire] [[mkPnt 2 3 0]] no_compounds None)
                  0 0 0 0 0 1 0 1 0 45 1 (mkPnt 1 0 0) (mkPnt 0 1 0) _ _
                  (sample_section_reaches _ _ no_compounds None))
               (sample_section_keeps_square [[mkPnt 2 3 0]] 45 1)
               [mkPnt 2 3 0]).
  - right. left. reflexivity.
  - left. reflexivity.
Defined.

(** What the kernel's direction constructor gives. *)
Lemma gp_Dir_inv (x y z : R) (d : gp_Pnt) :
  gp_Dir x y z = inr d ->
  0 < modulus x y z /\
  d = mkPnt (x / modulus x y z) (y / modulus x y z) (z / modulus x y z) /\
  dot d d = 1.
Proof.
  unfold gp_Dir, Rleb. destruct (Rle_dec (modulus x y z) gp_Resolution) as [H|H];
    [discriminate|].
  intros E. injection E as <-.
  assert (Hres : 0 < gp_Resolution).
  { unfold gp_Resolution. apply Rinv_0_lt_compat, IZR_lt. reflexivity. }
  assert (Hpos : 0 < modulus x y z) by lra.
  splits; [exact Hpos | reflexivity |].
  unfold dot. cbn [pX pY pZ]. unfold modulus in *.
  exact (normalized_sq x y z Hpos).
Qed.

Lemma Crossed_inv (a b d : gp_Pnt) :
  Crossed a b = inr d -> dot d d = 1 /\ dot d a = 0 /\ dot d b = 0.
Proof.
  unfold Crossed. intros H. apply gp_Dir_inv in H.
  destruct H as (Hpos & -> & Hunit). split; [exact Hunit|].
  set (D := modulus _ _ _) in *.
  unfold dot, cross. cbn [pX pY pZ]. split; field; lra.
Qed.

(** The plane basis that [compute_section_with_hatch] builds is
    orthonormal. *)
Lemma section_basis_orthonormal
    (shape : OcctShape) (ox oy oz nx ny nz ux uy uz : R)
    (xAxis yAxis : gp_Pnt) (cw ow : list TopoDS_Wire) :
  section_reaches shape ox oy oz nx ny nz ux uy uz xAxis yAxis cw ow ->
  dot xAxis xAxis = 1 /\ dot yAxis yAxis = 1 /\ dot xAxis yAxis = 0.
Proof.
  intros (_ & normal & upDir & Hn & _ & Hu & Hx & Hy).
  apply Crossed_inv in Hy. destruct Hy as (Hyy & Hyn & Hyx).
  splits; [|exact Hyy|unfold dot in *; lra].
  rewrite Hx. unfold try_or.
  destruct (Crossed upDir normal) as [e|d] eqn:E.
  - unfold dot. cbn. ring.
  - apply Crossed_inv in E. tauto.
Qed.





(** X10.  The projection undoes the embedding of the plane: the point
    [origin + a * xAxis + b * yAxis] is projected to [(a, b)]. *)
Theorem section_projection_inverts_embedding
    (shape : OcctShape) (ox oy oz nx ny nz ux uy uz : R)
    (xAxis yAxis : gp_Pnt) (cw ow : list TopoDS_Wire) (a b : R) :
  section_reaches shape ox oy oz nx ny nz ux uy uz xAxis yAxis cw ow ->
  project_point_to_plane
    (mkPnt (ox + a * pX xAxis + b * pX yAxis)
           (oy + a * pY xAxis + b * pY yAxis)
           (oz + a * pZ xAxis + b * pZ yAxis))
    (mkPnt ox oy oz) xAxis yAxis
  = (a, b).
Proof.
  intros Hreach.
  assert (Hxx : dot xAxis xAxis = 1 /\ dot yAxis yAxis = 1 /\ dot xAxis yAxis = 0)
    by exact (section_basis_orthonormal _ _ _ _ _ _ _ _ _ _ _ _ _ _ Hreach).
  destruct Hxx as (Hx & Hy & Hxy).
  unfold project_point_to_plane, dot in *. cbn [pX pY pZ].
  f_equal.
  - replace ((ox + a * pX xAxis + b * pX yAxis - ox) * pX xAxis +
             (oy + a * pY xAxis + b * pY yAxis - oy) * pY xAxis +
             (oz + a * pZ xAxis + b * pZ yAxis - oz) * pZ xAxis)
      with (a * (pX xAxis * pX xAxis + pY xAxis * pY xAxis + pZ xAxis * pZ xAxis)
            + b * (pX xAxis * pX yAxis + pY xAxis * pY yAxis + pZ xAxis * pZ yAxis))
      by ring.
    rewrite Hx, Hxy. ring.
  - replace ((ox + a * pX xAxis + b * pX yAxis - ox) * pX yAxis +
             (oy + a * pY xAxis + b * pY yAxis - oy) * pY yAxis +
             (oz + a * pZ xAxis + b * pZ yAxis - oz) * pZ yAxis)
      with (a * (pX xAxis * pX yAxis + pY xAxis * pY yAxis + pZ xAxis * pZ yAxis)
            + b * (pX yAxis * pX yAxis + pY yAxis * pY yAxis + pZ yAxis * pZ yAxis))
      by ring.
    rewrite Hy, Hxy. ring.
Qed.

Lemma section_projection_inverts_embedding_witness :
  project_point_to_plane
    (mkPnt (0 + 3 * 1 + 4 * 0) (0 + 3 * 0 + 4 * 1) (0 + 3 * 0 + 4 * 0))
    (mkPnt 0 0 0) (mkPnt 1 0 0) (mkPnt 0 1 0)
  = (3, 4).
Proof.
  exact (section_projection_inverts_embedding
           (sample_shape [] [] no_compounds None) 0 0 0 0 0 1 0 1 0
           (mkPnt 1 0 0) (mkPnt 0 1 0) [] [] 3 4
           (sample_section_reaches [] [] no_compounds None)).
Defined.

(** The loop over the closed wires appends to the regions. *)
Lemma section_closed_fold_regions (origin xAxis yAxis : gp_Pnt)
    (hatch_angle hatch_spacing : R) (cw : list TopoDS_Wire) :
  forall st : section_state,
    exists extra : list HatchRegionFFI,
      sr_regions (fst (fold_left
        (section_closed_wire origin xAxis yAxis hatch_angle hatch_spacing) cw st))
      = sr_regions (fst st) ++ extra.
Proof.
  induction cw as [|w cw IH]; intros st.
  - exists []. cbn. rewrite app_nil_r. reflexivity.
  - cbn [fold_left].
    destruct (IH (section_closed_wire origin xAxis yAxis hatch_angle
                    hatch_spacing st w)) as (extra & He).
    rewrite He. destruct st as [r n]. unfold section_closed_wire.
    destruct (walk_wire origin xAxis yAxis (sr_bbox r) w) as [[points boundary] bbox].
    destruct (3 <=? length boundary)%nat; cbn [fst sr_regions].
    + eexists. rewrite <- app_assoc. reflexivity.
    + exists extra. reflexivity.
Qed.

(** X11.  A region, with its hatch segments, is settled when its wire has
    been processed: closed wires that come later in the partition, and the
    open wires, leave the regions of the earlier closed wires as they are. *)
Theorem section_regions_settled_in_order
    (shape1 shape2 : OcctShape)
    (ox oy oz nx ny nz ux uy uz hatch_angle hatch_spacing : R)
    (xAxis yAxis : gp_Pnt) (cw cw' ow ow' : list TopoDS_Wire) :
  section_reaches shape1 ox oy oz nx ny nz ux uy uz xAxis yAxis cw ow ->
  section_reaches shape2 ox oy oz nx ny nz ux uy uz xAxis yAxis (cw ++ cw') ow' ->
  exists extra : list HatchRegionFFI,
    sr_regions (compute_section_with_hatch shape2 ox oy oz nx ny nz ux uy uz
                                           hatch_angle hatch_spacing)
    = sr_regions (compute_section_with_hatch shape1 ox oy oz nx ny nz ux uy uz
                                             hatch_angle hatch_spacing)
      ++ extra.
Proof.
  intros H1 H2.
  rewrite (section_reaches_result _ _ _ _ _ _ _ _ _ _ hatch_angle hatch_spacing
             _ _ _ _ H1).
  rewrite (section_reaches_result _ _ _ _ _ _ _ _ _ _ hatch_angle hatch_spacing
             _ _ _ _ H2).
  pose proof (section_process_box_regions (mkPnt ox oy oz) xAxis yAxis
                hatch_angle hatch_spacing cw ow) as F1.
  pose proof (section_process_box_regions (mkPnt ox oy oz) xAxis yAxis
                hatch_angle hatch_spacing (cw ++ cw') ow') as F2.
  cbv zeta in F1, F2. destruct F1 as (_ & ->). destruct F2 as (_ & ->).
  rewrite fold_left_app.
  apply section_closed_fold_regions.
Qed.

Lemma section_regions_settled_in_order_witness :
  exists extra : list HatchRegionFFI,
    sr_regions (compute_section_with_hatch
                  (sample_shape ([square_wire] ++ [square_wire]) [] no_compounds None)
                  0 0 0 0 0 1 0 1 0 45 1)
    = sr_regions (compute_section_with_hatch
                    (sample_shape [square_wire] [[mkPnt 2 3 0]] no_compounds None)
                    0 0 0 0 0 1 0 1 0 45 1)
      ++ extra.
Proof.
  exact (section_regions_settled_in_order
           (sample_shape [square_wire] [[mkPnt 2 3 0]] no_compounds None)
           (sample_shape ([square_wire] ++ [square_wire]) [] no_compounds None)
           0 0 0 0 0 1 0 1 0 45 1 (mkPnt 1 0 0) (mkPnt 0 1 0)
           [square_wire] [square_wire] [[mkPnt 2 3 0]] []
           (sample_section_reaches _ _ no_compounds None)
           (sample_section_reaches _ _ no_compounds None)).
Defined.

(** ** More on the projection of lines *)

Lemma StronglySorted_snoc (l : list Z) (x : Z) :
  StronglySorted Z.le l -> Forall (fun a => (a <= x)%Z) l ->
  StronglySorted Z.le (l ++ [x]).
Proof.
  induction l as [|a l IH]; intros Hs Hf; cbn [app].
  - constructor; constructor.
  - inversion Hs; subst. inversion Hf; subst. constructor.
    + apply IH; assumption.
    + apply Forall_app. split; [assumption|].
      constructor; [assumption | constructor].
Qed.

(** A property of the lines and the box that every edge keeps, and that
    passes from one class to the next, holds after the six calls. *)
Section ExtractInvariant.

Variable P : Z -> list Line2DFFI -> BBox2D -> Prop.
Variable Q : TopoDS_Edge -> Prop.

Hypothesis P_step :
  forall (t : Z) (lines : list Line2DFFI) (bbox : BBox2D) (n : Z)
         (e : TopoDS_Edge),
    (0 <= t <= 5)%Z -> Q e -> P t lines bbox ->
    P t (fst (fst (extract_2d_edges_step t (lines, bbox, n) e)))
        (snd (fst (extract_2d_edges_step t (lines, bbox, n) e))).

Hypothesis P_next :
  forall (t : Z) (lines : list Line2DFFI) (bbox : BBox2D),
    (0 <= t < 5)%Z -> P t lines bbox -> P (t + 1) lines bbox.

Lemma extract_2d_edges_fold_invariant (t : Z) (edges : list TopoDS_Edge) :
  (0 <= t <= 5)%Z -> Forall Q edges ->
  forall (lines : list Line2DFFI) (bbox : BBox2D) (n : Z),
    P t lines bbox ->
    P t (fst (fst (fold_left (extract_2d_edges_step t) edges (lines, bbox, n))))
        (snd (fst (fold_left (extract_2d_edges_step t) edges (lines, bbox, n)))).
Proof.
  intros Ht. induction edges as [|e edges IH]; intros HQ lines bbox n H;
    [exact H|].
  cbn [fold_left]. inversion HQ; subst.
  pose proof (P_step t lines bbox n e Ht ltac:(assumption) H) as H1.
  destruct (extract_2d_edges_step t (lines, bbox, n) e) as [[l1 b1] n1].
  apply IH; assumption.
Qed.

Lemma extract_2d_edges_invariant (t : Z) (shape : TopoDS_Compound)
    (lines : list Line2DFFI) (bbox : BBox2D) :
  (0 <= t <= 5)%Z -> compound_all Q shape -> P t lines bbox ->
  P t (fst (fst (extract_2d_edges shape t lines bbox)))
      (snd (fst (extract_2d_edges shape t lines bbox))).
Proof.
  intros Ht HQ H. unfold extract_2d_edges. destruct shape as [edges|].
  - apply extract_2d_edges_fold_invariant; assumption.
  - exact H.
Qed.

Lemma hlr_extract_all_invariant (c : HLRCompounds) (lines : list Line2DFFI)
    (bbox : BBox2D) :
  compounds_all Q c -> P 0 lines bbox ->
  P 5 (fst (fst (hlr_extract_all c lines bbox)))
      (snd (fst (hlr_extract_all c lines bbox))).
Proof.
  intros (Q0 & Q1 & Q2 & Q3 & Q4 & Q5) H. unfold hlr_extract_all.
  apply (extract_2d_edges_invariant 0 _ _ _ ltac:(lia) Q0) in H.
  destruct (extract_2d_edges (VCompound c) 0 lines bbox) as [[l0 b0] n0].
  cbn [fst snd] in H. apply (P_next 0) in H; [|lia].
  apply (extract_2d_edges_invariant 1 _ _ _ ltac:(lia) Q1) in H.
  destruct (extract_2d_edges (HCompound c) 1 l0 b0) as [[l1 b1] n1].
  cbn [fst snd] in H. apply (P_next 1) in H; [|lia].
  apply (extract_2d_edges_invariant 2 _ _ _ ltac:(lia) Q2) in H.
  destruct (extract_2d_edges (Rg1LineVCompound c) 2 l1 b1) as [[l2 b2] n2].
  cbn [fst snd] in H. apply (P_next 2) in H; [|lia].
  apply (extract_2d_edges_invariant 3 _ _ _ ltac:(lia) Q3) in H.
  destruct (extract_2d_edges (Rg1LineHCompound c) 3 l2 b2) as [[l3 b3] n3].
  cbn [fst snd] in H. apply (P_next 3) in H; [|lia].
  apply (extract_2d_edges_invariant 4 _ _ _ ltac:(lia) Q4) in H.
  destruct (extract_2d_edges (OutLineVCompound c) 4 l3 b3) as [[l4 b4] n4].
  cbn [fst snd] in H. apply (P_next 4) in H; [|lia].
  apply (extract_2d_edges_invariant 5 _ _ _ ltac:(lia) Q5) in H.
  destruct (extract_2d_edges (OutLineHCompound c) 5 l4 b4) as [[l5 b5] n5].
  exact H.
Qed.

End ExtractInvariant.

Lemma compounds_all_True (c : HLRCompounds) : compounds_all (fun _ => True) c.
Proof.
  assert (H : forall s, compound_all (fun _ => True) s).
  { intros [edges|]; cbn; [|exact I]. apply Forall_forall. intros; exact I. }
  unfold compounds_all. splits; apply H.
Qed.

Lemma lines_classified_step (t : Z) (lines : list Line2DFFI) (bbox : BBox2D)
    (n : Z) (e : TopoDS_Edge) :
  (0 <= t <= 5)%Z -> lines_classified t lines ->
  lines_classified t (fst (fst (extract_2d_edges_step t (lines, bbox, n) e))).
Proof.
  intros Ht H. unfold extract_2d_edges_step.
  destruct (edge_curve e) as [c|]; [|exact H].
  cbn [ln_start_x ln_start_y ln_end_x ln_end_y].
  unfold Rleb. destruct (Rle_dec _ 1e-7) as [Hl|Hl]; [exact H|].
  cbn [fst]. destruct H as (Hf & Hs). split.
  - apply Forall_app. split; [exact Hf|]. constructor; [|constructor].
    cbn [ln_line_type]. split; [lia|].
    unfold line_length. cbn [ln_start_x ln_start_y ln_end_x ln_end_y]. lra.
  - rewrite map_app. cbn [map ln_line_type]. apply StronglySorted_snoc; [exact Hs|].
    apply Forall_map. eapply Forall_impl; [|exact Hf].
    cbn beta. intros l (Hl1 & _). lia.
Qed.

Lemma lines_classified_next (t : Z) (lines : list Line2DFFI) :
  lines_classified t lines -> lines_classified (t + 1) lines.
Proof.
  intros (Hf & Hs). split; [|exact Hs].
  eapply Forall_impl; [|exact Hf]. cbn beta. intros l (H1 & H2).
  split; [lia | exact H2].
Qed.

Lemma hlr_extract_all_classified (c : HLRCompounds) :
  lines_classified 5 (fst (fst (hlr_extract_all c [] bbox_sentinel))).
Proof.
  apply (hlr_extract_all_invariant (fun t lines _ => lines_classified t lines)
                                   (fun _ => True)).
  - intros t lines bbox n e Ht _ H. apply lines_classified_step; assumption.
  - intros t lines _ _ H. apply lines_classified_next, H.
  - apply compounds_all_True.
  - split; constructor.
Qed.

Lemma lines_xs_snoc (lines : list Line2DFFI) (l : Line2DFFI) :
  lines_xs (lines ++ [l]) = lines_xs lines ++ [ln_start_x l; ln_end_x l].
Proof. unfold lines_xs. rewrite flat_map_app. cbn. reflexivity. Qed.

Lemma lines_ys_snoc (lines : list Line2DFFI) (l : Line2DFFI) :
  lines_ys (lines ++ [l]) = lines_ys lines ++ [ln_start_y l; ln_end_y l].
Proof. unfold lines_ys. rewrite flat_map_app. cbn. reflexivity. Qed.

Lemma lines_boxed_step (t : Z) (lines : list Line2DFFI) (bbox : BBox2D)
    (n : Z) (e : TopoDS_Edge) :
  edge_ends_finite e -> lines_boxed lines bbox ->
  lines_boxed (fst (fst (extract_2d_edges_step t (lines, bbox, n) e)))
              (snd (fst (extract_2d_edges_step t (lines, bbox, n) e))).
Proof.
  intros Hfin H. unfold extract_2d_edges_step, edge_ends_finite in *.
  destruct (edge_curve e) as [c|]; [|exact H].
  destruct Hfin as ((Fsx & Fsy) & (Fex & Fey)).
  cbn [ln_start_x ln_start_y ln_end_x ln_end_y].
  destruct (Rleb _ 1e-7); [exact H|].
  cbn [fst snd]. destruct H as (I1 & I2 & I3 & I4 & Fx & Fy).
  unfold lines_boxed. cbn [bb_min_x bb_min_y bb_max_x bb_max_y].
  rewrite lines_xs_snoc, lines_ys_snoc.
  cbn [ln_start_x ln_start_y ln_end_x ln_end_y].
  splits.
  - exact (is_min_fold [pX (ec_startPt c); pX (ec_endPt c)] _ _ I1).
  - exact (is_min_fold [pY (ec_startPt c); pY (ec_endPt c)] _ _ I2).
  - exact (is_max_fold [pX (ec_startPt c); pX (ec_endPt c)] _ _ I3).
  - exact (is_max_fold [pY (ec_startPt c); pY (ec_endPt c)] _ _ I4).
  - apply Forall_app. split; [exact Fx|].
    repeat (apply Forall_cons; [assumption|]); apply Forall_nil.
  - apply Forall_app. split; [exact Fy|].
    repeat (apply Forall_cons; [assumption|]); apply Forall_nil.
Qed.

Lemma hlr_extract_all_boxed (c : HLRCompounds) :
  compounds_all edge_ends_finite c ->
  lines_boxed (fst (fst (hlr_extract_all c [] bbox_sentinel)))
              (snd (fst (hlr_extract_all c [] bbox_sentinel))).
Proof.
  intros Hc.
  apply (hlr_extract_all_invariant (fun _ lines bbox => lines_boxed lines bbox)
                                   edge_ends_finite).
  - intros t lines bbox n e _ He H. apply lines_boxed_step; assumption.
  - intros t lines bbox _ H. exact H.
  - exact Hc.
  - unfold lines_boxed, is_min, is_max. cbn.
    splits; auto; intros x [<-|[]]; lra.
Qed.

(** The end of [compute_hlr_projection] when the compounds gave a line. *)
Lemma hlr_finish_extracted (shape : OcctShape) (dir_x dir_y dir_z scale : R)
    (c : HLRCompounds) :
  let lines := fst (fst (hlr_extract_all c [] bbox_sentinel)) in
  let bbox := snd (fst (hlr_extract_all c [] bbox_sentinel)) in
  lines <> [] ->
  hlr_finish shape dir_x dir_y dir_z scale c
  = if Reqb scale 1 then mkHLRResult lines bbox
    else mkHLRResult (map (scale_line scale) lines) (bbox_scale bbox scale).
Proof.
  intros lines bbox Hne. subst lines bbox. unfold hlr_finish, hlr_finish_from.
  destruct (hlr_extract_all_grows c [] bbox_sentinel) as (new & A & B & _).
  destruct (hlr_extract_all c [] bbox_sentinel) as [[lines bbox] total].
  cbn [fst snd app] in *. subst lines total.
  destruct new as [|l new]; [congruence|].
  cbn [is_empty negb andb].
  assert (Hpos : (0 <? Z.of_nat (length (l :: new)))%Z = true).
  { apply Z.ltb_lt. cbn [length]. lia. }
  rewrite Hpos, andb_true_r.
  destruct (Reqb scale 1); reflexivity.
Qed.

Lemma line_length_scale (s : R) (l : Line2DFFI) :
  line_length (scale_line s l) = Rabs s * line_length l.
Proof.
  unfold line_length, scale_line.
  cbn [ln_start_x ln_start_y ln_end_x ln_end_y].
  set (dx := ln_end_x l - ln_start_x l). set (dy := ln_end_y l - ln_start_y l).
  replace ((ln_end_x l * s - ln_start_x l * s) ^ 2 +
           (ln_end_y l * s - ln_start_y l * s) ^ 2)
    with (Rsqr s * (dx ^ 2 + dy ^ 2)) by (unfold Rsqr, dx, dy; ring).
  rewrite sqrt_mult.
  - rewrite sqrt_Rsqr_abs. reflexivity.
  - apply Rle_0_sqr.
  - pose proof (Rle_0_sqr dx). pose proof (Rle_0_sqr dy). unfold Rsqr in *.
    simpl. lra.
Qed.

(** What [hlr_try] can come to: an exception or a return before the
    extraction, the end of the block, or an exception that leaves the lines
    and the box of the compounds extracted before it. *)
Lemma hlr_try_cases (shape : OcctShape)
    (dir_x dir_y dir_z up_x up_y up_z scale : R) :
  (exists e, hlr_try shape dir_x dir_y dir_z up_x up_y up_z scale
             = inl (e, hlr_result_init)) \/
  hlr_try shape dir_x dir_y dir_z up_x up_y up_z scale = inr hlr_result_init \/
  (exists (dx dy dz : R) (c : HLRCompounds),
     hlr_try shape dir_x dir_y dir_z up_x up_y up_z scale
     = inr (hlr_finish shape dx dy dz scale c)) \/
  (exists (e : thrown) (c : HLRCompounds),
     hlr_try shape dir_x dir_y dir_z up_x up_y up_z scale
     = inl (e, mkHLRResult (fst (fst (hlr_extract_all c [] bbox_sentinel)))
                           (snd (fst (hlr_extract_all c [] bbox_sentinel))))).
Proof.
  unfold hlr_try. destruct (is_null shape); [right; left; reflexivity|].
  destruct (count_shape_topology shape) as [[faces edges] vertices].
  destruct ((faces =? 0)%nat && (edges =? 0)%nat); [right; left; reflexivity|].
  cbv zeta. destruct (Rltb _ 1e-10); [right; left; reflexivity|].
  destruct (gp_Dir _ _ _) as [e|viewDir]; [left; exists e; reflexivity|].
  cbn [kcall].
  destruct (gp_Dir up_x up_y up_z) as [e|upDir]; [left; exists e; reflexivity|].
  cbn [kcall].
  destruct (shape_hlr shape _ _) as [e|extractor]; [left; exists e; reflexivity|].
  cbn [kcall]. right; right.
  destruct (extractor_cases extractor) as [(c & Hg)|(c & k & e & Ht)].
  - left. rewrite (hlr_extract_all_try_gives extractor c) by exact Hg.
    eexists _, _, _, c. reflexivity.
  - right.
    destruct (hlr_extract_all_try_throws extractor c k e [] bbox_sentinel Ht)
      as (n & ->).
    exists e, (first_compounds k c).
    destruct (hlr_extract_all (first_compounds k c) [] bbox_sentinel)
      as [[lines bbox] total].
    reflexivity.
Qed.

Lemma rectangle_edges_types (p : BBox2D) :
  Forall (fun l => (0 <= ln_line_type l <= 5)%Z) (rectangle_edges p) /\
  StronglySorted Z.le (map ln_line_type (rectangle_edges p)).
Proof.
  unfold rectangle_edges. cbn [map ln_line_type]. split.
  - repeat (apply Forall_cons; [cbn; lia|]). apply Forall_nil.
  - repeat (apply SSorted_cons;
            [|repeat (apply Forall_cons; [lia|]); apply Forall_nil]).
    apply SSorted_nil.
Qed.

Lemma map_scale_line_types (s : R) (lines : list Line2DFFI) :
  map ln_line_type (map (scale_line s) lines) = map ln_line_type lines.
Proof. rewrite map_map. reflexivity. Qed.

Lemma hlr_finish_types (shape : OcctShape) (dir_x dir_y dir_z scale : R)
    (c : HLRCompounds) :
  let lines := hp_lines (hlr_finish shape dir_x dir_y dir_z scale c) in
  Forall (fun t => (0 <= t <= 5)%Z) (map ln_line_type lines) /\
  StronglySorted Z.le (map ln_line_type lines).
Proof.
  cbv zeta.
  destruct (fst (fst (hlr_extract_all c [] bbox_sentinel))) as [|l0 ls] eqn:E.
  - rewrite hlr_finish_fallback by exact E.
    destruct (shape_bnd_box shape) as [b|]; cbn [hp_lines].
    + destruct (rectangle_edges_types (bbox_edges_rect b dir_x dir_y dir_z scale))
        as (H1 & H2).
      split; [apply Forall_map; exact H1 | exact H2].
    + split; constructor.
  - pose proof (hlr_extract_all_classified c) as (Hf & Hs).
    rewrite hlr_finish_extracted by (rewrite E; discriminate).
    assert (Ht : Forall (fun t => (0 <= t <= 5)%Z)
                   (map ln_line_type (fst (fst (hlr_extract_all c [] bbox_sentinel))))).
    { apply Forall_map. eapply Forall_impl; [|exact Hf]. cbn beta. tauto. }
    destruct (Reqb scale 1); cbn [hp_lines]; rewrite ?map_scale_line_types;
      split; assumption.
Qed.

(** X12.  The lines of a projection are grouped by class and the groups come
    in the order of the classes: the line types are within 0..5 and never
    decrease along the list, for every input. *)
Theorem hlr_lines_ordered_by_class
    (shape : OcctShape) (dir_x dir_y dir_z up_x up_y up_z scale : R) :
  let types := map ln_line_type
                 (hp_lines (compute_hlr_projection shape dir_x dir_y dir_z
                                                   up_x up_y up_z scale)) in
  Forall (fun t => (0 <= t <= 5)%Z) types /\ StronglySorted Z.le types.
Proof.
  cbv zeta. unfold compute_hlr_projection.
  destruct (hlr_try_cases shape dir_x dir_y dir_z up_x up_y up_z scale)
    as [(e & ->)|[->|[(dx & dy & dz & c & ->)|(e & c & ->)]]].
  - cbn. split; constructor.
  - cbn. split; constructor.
  - apply hlr_finish_types.
  - cbn [hlr_catch hp_lines].
    pose proof (hlr_extract_all_classified c) as (Hf & Hs).
    split; [|exact Hs].
    apply Forall_map. eapply Forall_impl; [|exact Hf]. cbn beta. tauto.
Qed.

(** The compounds with one visible straight edge give one line. *)
Lemma hlr_extract_all_one_line (a b : gp_Pnt) :
  1e-7 < sqrt ((pX b - pX a) ^ 2 + (pY b - pY a) ^ 2) ->
  fst (hlr_extract_all (one_visible_edge (line_edge a b)) [] bbox_sentinel)
  = ([mkLine2D (pX a) (pY a) (pX b) (pY b) 0],
     mkBBox (Rmin3 DBL_MAX (pX a) (pX b)) (Rmin3 DBL_MAX (pY a) (pY b))
            (Rmax3 (- DBL_MAX) (pX a) (pX b)) (Rmax3 (- DBL_MAX) (pY a) (pY b))).
Proof.
  intros Hd.
  assert (E : extract_2d_edges (Some [line_edge a b]) 0 [] bbox_sentinel
              = ([mkLine2D (pX a) (pY a) (pX b) (pY b) 0],
                 mkBBox (Rmin3 DBL_MAX (pX a) (pX b)) (Rmin3 DBL_MAX (pY a) (pY b))
                        (Rmax3 (- DBL_MAX) (pX a) (pX b))
                        (Rmax3 (- DBL_MAX) (pY a) (pY b)),
                 1%Z)).
  { unfold extract_2d_edges. cbn [fold_left].
    unfold extract_2d_edges_step, line_edge.
    cbn [edge_curve ec_startPt ec_endPt ln_start_x ln_start_y ln_end_x ln_end_y].
    rewrite Rleb_false by lra. reflexivity. }
  unfold hlr_extract_all, one_visible_edge.
  cbn [VCompound HCompound Rg1LineVCompound Rg1LineHCompound OutLineVCompound
       OutLineHCompound].
  rewrite E. reflexivity.
Qed.

Lemma sqrt_unit_diagonal : 1e-7 < sqrt ((1 - 0) ^ 2 + (1 - 0) ^ 2).
Proof. apply sqrt_gt; simpl; lra. Qed.

Lemma sample_lines_extracted :
  fst (fst (hlr_extract_all
              (one_visible_edge (line_edge (mkPnt 0 0 0) (mkPnt 1 1 0)))
              [] bbox_sentinel)) <> [].
Proof.
  rewrite (hlr_extract_all_one_line (mkPnt 0 0 0) (mkPnt 1 1 0) sqrt_unit_diagonal).
  discriminate.
Qed.

(** X13.  Unless the bounding-box fallback was used, no returned line is
    shorter than the threshold: at a scale other than 0 every line is longer
    than [1e-7 * |scale|]. *)
Theorem hlr_lines_longer_than_threshold
    (shape : OcctShape) (dir_x dir_y dir_z up_x up_y up_z scale : R)
    (c : HLRCompounds) :
  hlr_reaches shape dir_x dir_y dir_z up_x up_y up_z c ->
  fst (fst (hlr_extract_all c [] bbox_sentinel)) <> [] ->
  scale <> 0 ->
  Forall (fun l => 1e-7 * Rabs scale < line_length l)
         (hp_lines (compute_hlr_projection shape dir_x dir_y dir_z
                                           up_x up_y up_z scale)).
Proof.
  intros Hreach Hne Hs.
  pose proof (hlr_reaches_result _ _ _ _ _ _ _ scale _ Hreach) as Hr.
  cbv zeta in Hr. rewrite Hr. rewrite hlr_finish_extracted by exact Hne.
  pose proof (hlr_extract_all_classified c) as (Hf & _).
  unfold Reqb. destruct (Req_dec_T scale 1) as [->|H1]; cbn [hp_lines].
  - eapply Forall_impl; [|exact Hf]. cbn beta. intros l (_ & Hl).
    rewrite Rabs_R1. lra.
  - apply Forall_map. eapply Forall_impl; [|exact Hf]. cbn beta.
    intros l (_ & Hl). rewrite line_length_scale.
    pose proof (Rabs_pos_lt scale Hs). nra.
Qed.

Lemma hlr_lines_longer_than_threshold_witness :
  Forall (fun l => 1e-7 * Rabs 2 < line_length l)
         (hp_lines (compute_hlr_projection
                      (sample_shape [] []
                         (one_visible_edge (line_edge (mkPnt 0 0 0) (mkPnt 1 1 0)))
                         None)
                      0 0 1 0 1 0 2)).
Proof.
  apply (hlr_lines_longer_than_threshold _ 0 0 1 0 1 0 2 _
           (sample_hlr_reaches [] [] _ None) sample_lines_extracted).
  lra.
Defined.

Lemma lines_xs_scale (s : R) (lines : list Line2DFFI) :
  lines_xs (map (scale_line s) lines) = map (fun x => x * s) (lines_xs lines).
Proof.
  unfold lines_xs. induction lines as [|l lines IH]; [reflexivity|].
  cbn [map flat_map app]. rewrite IH. reflexivity.
Qed.

Lemma lines_ys_scale (s : R) (lines : list Line2DFFI) :
  lines_ys (map (scale_line s) lines) = map (fun x => x * s) (lines_ys lines).
Proof.
  unfold lines_ys. induction lines as [|l lines IH]; [reflexivity|].
  cbn [map flat_map app]. rewrite IH. reflexivity.
Qed.

Lemma lines_coordinates_nonempty (lines : list Line2DFFI) :
  lines <> [] -> lines_xs lines <> [] /\ lines_ys lines <> [].
Proof.
  destruct lines as [|l lines]; [congruence|]. intros _.
  cbn. split; discriminate.
Qed.

(** The extent of the four edges of a rectangle with its corners in order. *)
Lemma rectangle_edges_extent (p : BBox2D) :
  bb_min_x p <= bb_max_x p -> bb_min_y p <= bb_max_y p ->
  p = extent (lines_xs (rectangle_edges p)) (lines_ys (rectangle_edges p)).
Proof.
  intros Hx Hy. destruct p as [x0 y0 x1 y1].
  cbn [bb_min_x bb_min_y bb_max_x bb_max_y] in *.
  unfold rectangle_edges, extent, lines_xs, lines_ys.
  cbn [flat_map app ln_start_x ln_start_y ln_end_x ln_end_y
       bb_min_x bb_min_y bb_max_x bb_max_y].
  match goal with
  | |- _ = mkBBox (list_min ?xs) (list_min ?ys) (list_max _) (list_max _) =>
      assert (Nx : xs <> []) by discriminate;
      assert (Ny : ys <> []) by discriminate;
      pose proof (list_min_is_min xs Nx) as M1;
      pose proof (list_min_is_min ys Ny) as M2;
      pose proof (list_max_is_max xs Nx) as M3;
      pose proof (list_max_is_max ys Ny) as M4;
      assert (I1 : is_min x0 xs)
        by (split; [cbn; auto | intros x Hin; cbn in Hin;
                    repeat (destruct Hin as [<-|Hin]; [lra|]); destruct Hin]);
      assert (I2 : is_min y0 ys)
        by (split; [cbn; auto | intros x Hin; cbn in Hin;
                    repeat (destruct Hin as [<-|Hin]; [lra|]); destruct Hin]);
      assert (I3 : is_max x1 xs)
        by (split; [cbn; auto | intros x Hin; cbn in Hin;
                    repeat (destruct Hin as [<-|Hin]; [lra|]); destruct Hin]);
      assert (I4 : is_max y1 ys)
        by (split; [cbn; auto | intros x Hin; cbn in Hin;
                    repeat (destruct Hin as [<-|Hin]; [lra|]); destruct Hin])
  end.
  rewrite <- (is_min_unique _ _ _ I1 M1), <- (is_min_unique _ _ _ I2 M2),
          <- (is_max_unique _ _ _ I3 M3), <- (is_max_unique _ _ _ I4 M4).
  reflexivity.
Qed.

Lemma bbox_edges_rect_in_order (b : Bnd_Box) (dir_x dir_y dir_z scale : R) :
  bnd_xmin b <= bnd_xmax b -> bnd_ymin b <= bnd_ymax b ->
  bnd_zmin b <= bnd_zmax b -> 0 <= scale ->
  let p := bbox_edges_rect b dir_x dir_y dir_z scale in
  bb_min_x p <= bb_max_x p /\ bb_min_y p <= bb_max_y p.
Proof.
  intros Hx Hy Hz Hs. cbv zeta. unfold bbox_edges_rect.
  destruct (Rltb 0.9 (Rabs dir_y)); [|destruct (Rltb 0.9 (Rabs dir_z));
    [|destruct (Rltb 0.9 (Rabs dir_x))]];
    cbn [bb_min_x bb_min_y bb_max_x bb_max_y]; split; nra.
Qed.

(** X14.  When [compute_hlr_projection] runs through the extraction without
    an exception (the shape is not null and has a face or an edge, the view
    direction is not shorter than 1e-10, the up vector is a direction, the
    hidden-line stage and its six extraction calls return), the end points of
    the edges are within the range of doubles, the 3D box of the shape has
    its minima not above its maxima and the scale is not negative: the returned
    box is the exact extent of the returned lines, whenever there is a line;
    its corners are the least and the greatest coordinates of the end points
    of the lines.  With no line the box is (0,0)-(0,0). *)
Theorem hlr_box_is_extent_of_lines
    (shape : OcctShape) (dir_x dir_y dir_z up_x up_y up_z scale : R)
    (c : HLRCompounds) :
  hlr_reaches shape dir_x dir_y dir_z up_x up_y up_z c ->
  compounds_all edge_ends_finite c ->
  box_in_order shape ->
  0 <= scale ->
  let r := compute_hlr_projection shape dir_x dir_y dir_z up_x up_y up_z scale in
  hp_bbox r
  = if is_empty (hp_lines r) then bbox_zero
    else extent (lines_xs (hp_lines r)) (lines_ys (hp_lines r)).
Proof.
  intros Hreach Hfin Hbox Hs r. subst r.
  pose proof (hlr_reaches_result _ _ _ _ _ _ _ scale _ Hreach) as Hr.
  cbv zeta in Hr. rewrite Hr. clear Hr.
  set (len := sqrt (dir_x * dir_x + dir_y * dir_y + dir_z * dir_z)).
  destruct (fst (fst (hlr_extract_all c [] bbox_sentinel))) as [|l0 ls] eqn:E.
  - rewrite hlr_finish_fallback by exact E.
    unfold box_in_order in Hbox.
    destruct (shape_bnd_box shape) as [b|]; cbn [hp_lines hp_bbox is_empty];
      [|reflexivity].
    destruct Hbox as (Hx & Hy & Hz).
    destruct (bbox_edges_rect_in_order b (dir_x / len) (dir_y / len)
                (dir_z / len) scale Hx Hy Hz Hs) as (Px & Py).
    cbv zeta in Px, Py.
    assert (Hrect : is_empty (rectangle_edges
                      (bbox_edges_rect b (dir_x / len) (dir_y / len)
                                       (dir_z / len) scale)) = false)
      by reflexivity.
    rewrite Hrect. apply rectangle_edges_extent; assumption.
  - pose proof (hlr_extract_all_boxed c Hfin) as (I1 & I2 & I3 & I4 & Fx & Fy).
    assert (Hne : fst (fst (hlr_extract_all c [] bbox_sentinel)) <> [])
      by (rewrite E; discriminate).
    rewrite hlr_finish_extracted by exact Hne.
    destruct (lines_coordinates_nonempty _ Hne) as (Nx & Ny).
    set (lines := fst (fst (hlr_extract_all c [] bbox_sentinel))) in *.
    set (bbox := snd (fst (hlr_extract_all c [] bbox_sentinel))) in *.
    assert (Hemp : is_empty lines = false)
      by (destruct lines; [congruence | reflexivity]).
    assert (Hemps : is_empty (map (scale_line scale) lines) = false)
      by (destruct lines; [congruence | reflexivity]).
    destruct (Reqb scale 1); cbn [hp_lines hp_bbox].
    + rewrite Hemp.
      apply (box_is_extent _ _ _ DBL_MAX); try assumption.
      * intros x Hx. exact (proj1 (Forall_forall finite _) Fx x Hx).
      * intros y Hy. exact (proj1 (Forall_forall finite _) Fy y Hy).
    + rewrite Hemps.
      rewrite lines_xs_scale, lines_ys_scale.
      apply (box_is_extent _ _ _ (DBL_MAX * scale)).
      * apply map_nonempty, Nx.
      * apply map_nonempty, Ny.
      * apply finite_scaled; assumption.
      * apply finite_scaled; assumption.
      * exact (is_min_scale _ scale _ Hs I1).
      * exact (is_min_scale _ scale _ Hs I2).
      * replace (- (DBL_MAX * scale)) with (- DBL_MAX * scale) by ring.
        exact (is_max_scale _ scale _ Hs I3).
      * replace (- (DBL_MAX * scale)) with (- DBL_MAX * scale) by ring.
        exact (is_max_scale _ scale _ Hs I4).
Qed.

Lemma sample_edge_ends_finite :
  compounds_all edge_ends_finite
    (one_visible_edge (line_edge (mkPnt 0 0 0) (mkPnt 1 1 0))).
Proof.
  unfold compounds_all, one_visible_edge. cbn. splits; auto.
  constructor; [|constructor].
  unfold edge_ends_finite, finite_pnt. cbn.
  splits; apply finite_small; lra.
Qed.

Lemma hlr_box_is_extent_of_lines_witness :
  let r := compute_hlr_projection
             (sample_shape [] []
                (one_visible_edge (line_edge (mkPnt 0 0 0) (mkPnt 1 1 0))) None)
             0 0 1 0 1 0 2 in
  hp_bbox r
  = if is_empty (hp_lines r) then bbox_zero
    else extent (lines_xs (hp_lines r)) (lines_ys (hp_lines r)).
Proof.
  apply (hlr_box_is_extent_of_lines _ 0 0 1 0 1 0 2 _
           (sample_hlr_reaches [] [] _ None) sample_edge_ends_finite).
  - exact I.
  - lra.
Defined.

Lemma scale_line_one (l : Line2DFFI) : scale_line 1 l = l.
Proof.
  destruct l as [a b c d t]. unfold scale_line.
  cbn [ln_start_x ln_start_y ln_end_x ln_end_y ln_line_type].
  rewrite !Rmult_1_r. reflexivity.
Qed.

Lemma scale_hlr_one (r : HLRProjectionResult) : scale_hlr 1 r = r.
Proof.
  destruct r as [lines [a b c d]]. unfold scale_hlr, bbox_scale.
  cbn [hp_lines hp_bbox bb_min_x bb_min_y bb_max_x bb_max_y].
  rewrite !Rmult_1_r. f_equal.
  induction lines as [|l lines IH]; [reflexivity|].
  cbn [map]. rewrite scale_line_one, IH. reflexivity.
Qed.

Lemma bbox_edges_rect_scale (b : Bnd_Box) (dir_x dir_y dir_z scale : R) :
  bbox_edges_rect b dir_x dir_y dir_z scale
  = bbox_scale (bbox_edges_rect b dir_x dir_y dir_z 1) scale.
Proof.
  unfold bbox_edges_rect.
  destruct (Rltb 0.9 (Rabs dir_y)); [|destruct (Rltb 0.9 (Rabs dir_z));
    [|destruct (Rltb 0.9 (Rabs dir_x))]];
    unfold bbox_scale; cbn [bb_min_x bb_min_y bb_max_x bb_max_y];
    rewrite !Rmult_1_r; reflexivity.
Qed.

Lemma rectangle_edges_scale (p : BBox2D) (scale : R) :
  rectangle_edges (bbox_scale p scale)
  = map (scale_line scale) (rectangle_edges p).
Proof. reflexivity. Qed.

Lemma hlr_finish_scale (shape : OcctShape) (dir_x dir_y dir_z scale : R)
    (c : HLRCompounds) :
  hlr_finish shape dir_x dir_y dir_z scale c
  = scale_hlr scale (hlr_finish shape dir_x dir_y dir_z 1 c).
Proof.
  destruct (fst (fst (hlr_extract_all c [] bbox_sentinel))) as [|l0 ls] eqn:E.
  - rewrite !hlr_finish_fallback by exact E.
    destruct (shape_bnd_box shape) as [b|].
    + rewrite (bbox_edges_rect_scale b dir_x dir_y dir_z scale).
      rewrite rectangle_edges_scale. reflexivity.
    + unfold scale_hlr, bbox_scale, bbox_zero.
      cbn [hp_lines hp_bbox map bb_min_x bb_min_y bb_max_x bb_max_y].
      rewrite !Rmult_0_l. reflexivity.
  - assert (Hne : fst (fst (hlr_extract_all c [] bbox_sentinel)) <> [])
      by (rewrite E; discriminate).
    rewrite !hlr_finish_extracted by exact Hne.
    rewrite (Reqb_true 1 1) by reflexivity.
    unfold Reqb. destruct (Req_dec_T scale 1) as [->|H1].
    + rewrite scale_hlr_one. reflexivity.
    + reflexivity.
Qed.

(** X15.  The scale is a pure post-scaling of the drawing: the projection at
    [scale] is the projection at scale 1 with every coordinate of every line
    and of the box multiplied by [scale], line types and order kept, also
    when the bounding-box fallback is used. *)
Theorem hlr_scale_is_post_scaling
    (shape : OcctShape) (dir_x dir_y dir_z up_x up_y up_z scale : R)
    (c : HLRCompounds) :
  hlr_reaches shape dir_x dir_y dir_z up_x up_y up_z c ->
  compute_hlr_projection shape dir_x dir_y dir_z up_x up_y up_z scale
  = scale_hlr scale
      (compute_hlr_projection shape dir_x dir_y dir_z up_x up_y up_z 1).
Proof.
  intros Hreach.
  pose proof (hlr_reaches_result _ _ _ _ _ _ _ scale _ Hreach) as Hs.
  pose proof (hlr_reaches_result _ _ _ _ _ _ _ 1 _ Hreach) as H1.
  cbv zeta in Hs, H1. rewrite Hs, H1. apply hlr_finish_scale.
Qed.

Lemma hlr_scale_is_post_scaling_witness :
  compute_hlr_projection
    (sample_shape [] [] no_compounds (Some (mkBndBox (-1) (-2) (-3) 1 2 3)))
    0 0 1 0 1 0 2
  = scale_hlr 2
      (compute_hlr_projection
         (sample_shape [] [] no_compounds (Some (mkBndBox (-1) (-2) (-3) 1 2 3)))
         0 0 1 0 1 0 1).
Proof.
  exact (hlr_scale_is_post_scaling _ 0 0 1 0 1 0 2 _
           (sample_hlr_reaches [] [] no_compounds _)).
Defined.

(** ** More on the projection of curves *)

Lemma atan2_range (y x : R) : angle_in_range (atan2 y x).
Proof.
  unfold angle_in_range, atan2, Rltb, Rleb.
  pose proof PI_RGT_0 as Hpi.
  pose proof (atan_bound (y / x)) as (Hlo & Hhi).
  destruct (Rlt_dec 0 x) as [Hx|Hx]; [lra|].
  destruct (Rlt_dec x 0) as [Hx'|Hx'].
  - assert (Hinv : / x < 0) by (apply Rinv_lt_0_compat; exact Hx').
    destruct (Rle_dec 0 y) as [Hy|Hy].
    + assert (Hq : y / x <= 0) by (unfold Rdiv; nra).
      assert (Ha : atan (y / x) <= 0).
      { destruct Hq as [Hq|Hq].
        - left. rewrite <- atan_0. apply atan_increasing. exact Hq.
        - rewrite Hq, atan_0. lra. }
      lra.
    + assert (Hq : 0 < y / x) by (unfold Rdiv; nra).
      assert (Ha : 0 < atan (y / x)).
      { rewrite <- atan_0. apply atan_increasing. exact Hq. }
      lra.
  - destruct (Rlt_dec 0 y); [lra|]. destruct (Rlt_dec y 0); lra.
Qed.

Lemma StronglySorted_snoc_map {A : Type} (f : A -> Z) (l : list A) (x : A) :
  StronglySorted Z.le (map f l) -> Forall (fun a => (f a <= f x)%Z) l ->
  StronglySorted Z.le (map f (l ++ [x])).
Proof.
  intros Hs Hf. rewrite map_app. cbn [map].
  apply StronglySorted_snoc; [exact Hs|]. apply Forall_map. exact Hf.
Qed.

Lemma count_lines_snoc (cs : list Curve2DFFI) (c : Curve2DFFI) :
  count_lines (cs ++ [c])
  = (count_lines cs + (if is_line_curve c then 1 else 0))%Z.
Proof.
  unfold count_lines. rewrite filter_app, length_app. cbn [filter].
  destruct (is_line_curve c); cbn [length]; lia.
Qed.

Lemma count_arcs_snoc (cs : list Curve2DFFI) (c : Curve2DFFI) :
  count_arcs (cs ++ [c])
  = (count_arcs cs + (if is_line_curve c then 0 else 1))%Z.
Proof.
  unfold count_arcs. rewrite filter_app, length_app. cbn [filter].
  destruct (is_line_curve c); cbn [length negb]; lia.
Qed.

Lemma count_lines_arcs (cs : list Curve2DFFI) :
  (count_lines cs + count_arcs cs)%Z = Z.of_nat (length cs).
Proof.
  unfold count_lines, count_arcs. induction cs as [|c cs IH]; [reflexivity|].
  cbn [filter length]. destruct (is_line_curve c); cbn [negb length]; lia.
Qed.

(** A new curve of the running class. *)
Lemma primitives_inv_add_curve (t : Z) (st : curves_state) (c : Curve2DFFI)
    (bbox : BBox2D) (n : Z) :
  (0 <= t)%Z -> primitives_inv t st ->
  curve_well_formed t c -> cv_line_type c = t ->
  primitives_inv t
    (mkCurvesState (cs_curves st ++ [c]) (cs_polylines st) bbox
       (cs_num_lines st + (if is_line_curve c then 1 else 0))
       (cs_num_arcs st + (if is_line_curve c then 0 else 1))
       (cs_num_polylines st) n).
Proof.
  intros Ht (I1 & I2 & I3 & I4 & I5 & I6 & I7) Hc Hty.
  unfold primitives_inv.
  cbn [cs_curves cs_polylines cs_num_lines cs_num_arcs cs_num_polylines].
  splits; try assumption.
  - apply Forall_app. split; [exact I1 | constructor; [exact Hc | constructor]].
  - apply StronglySorted_snoc_map; [exact I3|].
    eapply Forall_impl; [|exact I1]. cbn beta.
    intros a (_ & Ha & _). rewrite Hty. lia.
  - rewrite count_lines_snoc, I5. reflexivity.
  - rewrite count_arcs_snoc, I6. reflexivity.
Qed.

Lemma length_polyline_points (pts : list gp_Pnt) (bbox : BBox2D) :
  length (fst (fold_left polyline_point_step pts ([], bbox))) = length pts.
Proof.
  rewrite polyline_points_fold. cbn [fst app]. apply length_map.
Qed.

(** One edge keeps the primitives well formed and counted. *)
Lemma extract_2d_curves_step_primitives (t : Z) (deflection : R)
    (st : curves_state) (e : TopoDS_Edge) :
  (0 <= t)%Z -> primitives_inv t st ->
  primitives_inv t (extract_2d_curves_step t deflection st e).
Proof.
  intros Ht Hinv. unfold extract_2d_curves_step.
  destruct (edge_curve e) as [c|]; [|exact Hinv].
  destruct (Rleb _ 1e-7 && is_GeomAbs_Line (edge_type e)); [exact Hinv|].
  destruct (edge_type e).
  - (* line *)
    match goal with
    | |- primitives_inv t (mkCurvesState (_ ++ [?c2]) _ ?b _ _ _ ?n) =>
        pose proof (primitives_inv_add_curve t st c2 b n Ht Hinv) as H
    end.
    unfold is_line_curve in H. cbn [cv_curve_type Z.eqb] in H.
    rewrite Z.add_0_r in H. apply H; [|reflexivity].
    unfold curve_well_formed.
    cbn [cv_curve_type cv_line_type cv_center_x cv_center_y cv_radius
         cv_major_radius cv_minor_radius cv_start_angle cv_end_angle
         cv_rotation cv_ccw].
    splits; try lia; try (intros [?|?]; discriminate); try discriminate.
    intros _. splits; reflexivity.
  - (* circle *)
    cbv zeta.
    match goal with
    | |- primitives_inv t (mkCurvesState (_ ++ [?c2]) _ ?b _ _ _ ?n) =>
        pose proof (primitives_inv_add_curve t st c2 b n Ht Hinv) as H
    end.
    assert (Hk : forall b : bool, ((if b then 2 else 1) =? 0)%Z = false)
      by (intros []; reflexivity).
    unfold is_line_curve in H. cbn [cv_curve_type] in H. rewrite Hk in H.
    rewrite Z.add_0_r in H. apply H; [|reflexivity].
    unfold curve_well_formed.
    cbn [cv_curve_type cv_line_type cv_center_x cv_center_y cv_radius
         cv_major_radius cv_minor_radius cv_start_angle cv_end_angle
         cv_rotation cv_ccw].
    splits.
    + destruct (_ && _); lia.
    + destruct (_ && _); lia.
    + lia.
    + lia.
    + intros Hz. destruct (_ && _); discriminate.
    + intros _. splits; try reflexivity; apply atan2_range.
    + intros Hz. destruct (_ && _); discriminate.
  - (* ellipse *)
    cbv zeta.
    match goal with
    | |- primitives_inv t (mkCurvesState (_ ++ [?c2]) _ ?b _ _ _ ?n) =>
        pose proof (primitives_inv_add_curve t st c2 b n Ht Hinv) as H
    end.
    unfold is_line_curve in H. cbn [cv_curve_type Z.eqb] in H.
    rewrite Z.add_0_r in H. apply H; [|reflexivity].
    unfold curve_well_formed.
    cbn [cv_curve_type cv_line_type cv_center_x cv_center_y cv_radius
         cv_major_radius cv_minor_radius cv_start_angle cv_end_angle
         cv_rotation cv_ccw].
    splits; try lia; try discriminate.
    intros _. split; [reflexivity | apply atan2_range].
  - (* tessellated *)
    cbv zeta.
    destruct (2 <=? length (edge_discretize e deflection))%nat eqn:E.
    + pose proof (length_polyline_points (edge_discretize e deflection)) as L.
      match goal with
      | |- context [fold_left polyline_point_step _ ([], ?b)] =>
          specialize (L b); destruct (fold_left polyline_point_step _ ([], b))
            as [points bbox']
      end.
      cbn [fst] in L. apply Nat.leb_le in E.
      destruct Hinv as (I1 & I2 & I3 & I4 & I5 & I6 & I7).
      unfold primitives_inv.
      cbn [cs_curves cs_polylines cs_num_lines cs_num_arcs cs_num_polylines].
      splits; try assumption.
      * apply Forall_app. split; [exact I2|]. constructor; [|constructor].
        unfold polyline_well_formed. cbn [pl_points pl_line_type]. lia.
      * apply StronglySorted_snoc_map; [exact I4|].
        eapply Forall_impl; [|exact I2]. cbn beta.
        intros a (_ & Ha). cbn [pl_line_type]. lia.
      * rewrite length_app, I7. cbn [length]. lia.
    + exact Hinv.
Qed.

Lemma primitives_inv_next (t : Z) (st : curves_state) :
  primitives_inv t st -> primitives_inv (t + 1) st.
Proof.
  intros (I1 & I2 & I3 & I4 & I5). unfold primitives_inv.
  splits; try assumption; try apply I5.
  - eapply Forall_impl; [|exact I1]. intros c (H1 & H2 & H3).
    split; [exact H1|]. split; [lia | exact H3].
  - eapply Forall_impl; [|exact I2]. intros p (H1 & H2).
    split; [exact H1 | lia].
Qed.

Lemma extract_2d_curves_primitives (t : Z) (shape : TopoDS_Compound)
    (deflection : R) (st : curves_state) (n : Z) :
  (0 <= t)%Z -> primitives_inv t st ->
  primitives_inv t (fst (hlr2_extract shape t deflection (st, n))).
Proof.
  intros Ht Hinv. unfold hlr2_extract, extract_2d_curves. cbn [fst].
  assert (H0 : primitives_inv t
                 (mkCurvesState (cs_curves st) (cs_polylines st) (cs_bbox st)
                    (cs_num_lines st) (cs_num_arcs st) (cs_num_polylines st) 0))
    by exact Hinv.
  destruct shape as [edges|]; [|exact H0].
  revert H0. generalize (mkCurvesState (cs_curves st) (cs_polylines st)
                           (cs_bbox st) (cs_num_lines st) (cs_num_arcs st)
                           (cs_num_polylines st) 0).
  induction edges as [|e edges IH]; intros s Hs; [exact Hs|].
  cbn [fold_left]. apply IH, extract_2d_curves_step_primitives; assumption.
Qed.

Lemma hlr2_extract_all_primitives (c : HLRCompounds) (deflection : R) :
  primitives_inv 5 (fst (hlr2_extract_all c deflection)).
Proof.
  unfold hlr2_extract_all.
  set (a0 := (mkCurvesState [] [] bbox_sentinel 0 0 0 0, 0%Z)).
  assert (H0 : primitives_inv 0 (fst a0)).
  { unfold primitives_inv. cbn. splits; try constructor; reflexivity. }
  set (a1 := hlr2_extract (VCompound c) 0 deflection a0).
  assert (H1 : primitives_inv 1 (fst a1)).
  { apply (primitives_inv_next 0). unfold a1. rewrite (surjective_pairing a0).
    apply extract_2d_curves_primitives; [lia | exact H0]. }
  set (a2 := hlr2_extract (HCompound c) 1 deflection a1).
  assert (H2 : primitives_inv 2 (fst a2)).
  { apply (primitives_inv_next 1). unfold a2. rewrite (surjective_pairing a1).
    apply extract_2d_curves_primitives; [lia | exact H1]. }
  set (a3 := hlr2_extract (Rg1LineVCompound c) 2 deflection a2).
  assert (H3 : primitives_inv 3 (fst a3)).
  { apply (primitives_inv_next 2). unfold a3. rewrite (surjective_pairing a2).
    apply extract_2d_curves_primitives; [lia | exact H2]. }
  set (a4 := hlr2_extract (Rg1LineHCompound c) 3 deflection a3).
  assert (H4 : primitives_inv 4 (fst a4)).
  { apply (primitives_inv_next 3). unfold a4. rewrite (surjective_pairing a3).
    apply extract_2d_curves_primitives; [lia | exact H3]. }
  set (a5 := hlr2_extract (OutLineVCompound c) 4 deflection a4).
  assert (H5 : primitives_inv 5 (fst a5)).
  { apply (primitives_inv_next 4). unfold a5. rewrite (surjective_pairing a4).
    apply extract_2d_curves_primitives; [lia | exact H4]. }
  rewrite (surjective_pairing a5).
  apply extract_2d_curves_primitives; [lia | exact H5].
Qed.

Lemma curve_well_formed_scale (t : Z) (s : R) (c : Curve2DFFI) :
  curve_well_formed t c -> curve_well_formed t (scale_curve s c).
Proof.
  intros (H1 & H2 & H3 & H4 & H5). unfold curve_well_formed, scale_curve.
  cbn [cv_curve_type cv_line_type cv_center_x cv_center_y cv_radius
       cv_major_radius cv_minor_radius cv_start_angle cv_end_angle
       cv_rotation cv_ccw].
  split; [exact H1|]. split; [exact H2|]. splits.
  - intros Hz. destruct (H3 Hz) as (A1 & A2 & A3 & A4 & A5 & A6 & A7 & A8 & A9).
    rewrite A1, A2, A3, A4, A5, !Rmult_0_l. splits; auto.
  - intros Hz. destruct (H4 Hz) as (A1 & A2 & A3 & A4 & A5).
    rewrite A1, A2. splits; auto.
  - intros Hz. destruct (H5 Hz) as (A1 & A2). rewrite A1. split; auto.
Qed.

Lemma length_filter_scale (s : R) (cs : list Curve2DFFI)
    (f : Curve2DFFI -> bool) :
  (forall c, f (scale_curve s c) = f c) ->
  length (filter f (map (scale_curve s) cs)) = length (filter f cs).
Proof.
  intros Hfc. induction cs as [|c cs IH]; [reflexivity|].
  cbn [map filter]. rewrite Hfc. destruct (f c); cbn [length]; rewrite IH;
    reflexivity.
Qed.

Lemma primitives_inv_scale (t : Z) (s : R) (st : curves_state) :
  primitives_inv t st ->
  primitives_inv t
    (mkCurvesState (map (scale_curve s) (cs_curves st))
                   (map (scale_polyline s) (cs_polylines st))
                   (bbox_scale (cs_bbox st) s)
                   (cs_num_lines st) (cs_num_arcs st) (cs_num_polylines st)
                   (cs_extracted st)).
Proof.
  intros (I1 & I2 & I3 & I4 & I5 & I6 & I7). unfold primitives_inv.
  cbn [cs_curves cs_polylines cs_num_lines cs_num_arcs cs_num_polylines].
  pose proof (length_filter_scale s (cs_curves st)) as Hf.
  splits.
  - apply Forall_map. eapply Forall_impl; [|exact I1].
    intros c Hc. apply curve_well_formed_scale, Hc.
  - apply Forall_map. eapply Forall_impl; [|exact I2].
    intros p (H1 & H2). unfold polyline_well_formed, scale_polyline.
    cbn [pl_points pl_line_type]. rewrite length_map. split; assumption.
  - rewrite map_map. exact I3.
  - rewrite map_map. exact I4.
  - rewrite I5. unfold count_lines. rewrite Hf; reflexivity.
  - rewrite I6. unfold count_arcs. rewrite Hf; reflexivity.
  - rewrite length_map. exact I7.
Qed.

(** The result of [hlr2_finish] as a state. *)
Lemma hlr2_finish_primitives (scale deflection : R) (c : HLRCompounds) :
  let r := hlr2_finish scale deflection c in
  primitives_inv 5
    (mkCurvesState (h2_curves r) (h2_polylines r) (h2_bbox r)
                   (h2_num_lines r) (h2_num_arcs r) (h2_num_polylines r) 0) /\
  h2_num_edges r
  = Z.of_nat (length (h2_curves r) + length (h2_polylines r)).
Proof.
  cbv zeta. unfold hlr2_finish, hlr2_finish_from.
  pose proof (hlr2_extract_all_primitives c deflection) as Hinv.
  pose proof (hlr2_extract_all_count c deflection) as Hcount.
  cbv zeta in Hcount. destruct Hcount as (_ & Hn).
  destruct (hlr2_extract_all c deflection) as [st n].
  cbn [fst snd] in Hinv, Hn. unfold emitted_count in Hn.
  destruct (negb (Reqb scale 1));
    cbn [h2_curves h2_polylines h2_bbox h2_num_edges h2_num_lines h2_num_arcs
         h2_num_polylines].
  - split.
    + exact (primitives_inv_scale 5 scale st Hinv).
    + rewrite !length_map. exact Hn.
  - split; [exact Hinv | exact Hn].
Qed.

(** ** Exceptions during the extraction of curves *)

Lemma hlr2_extract_group_throws (deflection : R) (acc : curves_state * Z)
    (e : thrown) (line_type : Z) :
  hlr2_extract_group deflection acc (inl e, line_type) = inl (e, acc).
Proof. destruct acc. reflexivity. Qed.

(** The loop over the edges runs to its end, or a discretizer cuts it after
    some of the edges. *)
Lemma extract_2d_curves_loop_cases (throws : nat -> R -> option thrown)
    (line_type : Z) (deflection : R) (edges : list TopoDS_Edge) :
  forall (j : nat) (st : curves_state),
    extract_2d_curves_loop throws line_type deflection j edges st
    = inr (fold_left (extract_2d_curves_step line_type deflection) edges st) \/
    exists (e : thrown) (edges1 : list TopoDS_Edge) (c : EdgeCurve),
      extract_2d_curves_loop throws line_type deflection j edges st
      = inl (e, extract_2d_curves_cut
                  (fold_left (extract_2d_curves_step line_type deflection)
                             edges1 st) c).
Proof.
  induction edges as [|edge edges IH]; intros j st;
    cbn [extract_2d_curves_loop fold_left].
  - left. reflexivity.
  - assert (Hnext :
      extract_2d_curves_loop throws line_type deflection (S j) edges
        (extract_2d_curves_step line_type deflection st edge)
      = inr (fold_left (extract_2d_curves_step line_type deflection) edges
               (extract_2d_curves_step line_type deflection st edge)) \/
      exists (e : thrown) (edges1 : list TopoDS_Edge) (c : EdgeCurve),
        extract_2d_curves_loop throws line_type deflection (S j) edges
          (extract_2d_curves_step line_type deflection st edge)
        = inl (e, extract_2d_curves_cut
                    (fold_left (extract_2d_curves_step line_type deflection)
                               (edge :: edges1) st) c)).
    { destruct (IH (S j) (extract_2d_curves_step line_type deflection st edge))
        as [H|(e & edges1 & c & H)]; [left; exact H|].
      right. exists e, edges1, c. exact H. }
    assert (Hgoes :
      extract_2d_curves_loop throws line_type deflection (S j) edges
        (extract_2d_curves_step line_type deflection st edge)
      = inr (fold_left (extract_2d_curves_step line_type deflection) edges
               (extract_2d_curves_step line_type deflection st edge)) \/
      exists (e : thrown) (edges1 : list TopoDS_Edge) (c : EdgeCurve),
        extract_2d_curves_loop throws line_type deflection (S j) edges
          (extract_2d_curves_step line_type deflection st edge)
        = inl (e, extract_2d_curves_cut
                    (fold_left (extract_2d_curves_step line_type deflection)
                               edges1 st) c)).
    { destruct Hnext as [H|(e & edges1 & c & H)]; [left; exact H|].
      right. exists e, (edge :: edges1), c. exact H. }
    clear Hnext.
    destruct (edge_curve edge) as [c|]; [|exact Hgoes].
    destruct (edge_type edge); try exact Hgoes.
    destruct (throws j deflection) as [e|]; [|exact Hgoes].
    right. exists e, [], c. reflexivity.
Qed.

Lemma extract_2d_curves_try_cases (s : HLRShape) (line_type : Z)
    (deflection : R) (st : curves_state) :
  extract_2d_curves_try s line_type deflection st
  = inr (extract_2d_curves (hs_compound s) line_type deflection st) \/
  exists (e : thrown) (comp : TopoDS_Compound) (c : EdgeCurve),
    extract_2d_curves_try s line_type deflection st
    = inl (e, extract_2d_curves_cut
                (extract_2d_curves comp line_type deflection st) c).
Proof.
  unfold extract_2d_curves_try, extract_2d_curves.
  destruct (hs_compound s) as [edges|]; [|left; reflexivity].
  match goal with
  | |- context [extract_2d_curves_loop ?th ?t ?d ?j edges ?s0] =>
      destruct (extract_2d_curves_loop_cases th t d edges j s0)
        as [H|(e & edges1 & c & H)]
  end.
  - left. exact H.
  - right. exists e, (Some edges1), c. exact H.
Qed.

(** One group is extracted, or it is cut short with the curves and the
    polylines of a part of its compound. *)
Lemma hlr2_extract_group_cases (deflection : R) (acc : curves_state * Z)
    (call : kernel HLRShape) (line_type : Z) :
  (exists comp : TopoDS_Compound,
     hlr2_extract_group deflection acc (call, line_type)
     = inr (hlr2_extract comp line_type deflection acc)) \/
  (exists (e : thrown) (st : curves_state) (comp : TopoDS_Compound),
     hlr2_extract_group deflection acc (call, line_type)
     = inl (e, (st, snd acc)) /\
     cs_curves st
     = cs_curves (fst (hlr2_extract comp line_type deflection acc)) /\
     cs_polylines st
     = cs_polylines (fst (hlr2_extract comp line_type deflection acc))).
Proof.
  destruct acc as [st n]. destruct call as [e|s].
  - right. exists e, st, None. splits; reflexivity.
  - unfold hlr2_extract_group, hlr2_extract. cbn [fst snd].
    destruct (extract_2d_curves_try_cases s line_type deflection st)
      as [->|(e & comp & c & ->)].
    + left. exists (hs_compound s). reflexivity.
    + right. eexists e, _, comp. splits; reflexivity.
Qed.

Lemma hlr2_extract_snd_le (comp : TopoDS_Compound) (line_type : Z)
    (deflection : R) (acc : curves_state * Z) :
  (snd acc <= snd (hlr2_extract comp line_type deflection acc))%Z.
Proof.
  destruct acc as [st n].
  pose proof (hlr2_extract_count comp line_type deflection st n) as H.
  cbv zeta in H. cbn [snd]. lia.
Qed.

(** Null compounds add nothing. *)
Lemma hlr2_extract_list_nulls (deflection : R) (ts : list Z) :
  forall acc : curves_state * Z,
    let acc' := hlr2_extract_list deflection
                  (combine (repeat None (length ts)) ts) acc in
    cs_curves (fst acc') = cs_curves (fst acc) /\
    cs_polylines (fst acc') = cs_polylines (fst acc) /\
    cs_bbox (fst acc') = cs_bbox (fst acc) /\
    snd acc' = snd acc.
Proof.
  induction ts as [|t ts IH]; intros [st n]; cbv zeta.
  - splits; reflexivity.
  - cbn [length repeat combine hlr2_extract_list fold_left fst snd].
    pose proof (IH (hlr2_extract None t deflection (st, n))) as H.
    cbv zeta in H. unfold hlr2_extract_list in H.
    destruct H as (H1 & H2 & H3 & H4). rewrite H1, H2, H3, H4.
    cbn. splits; try reflexivity. lia.
Qed.

(** The groups of a list are all extracted, or an exception leaves the
    curves and the polylines of some compounds, with a count of edges that
    is not above theirs. *)
Lemma hlr2_groups_cases (deflection : R) (gs : list (kernel HLRShape * Z)) :
  forall acc : curves_state * Z,
    (exists comps : list TopoDS_Compound,
       length comps = length gs /\
       attempt_fold (hlr2_extract_group deflection) gs acc
       = inr (hlr2_extract_list deflection (combine comps (map snd gs)) acc)) \/
    (exists (e : thrown) (st : curves_state) (n : Z)
            (comps : list TopoDS_Compound),
       length comps = length gs /\
       attempt_fold (hlr2_extract_group deflection) gs acc = inl (e, (st, n)) /\
       let acc' := hlr2_extract_list deflection
                     (combine comps (map snd gs)) acc in
       cs_curves st = cs_curves (fst acc') /\
       cs_polylines st = cs_polylines (fst acc') /\
       (snd acc <= n <= snd acc')%Z).
Proof.
  induction gs as [|[call t] gs IH]; intros acc.
  - left. exists []. split; reflexivity.
  - cbn [attempt_fold].
    destruct (hlr2_extract_group_cases deflection acc call t)
      as [(comp & ->)|(e & st & comp & -> & Hc & Hp)].
    + pose proof (hlr2_extract_snd_le comp t deflection acc) as Hle.
      destruct (IH (hlr2_extract comp t deflection acc))
        as [(comps & Hl & ->)|(e & st & n & comps & Hl & -> & Hc & Hp & Hn)].
      * left. exists (comp :: comps). split; [cbn; lia | reflexivity].
      * right. exists e, st, n, (comp :: comps).
        split; [cbn; lia|]. split; [reflexivity|].
        cbv zeta. unfold hlr2_extract_list in *.
        cbn [map snd combine fold_left fst] in *.
        split; [exact Hc|]. split; [exact Hp|]. lia.
    + right. exists e, st, (snd acc), (comp :: repeat None (length (map snd gs))).
      split; [cbn; rewrite repeat_length, length_map; reflexivity|].
      split; [reflexivity|].
      pose proof (hlr2_extract_list_nulls deflection (map snd gs)
                    (hlr2_extract comp t deflection acc)) as H.
      cbv zeta in H |- *. unfold hlr2_extract_list in *.
      cbn [map snd combine fold_left fst] in *.
      destruct H as (H1 & H2 & _ & H4).
      pose proof (hlr2_extract_snd_le comp t deflection acc) as Hle.
      split; [exact (eq_trans Hc (eq_sym H1))|].
      split; [exact (eq_trans Hp (eq_sym H2))|].
      split; [lia|].
      apply Z.le_trans with (snd (hlr2_extract comp t deflection acc));
        [exact Hle|].
      apply Z.eq_le_incl. symmetry. exact H4.
Qed.

(** The six groups are all extracted, or an exception leaves the curves and
    the polylines of some compounds, with a count of edges that is not above
    theirs. *)
Lemma hlr2_extract_all_try_cases (extractor : HLRBRep_HLRToShape)
    (deflection : R) :
  (exists c : HLRCompounds,
     hlr2_extract_all_try extractor deflection
     = inr (hlr2_extract_all c deflection)) \/
  (exists (e : thrown) (st : curves_state) (n : Z) (c : HLRCompounds),
     hlr2_extract_all_try extractor deflection = inl (e, (st, n)) /\
     cs_curves st = cs_curves (fst (hlr2_extract_all c deflection)) /\
     cs_polylines st = cs_polylines (fst (hlr2_extract_all c deflection)) /\
     (0 <= n <= snd (hlr2_extract_all c deflection))%Z).
Proof.
  unfold hlr2_extract_all_try.
  destruct (hlr2_groups_cases deflection (hlr_groups extractor)
              (mkCurvesState [] [] bbox_sentinel 0 0 0 0, 0%Z))
    as [(comps & Hl & ->)|(e & st & n & comps & Hl & -> & H)];
    destruct comps as [|c0 [|c1 [|c2 [|c3 [|c4 [|c5 [|c6 comps]]]]]]];
    try discriminate Hl.
  - left. exists (mkHLRCompounds c0 c1 c2 c3 c4 c5). reflexivity.
  - right. exists e, st, n, (mkHLRCompounds c0 c1 c2 c3 c4 c5).
    split; [reflexivity|]. exact H.
Qed.

(** What [hlr2_try] can come to: an exception or a return before the
    extraction, the end of the block, or an exception during the
    extraction. *)
Lemma hlr2_try_cases (shape : OcctShape)
    (dir_x dir_y dir_z up_x up_y up_z scale deflection : R) :
  (exists e, hlr2_try shape dir_x dir_y dir_z up_x up_y up_z scale deflection
             = inl (e, hlr2_result_init)) \/
  hlr2_try shape dir_x dir_y dir_z up_x up_y up_z scale deflection
    = inr hlr2_result_init \/
  (exists c : HLRCompounds,
     hlr2_try shape dir_x dir_y dir_z up_x up_y up_z scale deflection
     = inr (hlr2_finish scale (effective_deflection deflection) c)) \/
  (exists (e : thrown) (st : curves_state) (n : Z) (c : HLRCompounds),
     let a := hlr2_extract_all c (effective_deflection deflection) in
     hlr2_try shape dir_x dir_y dir_z up_x up_y up_z scale deflection
     = inl (e, mkHLRResultV2 (cs_curves st) (cs_polylines st) (cs_bbox st)
                             n 0 0 0) /\
     cs_curves st = cs_curves (fst a) /\
     cs_polylines st = cs_polylines (fst a) /\
     (0 <= n <= snd a)%Z).
Proof.
  unfold hlr2_try. destruct (is_null shape); [right; left; reflexivity|].
  cbv zeta. destruct (Rltb _ 1e-10); [right; left; reflexivity|].
  destruct (gp_Dir _ _ _) as [e|viewDir]; [left; exists e; reflexivity|].
  cbn [kcall].
  destruct (gp_Dir up_x up_y up_z) as [e|upDir]; [left; exists e; reflexivity|].
  cbn [kcall].
  destruct (shape_hlr shape _ _) as [e|extractor]; [left; exists e; reflexivity|].
  cbn [kcall]. right; right. fold (effective_deflection deflection).
  destruct (hlr2_extract_all_try_cases extractor (effective_deflection deflection))
    as [(c & ->)|(e & st & n & c & -> & H)].
  - left. exists c. reflexivity.
  - right. exists e, st, n, c. split; [reflexivity | exact H].
Qed.

(** What [compute_hlr_projection_v2] returns: nothing, the result of a run
    to the end of the block, or the curves and polylines that an exception
    left, with the three counters at 0. *)
Lemma hlr2_result_cases (shape : OcctShape)
    (dir_x dir_y dir_z up_x up_y up_z scale deflection : R) :
  let r := compute_hlr_projection_v2 shape dir_x dir_y dir_z up_x up_y up_z
                                     scale deflection in
  (h2_curves r = [] /\ h2_polylines r = [] /\ h2_num_edges r = 0%Z /\
   h2_num_lines r = 0%Z /\ h2_num_arcs r = 0%Z /\ h2_num_polylines r = 0%Z) \/
  (exists c : HLRCompounds,
     r = hlr2_finish scale (effective_deflection deflection) c) \/
  (exists c : HLRCompounds,
     let a := hlr2_extract_all c (effective_deflection deflection) in
     h2_curves r = cs_curves (fst a) /\
     h2_polylines r = cs_polylines (fst a) /\
     (0 <= h2_num_edges r <= snd a)%Z /\
     h2_num_lines r = 0%Z /\ h2_num_arcs r = 0%Z /\ h2_num_polylines r = 0%Z).
Proof.
  cbv zeta. unfold compute_hlr_projection_v2.
  destruct (hlr2_try_cases shape dir_x dir_y dir_z up_x up_y up_z scale deflection)
    as [(e & ->)|[->|[(c & ->)|(e & st & n & c & -> & Hc & Hp & Hn)]]].
  - left. destruct e; cbn; splits; reflexivity.
  - left. cbn. splits; reflexivity.
  - right. left. exists c. reflexivity.
  - right. right. exists c. cbv zeta. rewrite <- Hc, <- Hp.
    destruct e;
      cbn [hlr2_catch h2_curves h2_polylines h2_num_edges h2_num_lines
           h2_num_arcs h2_num_polylines];
      (split; [reflexivity|]); (split; [reflexivity|]);
      (split; [exact Hn|]); splits; reflexivity.
Qed.

Lemma count_lines_nonneg (cs : list Curve2DFFI) : (0 <= count_lines cs)%Z.
Proof. unfold count_lines. lia. Qed.

Lemma count_arcs_nonneg (cs : list Curve2DFFI) : (0 <= count_arcs cs)%Z.
Proof. unfold count_arcs. lia. Qed.

(** X16.  The four counters of [compute_hlr_projection_v2] against the lists
    it returns.  When the call runs through the extraction without an
    exception they agree with the lists: [num_lines] is the number of curves
    of kind 0, [num_arcs] the number of the other curves (arcs, circles and
    ellipses), [num_polylines] the number of polylines, and [num_edges] is
    their sum, the number of primitives returned.  For every input no
    counter is above what it counts: an exception during the extraction
    leaves [num_lines], [num_arcs] and [num_polylines] at 0 and in
    [num_edges] the count of the groups extracted before it, while the
    lists keep what was pushed. *)
Theorem hlr2_counters_agree
    (shape : OcctShape)
    (dir_x dir_y dir_z up_x up_y up_z scale deflection : R) :
  let r := compute_hlr_projection_v2 shape dir_x dir_y dir_z up_x up_y up_z
                                     scale deflection in
  (forall c : HLRCompounds,
     hlr2_reaches shape dir_x dir_y dir_z up_x up_y up_z c ->
     h2_num_lines r = count_lines (h2_curves r) /\
     h2_num_arcs r = count_arcs (h2_curves r) /\
     h2_num_polylines r = Z.of_nat (length (h2_polylines r)) /\
     h2_num_edges r = (h2_num_lines r + h2_num_arcs r + h2_num_polylines r)%Z /\
     h2_num_edges r
     = Z.of_nat (length (h2_curves r) + length (h2_polylines r))) /\
  (0 <= h2_num_lines r <= count_lines (h2_curves r))%Z /\
  (0 <= h2_num_arcs r <= count_arcs (h2_curves r))%Z /\
  (0 <= h2_num_polylines r <= Z.of_nat (length (h2_polylines r)))%Z /\
  (0 <= h2_num_edges r
     <= Z.of_nat (length (h2_curves r) + length (h2_polylines r)))%Z.
Proof.
  intros r.
  assert (Hfin : forall c : HLRCompounds,
    let f := hlr2_finish scale (effective_deflection deflection) c in
    h2_num_lines f = count_lines (h2_curves f) /\
    h2_num_arcs f = count_arcs (h2_curves f) /\
    h2_num_polylines f = Z.of_nat (length (h2_polylines f)) /\
    h2_num_edges f = (h2_num_lines f + h2_num_arcs f + h2_num_polylines f)%Z /\
    h2_num_edges f
    = Z.of_nat (length (h2_curves f) + length (h2_polylines f))).
  { intros c.
    pose proof (hlr2_finish_primitives scale (effective_deflection deflection) c)
      as H. cbv zeta in H |- *.
    destruct H as ((_ & _ & _ & _ & I5 & I6 & I7) & Hn).
    cbn [cs_curves cs_polylines cs_num_lines cs_num_arcs cs_num_polylines]
      in I5, I6, I7.
    splits; try assumption.
    rewrite Hn, I5, I6, I7, Nat2Z.inj_add, <- count_lines_arcs. reflexivity. }
  split.
  - intros c Hreach. subst r.
    rewrite (hlr2_reaches_result _ _ _ _ _ _ _ scale deflection _ Hreach).
    apply Hfin.
  - destruct (hlr2_result_cases shape dir_x dir_y dir_z up_x up_y up_z scale
                deflection)
      as [(H1 & H2 & H3 & H4 & H5 & H6)|[(c & Hc)|(c & Hx)]].
    + fold r in H1, H2, H3, H4, H5, H6.
      rewrite H1, H2, H3, H4, H5, H6. cbn. lia.
    + fold r in Hc. rewrite Hc.
      destruct (Hfin c) as (F1 & F2 & F3 & F4 & F5). cbv zeta in *.
      pose proof (count_lines_nonneg
                    (h2_curves (hlr2_finish scale (effective_deflection deflection) c))).
      pose proof (count_arcs_nonneg
                    (h2_curves (hlr2_finish scale (effective_deflection deflection) c))).
      lia.
    + cbv zeta in Hx. fold r in Hx.
      destruct Hx as (Xc & Xp & Xn & X1 & X2 & X3).
      pose proof (hlr2_extract_all_count c (effective_deflection deflection))
        as Hcount.
      cbv zeta in Hcount. destruct Hcount as (_ & Hn).
      unfold emitted_count in Hn. rewrite <- Xc, <- Xp in Hn.
      pose proof (count_lines_nonneg (h2_curves r)).
      pose proof (count_arcs_nonneg (h2_curves r)).
      rewrite X1, X2, X3. lia.
Qed.

(** On a sample shape with one visible straight edge the counters agree. *)
Lemma hlr2_counters_agree_witness :
  let r := compute_hlr_projection_v2
             (sample_shape [] []
                (one_visible_edge (line_edge (mkPnt 0 0 0) (mkPnt 1 1 0))) None)
             0 0 1 0 1 0 2 0.01 in
  h2_num_lines r = count_lines (h2_curves r) /\
  h2_num_edges r = Z.of_nat (length (h2_curves r) + length (h2_polylines r)).
Proof.
  intros r.
  destruct (hlr2_counters_agree
              (sample_shape [] []
                 (one_visible_edge (line_edge (mkPnt 0 0 0) (mkPnt 1 1 0))) None)
              0 0 1 0 1 0 2 0.01) as (Hall & _).
  destruct (Hall _ (sample_hlr2_reaches [] [] _ None)) as (H1 & _ & _ & _ & H5).
  split; [exact H1 | exact H5].
Defined.

(** X17.  Every primitive [compute_hlr_projection_v2] returns is well
    formed, for every input: a curve has a kind in 0..3 and a class in 0..5;
    a line has zero centre, radii and angles; an arc or circle has its
    radius in all three radius fields, rotation 0 and both angles within
    [-PI, PI]; an ellipse has its major radius as radius and a rotation
    within [-PI, PI]; a polyline has at least 2 points.  Curves and
    polylines each come in the order of the classes. *)
Theorem hlr2_primitives_well_formed
    (shape : OcctShape)
    (dir_x dir_y dir_z up_x up_y up_z scale deflection : R) :
  let r := compute_hlr_projection_v2 shape dir_x dir_y dir_z up_x up_y up_z
                                     scale deflection in
  Forall (curve_well_formed 5) (h2_curves r) /\
  Forall (polyline_well_formed 5) (h2_polylines r) /\
  StronglySorted Z.le (map cv_line_type (h2_curves r)) /\
  StronglySorted Z.le (map pl_line_type (h2_polylines r)).
Proof.
  intros r.
  destruct (hlr2_result_cases shape dir_x dir_y dir_z up_x up_y up_z scale
              deflection) as [(H1 & H2 & _)|[(c & Hc)|(c & Hx)]].
  - fold r in H1, H2. rewrite H1, H2. cbn. splits; constructor.
  - fold r in Hc. rewrite Hc.
    pose proof (hlr2_finish_primitives scale (effective_deflection deflection) c)
      as H. cbv zeta in H.
    destruct H as ((I1 & I2 & I3 & I4 & _) & _).
    splits; assumption.
  - cbv zeta in Hx. fold r in Hx. destruct Hx as (Xc & Xp & _).
    rewrite Xc, Xp.
    destruct (hlr2_extract_all_primitives c (effective_deflection deflection))
      as (I1 & I2 & I3 & I4 & _).
    splits; assumption.
Qed.

(** ** Deflection and scale of the projection of curves *)

Lemma extract_2d_curves_step_deflection (t : Z) (d1 d2 : R)
    (st : curves_state) (e : TopoDS_Edge) :
  same_tessellation d1 d2 e ->
  extract_2d_curves_step t (effective_deflection d1) st e
  = extract_2d_curves_step t (effective_deflection d2) st e.
Proof.
  intros Hsame. unfold extract_2d_curves_step, same_tessellation in *.
  destruct (edge_curve e) as [c|]; [|reflexivity].
  destruct (Rleb _ 1e-7 && is_GeomAbs_Line (edge_type e)); [reflexivity|].
  destruct (edge_type e); try reflexivity.
  cbv zeta. rewrite (Hsame eq_refl). reflexivity.
Qed.

Lemma hlr2_extract_deflection (t : Z) (d1 d2 : R) (shape : TopoDS_Compound)
    (a : curves_state * Z) :
  compound_all (same_tessellation d1 d2) shape ->
  hlr2_extract shape t (effective_deflection d1) a
  = hlr2_extract shape t (effective_deflection d2) a.
Proof.
  intros Hall. destruct a as [st n]. unfold hlr2_extract, extract_2d_curves.
  destruct shape as [edges|]; [|reflexivity].
  cbn [compound_all] in Hall.
  assert (H : forall s,
             fold_left (extract_2d_curves_step t (effective_deflection d1)) edges s
             = fold_left (extract_2d_curves_step t (effective_deflection d2)) edges s).
  { induction edges as [|e edges IH]; intros s; [reflexivity|].
    inversion Hall; subst. cbn [fold_left].
    rewrite (extract_2d_curves_step_deflection t d1 d2 s e) by assumption.
    apply IH. assumption. }
  rewrite H. reflexivity.
Qed.

Lemma hlr2_extract_all_deflection (d1 d2 : R) (c : HLRCompounds) :
  compounds_all (same_tessellation d1 d2) c ->
  hlr2_extract_all c (effective_deflection d1)
  = hlr2_extract_all c (effective_deflection d2).
Proof.
  intros (Q0 & Q1 & Q2 & Q3 & Q4 & Q5). unfold hlr2_extract_all. cbv zeta.
  rewrite (hlr2_extract_deflection 0 d1 d2 _ _ Q0).
  rewrite (hlr2_extract_deflection 1 d1 d2 _ _ Q1).
  rewrite (hlr2_extract_deflection 2 d1 d2 _ _ Q2).
  rewrite (hlr2_extract_deflection 3 d1 d2 _ _ Q3).
  rewrite (hlr2_extract_deflection 4 d1 d2 _ _ Q4).
  rewrite (hlr2_extract_deflection 5 d1 d2 _ _ Q5).
  reflexivity.
Qed.

(** X18.  The deflection reaches nothing but the tessellation of the edges
    that are neither line, circle nor ellipse, and only after values [<= 0]
    have been replaced by 0.01: two deflections that give the same sample
    points on those edges give the same result.  So a deflection [<= 0]
    gives the result of 0.01, and a drawing without such edges does not
    depend on the deflection at all. *)
Theorem hlr2_deflection_only_tessellates
    (shape : OcctShape)
    (dir_x dir_y dir_z up_x up_y up_z scale d1 d2 : R) (c : HLRCompounds) :
  hlr2_reaches shape dir_x dir_y dir_z up_x up_y up_z c ->
  compounds_all (same_tessellation d1 d2) c ->
  compute_hlr_projection_v2 shape dir_x dir_y dir_z up_x up_y up_z scale d1
  = compute_hlr_projection_v2 shape dir_x dir_y dir_z up_x up_y up_z scale d2.
Proof.
  intros Hreach Hall.
  rewrite !(hlr2_reaches_result _ _ _ _ _ _ _ scale _ c Hreach).
  unfold hlr2_finish, hlr2_finish_from. rewrite (hlr2_extract_all_deflection d1 d2 c Hall).
  reflexivity.
Qed.

Lemma hlr2_deflection_only_tessellates_witness :
  compute_hlr_projection_v2
    (sample_shape [] []
       (one_visible_edge (line_edge (mkPnt 0 0 0) (mkPnt 1 1 0))) None)
    0 0 1 0 1 0 2 (-1)
  = compute_hlr_projection_v2
      (sample_shape [] []
         (one_visible_edge (line_edge (mkPnt 0 0 0) (mkPnt 1 1 0))) None)
      0 0 1 0 1 0 2 5.
Proof.
  apply (hlr2_deflection_only_tessellates _ 0 0 1 0 1 0 2 (-1) 5 _
           (sample_hlr2_reaches [] [] _ None)).
  unfold compounds_all, one_visible_edge. cbn. splits; auto.
  constructor; [|constructor]. intros H. discriminate H.
Defined.

Lemma scale_curve_one (c : Curve2DFFI) : scale_curve 1 c = c.
Proof.
  destruct c. unfold scale_curve.
  cbn [cv_curve_type cv_line_type cv_start_x cv_start_y cv_end_x cv_end_y
       cv_center_x cv_center_y cv_radius cv_major_radius cv_minor_radius
       cv_start_angle cv_end_angle cv_rotation cv_ccw].
  rewrite !Rmult_1_r. reflexivity.
Qed.

Lemma scale_polyline_one (p : Polyline2DFFI) : scale_polyline 1 p = p.
Proof.
  destruct p as [pts t]. unfold scale_polyline. cbn [pl_points pl_line_type].
  f_equal. induction pts as [|[x y] pts IH]; [reflexivity|].
  cbn [map tp_x tp_y]. rewrite IH, !Rmult_1_r. reflexivity.
Qed.

Lemma map_id_on {A : Type} (f : A -> A) (l : list A) :
  (forall a, f a = a) -> map f l = l.
Proof.
  intros H. induction l as [|a l IH]; [reflexivity|].
  cbn [map]. rewrite H, IH. reflexivity.
Qed.

Lemma bbox_scale_one (b : BBox2D) : bbox_scale b 1 = b.
Proof.
  destruct b. unfold bbox_scale. cbn [bb_min_x bb_min_y bb_max_x bb_max_y].
  rewrite !Rmult_1_r. reflexivity.
Qed.

Lemma bbox_scale_zero (s : R) : bbox_scale bbox_zero s = bbox_zero.
Proof.
  unfold bbox_scale, bbox_zero. cbn [bb_min_x bb_min_y bb_max_x bb_max_y].
  rewrite !Rmult_0_l. reflexivity.
Qed.

Lemma hlr2_finish_scale (scale deflection : R) (c : HLRCompounds) :
  hlr2_finish scale deflection c
  = scale_hlr2 scale (hlr2_finish 1 deflection c).
Proof.
  unfold hlr2_finish, hlr2_finish_from. destruct (hlr2_extract_all c deflection) as [st n].
  rewrite (Reqb_true 1 1) by reflexivity. cbn [negb].
  unfold scale_hlr2.
  cbn [h2_curves h2_polylines h2_bbox h2_num_edges h2_num_lines h2_num_arcs
       h2_num_polylines].
  assert (Hemp : is_empty (map (scale_curve scale) (cs_curves st))
                 && is_empty (map (scale_polyline scale) (cs_polylines st))
                 = is_empty (cs_curves st) && is_empty (cs_polylines st)).
  { destruct (cs_curves st); destruct (cs_polylines st); reflexivity. }
  unfold Reqb. destruct (Req_dec_T scale 1) as [->|H1]; cbn [negb].
  - rewrite (map_id_on (scale_curve 1)) by apply scale_curve_one.
    rewrite (map_id_on (scale_polyline 1)) by apply scale_polyline_one.
    rewrite bbox_scale_one. reflexivity.
  - rewrite Hemp.
    destruct (is_empty (cs_curves st) && is_empty (cs_polylines st)).
    + rewrite bbox_scale_zero. reflexivity.
    + reflexivity.
Qed.

(** X19.  The scale is a pure post-scaling here too: the result at [scale]
    is the result at scale 1 with the coordinates, centres and radii of the
    curves, the points of the polylines and the box multiplied by [scale];
    angles, kinds, classes and counters are those of scale 1. *)
Theorem hlr2_scale_is_post_scaling
    (shape : OcctShape)
    (dir_x dir_y dir_z up_x up_y up_z scale deflection : R) (c : HLRCompounds) :
  hlr2_reaches shape dir_x dir_y dir_z up_x up_y up_z c ->
  compute_hlr_projection_v2 shape dir_x dir_y dir_z up_x up_y up_z
                            scale deflection
  = scale_hlr2 scale
      (compute_hlr_projection_v2 shape dir_x dir_y dir_z up_x up_y up_z
                                 1 deflection).
Proof.
  intros Hreach.
  rewrite !(hlr2_reaches_result _ _ _ _ _ _ _ _ _ c Hreach).
  apply hlr2_finish_scale.
Qed.

Lemma hlr2_scale_is_post_scaling_witness :
  compute_hlr_projection_v2
    (sample_shape [] []
       (one_visible_edge (line_edge (mkPnt 0 0 0) (mkPnt 1 1 0))) None)
    0 0 1 0 1 0 2 0.01
  = scale_hlr2 2
      (compute_hlr_projection_v2
         (sample_shape [] []
            (one_visible_edge (line_edge (mkPnt 0 0 0) (mkPnt 1 1 0))) None)
         0 0 1 0 1 0 1 0.01).
Proof.
  exact (hlr2_scale_is_post_scaling _ 0 0 1 0 1 0 2 0.01 _
           (sample_hlr2_reaches [] [] _ None)).
Defined.

(** ** Meshes of parts *)

Lemma node_normal_unit (t : Poly_Triangulation) (i : nat) (n : Vertex) :
  node_normal t i = inr n -> vertex_norm n = 1.
Proof.
  unfold node_normal, vertex_norm.
  destruct (tri_normal t) as [Normal|];
    [|intros E; injection E as <-; exact modulus_axis_z].
  destruct (Normal i) as [e|normalVec]; [discriminate|].
  cbn [kbind]. unfold kret, Rltb. intros E. injection E as <-.
  destruct (Rlt_dec 1e-10 _) as [H|H]; [|exact modulus_axis_z].
  cbn [v_x v_y v_z]. unfold modulus in *.
  rewrite normalized_sq by lra. apply sqrt_1.
Qed.

(** The loop over the nodes: a vertex for every node and unit normals
    beside them; when it is cut, the vertex of the node is there and its
    normal is not. *)
Lemma mesh_nodes_spec (t : Poly_Triangulation) (nodes : list gp_Pnt) :
  forall (i : nat) (vertices normals : list Vertex),
    match mesh_nodes t i nodes vertices normals with
    | inr (vs, ns) =>
        vs = vertices ++ map node_vertex nodes /\
        exists new : list Vertex,
          ns = normals ++ new /\ length new = length nodes /\
          Forall (fun n => vertex_norm n = 1) new
    | inl (_, (vs, ns)) =>
        exists (walked : list gp_Pnt) (new : list Vertex),
          vs = vertices ++ map node_vertex walked /\
          ns = normals ++ new /\ length walked = S (length new) /\
          (length walked <= length nodes)%nat /\
          Forall (fun n => vertex_norm n = 1) new
    end.
Proof.
  induction nodes as [|p nodes IH]; intros i vertices normals.
  - cbn. rewrite app_nil_r. split; [reflexivity|].
    exists []. rewrite app_nil_r. splits; auto.
  - cbn [mesh_nodes]. cbv zeta.
    destruct (node_normal t i) as [e|n] eqn:En.
    + exists [p], []. cbn. rewrite app_nil_r. splits; auto. lia.
    + pose proof (node_normal_unit t i n En) as Hn.
      specialize (IH (S i) (vertices ++ [node_vertex p]) (normals ++ [n])).
      destruct (mesh_nodes t (S i) nodes _ _) as [[e [vs ns]]|[vs ns]].
      * destruct IH as (walked & new & Hv & Hns & Hl & Hle & Hu).
        exists (p :: walked), (n :: new).
        rewrite Hv, Hns, <- !app_assoc. cbn [app map length].
        splits; auto; try lia.
      * destruct IH as (Hv & new & Hns & Hl & Hu).
        rewrite Hv, Hns, <- !app_assoc. cbn [app map length].
        split; [reflexivity|]. exists (n :: new). splits; auto.
        cbn [length]. lia.
Qed.

(** The loop runs to its end when every normal can be read. *)
Lemma mesh_nodes_returns (t : Poly_Triangulation) (nodes : list gp_Pnt) :
  forall (i : nat) (vertices normals : list Vertex),
    (forall k : nat, (i <= k < i + length nodes)%nat ->
       exists n : Vertex, node_normal t k = inr n) ->
    exists r, mesh_nodes t i nodes vertices normals = inr r.
Proof.
  induction nodes as [|p nodes IH]; intros i vertices normals Hq.
  - eexists. reflexivity.
  - cbn [mesh_nodes]. cbv zeta.
    destruct (Hq i) as (n & ->); [cbn [length]; lia|].
    apply IH. intros k Hk. apply Hq. cbn [length]. lia.
Qed.

Lemma normals_return_nodes (t : Poly_Triangulation) :
  normals_return t ->
  forall k : nat, (1 <= k < 1 + length (tri_nodes t))%nat ->
    exists n : Vertex, node_normal t k = inr n.
Proof.
  unfold normals_return, node_normal. intros H k Hk.
  destruct (tri_normal t) as [Normal|]; [|eexists; reflexivity].
  destruct (H k) as (v & ->); [lia|]. eexists. reflexivity.
Qed.

Lemma mesh_index_exact (vertexOffset n : Z) :
  (0 <= vertexOffset + n - 1 < 2 ^ 32)%Z ->
  mesh_index vertexOffset n = (vertexOffset + n - 1)%Z.
Proof.
  intros H. unfold mesh_index, cast_uint32, wrap_size_t.
  rewrite (Z.mod_small _ (2 ^ 64)) by lia.
  apply Z.mod_small. lia.
Qed.

Lemma triangle_within_more (n m : nat) (t : Triangle) :
  (n <= m)%nat -> triangle_within n t -> triangle_within m t.
Proof. unfold triangle_within. intros; lia. Qed.

(** The buffers while the faces are walked: a unit normal for every
    vertex. *)
Lemma part_faces_consistent (faces : list TopoDS_Face) :
  forall st st' : part_mesh,
    kfold part_face_step faces st = inr st' ->
    length (pm_normals st) = length (pm_vertices st) ->
    Forall (fun n => vertex_norm n = 1) (pm_normals st) ->
    length (pm_normals st') = length (pm_vertices st') /\
    Forall (fun n => vertex_norm n = 1) (pm_normals st').
Proof.
  induction faces as [|f faces IH]; intros st st' E Hl Hu.
  - cbn in E. injection E as <-. split; assumption.
  - cbn [kfold] in E. unfold part_face_step in E at 1.
    destruct (face_triangulation f) as [t|].
    + pose proof (mesh_nodes_spec t (tri_nodes t) 1 (pm_vertices st)
                    (pm_normals st)) as M.
      destruct (mesh_nodes t 1 (tri_nodes t) _ _) as [[e [vs ns]]|[vs ns]];
        [discriminate|].
      destruct M as (Hv & new & Hn & Hlen & Hunit).
      cbn [kbind kret] in E. apply (IH _ _ E); cbn [pm_normals pm_vertices].
      * rewrite Hv, Hn, !length_app, length_map. lia.
      * rewrite Hn. apply Forall_app. split; assumption.
    + cbn [kbind kret] in E. apply (IH _ _ E); assumption.
Qed.

(** The same with the triangles, for valid triangulations with fewer than
    [2^32] nodes in all. *)
Lemma part_faces_within (faces : list TopoDS_Face) :
  forall st st' : part_mesh,
    kfold part_face_step faces st = inr st' ->
    Forall face_valid faces ->
    pm_vertexOffset st = Z.of_nat (length (pm_vertices st)) ->
    (Z.of_nat (length (pm_vertices st) + node_count faces) < 2 ^ 32)%Z ->
    Forall (triangle_within (length (pm_vertices st))) (pm_triangles st) ->
    length (pm_vertices st')
      = (length (pm_vertices st) + node_count faces)%nat /\
    Forall (triangle_within (length (pm_vertices st'))) (pm_triangles st').
Proof.
  induction faces as [|f faces IH]; intros st st' E Hv Ho Hn Ht.
  - cbn in E. injection E as <-. cbn. rewrite Nat.add_0_r.
    split; [reflexivity | exact Ht].
  - cbn [kfold] in E. inversion Hv as [|? ? Hf Hfs]; subst.
    cbn [node_count fold_right] in *. fold (node_count faces) in *.
    unfold part_face_step in E at 1. unfold face_valid in *.
    destruct (face_triangulation f) as [t|].
    + pose proof (mesh_nodes_spec t (tri_nodes t) 1 (pm_vertices st)
                    (pm_normals st)) as M.
      destruct (mesh_nodes t 1 (tri_nodes t) _ _) as [[e [vs ns]]|[vs ns]];
        [discriminate|].
      destruct M as (Hvs & _).
      cbn [kbind kret] in E.
      match type of E with
      | kfold _ _ ?s1 = _ => set (st1 := s1) in *
      end.
      assert (L1 : length (pm_vertices st1)
                   = (length (pm_vertices st) + length (tri_nodes t))%nat).
      { unfold st1. cbn [pm_vertices]. rewrite Hvs, length_app, length_map.
        reflexivity. }
      destruct (IH st1 st' E) as (A & B).
      * exact Hfs.
      * unfold st1 at 1. cbn [pm_vertexOffset]. rewrite L1, Ho.
        unfold wrap_size_t. rewrite Z.mod_small by lia. lia.
      * rewrite L1. lia.
      * unfold st1 at 2. cbn [pm_triangles]. apply Forall_app. split.
        -- eapply Forall_impl; [|exact Ht]. intros tr.
           apply triangle_within_more. lia.
        -- apply Forall_map. unfold triangulation_valid in Hf.
           eapply Forall_impl; [|exact Hf].
           intros [[n1 n2] n3]. cbn [fst snd]. intros (H1 & H2 & H3).
           rewrite L1, Ho. unfold mesh_triangle, triangle_within.
           destruct (face_reversed f); cbn [t_v1 t_v2 t_v3];
             rewrite !mesh_index_exact by lia; lia.
      * split; [rewrite A, L1; lia | exact B].
    + cbn [kbind kret] in E. apply (IH st st' E); assumption.
Qed.

(** The loop over the faces of a part runs to its end when every normal can
    be read. *)
Lemma part_faces_return (faces : list TopoDS_Face) :
  Forall face_normals_return faces ->
  forall st : part_mesh, exists st', kfold part_face_step faces st = inr st'.
Proof.
  induction 1 as [|f faces Hf _ IH]; intros st.
  - eexists. reflexivity.
  - cbn [kfold]. unfold part_face_step at 1. unfold face_normals_return in Hf.
    destruct (face_triangulation f) as [t|].
    + destruct (mesh_nodes_returns t (tri_nodes t) 1 (pm_vertices st)
                  (pm_normals st) (normals_return_nodes t Hf))
        as ([vs ns] & ->).
      cbn [kbind kret]. apply IH.
    + cbn [kbind kret]. apply IH.
Qed.

(** What a part is made of. *)
Lemma get_exploded_part_info_inv (subShape : TopoDS_Shape) (index : Z)
    (parentCenter : gp_Pnt) (distance deflection : R) (part : ExplodedPart) :
  get_exploded_part_info subShape index parentCenter distance deflection
    = inr part ->
  exists (subCenter : gp_Pnt) (mesh : BRepMesh) (st : part_mesh),
    (if (ts_ShapeType subShape <=? 2)%Z then ts_volume_centre subShape
     else ts_surface_centre subShape) = inr subCenter /\
    ts_mesh subShape deflection = inr mesh /\
    kfold part_face_step (mesh_faces mesh) (mkPartMesh [] [] [] 0) = inr st /\
    part = mkExplodedPart index (ts_ShapeType subShape)
             (pX subCenter) (pY subCenter) (pZ subCenter)
             (pX (part_offset subCenter parentCenter index distance))
             (pY (part_offset subCenter parentCenter index distance))
             (pZ (part_offset subCenter parentCenter index distance))
             (pm_vertices st) (pm_normals st) (pm_triangles st).
Proof.
  unfold get_exploded_part_info.
  destruct (if (ts_ShapeType subShape <=? 2)%Z then _ else _) as [e|c];
    [discriminate|].
  cbn [kbind]. destruct (ts_mesh subShape deflection) as [e|mesh];
    [discriminate|].
  cbn [kbind].
  destruct (kfold part_face_step (mesh_faces mesh) _) as [e|st] eqn:Ek;
    [discriminate|].
  cbn [kbind]. unfold kret. intros E. injection E as <-.
  exists c, mesh, st. splits; try reflexivity. exact Ek.
Qed.

Lemma modulus_scaled_unit (a b c d : R) :
  a * a + b * b + c * c = 1 -> modulus (a * d) (b * d) (c * d) = Rabs d.
Proof.
  intros H. unfold modulus.
  replace (a * d * (a * d) + b * d * (b * d) + c * d * (c * d))
    with ((a * a + b * b + c * c) * Rsqr d) by (unfold Rsqr; ring).
  rewrite H, Rmult_1_l. apply sqrt_Rsqr_abs.
Qed.

(** The offset has the length of the distance, whichever way it points. *)
Lemma part_offset_length (subCenter parentCenter : gp_Pnt) (index : Z)
    (distance : R) :
  let o := part_offset subCenter parentCenter index distance in
  modulus (pX o) (pY o) (pZ o) = Rabs distance.
Proof.
  cbv zeta. unfold part_offset. cbv zeta. unfold Rltb.
  destruct (Rlt_dec 1e-10 _) as [H|H]; cbn [pX pY pZ].
  - apply modulus_scaled_unit. unfold modulus in *.
    apply normalized_sq. lra.
  - set (angle := 2 * PI * IZR index / 8).
    replace (modulus (cos angle * distance) (sin angle * distance) 0)
      with (modulus (cos angle * distance) (sin angle * distance) (0 * distance))
      by (f_equal; ring).
    apply modulus_scaled_unit. subst angle.
    pose proof (sin2_cos2 (2 * PI * IZR index / 8)) as Hsc.
    unfold Rsqr in Hsc. lra.
Qed.

Lemma part_offset_zero (subCenter parentCenter : gp_Pnt) (index : Z) :
  part_offset subCenter parentCenter index 0 = mkPnt 0 0 0.
Proof.
  unfold part_offset. cbv zeta. destruct (Rltb 1e-10 _);
    rewrite !Rmult_0_r; reflexivity.
Qed.

(** ** The loop over the sub-shapes *)

(** The loop appends; it stops at the first sub-shape that cannot be
    built. *)
Lemma explode_parts_spec (subShapes : list TopoDS_Shape)
    (parentCenter : gp_Pnt) (distance deflection : R) :
  forall (index : Z) (parts : list ExplodedPart),
  (0 <= index < 2 ^ 32)%Z ->
  exists new : list ExplodedPart,
    fst (explode_parts subShapes index parentCenter distance deflection parts)
      = parts ++ new /\
    (length new <= length subShapes)%nat /\
    (snd (explode_parts subShapes index parentCenter distance deflection parts)
       = None <-> length new = length subShapes) /\
    map ep_index new
      = map (fun k => cast_uint32 (index + Z.of_nat k)) (seq 0 (length new)) /\
    Forall (fun part =>
              exists (s : TopoDS_Shape) (i : Z),
                In s subShapes /\
                get_exploded_part_info s i parentCenter distance deflection
                  = inr part) new.
Proof.
  induction subShapes as [|s rest IH]; intros index parts Hi.
  - exists []. cbn. rewrite app_nil_r. splits; auto. split; reflexivity.
  - cbn [explode_parts].
    destruct (get_exploded_part_info s index parentCenter distance deflection)
      as [e|part] eqn:E.
    + exists []. cbn. rewrite app_nil_r. splits; auto; try lia.
      split; [discriminate | lia].
    + destruct (IH (cast_uint32 (index + 1)) (parts ++ [part]))
        as (new & A & B & C & D & F).
      { unfold cast_uint32. apply Z.mod_pos_bound. lia. }
      exists (part :: new). rewrite A, <- app_assoc. cbn [app length].
      splits.
      * reflexivity.
      * lia.
      * rewrite C. lia.
      * cbn [map seq]. f_equal.
        -- apply get_exploded_part_info_inv in E.
           destruct E as (c & m & st & _ & _ & _ & ->). cbn [ep_index].
           rewrite Z.add_0_r. unfold cast_uint32.
           rewrite Z.mod_small by lia. reflexivity.
        -- rewrite D, <- seq_shift, map_map. apply map_ext. intros k.
           unfold cast_uint32. rewrite Nat2Z.inj_succ.
           rewrite Zplus_mod_idemp_l. f_equal. lia.
      * constructor.
        -- exists s, index. split; [left; reflexivity | exact E].
        -- eapply Forall_impl; [|exact F]. cbn beta.
           intros p (s' & i & Hin & Hp). exists s', i.
           split; [right; exact Hin | exact Hp].
Qed.

(** ** The levels of an exploded view *)

(** With [level >= 2] the result of the call for the next level is not
    used. *)
Lemma explode_level_last (shape : OcctAssembly) (level : Z)
    (distance deflection : R) (next next' : ExplodeResult) :
  (2 <= level)%Z ->
  explode_level shape level distance deflection next
  = explode_level shape level distance deflection next'.
Proof.
  intros H. unfold explode_level.
  assert (E : (level <? 2)%Z = false) by (apply Z.ltb_ge; exact H).
  rewrite E, andb_false_r. reflexivity.
Qed.

(** [explode_shape] satisfies the equation of the source for every level:
    the bound on the calls is never reached. *)
Lemma explode_shape_equation (shape : OcctAssembly) (level : Z)
    (distance deflection : R) :
  explode_shape shape level distance deflection
  = explode_level shape level distance deflection
      (explode_shape shape (level + 1) distance deflection).
Proof.
  unfold explode_shape. destruct (Z_lt_le_dec level 2) as [H|H].
  - replace (Z.to_nat (2 - level)) with (S (Z.to_nat (2 - (level + 1))))
      by lia.
    reflexivity.
  - replace (Z.to_nat (2 - level)) with 0%nat by lia.
    cbn [explode_shape_from]. apply explode_level_last, H.
Qed.

(** One activation, by the sub-shapes of its level. *)
Lemma explode_level_subshapes (shape : OcctAssembly) (level : Z)
    (distance deflection : R) (next : ExplodeResult) :
  explode_level shape level distance deflection next
  = match as_explore shape (explore_type level) with
    | [] =>
        if (level <? 2)%Z then
          if as_is_null shape then explode_result_init
          else match ts_volume_centre (as_shape shape) with
               | inl _ => explode_result_init
               | inr _ => next
               end
        else explode_subshapes shape [] distance deflection
    | s :: rest => explode_subshapes shape (s :: rest) distance deflection
    end.
Proof.
  unfold explode_level, explode_subshapes.
  destruct (as_is_null shape);
    [destruct (as_explore shape _); [destruct (level <? 2)%Z|]; reflexivity|].
  destruct (ts_volume_centre (as_shape shape)) as [e|pc];
    [destruct (as_explore shape _); [destruct (level <? 2)%Z|]; reflexivity|].
  destruct (as_explore shape (explore_type level)) as [|s rest].
  - cbn [length Nat.eqb andb]. destruct (level <? 2)%Z; reflexivity.
  - cbn [length Nat.eqb andb]. reflexivity.
Qed.

(** A result that a failed start of the next call would also give. *)
Lemma explode_subshapes_start (shape : OcctAssembly)
    (subShapes : list TopoDS_Shape) (distance deflection : R) :
  (if as_is_null shape then explode_result_init
   else match ts_volume_centre (as_shape shape) with
        | inl _ => explode_result_init
        | inr _ => explode_subshapes shape subShapes distance deflection
        end)
  = explode_subshapes shape subShapes distance deflection.
Proof.
  unfold explode_subshapes. destruct (as_is_null shape); [reflexivity|].
  destruct (ts_volume_centre (as_shape shape)); reflexivity.
Qed.

Lemma explode_shape_faces (shape : OcctAssembly) (level : Z)
    (distance deflection : R) :
  (2 <= level)%Z ->
  explode_shape shape level distance deflection
  = explode_subshapes shape (as_explore shape TopAbs_FACE) distance deflection.
Proof.
  intros H. rewrite explode_shape_equation, explode_level_subshapes.
  assert (E : explore_type level = TopAbs_FACE).
  { unfold explore_type.
    destruct (level =? 0)%Z eqn:E0; [apply Z.eqb_eq in E0; lia|].
    destruct (level =? 1)%Z eqn:E1; [apply Z.eqb_eq in E1; lia|]. reflexivity. }
  rewrite E. assert (E2 : (level <? 2)%Z = false) by (apply Z.ltb_ge; exact H).
  rewrite E2. destruct (as_explore shape TopAbs_FACE); reflexivity.
Qed.

Lemma explode_shape_shells (shape : OcctAssembly) (distance deflection : R) :
  explode_shape shape 1 distance deflection
  = explode_subshapes shape
      (first_nonempty [as_explore shape TopAbs_SHELL; as_explore shape TopAbs_FACE])
      distance deflection.
Proof.
  rewrite explode_shape_equation, explode_level_subshapes.
  change (explore_type 1) with TopAbs_SHELL. change (1 <? 2)%Z with true.
  change (1 + 1)%Z with 2%Z. rewrite explode_shape_faces by lia.
  cbn [first_nonempty].
  destruct (as_explore shape TopAbs_SHELL) as [|s rest]; [|reflexivity].
  rewrite explode_subshapes_start.
  destruct (as_explore shape TopAbs_FACE); reflexivity.
Qed.

Lemma explode_shape_solids (shape : OcctAssembly) (distance deflection : R) :
  explode_shape shape 0 distance deflection
  = explode_subshapes shape
      (first_nonempty [as_explore shape TopAbs_SOLID; as_explore shape TopAbs_SHELL;
                       as_explore shape TopAbs_FACE])
      distance deflection.
Proof.
  rewrite explode_shape_equation, explode_level_subshapes.
  change (explore_type 0) with TopAbs_SOLID. change (0 <? 2)%Z with true.
  change (0 + 1)%Z with 1%Z. rewrite explode_shape_shells.
  cbn [first_nonempty].
  destruct (as_explore shape TopAbs_SOLID) as [|s rest]; [|reflexivity].
  rewrite explode_subshapes_start. reflexivity.
Qed.

Lemma explode_shape_negative (shape : OcctAssembly) (distance deflection : R)
    (n : nat) :
  explode_shape shape (- Z.of_nat (S n)) distance deflection
  = explode_subshapes shape
      (first_nonempty [as_explore shape TopAbs_FACE; as_explore shape TopAbs_SOLID;
                       as_explore shape TopAbs_SHELL])
      distance deflection.
Proof.
  induction n as [|n IH].
  - rewrite explode_shape_equation, explode_level_subshapes.
    change (explore_type (- Z.of_nat 1)) with TopAbs_FACE.
    change (- Z.of_nat 1 <? 2)%Z with true.
    change (- Z.of_nat 1 + 1)%Z with 0%Z. rewrite explode_shape_solids.
    cbn [first_nonempty].
    destruct (as_explore shape TopAbs_FACE) as [|s rest]; [|reflexivity].
    rewrite explode_subshapes_start.
    destruct (as_explore shape TopAbs_SOLID); [|reflexivity].
    destruct (as_explore shape TopAbs_SHELL); reflexivity.
  - rewrite explode_shape_equation, explode_level_subshapes.
    assert (E : explore_type (- Z.of_nat (S (S n))) = TopAbs_FACE).
    { unfold explore_type.
      destruct (_ =? 0)%Z eqn:E0; [apply Z.eqb_eq in E0; lia|].
      destruct (_ =? 1)%Z eqn:E1; [apply Z.eqb_eq in E1; lia|]. reflexivity. }
    rewrite E.
    assert (E2 : (- Z.of_nat (S (S n)) <? 2)%Z = true) by (apply Z.ltb_lt; lia).
    rewrite E2.
    replace (- Z.of_nat (S (S n)) + 1)%Z with (- Z.of_nat (S n))%Z by lia.
    rewrite IH. cbn [first_nonempty].
    destruct (as_explore shape TopAbs_FACE) as [|s rest]; [|reflexivity].
    rewrite explode_subshapes_start. reflexivity.
Qed.

(** The recursion over the levels in closed form. *)
Lemma explode_shape_explored (shape : OcctAssembly) (level : Z)
    (distance deflection : R) :
  explode_shape shape level distance deflection
  = explode_subshapes shape (explored shape level) distance deflection.
Proof.
  unfold explored. destruct (level <? 0)%Z eqn:Eneg.
  - apply Z.ltb_lt in Eneg.
    replace level with (- Z.of_nat (S (Z.to_nat (- level - 1))))%Z by lia.
    apply explode_shape_negative.
  - apply Z.ltb_ge in Eneg. destruct (level =? 0)%Z eqn:E0.
    + apply Z.eqb_eq in E0. subst level. apply explode_shape_solids.
    + destruct (level =? 1)%Z eqn:E1.
      * apply Z.eqb_eq in E1. subst level. apply explode_shape_shells.
      * apply Z.eqb_neq in E0. apply Z.eqb_neq in E1.
        rewrite explode_shape_faces by lia. cbn [map first_nonempty].
        destruct (as_explore shape TopAbs_FACE); reflexivity.
Qed.

Lemma explored_of_level (shape : OcctAssembly) (level : Z) :
  as_explore shape (explore_type level) <> [] ->
  explored shape level = as_explore shape (explore_type level).
Proof.
  unfold explored, explore_type. intros H.
  destruct (level <? 0)%Z eqn:Eneg.
  - apply Z.ltb_lt in Eneg.
    destruct (level =? 0)%Z eqn:E0; [apply Z.eqb_eq in E0; lia|].
    destruct (level =? 1)%Z eqn:E1; [apply Z.eqb_eq in E1; lia|].
    cbn [map first_nonempty].
    destruct (as_explore shape TopAbs_FACE); [congruence | reflexivity].
  - destruct (level =? 0)%Z.
    + cbn [map first_nonempty].
      destruct (as_explore shape TopAbs_SOLID); [congruence | reflexivity].
    + destruct (level =? 1)%Z; cbn [map first_nonempty].
      * destruct (as_explore shape TopAbs_SHELL); [congruence | reflexivity].
      * destruct (as_explore shape TopAbs_FACE); reflexivity.
Qed.

(** X20.  [explode_shape] falls through the levels: every level of 2 or
    more explodes the faces; without solids level 0 is level 1, and without
    shells level 1 is level 2; a negative level explodes the faces when
    there are faces and is level 0 when there are none. *)
Theorem explode_level_falls_through
    (shape : OcctAssembly) (level : Z) (distance deflection : R) :
  let explode l := explode_shape shape l distance deflection in
  ((2 <= level)%Z -> explode level = explode 2%Z) /\
  (as_explore shape TopAbs_SOLID = [] -> explode 0%Z = explode 1%Z) /\
  (as_explore shape TopAbs_SHELL = [] -> explode 1%Z = explode 2%Z) /\
  ((level < 0)%Z -> as_explore shape TopAbs_FACE <> [] ->
   explode level = explode 2%Z) /\
  ((level < 0)%Z -> as_explore shape TopAbs_FACE = [] ->
   explode level = explode 0%Z).
Proof.
  cbv beta zeta. rewrite !explode_shape_explored. unfold explored.
  change (2 <? 0)%Z with false. change (2 =? 0)%Z with false.
  change (2 =? 1)%Z with false. change (1 <? 0)%Z with false.
  change (1 =? 0)%Z with false. change (1 =? 1)%Z with true.
  change (0 <? 0)%Z with false. change (0 =? 0)%Z with true.
  cbn [map first_nonempty]. splits.
  - intros H.
    assert (E : (level <? 0)%Z = false) by (apply Z.ltb_ge; lia).
    assert (E0 : (level =? 0)%Z = false) by (apply Z.eqb_neq; lia).
    assert (E1 : (level =? 1)%Z = false) by (apply Z.eqb_neq; lia).
    rewrite E, E0, E1. reflexivity.
  - intros ->. reflexivity.
  - intros ->. reflexivity.
  - intros H Hf.
    assert (E : (level <? 0)%Z = true) by (apply Z.ltb_lt; lia).
    rewrite E. cbn [map first_nonempty].
    destruct (as_explore shape TopAbs_FACE); [congruence | reflexivity].
  - intros H Hf.
    assert (E : (level <? 0)%Z = true) by (apply Z.ltb_lt; lia).
    rewrite E. cbn [map first_nonempty]. rewrite Hf.
    destruct (as_explore shape TopAbs_SOLID); [|reflexivity].
    destruct (as_explore shape TopAbs_SHELL); reflexivity.
Qed.

(** ** The parts of an exploded view *)

(** The result for known sub-shapes, case by case. *)
Lemma explode_subshapes_cases (shape : OcctAssembly)
    (subShapes : list TopoDS_Shape) (distance deflection : R) :
  let r := explode_subshapes shape subShapes distance deflection in
  (er_parts r = [] /\ er_success r = false) \/
  exists parentCenter : gp_Pnt,
    as_is_null shape = false /\
    ts_volume_centre (as_shape shape) = inr parentCenter /\
    ((subShapes = [] /\ er_success r = true /\
      exists wholePart : ExplodedPart,
        get_exploded_part_info (as_shape shape) 0 parentCenter 0 deflection
          = inr wholePart /\
        er_parts r = [wholePart]) \/
     (subShapes <> [] /\
      er_parts r
        = fst (explode_parts subShapes 0 parentCenter distance deflection []) /\
      (er_success r = true <->
       snd (explode_parts subShapes 0 parentCenter distance deflection [])
         = None))).
Proof.
  cbv zeta. unfold explode_subshapes.
  destruct (as_is_null shape); [left; split; reflexivity|].
  destruct (ts_volume_centre (as_shape shape)) as [e|pc];
    [left; split; reflexivity|].
  destruct subShapes as [|s rest].
  - destruct (get_exploded_part_info (as_shape shape) 0 pc 0 deflection)
      as [e|w] eqn:E.
    + left. split; reflexivity.
    + right. exists pc. splits; try reflexivity. left.
      splits; try reflexivity. exists w.
      split; [first [exact E | reflexivity] | reflexivity].
  - right. exists pc. splits; try reflexivity. right.
    split; [discriminate|].
    destruct (explode_parts (s :: rest) 0 pc distance deflection [])
      as [parts [e|]]; cbn [fst snd er_parts er_success]; split;
      try reflexivity; split; intros H; try reflexivity; discriminate H.
Qed.

Lemma get_shape_components_cases (shape : OcctAssembly) (level : Z)
    (deflection : R) :
  get_shape_components shape level deflection = [] \/
  exists parentCenter : gp_Pnt,
    as_is_null shape = false /\
    ts_volume_centre (as_shape shape) = inr parentCenter /\
    get_shape_components shape level deflection
    = fst (explode_parts (as_explore shape (explore_type level)) 0
                         parentCenter 0 deflection []).
Proof.
  unfold get_shape_components.
  destruct (as_is_null shape); [left; reflexivity|].
  destruct (ts_volume_centre (as_shape shape)) as [e|pc]; [left; reflexivity|].
  right. exists pc. splits; reflexivity.
Qed.

Lemma uint32_zero_in_range : (0 <= 0 < 2 ^ 32)%Z.
Proof. lia. Qed.

(** Everything that holds of the parts that [get_exploded_part_info]
    builds for this distance or for distance 0 holds of the parts of
    [explode_shape]. *)
Lemma explode_shape_parts_built (P : ExplodedPart -> Prop)
    (shape : OcctAssembly) (level : Z) (distance deflection : R) :
  (forall (s : TopoDS_Shape) (i : Z) (c : gp_Pnt) (d : R) (part : ExplodedPart),
      d = distance \/ d = 0 ->
      get_exploded_part_info s i c d deflection = inr part -> P part) ->
  Forall P (er_parts (explode_shape shape level distance deflection)).
Proof.
  intros HP. rewrite explode_shape_explored.
  destruct (explode_subshapes_cases shape (explored shape level) distance
              deflection) as [(-> & _)|(pc & _ & _ & [H|H])].
  - constructor.
  - destruct H as (_ & _ & w & Hw & ->). constructor; [|constructor].
    apply (HP _ _ _ _ _ (or_intror eq_refl) Hw).
  - destruct H as (_ & -> & _).
    destruct (explode_parts_spec (explored shape level) pc distance deflection
                0 [] uint32_zero_in_range) as (new & A & _ & _ & _ & F).
    rewrite A. cbn [app]. eapply Forall_impl; [|exact F]. cbn beta.
    intros p (s & i & _ & Hp). apply (HP _ _ _ _ _ (or_introl eq_refl) Hp).
Qed.

Lemma get_shape_components_built (P : ExplodedPart -> Prop)
    (shape : OcctAssembly) (level : Z) (deflection : R) :
  (forall (s : TopoDS_Shape) (i : Z) (c : gp_Pnt) (part : ExplodedPart),
      get_exploded_part_info s i c 0 deflection = inr part -> P part) ->
  Forall P (get_shape_components shape level deflection).
Proof.
  intros HP.
  destruct (get_shape_components_cases shape level deflection)
    as [->|(pc & _ & _ & ->)]; [constructor|].
  destruct (explode_parts_spec (as_explore shape (explore_type level)) pc 0
              deflection 0 [] uint32_zero_in_range) as (new & A & _ & _ & _ & F).
  rewrite A. cbn [app]. eapply Forall_impl; [|exact F]. cbn beta.
  intros p (s & i & _ & Hp). apply (HP _ _ _ _ Hp).
Qed.

(** X21.  Every part of an exploded view is moved by exactly the distance:
    its offset has length [|distance|], whether it points away from the
    centre of the parent or, for a part centred on the parent, in the
    direction chosen by its index.  The whole-shape part, returned when
    there is nothing to explode, is not moved. *)
Theorem explode_offsets_have_length_distance
    (shape : OcctAssembly) (level : Z) (distance deflection : R) :
  let r := explode_shape shape level distance deflection in
  (explored shape level <> [] ->
   Forall (fun p => part_offset_norm p = Rabs distance) (er_parts r)) /\
  (explored shape level = [] ->
   Forall (fun p => ep_offset_x p = 0 /\ ep_offset_y p = 0 /\ ep_offset_z p = 0)
          (er_parts r)).
Proof.
  cbv zeta. rewrite explode_shape_explored.
  destruct (explode_subshapes_cases shape (explored shape level) distance
              deflection) as [(-> & _)|(pc & _ & _ & [H|H])].
  - split; intros _; constructor.
  - destruct H as (He & _ & w & Hw & ->). split; [congruence|]. intros _.
    constructor; [|constructor].
    apply get_exploded_part_info_inv in Hw.
    destruct Hw as (c & m & st & _ & _ & _ & ->).
    cbn [ep_offset_x ep_offset_y ep_offset_z].
    rewrite part_offset_zero. cbn. auto.
  - destruct H as (Hne & -> & _). split; [|congruence]. intros _.
    destruct (explode_parts_spec (explored shape level) pc distance deflection
                0 [] uint32_zero_in_range) as (new & A & _ & _ & _ & F).
    rewrite A. cbn [app]. eapply Forall_impl; [|exact F]. cbn beta.
    intros p (s & i & _ & Hp).
    apply get_exploded_part_info_inv in Hp.
    destruct Hp as (c & m & st & _ & _ & _ & ->). unfold part_offset_norm.
    cbn [ep_offset_x ep_offset_y ep_offset_z].
    apply part_offset_length.
Qed.

(** X22.  The parts are numbered from 0 in the order of the explorer, with
    no gap, in an exploded view as in the list of components, also when the
    list was cut short by an exception. *)
Theorem explode_parts_numbered_from_zero
    (shape : OcctAssembly) (level : Z) (distance deflection : R) :
  let parts := er_parts (explode_shape shape level distance deflection) in
  let components := get_shape_components shape level deflection in
  map ep_index parts = uint32_indices (length parts) /\
  map ep_index components = uint32_indices (length components).
Proof.
  cbv zeta. split.
  - rewrite explode_shape_explored.
    destruct (explode_subshapes_cases shape (explored shape level) distance
                deflection) as [(-> & _)|(pc & _ & _ & [H|H])].
    + reflexivity.
    + destruct H as (_ & _ & w & Hw & ->).
      apply get_exploded_part_info_inv in Hw.
      destruct Hw as (c & m & st & _ & _ & _ & ->). reflexivity.
    + destruct H as (_ & -> & _).
      destruct (explode_parts_spec (explored shape level) pc distance
                  deflection 0 [] uint32_zero_in_range)
        as (new & A & _ & _ & D & _).
      rewrite A. cbn [app]. exact D.
  - destruct (get_shape_components_cases shape level deflection)
      as [->|(pc & _ & _ & ->)]; [reflexivity|].
    destruct (explode_parts_spec (as_explore shape (explore_type level)) pc 0
                deflection 0 [] uint32_zero_in_range)
      as (new & A & _ & _ & D & _).
    rewrite A. cbn [app]. exact D.
Qed.

(** X23.  [success] tells that every part was built: it is set exactly when
    the result has one part for each sub-shape to explode, or the one
    whole-shape part when there is none.  A result without [success] holds
    fewer parts, those built before the failure. *)
Theorem explode_success_means_all_parts
    (shape : OcctAssembly) (level : Z) (distance deflection : R) :
  let r := explode_shape shape level distance deflection in
  (er_success r = true <->
   length (er_parts r) = Nat.max 1 (length (explored shape level))) /\
  (length (er_parts r) <= Nat.max 1 (length (explored shape level)))%nat.
Proof.
  cbv zeta. rewrite explode_shape_explored.
  destruct (explode_subshapes_cases shape (explored shape level) distance
              deflection) as [(Hp & Hs)|(pc & _ & _ & [H|H])].
  - rewrite Hp, Hs. cbn [length]. split; [|lia].
    split; [discriminate | lia].
  - destruct H as (He & Hs & w & _ & Hp). rewrite Hp, Hs, He. cbn.
    split; [tauto | lia].
  - destruct H as (Hne & Hp & Hs). rewrite Hp, Hs.
    destruct (explode_parts_spec (explored shape level) pc distance deflection
                0 [] uint32_zero_in_range) as (new & A & B & C & _).
    rewrite A, C. cbn [app].
    destruct (explored shape level) as [|s rest]; [congruence|].
    cbn [length] in *. split; [|lia]. split; lia.
Qed.

(** X24.  The buffers of every part fit together, in an exploded view as
    in the list of components and for whatever the mesher gives: there is
    one normal for each vertex and every normal has length 1. *)
Theorem explode_part_meshes_consistent
    (shape : OcctAssembly) (level : Z) (distance deflection : R) :
  Forall part_mesh_consistent
         (er_parts (explode_shape shape level distance deflection)) /\
  Forall part_mesh_consistent (get_shape_components shape level deflection).
Proof.
  assert (H : forall s i c d part,
             get_exploded_part_info s i c d deflection = inr part ->
             part_mesh_consistent part).
  { intros s i c d part Hp. apply get_exploded_part_info_inv in Hp.
    destruct Hp as (sc & m & st & _ & _ & Hk & ->).
    unfold part_mesh_consistent. cbn [ep_normals ep_vertices].
    apply (part_faces_consistent (mesh_faces m) (mkPartMesh [] [] [] 0) st Hk);
      [reflexivity | constructor]. }
  split.
  - apply explode_shape_parts_built. intros s i c d part _. apply H.
  - apply get_shape_components_built. intros s i c part. apply H.
Qed.

Lemma part_triangles_within (deflection : R) (s : TopoDS_Shape) (i : Z)
    (c : gp_Pnt) (d : R) (part : ExplodedPart) :
  shape_mesh_valid deflection s ->
  get_exploded_part_info s i c d deflection = inr part ->
  Forall (triangle_within (length (ep_vertices part))) (ep_triangles part).
Proof.
  intros Hv Hp. apply get_exploded_part_info_inv in Hp.
  destruct Hp as (sc & m & st & _ & Hm & Hk & ->).
  cbn [ep_vertices ep_triangles].
  destruct (Hv m Hm) as (Hf & Hn).
  apply (part_faces_within (mesh_faces m) (mkPartMesh [] [] [] 0) st Hk).
  - exact Hf.
  - reflexivity.
  - cbn [pm_vertices length Nat.add]. exact Hn.
  - constructor.
Qed.

Lemma explored_in (shape : OcctAssembly) (level : Z) (s : TopoDS_Shape) :
  In s (explored shape level) ->
  exists ty : TopAbs_ShapeEnum, In s (as_explore shape ty).
Proof.
  unfold explored.
  assert (H : forall tys : list TopAbs_ShapeEnum,
             In s (first_nonempty (map (as_explore shape) tys)) ->
             exists ty, In s (as_explore shape ty)).
  { induction tys as [|ty tys IH]; cbn [map first_nonempty]; [intros []|].
    destruct (as_explore shape ty) as [|x l] eqn:E; [exact IH|].
    intros Hin. exists ty. rewrite E. exact Hin. }
  apply H.
Qed.

(** X25.  When the triangulations the mesher gives are valid (every triangle
    names nodes of its own triangulation) and a part has fewer than [2^32]
    nodes, every corner of every triangle of a part is the index of a vertex
    of that part: the node numbers, which start at 1 within each face, are
    turned into positions in the shared vertex buffer. *)
Theorem explode_triangles_index_vertices
    (shape : OcctAssembly) (level : Z) (distance deflection : R) :
  assembly_mesh_valid deflection shape ->
  Forall (fun p => Forall (triangle_within (length (ep_vertices p)))
                          (ep_triangles p))
         (er_parts (explode_shape shape level distance deflection)).
Proof.
  intros (Hself & Hsub). rewrite explode_shape_explored.
  destruct (explode_subshapes_cases shape (explored shape level) distance
              deflection) as [(-> & _)|(pc & _ & _ & [H|H])].
  - constructor.
  - destruct H as (_ & _ & w & Hw & ->). constructor; [|constructor].
    exact (part_triangles_within _ _ _ _ _ _ Hself Hw).
  - destruct H as (_ & -> & _).
    destruct (explode_parts_spec (explored shape level) pc distance deflection
                0 [] uint32_zero_in_range) as (new & A & _ & _ & _ & F).
    rewrite A. cbn [app]. eapply Forall_impl; [|exact F]. cbn beta.
    intros p (s & i & Hin & Hp).
    destruct (explored_in shape level s Hin) as (ty & Hty).
    apply (part_triangles_within deflection s i pc distance p); [|exact Hp].
    exact (proj1 (Forall_forall _ _) (Hsub ty) s Hty).
Qed.

Lemma sample_meshed_solid_valid (deflection : R) :
  shape_mesh_valid deflection sample_meshed_solid.
Proof.
  intros mesh E. cbn in E. injection E as <-. cbn [mesh_faces]. split.
  - constructor; [|constructor]. unfold face_valid, sample_face.
    cbn [face_triangulation]. unfold triangulation_valid.
    cbn [tri_triangles tri_nodes length].
    constructor; [|constructor]. cbn. lia.
  - cbn. lia.
Qed.

Lemma sample_solid_valid (deflection : R) (c : gp_Pnt) :
  shape_mesh_valid deflection (sample_solid c).
Proof.
  intros mesh E. cbn in E. injection E as <-. cbn [mesh_faces]. split.
  - constructor.
  - cbn. lia.
Qed.

Lemma explode_triangles_index_vertices_witness :
  Forall (fun p => Forall (triangle_within (length (ep_vertices p)))
                          (ep_triangles p))
         (er_parts (explode_shape (sample_assembly [sample_meshed_solid])
                                  0 2 0.1)).
Proof.
  apply explode_triangles_index_vertices. split.
  - apply sample_solid_valid.
  - intros [| |]; cbn [sample_assembly as_explore]; try constructor.
    + apply sample_meshed_solid_valid.
    + constructor.
Defined.

(** The loop of the sub-shapes for two distances: the same parts but for
    the offsets, and the same end. *)
Lemma explode_parts_distance (subShapes : list TopoDS_Shape)
    (parentCenter : gp_Pnt) (d d' deflection : R) :
  forall (index : Z) (parts parts' : list ExplodedPart),
    map without_offset parts = map without_offset parts' ->
    map without_offset
        (fst (explode_parts subShapes index parentCenter d deflection parts))
    = map without_offset
          (fst (explode_parts subShapes index parentCenter d' deflection parts')).
Proof.
  induction subShapes as [|s rest IH]; intros index parts parts' H;
    [exact H|].
  cbn [explode_parts]. unfold get_exploded_part_info.
  destruct (if (ts_ShapeType s <=? 2)%Z then _ else _) as [e|c];
    cbn [kbind]; [exact H|].
  destruct (ts_mesh s deflection) as [e|m]; cbn [kbind]; [exact H|].
  destruct (kfold part_face_step (mesh_faces m) _) as [e|st]; cbn [kbind];
    [exact H|].
  unfold kret. apply IH. rewrite !map_app, H. reflexivity.
Qed.

Lemma without_offset_fixed (p : ExplodedPart) :
  ep_offset_x p = 0 /\ ep_offset_y p = 0 /\ ep_offset_z p = 0 ->
  without_offset p = p.
Proof.
  destruct p. unfold without_offset. cbn. intros (-> & -> & ->). reflexivity.
Qed.

(** X26.  The distance reaches nothing but the offsets.  When the shape has
    sub-shapes of the requested level, the parts of [explode_shape] are the
    components of [get_shape_components] in index, type, centre and mesh,
    for every distance; and the components are the parts at distance 0,
    their offsets being zero. *)
Theorem explode_parts_are_moved_components
    (shape : OcctAssembly) (level : Z) (distance deflection : R) :
  as_explore shape (explore_type level) <> [] ->
  let components := get_shape_components shape level deflection in
  map without_offset (er_parts (explode_shape shape level distance deflection))
    = components /\
  er_parts (explode_shape shape level 0 deflection) = components.
Proof.
  intros Hne components.
  assert (Hzero : Forall (fun p => ep_offset_x p = 0 /\ ep_offset_y p = 0 /\
                                   ep_offset_z p = 0) components).
  { apply get_shape_components_built. intros s i c part Hp.
    apply get_exploded_part_info_inv in Hp.
    destruct Hp as (sc & m & st & _ & _ & _ & ->).
    cbn [ep_offset_x ep_offset_y ep_offset_z].
    rewrite part_offset_zero. cbn. auto. }
  assert (Hfix : map without_offset components = components).
  { clear - Hzero. induction Hzero as [|p l Hp _ IH]; [reflexivity|].
    cbn [map]. rewrite without_offset_fixed, IH by exact Hp. reflexivity. }
  assert (Hgen : forall d,
             map without_offset
                 (er_parts (explode_shape shape level d deflection))
             = map without_offset components).
  { intros d. subst components. rewrite explode_shape_explored.
    rewrite (explored_of_level shape level Hne).
    unfold explode_subshapes, get_shape_components.
    destruct (as_is_null shape); [reflexivity|].
    destruct (ts_volume_centre (as_shape shape)) as [e|pc]; [reflexivity|].
    destruct (as_explore shape (explore_type level)) as [|s rest] eqn:E;
      [congruence|].
    pose proof (explode_parts_distance (s :: rest) pc d 0 deflection 0 [] []
                  eq_refl) as H.
    destruct (explode_parts (s :: rest) 0 pc d deflection []) as [parts [e|]];
      cbn [fst er_parts] in *; exact H. }
  split.
  - rewrite Hgen. exact Hfix.
  - pose proof (Hgen 0) as H0. rewrite Hfix in H0. rewrite <- H0.
    symmetry. clear H0.
    assert (Hz : Forall (fun p => ep_offset_x p = 0 /\ ep_offset_y p = 0 /\
                                  ep_offset_z p = 0)
                        (er_parts (explode_shape shape level 0 deflection))).
    { apply explode_shape_parts_built. intros s i c d part Hd Hp.
      assert (d = 0) as -> by (destruct Hd; assumption).
      apply get_exploded_part_info_inv in Hp.
      destruct Hp as (sc & m & st & _ & _ & _ & ->).
      cbn [ep_offset_x ep_offset_y ep_offset_z].
      rewrite part_offset_zero. cbn. auto. }
    induction Hz as [|p l Hp _ IH]; [reflexivity|].
    cbn [map]. rewrite without_offset_fixed, IH by exact Hp. reflexivity.
Qed.

Lemma explode_parts_are_moved_components_witness :
  map without_offset
      (er_parts (explode_shape (sample_assembly [sample_meshed_solid]) 0 2 0.1))
    = get_shape_components (sample_assembly [sample_meshed_solid]) 0 0.1 /\
  er_parts (explode_shape (sample_assembly [sample_meshed_solid]) 0 0 0.1)
    = get_shape_components (sample_assembly [sample_meshed_solid]) 0 0.1.
Proof.
  apply (explode_parts_are_moved_components
           (sample_assembly [sample_meshed_solid]) 0 2 0.1).
  discriminate.
Defined.

Lemma explode_parts_all_built (subShapes : list TopoDS_Shape)
    (parentCenter : gp_Pnt) (distance deflection : R) :
  Forall (part_builds deflection) subShapes ->
  forall (index : Z) (parts : list ExplodedPart),
    length (fst (explode_parts subShapes index parentCenter distance deflection
                               parts))
    = (length parts + length subShapes)%nat.
Proof.
  induction 1 as [|s rest Hs _ IH]; intros index parts.
  - cbn. lia.
  - cbn [explode_parts]. unfold get_exploded_part_info.
    destruct Hs as ((c & ->) & (m & -> & Hn)). cbn [kbind].
    destruct (part_faces_return (mesh_faces m) Hn (mkPartMesh [] [] [] 0))
      as (st & ->).
    cbn [kbind]. unfold kret.
    rewrite IH, length_app. cbn [length]. lia.
Qed.

(** X27.  [get_shape_components] never returns more parts than
    [count_shape_components] counts for the same level, and it returns
    exactly that many when the handle is not null and no kernel query about
    the shape or its sub-shapes throws. *)
Theorem components_are_counted
    (shape : OcctAssembly) (level : Z) (deflection : R) :
  let n := Z.of_nat (length (get_shape_components shape level deflection)) in
  (n <= count_shape_components shape level)%Z /\
  (as_is_null shape = false ->
   (exists c : gp_Pnt, ts_volume_centre (as_shape shape) = inr c) ->
   Forall (part_builds deflection) (as_explore shape (explore_type level)) ->
   n = count_shape_components shape level).
Proof.
  cbv zeta. unfold get_shape_components, count_shape_components. split.
  - destruct (as_is_null shape); [cbn; lia|].
    destruct (ts_volume_centre (as_shape shape)) as [e|pc]; [cbn; lia|].
    destruct (explode_parts_spec (as_explore shape (explore_type level)) pc 0
                deflection 0 [] uint32_zero_in_range) as (new & A & B & _).
    rewrite A. cbn [app]. lia.
  - intros -> (c & ->) Hall.
    rewrite (explode_parts_all_built _ c 0 deflection Hall). cbn [length]. lia.
Qed.

(** ** Tessellated shapes *)

(** What one face does to the result: nothing (no triangulation, or a
    surface query that throws), the whole face, or, when a normal cannot be
    read, its description and the vertices and normals pushed before the
    throw. *)
Lemma tessellate_face_cases (zmin zmax capTolerance : R) (faceIndex : Z)
    (result : MeshResult) (vertexOffset : Z) (face : TopoDS_Face) :
  match tessellate_face zmin zmax capTolerance faceIndex
                        (result, vertexOffset) face with
  | inr st' =>
      st' = (result, vertexOffset) \/
      exists (t : Poly_Triangulation) (q : FaceQueries) (new : list Vertex),
        face_triangulation face = Some t /\
        face_queries face = inr q /\
        length new = length (tri_nodes t) /\
        Forall (fun n => vertex_norm n = 1) new /\
        st' = (mkMeshResult
                 (mr_vertices result ++ map node_vertex (tri_nodes t))
                 (mr_normals result ++ new)
                 (mr_triangles result
                  ++ map (mesh_triangle (face_reversed face) vertexOffset)
                         (tri_triangles t))
                 (mr_face_ids result
                  ++ map (fun _ => faceIndex) (tri_triangles t))
                 (mr_faces result
                  ++ [described_face zmin zmax capTolerance faceIndex face q]),
               wrap_size_t (vertexOffset + Z.of_nat (length (tri_nodes t))))
  | inl (_, st') =>
      st' = (result, vertexOffset) \/
      exists (t : Poly_Triangulation) (q : FaceQueries)
             (walked : list gp_Pnt) (new : list Vertex),
        face_triangulation face = Some t /\
        face_queries face = inr q /\
        length walked = S (length new) /\
        Forall (fun n => vertex_norm n = 1) new /\
        st' = (mkMeshResult
                 (mr_vertices result ++ map node_vertex walked)
                 (mr_normals result ++ new)
                 (mr_triangles result) (mr_face_ids result)
                 (mr_faces result
                  ++ [described_face zmin zmax capTolerance faceIndex face q]),
               vertexOffset)
  end.
Proof.
  unfold tessellate_face.
  destruct (face_triangulation face) as [t|]; [|left; reflexivity].
  destruct (face_queries face) as [e|q]; cbn [kcall]; [left; reflexivity|].
  pose proof (mesh_nodes_spec t (tri_nodes t) 1 (mr_vertices result)
                (mr_normals result)) as M.
  destruct (mesh_nodes t 1 (tri_nodes t) _ _) as [[e [vs ns]]|[vs ns]].
  - destruct M as (walked & new & -> & -> & Hl & _ & Hu).
    right. exists t, q, walked, new. splits; auto.
  - destruct M as (-> & new & -> & Hl & Hu).
    right. exists t, q, new. splits; auto.
Qed.

(** A face whose normals can all be read is not cut short after a
    [push_back]. *)
Lemma tessellate_face_not_cut (zmin zmax capTolerance : R) (faceIndex : Z)
    (st st' : MeshResult * Z) (face : TopoDS_Face) (e : thrown) :
  face_normals_return face ->
  tessellate_face zmin zmax capTolerance faceIndex st face = inl (e, st') ->
  st' = st.
Proof.
  unfold tessellate_face, face_normals_return. intros Hn.
  destruct (face_triangulation face) as [t|]; [|discriminate].
  destruct (face_queries face) as [e'|q]; cbn [kcall];
    [intros E; injection E as _ <-; reflexivity|].
  destruct st as [result vertexOffset].
  destruct (mesh_nodes_returns t (tri_nodes t) 1 (mr_vertices result)
              (mr_normals result) (normals_return_nodes t Hn))
    as ([vs ns] & ->).
  discriminate.
Qed.

(** A property of the result that every face keeps holds at the end of the
    loop, wherever an exception may end it: [P] is what a face keeps when it
    is walked to its end, [Q] what is left when it is cut short. *)
Lemma tessellate_faces_invariant (P Q : MeshResult * Z -> Prop)
    (F : TopoDS_Face -> Prop)
    (zmin zmax capTolerance : R) (faces : list TopoDS_Face) :
  (forall st, P st -> Q st) ->
  (forall (faceIndex : Z) (st st' : MeshResult * Z) (face : TopoDS_Face),
      F face -> P st ->
      tessellate_face zmin zmax capTolerance faceIndex st face = inr st' ->
      P st') ->
  (forall (faceIndex : Z) (st st' : MeshResult * Z) (face : TopoDS_Face)
          (e : thrown),
      F face -> P st ->
      tessellate_face zmin zmax capTolerance faceIndex st face = inl (e, st') ->
      Q st') ->
  Forall F faces ->
  forall (faceIndex : Z) (st : MeshResult * Z),
    P st -> Q (tessellate_faces zmin zmax capTolerance faces faceIndex st).
Proof.
  intros HPQ Hstep Hcut HF.
  induction HF as [|f faces Hf _ IH]; intros i st H; [exact (HPQ st H)|].
  cbn [tessellate_faces].
  destruct (tessellate_face zmin zmax capTolerance i st f)
    as [[e st']|st'] eqn:E.
  - exact (Hcut i st st' f e Hf H E).
  - apply IH. exact (Hstep i st st' f Hf H E).
Qed.

Lemma Forall_True {A : Type} (l : list A) : Forall (fun _ => True) l.
Proof. induction l; constructor; auto. Qed.

Lemma mesh_consistent_nearly (r : MeshResult) :
  mesh_consistent r -> mesh_nearly_consistent r.
Proof.
  intros (H1 & H2 & H3 & H4). unfold mesh_nearly_consistent.
  split; [lia|]. splits; assumption.
Qed.

Lemma face_ids_described (result : MeshResult) (f : FaceInfo) :
  Forall (fun id => In id (map fi_index (mr_faces result)))
         (mr_face_ids result) ->
  Forall (fun id => In id (map fi_index (mr_faces result ++ [f])))
         (mr_face_ids result).
Proof.
  intros H. eapply Forall_impl; [|exact H]. cbn beta. intros id Hid.
  rewrite map_app. apply in_app_iff. left. exact Hid.
Qed.

(** A face that is walked to its end keeps the buffers together. *)
Lemma tessellate_face_consistent (zmin zmax capTolerance : R) (faceIndex : Z)
    (st st' : MeshResult * Z) (face : TopoDS_Face) :
  mesh_consistent (fst st) ->
  tessellate_face zmin zmax capTolerance faceIndex st face = inr st' ->
  mesh_consistent (fst st').
Proof.
  destruct st as [result vertexOffset]. intros (H1 & H2 & H3 & H4) E.
  pose proof (tessellate_face_cases zmin zmax capTolerance faceIndex result
                vertexOffset face) as C.
  rewrite E in C.
  destruct C as [->|(t & q & new & _ & _ & Hl & Hu & ->)];
    [exact (conj H1 (conj H2 (conj H3 H4)))|].
  unfold mesh_consistent.
  cbn [fst mr_vertices mr_normals mr_triangles mr_face_ids mr_faces] in *.
  splits.
  - rewrite !length_app, !length_map. lia.
  - apply Forall_app. split; assumption.
  - rewrite !length_app, !length_map. lia.
  - apply Forall_app. split.
    + apply face_ids_described. exact H4.
    + apply Forall_map, Forall_forall. intros tri _.
      rewrite map_app. apply in_app_iff. right. left. reflexivity.
Qed.

(** A face that is cut short leaves at most one vertex without its
    normal. *)
Lemma tessellate_face_cut_nearly (zmin zmax capTolerance : R) (faceIndex : Z)
    (st st' : MeshResult * Z) (face : TopoDS_Face) (e : thrown) :
  mesh_consistent (fst st) ->
  tessellate_face zmin zmax capTolerance faceIndex st face = inl (e, st') ->
  mesh_nearly_consistent (fst st').
Proof.
  destruct st as [result vertexOffset]. intros H E.
  pose proof (tessellate_face_cases zmin zmax capTolerance faceIndex result
                vertexOffset face) as C.
  rewrite E in C.
  destruct C as [->|(t & q & walked & new & _ & _ & Hl & Hu & ->)];
    [exact (mesh_consistent_nearly _ H)|].
  destruct H as (H1 & H2 & H3 & H4). unfold mesh_nearly_consistent.
  cbn [fst mr_vertices mr_normals mr_triangles mr_face_ids mr_faces] in *.
  split; [rewrite !length_app, !length_map; lia|]. splits.
  - apply Forall_app. split; assumption.
  - exact H3.
  - apply face_ids_described. exact H4.
Qed.

Lemma mesh_result_init_consistent : mesh_consistent mesh_result_init.
Proof. unfold mesh_consistent. cbn. splits; auto. Qed.

Lemma tessellate_meshed_nearly_consistent (shape : TopoDS_Shape)
    (mesh : kernel BRepMesh) :
  mesh_nearly_consistent (tessellate_meshed shape mesh).
Proof.
  pose proof (mesh_consistent_nearly _ mesh_result_init_consistent) as H0.
  unfold tessellate_meshed.
  destruct mesh as [e|mesh]; [exact H0|].
  destruct (negb (mesh_IsDone mesh)); [exact H0|].
  destruct (ts_bnd_box shape) as [b|]; [|exact H0].
  cbv zeta.
  apply (tessellate_faces_invariant
           (fun st => mesh_consistent (fst st))
           (fun st => mesh_nearly_consistent (fst st))
           (fun _ => True)).
  - intros st. apply mesh_consistent_nearly.
  - intros i st st' f _. apply tessellate_face_consistent.
  - intros i st st' f e _. apply tessellate_face_cut_nearly.
  - apply Forall_True.
  - exact mesh_result_init_consistent.
Qed.

Lemma tessellate_meshed_consistent (shape : TopoDS_Shape)
    (mesh : kernel BRepMesh) :
  mesh_normals_return mesh ->
  mesh_consistent (tessellate_meshed shape mesh).
Proof.
  intros Hn. unfold tessellate_meshed.
  destruct mesh as [e|mesh]; [exact mesh_result_init_consistent|].
  destruct (negb (mesh_IsDone mesh)); [exact mesh_result_init_consistent|].
  destruct (ts_bnd_box shape) as [b|]; [|exact mesh_result_init_consistent].
  cbv zeta.
  apply (tessellate_faces_invariant
           (fun st => mesh_consistent (fst st))
           (fun st => mesh_consistent (fst st))
           face_normals_return).
  - auto.
  - intros i st st' f _. apply tessellate_face_consistent.
  - intros i st st' f e Hf H E.
    rewrite (tessellate_face_not_cut _ _ _ _ _ _ _ _ Hf E). exact H.
  - exact (Hn mesh eq_refl).
  - exact mesh_result_init_consistent.
Qed.

(** The vertex loop of the sample shape is cut at the second node of its
    second face. *)
Lemma sample_cut_mesh_lengths (deflection : R) :
  length (mr_vertices (tessellate sample_cut_mesh_shape deflection)) = 5%nat /\
  length (mr_normals (tessellate sample_cut_mesh_shape deflection)) = 4%nat.
Proof.
  unfold tessellate, tessellate_meshed, sample_cut_mesh_shape.
  cbn [ts_mesh mesh_IsDone negb ts_bnd_box mesh_faces tessellate_faces].
  unfold tessellate_face at 1, sample_plane_face at 1.
  cbn [face_triangulation face_queries kcall tri_nodes mesh_nodes node_normal
       tri_normal kret mesh_result_init mr_vertices mr_normals app].
  unfold tessellate_face, sample_cut_face.
  cbn [face_triangulation face_queries kcall tri_nodes mesh_nodes node_normal
       tri_normal kret kbind Nat.eqb mr_vertices mr_normals app fst length].
  split; reflexivity.
Qed.

(** X28.  The buffers of a tessellated shape, for every input and whatever
    the kernel answers.  There is one face id for every triangle, every face
    id is the index of a face described in [faces], and every normal has
    length 1.  There is one normal for every vertex when no normal of the
    triangulations fails to be read.  For every input the normals are never
    more than the vertices and at most one fewer; one fewer does occur,
    because an exception of [Normal(i)] comes after the vertex of node [i]
    is pushed and before its normal is.  When the mesher throws or is not
    done, or the bounding box of the shape is void, the mesh is empty. *)
Theorem tessellate_buffers_consistent
    (shape : TopoDS_Shape) (deflection angle : R) :
  mesh_nearly_consistent (tessellate shape deflection) /\
  mesh_nearly_consistent (tessellate_with_angle shape deflection angle) /\
  (mesh_normals_return (ts_mesh shape deflection) ->
   mesh_consistent (tessellate shape deflection)) /\
  (mesh_normals_return (ts_mesh_angle shape deflection angle) ->
   mesh_consistent (tessellate_with_angle shape deflection angle)) /\
  (exists shape' : TopoDS_Shape,
     length (mr_vertices (tessellate shape' deflection))
     = S (length (mr_normals (tessellate shape' deflection)))) /\
  (ts_bnd_box shape = None ->
   tessellate shape deflection = mesh_result_init /\
   tessellate_with_angle shape deflection angle = mesh_result_init) /\
  ((forall mesh, ts_mesh shape deflection = inr mesh ->
                 mesh_IsDone mesh = false) ->
   tessellate shape deflection = mesh_result_init).
Proof.
  unfold tessellate, tessellate_with_angle. splits.
  - apply tessellate_meshed_nearly_consistent.
  - apply tessellate_meshed_nearly_consistent.
  - apply tessellate_meshed_consistent.
  - apply tessellate_meshed_consistent.
  - exists sample_cut_mesh_shape.
    destruct (sample_cut_mesh_lengths deflection) as (Hv & Hn).
    unfold tessellate in Hv, Hn. rewrite Hv, Hn. reflexivity.
  - intros Hb. unfold tessellate_meshed. rewrite Hb.
    split; [destruct (ts_mesh shape deflection) as [e|m]
           |destruct (ts_mesh_angle shape deflection angle) as [e|m]];
      try reflexivity; destruct (negb (mesh_IsDone m)); reflexivity.
  - intros Hm. unfold tessellate_meshed.
    destruct (ts_mesh shape deflection) as [e|m]; [reflexivity|].
    rewrite (Hm m eq_refl). reflexivity.
Qed.

(** The flat triangular face alone: its normals are the default ones. *)
Lemma sample_plane_normals_return (deflection : R) :
  mesh_normals_return (ts_mesh sample_plane_shape deflection).
Proof.
  intros m E. cbn in E. injection E as <-. cbn [mesh_faces].
  constructor; [exact I | constructor].
Qed.

Lemma tessellate_buffers_consistent_witness :
  mesh_consistent (tessellate sample_plane_shape 0.1).
Proof.
  destruct (tessellate_buffers_consistent sample_plane_shape 0.1 0.5)
    as (_ & _ & H & _).
  exact (H (sample_plane_normals_return 0.1)).
Defined.

(** The triangles, for valid triangulations with fewer than [2^32] nodes in
    all. *)
Lemma tessellate_faces_within (zmin zmax capTolerance : R)
    (faces : list TopoDS_Face) :
  forall (faceIndex : Z) (st : MeshResult * Z),
    Forall face_valid faces ->
    snd st = Z.of_nat (length (mr_vertices (fst st))) ->
    (Z.of_nat (length (mr_vertices (fst st)) + node_count faces) < 2 ^ 32)%Z ->
    Forall (triangle_within (length (mr_vertices (fst st))))
           (mr_triangles (fst st)) ->
    let r := fst (tessellate_faces zmin zmax capTolerance faces faceIndex st) in
    Forall (triangle_within (length (mr_vertices r))) (mr_triangles r).
Proof.
  induction faces as [|f faces IH]; intros i st Hv Ho Hn Ht; [exact Ht|].
  cbn [tessellate_faces]. inversion Hv as [|? ? Hf Hfs]; subst.
  destruct st as [result vertexOffset]. cbn [fst snd] in *.
  cbn [node_count fold_right] in Hn. fold (node_count faces) in Hn.
  pose proof (tessellate_face_cases zmin zmax capTolerance i result
                vertexOffset f) as C.
  unfold face_valid in Hf.
  destruct (tessellate_face zmin zmax capTolerance i (result, vertexOffset) f)
    as [[e st']|st'].
  { destruct C as [->|(t & q & walked & new & _ & _ & _ & _ & ->)];
      [exact Ht|].
    cbn [fst mr_vertices mr_triangles].
    eapply Forall_impl; [|exact Ht]. intros tr.
    apply triangle_within_more. rewrite length_app. lia. }
  destruct C as [->|(t & q & new & Et & _ & _ & _ & ->)].
  - apply IH; try assumption. cbn [fst].
    destruct (face_triangulation f); lia.
  - rewrite Et in Hf, Hn. cbv zeta.
    assert (L1 : length (mr_vertices result ++ map node_vertex (tri_nodes t))
                 = (length (mr_vertices result) + length (tri_nodes t))%nat)
      by (rewrite length_app, length_map; reflexivity).
    apply IH; cbn [fst snd mr_vertices mr_triangles].
    + exact Hfs.
    + rewrite L1, Ho. unfold wrap_size_t. rewrite Z.mod_small by lia. lia.
    + rewrite L1. lia.
    + apply Forall_app. split.
      * eapply Forall_impl; [|exact Ht]. intros tr.
        apply triangle_within_more. rewrite L1. lia.
      * apply Forall_map. unfold triangulation_valid in Hf.
        eapply Forall_impl; [|exact Hf].
        intros [[n1 n2] n3]. cbn [fst snd]. intros (H1 & H2 & H3).
        rewrite L1, Ho. unfold mesh_triangle, triangle_within.
        destruct (face_reversed f); cbn [t_v1 t_v2 t_v3];
          rewrite !mesh_index_exact by lia; lia.
Qed.

(** X29.  When the triangulations the mesher gives are valid and the shape
    has fewer than [2^32] nodes, every corner of every triangle of the mesh
    is the index of a vertex of the mesh, also when an exception cut the
    walk over the faces short. *)
Theorem tessellate_triangles_index_vertices
    (shape : TopoDS_Shape) (deflection : R) :
  shape_mesh_valid deflection shape ->
  let r := tessellate shape deflection in
  Forall (triangle_within (length (mr_vertices r))) (mr_triangles r).
Proof.
  intros Hv. cbv zeta. unfold tessellate, tessellate_meshed.
  destruct (ts_mesh shape deflection) as [e|mesh] eqn:E; [constructor|].
  destruct (negb (mesh_IsDone mesh)); [constructor|].
  destruct (ts_bnd_box shape) as [b|]; [|constructor].
  destruct (Hv mesh E) as (Hf & Hn). cbv zeta.
  apply (tessellate_faces_within _ _ _ (mesh_faces mesh) 0
           (mesh_result_init, 0%Z)).
  - exact Hf.
  - reflexivity.
  - cbn [fst mesh_result_init mr_vertices length Nat.add]. exact Hn.
  - constructor.
Qed.

Lemma sample_plane_shape_valid (deflection : R) :
  shape_mesh_valid deflection sample_plane_shape.
Proof.
  intros mesh E. cbn in E. injection E as <-. cbn [mesh_faces]. split.
  - constructor; [|constructor]. unfold face_valid, sample_plane_face.
    cbn [face_triangulation]. unfold triangulation_valid.
    cbn [tri_triangles tri_nodes length].
    constructor; [|constructor]. cbn. lia.
  - cbn. lia.
Qed.

Lemma tessellate_triangles_index_vertices_witness :
  let r := tessellate sample_plane_shape 0.1 in
  Forall (triangle_within (length (mr_vertices r))) (mr_triangles r).
Proof.
  exact (tessellate_triangles_index_vertices sample_plane_shape 0.1
           (sample_plane_shape_valid 0.1)).
Defined.

(** ** Labels of faces *)

Ltac label_facts :=
  repeat match goal with
  | |- (_ <= _ <= _)%Z => lia
  | |- _ /\ _ => split
  | |- _ = _ => reflexivity
  | |- ?a = ?a \/ _ => left; reflexivity
  | |- _ \/ ?a = ?a => right; reflexivity
  | |- _ => first [ lra | unfold Rabs in *; repeat destruct (Rcase_abs _); lra ]
  end.

Ltac label_case :=
  match goal with
  | |- _ \/ _ -> _ =>
      let H := fresh in intros [H|H]; try discriminate H; label_facts
  | |- _ = _ -> _ =>
      let H := fresh in intros H; try discriminate H; label_facts
  | |- In _ _ => cbn [In]; repeat (first [left; reflexivity | right])
  end.

(** What the label says, for any stored normal. *)
Lemma face_label_sound (surfType : GeomAbs_SurfaceType)
    (nx ny nz cz zmin zmax capTolerance : R) :
  let l := face_label surfType nx ny nz cz zmin zmax capTolerance in
  let t := surface_type_code surfType in
  (l = "inlet_cap"%string \/ l = "outlet_cap"%string ->
   t = 0%Z /\ 0.9 < Rabs nz) /\
  (l = "top"%string -> t = 0%Z /\ 0.9 < nz) /\
  (l = "bottom"%string -> t = 0%Z /\ nz < -0.9) /\
  (l = "back"%string -> t = 0%Z /\ 0.9 < ny /\ Rabs nz <= 0.9) /\
  (l = "front"%string -> t = 0%Z /\ ny < -0.9 /\ Rabs nz <= 0.9) /\
  (l = "right"%string ->
   t = 0%Z /\ 0.9 < nx /\ Rabs ny <= 0.9 /\ Rabs nz <= 0.9) /\
  (l = "left"%string ->
   t = 0%Z /\ nx < -0.9 /\ Rabs ny <= 0.9 /\ Rabs nz <= 0.9) /\
  (l = "side"%string ->
   t = 0%Z /\ Rabs nx <= 0.9 /\ Rabs ny <= 0.9 /\ Rabs nz <= 0.9) /\
  (l = "curved_side"%string -> t = 1%Z \/ t = 2%Z) /\
  (l = "spherical"%string -> t = 3%Z) /\
  (l = "toroidal"%string -> t = 4%Z) /\
  (l = "freeform"%string -> (5 <= t <= 7)%Z) /\
  In l ["inlet_cap"; "outlet_cap"; "top"; "bottom"; "back"; "front"; "right";
        "left"; "side"; "curved_side"; "spherical"; "toroidal";
        "freeform"]%string.
Proof.
  cbv zeta. unfold face_label.
  destruct surfType; cbn [surface_type_code].
  - cbv zeta. unfold Rltb.
    destruct (Rlt_dec 0.9 (Rabs nz)) as [Hz|Hz].
    + destruct (Rlt_dec (Rabs (cz - zmin)) capTolerance) as [Hi|Hi];
        [splits; label_case|].
      destruct (Rlt_dec (Rabs (cz - zmax)) capTolerance) as [Ho|Ho];
        [splits; label_case|].
      destruct (Rlt_dec 0 nz) as [Hp|Hp]; splits; label_case.
    + destruct (Rlt_dec 0.9 (Rabs ny)) as [Hy|Hy].
      * destruct (Rlt_dec 0 ny) as [Hp|Hp]; splits; label_case.
      * destruct (Rlt_dec 0.9 (Rabs nx)) as [Hx|Hx];
          [destruct (Rlt_dec 0 nx) as [Hp|Hp]|]; splits; label_case.
  - splits; label_case.
  - splits; label_case.
  - splits; label_case.
  - splits; label_case.
  - splits; label_case.
  - splits; label_case.
  - splits; label_case.
Qed.

Lemma modulus_opp (a b c : R) : modulus (- a) (- b) (- c) = modulus a b c.
Proof. unfold modulus. f_equal. ring. Qed.

(** The stored normal is a unit vector, or the cross product of the two
    derivatives as it is when that is shorter than [1e-10]. *)
Lemma face_normal_length (q : FaceQueries) (is_reversed : bool) :
  let n := face_normal q is_reversed in
  modulus (pX n) (pY n) (pZ n) = 1 \/ modulus (pX n) (pY n) (pZ n) <= 1e-10.
Proof.
  cbv zeta. unfold face_normal. cbv zeta.
  destruct (surf_D1 q _ _) as [du dv]. unfold Rltb.
  destruct (Rlt_dec 1e-10 _) as [H|H]; [left|right; lra].
  assert (Hunit : forall a b c,
             1e-10 < modulus a b c ->
             modulus (a / modulus a b c) (b / modulus a b c)
                     (c / modulus a b c) = 1).
  { intros a b c Hm. unfold modulus in *.
    rewrite normalized_sq by lra. apply sqrt_1. }
  destruct is_reversed; cbn [pX pY pZ]; rewrite ?modulus_opp; apply Hunit, H.
Qed.

Lemma tessellate_face_sound (zmin zmax capTolerance : R) (faceIndex : Z)
    (st st' : MeshResult * Z) (face : TopoDS_Face) :
  Forall face_info_sound (mr_faces (fst st)) ->
  (exists e, tessellate_face zmin zmax capTolerance faceIndex st face
             = inl (e, st')) \/
  tessellate_face zmin zmax capTolerance faceIndex st face = inr st' ->
  Forall face_info_sound (mr_faces (fst st')).
Proof.
  destruct st as [result vertexOffset]. intros H E.
  pose proof (tessellate_face_cases zmin zmax capTolerance faceIndex result
                vertexOffset face) as C.
  assert (Hq : forall q : FaceQueries,
            Forall face_info_sound
              (mr_faces result
               ++ [described_face zmin zmax capTolerance faceIndex face q]));
    [|destruct E as [(e & E)|E]; rewrite E in C;
      [destruct C as [->|(t & q & walked & new & _ & _ & _ & _ & ->)]
      |destruct C as [->|(t & q & new & _ & _ & _ & _ & ->)]];
      solve [exact H | apply Hq]].
  intros q.
  cbn [fst mr_faces] in *. apply Forall_app. split; [exact H|].
  constructor; [|constructor]. unfold face_info_sound, described_face.
  cbn [fi_label fi_surface_type fi_normal_x fi_normal_y fi_normal_z].
  pose proof (face_label_sound (surf_type q)
                (pX (face_normal q (face_reversed face)))
                (pY (face_normal q (face_reversed face)))
                (pZ (face_normal q (face_reversed face)))
                (pZ (props_CentreOfMass q)) zmin zmax capTolerance) as L.
  pose proof (face_normal_length q (face_reversed face)) as N.
  cbv zeta in L, N. cbv zeta.
  destruct L as (L1 & L2 & L3 & L4 & L5 & L6 & L7 & L8 & L9 & L10 & L11
                 & L12 & L13).
  splits; assumption.
Qed.

Lemma tessellate_meshed_sound (shape : TopoDS_Shape) (mesh : kernel BRepMesh) :
  Forall face_info_sound (mr_faces (tessellate_meshed shape mesh)).
Proof.
  unfold tessellate_meshed.
  destruct mesh as [e|mesh]; [constructor|].
  destruct (negb (mesh_IsDone mesh)); [constructor|].
  destruct (ts_bnd_box shape) as [b|]; [|constructor].
  cbv zeta.
  apply (tessellate_faces_invariant
           (fun st => Forall face_info_sound (mr_faces (fst st)))
           (fun st => Forall face_info_sound (mr_faces (fst st)))
           (fun _ => True)).
  - auto.
  - intros i st st' f _ H E.
    eapply tessellate_face_sound; [exact H | right; exact E].
  - intros i st st' f e _ H E.
    eapply tessellate_face_sound; [exact H | left; exists e; exact E].
  - apply Forall_True.
  - constructor.
Qed.

(** X30.  The label of a described face can be relied on, for every input:
    "top" and "bottom" are planar faces whose stored normal has [z] above
    0.9 and below -0.9; "back", "front", "right" and "left" are planar faces
    with that bound on [y] or on [x] and no larger component before it;
    "side" is a planar face with no component beyond 0.9; the two caps are
    planar faces with [|z|] above 0.9; "curved_side" is a cylinder or a
    cone, "spherical" a sphere, "toroidal" a torus, "freeform" any other
    surface.  There is no other label, and the stored normal has length 1
    unless the surface derivatives gave a vector shorter than [1e-10]. *)
Theorem tessellate_labels_sound
    (shape : TopoDS_Shape) (deflection angle : R) :
  Forall face_info_sound (mr_faces (tessellate shape deflection)) /\
  Forall face_info_sound
         (mr_faces (tessellate_with_angle shape deflection angle)).
Proof.
  split; apply tessellate_meshed_sound.
Qed.
(** ** Exceptions inside the entry points *)

(** An exception before the extraction leaves the initial result. *)
Lemma hlr_stage_throws_result (shape : OcctShape)
    (dir_x dir_y dir_z up_x up_y up_z scale deflection : R) (e : thrown) :
  hlr_stage_throws shape dir_x dir_y dir_z up_x up_y up_z e ->
  hlr2_try shape dir_x dir_y dir_z up_x up_y up_z scale deflection
  = inl (e, hlr2_result_init) /\
  (topo_faces shape <> 0%nat \/ topo_edges shape <> 0%nat ->
   hlr_try shape dir_x dir_y dir_z up_x up_y up_z scale
   = inl (e, hlr_result_init)).
Proof.
  intros (Hnull & Hlen & H). split.
  - unfold hlr2_try. rewrite Hnull, Rltb_false by lra.
    destruct H as [->|(viewDir & -> & [->|(upDir & -> & H)])];
      try reflexivity.
    cbn [kcall]. rewrite H. reflexivity.
  - intros Htopo. unfold hlr_try, count_shape_topology. rewrite Hnull.
    assert (Ht : ((topo_faces shape =? 0)%nat && (topo_edges shape =? 0)%nat)
                 = false).
    { apply andb_false_iff. destruct Htopo as [Ht|Ht]; [left|right];
        apply Nat.eqb_neq; exact Ht. }
    rewrite Ht, Rltb_false by lra.
    destruct H as [->|(viewDir & -> & [->|(upDir & -> & H)])];
      try reflexivity.
    cbn [kcall]. rewrite H. reflexivity.
Qed.

Lemma section_stage_throws_result (shape : OcctShape)
    (ox oy oz nx ny nz ux uy uz hatch_angle hatch_spacing : R) (e : thrown) :
  section_stage_throws shape ox oy oz nx ny nz ux uy uz e ->
  section_try shape ox oy oz nx ny nz ux uy uz hatch_angle hatch_spacing
  = inl (e, section_result_init).
Proof.
  intros (Hnull & H). unfold section_try. rewrite Hnull.
  destruct H as [->|(normal & -> & H)]; [reflexivity|]. cbn [kcall].
  destruct H as [->|(fb & -> & H)]; [reflexivity|].
  destruct H as [->|(upDir & -> & H)]; [reflexivity|]. cbn [kcall].
  destruct H as [->|((yAxis & ->) & ->)]; reflexivity.
Qed.

Lemma hlr2_extract_null_keeps (line_type : Z) (deflection : R)
    (a : curves_state * Z) :
  let a' := hlr2_extract None line_type deflection a in
  cs_curves (fst a') = cs_curves (fst a) /\
  cs_polylines (fst a') = cs_polylines (fst a) /\
  cs_bbox (fst a') = cs_bbox (fst a) /\
  snd a' = snd a.
Proof. destruct a as [st n]. cbn. splits; try reflexivity. lia. Qed.

(** Null compounds after an extraction add nothing to it. *)
Ltac nulls_keep :=
  cbv zeta;
  repeat match goal with
         | |- context [hlr2_extract None ?t ?d ?a] =>
             lazymatch a with
             | hlr2_extract None _ _ _ => fail
             | _ => idtac
             end;
             let H := fresh "H" in
             pose proof (hlr2_extract_null_keeps t d a) as H; cbv zeta in H;
             destruct H as (? & ? & ? & ?);
             generalize dependent (hlr2_extract None t d a); intros
         end;
  splits; congruence.

(** The six groups when the call at position [k] throws and no discretizer
    does: the curves, the polylines, the box and the count of edges are
    those of the compounds before it. *)
Lemma hlr2_extract_all_try_throws (extractor : HLRBRep_HLRToShape)
    (c : HLRCompounds) (k : nat) (e : thrown) (deflection : R) :
  extractor_throws_at extractor c k e ->
  extractor_discretizes extractor ->
  exists acc : curves_state * Z,
    hlr2_extract_all_try extractor deflection = inl (e, acc) /\
    cs_curves (fst acc)
    = cs_curves (fst (hlr2_extract_all (first_compounds k c) deflection)) /\
    cs_polylines (fst acc)
    = cs_polylines (fst (hlr2_extract_all (first_compounds k c) deflection)) /\
    cs_bbox (fst acc)
    = cs_bbox (fst (hlr2_extract_all (first_compounds k c) deflection)) /\
    snd acc = snd (hlr2_extract_all (first_compounds k c) deflection).
Proof.
  intros [Hret Hk] Hq. destruct extractor as [c0 c1 c2 c3 c4 c5].
  unfold extractor_discretizes, hlr_groups in Hq.
  unfold hlr2_extract_all_try, hlr_groups in *.
  cbn [map fst snd call_VCompound call_HCompound call_Rg1LineVCompound
       call_Rg1LineHCompound call_OutLineVCompound call_OutLineHCompound]
    in *.
  repeat match goal with
         | H : Forall _ (_ :: _) |- _ =>
             let Hh := fresh "Q" in
             apply Forall_cons_iff in H; destruct H as [Hh H]; cbn [fst] in Hh
         end.
  destruct k as [|[|[|[|[|[|k]]]]]];
    cbn [firstn nth_error compounds_list] in Hret, Hk;
    try (destruct k; discriminate);
    injection Hk as ->;
    repeat match goal with
           | H : Forall2 _ (_ :: _) (_ :: _) |- _ =>
               let Hh := fresh "R" in
               apply Forall2_cons_iff in H; destruct H as [Hh H]
           end;
    cbn [attempt_fold];
    repeat (erewrite hlr2_extract_group_returns by eassumption);
    rewrite hlr2_extract_group_throws;
    eexists; (split; [reflexivity|]);
    unfold hlr2_extract_all, first_compounds;
    cbn [VCompound HCompound Rg1LineVCompound Rg1LineHCompound
         OutLineVCompound OutLineHCompound Nat.ltb Nat.leb];
    nulls_keep.
Qed.

(** ** Section wires with a vertex that has no point *)

Lemma section_closed_fold_num_regions (origin xAxis yAxis : gp_Pnt)
    (hatch_angle hatch_spacing : R) (cw : list TopoDS_Wire) :
  forall st : section_state,
    sr_num_regions
      (fst (fold_left
              (section_closed_wire origin xAxis yAxis hatch_angle hatch_spacing)
              cw st))
    = sr_num_regions (fst st).
Proof.
  induction cw as [|w cw IH]; intros st; [reflexivity|].
  cbn [fold_left]. rewrite IH. destruct st as [r n].
  unfold section_closed_wire.
  destruct (walk_wire origin xAxis yAxis (sr_bbox r) w) as [[points boundary] bbox].
  destruct (3 <=? length boundary)%nat; reflexivity.
Qed.

Lemma section_wire_cut_keeps (origin xAxis yAxis : gp_Pnt)
    (r : SectionWithHatchResult) (walked : list gp_Pnt) :
  let r' := section_wire_cut origin xAxis yAxis r walked in
  sr_curves r' = sr_curves r /\ sr_regions r' = sr_regions r /\
  sr_num_regions r' = sr_num_regions r /\
  sr_num_hatch_lines r' = sr_num_hatch_lines r.
Proof.
  unfold section_wire_cut.
  destruct (walk_wire origin xAxis yAxis (sr_bbox r) walked) as [[? ?] ?].
  cbn. splits; reflexivity.
Qed.

Lemma section_finish_keeps (r : SectionWithHatchResult) (n : Z) :
  sr_curves (section_finish r n) = sr_curves r /\
  sr_regions (section_finish r n) = sr_regions r /\
  sr_num_hatch_lines (section_finish r n) = sr_num_hatch_lines r.
Proof.
  unfold section_finish.
  cbn [sr_curves sr_regions sr_bbox sr_num_regions sr_num_hatch_lines].
  destruct (sr_curves r) eqn:E; cbn; rewrite ?E; splits; reflexivity.
Qed.

Lemma section_catch_cut (e : thrown) (r r0 : SectionWithHatchResult) :
  sr_curves r = sr_curves r0 -> sr_regions r = sr_regions r0 ->
  sr_num_hatch_lines r = sr_num_hatch_lines r0 -> sr_num_regions r = 0%Z ->
  section_cut_short (section_catch e r) r0 e.
Proof.
  intros H1 H2 H3 H4. unfold section_cut_short.
  destruct e; cbn; splits; auto; discriminate.
Qed.

(** A vertex without point in a closed wire: the result has the curves and
    the regions of the closed wires before it. *)
Lemma section_cut_closed (shape : OcctShape)
    (ox oy oz nx ny nz ux uy uz hatch_angle hatch_spacing : R)
    (xAxis yAxis : gp_Pnt) (freeBounds : ShapeAnalysis_FreeBounds)
    (cw : list TopoDS_Wire) (wire : SectionWire) (rest : list SectionWire)
    (walked : list gp_Pnt) (e : thrown) :
  section_stage shape ox oy oz nx ny nz ux uy uz xAxis yAxis freeBounds ->
  GetClosedWires freeBounds = map wire_of cw ++ wire :: rest ->
  wire_points wire = (walked, Some e) ->
  section_cut_short
    (compute_section_with_hatch shape ox oy oz nx ny nz ux uy uz
                                hatch_angle hatch_spacing)
    (section_process (mkPnt ox oy oz) xAxis yAxis hatch_angle hatch_spacing
                     cw [])
    e.
Proof.
  intros (Hnull & normal & upDir & Hn & Hs & Hu & Hx & Hy) Hcw Hw.
  unfold compute_section_with_hatch, section_try.
  rewrite Hnull, Hn. cbn [kcall]. rewrite Hs, Hu. cbn [kcall].
  rewrite <- Hx, Hy. cbn [kcall].
  unfold section_process_try, section_process.
  rewrite Hcw, attempt_fold_app.
  rewrite (attempt_fold_returns _
             (section_closed_wire (mkPnt ox oy oz) xAxis yAxis hatch_angle
                                  hatch_spacing) wire_of)
    by (intros; apply section_closed_wire_try_returns).
  pose proof (section_closed_fold_num_regions (mkPnt ox oy oz) xAxis yAxis
                hatch_angle hatch_spacing cw (section_result_init, 0%Z)) as Hz.
  destruct (fold_left _ cw _) as [r1 n1]. cbn [fst] in Hz.
  cbn [attempt_fold fold_left]. unfold section_closed_wire_try at 1.
  rewrite Hw.
  pose proof (section_wire_cut_keeps (mkPnt ox oy oz) xAxis yAxis r1 walked) as K.
  cbv zeta in K. destruct K as (K1 & K2 & K3 & K4).
  destruct (section_finish_keeps r1 n1) as (F1 & F2 & F3).
  change (sr_num_regions section_result_init) with 0%Z in Hz.
  apply section_catch_cut; congruence.
Qed.

Lemma section_open_fold_num_regions (origin xAxis yAxis : gp_Pnt)
    (ow : list TopoDS_Wire) :
  forall r : SectionWithHatchResult,
    sr_num_regions (fold_left (section_open_wire origin xAxis yAxis) ow r)
    = sr_num_regions r.
Proof.
  induction ow as [|w ow IH]; intros r; [reflexivity|].
  cbn [fold_left]. rewrite IH. unfold section_open_wire.
  destruct (walk_wire origin xAxis yAxis (sr_bbox r) w) as [[points boundary] bbox].
  reflexivity.
Qed.

(** The same in an open wire: the result has the curves and the regions of
    the closed wires and of the open wires before it. *)
Lemma section_cut_open (shape : OcctShape)
    (ox oy oz nx ny nz ux uy uz hatch_angle hatch_spacing : R)
    (xAxis yAxis : gp_Pnt) (freeBounds : ShapeAnalysis_FreeBounds)
    (cw ow : list TopoDS_Wire) (wire : SectionWire) (rest : list SectionWire)
    (walked : list gp_Pnt) (e : thrown) :
  section_stage shape ox oy oz nx ny nz ux uy uz xAxis yAxis freeBounds ->
  GetClosedWires freeBounds = map wire_of cw ->
  GetOpenWires freeBounds = map wire_of ow ++ wire :: rest ->
  wire_points wire = (walked, Some e) ->
  section_cut_short
    (compute_section_with_hatch shape ox oy oz nx ny nz ux uy uz
                                hatch_angle hatch_spacing)
    (section_process (mkPnt ox oy oz) xAxis yAxis hatch_angle hatch_spacing
                     cw ow)
    e.
Proof.
  intros (Hnull & normal & upDir & Hn & Hs & Hu & Hx & Hy) Hcw How Hw.
  unfold compute_section_with_hatch, section_try.
  rewrite Hnull, Hn. cbn [kcall]. rewrite Hs, Hu. cbn [kcall].
  rewrite <- Hx, Hy. cbn [kcall].
  unfold section_process_try, section_process.
  rewrite Hcw, How.
  rewrite (attempt_fold_returns _
             (section_closed_wire (mkPnt ox oy oz) xAxis yAxis hatch_angle
                                  hatch_spacing) wire_of)
    by (intros; apply section_closed_wire_try_returns).
  pose proof (section_closed_fold_num_regions (mkPnt ox oy oz) xAxis yAxis
                hatch_angle hatch_spacing cw (section_result_init, 0%Z)) as Hz.
  destruct (fold_left _ cw _) as [r1 n1]. cbn [fst] in Hz.
  rewrite attempt_fold_app.
  rewrite (attempt_fold_returns _
             (section_open_wire (mkPnt ox oy oz) xAxis yAxis) wire_of)
    by (intros; apply section_open_wire_try_returns).
  pose proof (section_open_fold_num_regions (mkPnt ox oy oz) xAxis yAxis ow r1)
    as Hz2.
  set (r2 := fold_left (section_open_wire (mkPnt ox oy oz) xAxis yAxis) ow r1)
    in *.
  cbn [attempt_fold]. unfold section_open_wire_try at 1. rewrite Hw.
  pose proof (section_wire_cut_keeps (mkPnt ox oy oz) xAxis yAxis r2 walked) as K.
  cbv zeta in K. destruct K as (K1 & K2 & K3 & K4).
  destruct (section_finish_keeps r2 n1) as (F1 & F2 & F3).
  change (sr_num_regions section_result_init) with 0%Z in Hz.
  apply section_catch_cut; congruence.
Qed.

(** ** What the entry points return after an exception *)

Lemma hlr_cut_result (shape : OcctShape)
    (dir_x dir_y dir_z up_x up_y up_z scale : R)
    (extractor : HLRBRep_HLRToShape) (c : HLRCompounds) (k : nat) (e : thrown) :
  hlr_stage shape dir_x dir_y dir_z up_x up_y up_z extractor ->
  extractor_throws_at extractor c k e ->
  topo_faces shape <> 0%nat \/ topo_edges shape <> 0%nat ->
  compute_hlr_projection shape dir_x dir_y dir_z up_x up_y up_z scale
  = mkHLRResult
      (fst (fst (hlr_extract_all (first_compounds k c) [] bbox_sentinel)))
      bbox_zero.
Proof.
  intros (Hnull & Hlen & viewDir & upDir & Hv & Hu & Hc) Ht Htopo.
  unfold compute_hlr_projection, hlr_try, count_shape_topology.
  rewrite Hnull.
  assert (Hz : ((topo_faces shape =? 0)%nat && (topo_edges shape =? 0)%nat)
               = false).
  { apply andb_false_iff. destruct Htopo as [H|H]; [left|right];
      apply Nat.eqb_neq; exact H. }
  rewrite Hz, Rltb_false by lra.
  rewrite Hv. cbn [kcall]. rewrite Hu. cbn [kcall]. rewrite Hc. cbn [kcall].
  destruct (hlr_extract_all_try_throws extractor c k e [] bbox_sentinel Ht)
    as (n & ->).
  destruct (hlr_extract_all (first_compounds k c) [] bbox_sentinel)
    as [[lines bbox] total].
  reflexivity.
Qed.

Lemma hlr2_cut_result (shape : OcctShape)
    (dir_x dir_y dir_z up_x up_y up_z scale deflection : R)
    (extractor : HLRBRep_HLRToShape) (c : HLRCompounds) (k : nat) (e : thrown) :
  hlr_stage shape dir_x dir_y dir_z up_x up_y up_z extractor ->
  extractor_throws_at extractor c k e ->
  extractor_discretizes extractor ->
  let r2 := compute_hlr_projection_v2 shape dir_x dir_y dir_z up_x up_y up_z
                                      scale deflection in
  let a := hlr2_extract_all (first_compounds k c)
                            (effective_deflection deflection) in
  h2_curves r2 = cs_curves (fst a) /\
  h2_polylines r2 = cs_polylines (fst a) /\
  h2_num_edges r2 = snd a /\
  h2_num_lines r2 = 0%Z /\ h2_num_arcs r2 = 0%Z /\ h2_num_polylines r2 = 0%Z /\
  (e = Standard_Failure -> h2_bbox r2 = bbox_zero) /\
  (e <> Standard_Failure -> h2_bbox r2 = cs_bbox (fst a)).
Proof.
  intros (Hnull & Hlen & viewDir & upDir & Hv & Hu & Hc) Ht Hq.
  cbv zeta. unfold compute_hlr_projection_v2, hlr2_try.
  rewrite Hnull, Rltb_false by lra.
  rewrite Hv. cbn [kcall]. rewrite Hu. cbn [kcall]. rewrite Hc. cbn [kcall].
  fold (effective_deflection deflection).
  destruct (hlr2_extract_all_try_throws extractor c k e
              (effective_deflection deflection) Ht Hq)
    as ([st n] & -> & A1 & A2 & A3 & A4).
  cbn [fst snd] in A1, A2, A3, A4. rewrite <- A1, <- A2, <- A3, <- A4.
  destruct e; cbn; splits; try reflexivity; try discriminate; congruence.
Qed.

(** The view from above with [y] up passes the hidden-line stage of a shape
    that is not null, when the kernel gives an extractor. *)
Lemma hlr_stage_from_above (shape : OcctShape) (extractor : HLRBRep_HLRToShape) :
  is_null shape = false ->
  (forall viewDir xAxis, shape_hlr shape viewDir xAxis = inr extractor) ->
  hlr_stage shape 0 0 1 0 1 0 extractor.
Proof.
  intros Hnull Hh. unfold hlr_stage. rewrite sqrt_axis_z.
  splits; [exact Hnull | lra |].
  exists (mkPnt (0 / 1) (0 / 1) (1 / 1)), (mkPnt 0 1 0).
  splits.
  - apply gp_Dir_unit. unfold modulus.
    replace (0 / 1 * (0 / 1) + 0 / 1 * (0 / 1) + 1 / 1 * (1 / 1)) with 1 by lra.
    apply sqrt_1.
  - apply gp_Dir_unit, modulus_axis_y.
  - apply Hh.
Qed.

(** The plane [z = 0] seen with [y] up, for a shape that is not null and
    whose section is done. *)
Lemma section_stage_plane (shape : OcctShape)
    (freeBounds : ShapeAnalysis_FreeBounds) :
  is_null shape = false ->
  (forall origin normal,
     shape_section shape origin normal = SectionDone (inr freeBounds)) ->
  section_stage shape 0 0 0 0 0 1 0 1 0 (mkPnt 1 0 0) (mkPnt 0 1 0) freeBounds.
Proof.
  intros Hnull Hs. split; [exact Hnull|].
  exists (mkPnt 0 0 1), (mkPnt 0 1 0).
  assert (Hx : Crossed (mkPnt 0 1 0) (mkPnt 0 0 1) = inr (mkPnt 1 0 0)).
  { unfold Crossed, cross. cbn [pX pY pZ].
    replace (1 * 1 - 0 * 0) with 1 by lra.
    replace (0 * 0 - 0 * 1) with 0 by lra.
    replace (0 * 0 - 1 * 0) with 0 by lra.
    apply gp_Dir_unit, modulus_axis_x. }
  splits.
  - apply gp_Dir_unit, modulus_axis_z.
  - apply Hs.
  - apply gp_Dir_unit, modulus_axis_y.
  - rewrite Hx. reflexivity.
  - unfold Crossed, cross. cbn [pX pY pZ].
    replace (0 * 0 - 1 * 0) with 0 by lra.
    replace (1 * 1 - 0 * 0) with 1 by lra.
    replace (0 * 0 - 0 * 1) with 0 by lra.
    apply gp_Dir_unit, modulus_axis_y.
Qed.

(** The sample shape whose second extraction call throws, and whose second
    closed wire has a vertex without point. *)
Lemma sample_cut_results :
  let shape := sample_cut_shape (line_edge (mkPnt 0 0 0) (mkPnt 1 1 0))
                                std_exception in
  let r1 := compute_hlr_projection shape 0 0 1 0 1 0 1 in
  let r2 := compute_hlr_projection_v2 shape 0 0 1 0 1 0 1 0.01 in
  let rs := compute_section_with_hatch shape 0 0 0 0 0 1 0 1 0 45 1 in
  hp_lines r1 <> [] /\ hp_bbox r1 = bbox_zero /\
  h2_curves r2 <> [] /\ h2_num_lines r2 = 0%Z /\
  sr_regions rs <> [] /\ sr_num_regions rs = 0%Z.
Proof.
  intros shape.
  set (edge := line_edge (mkPnt 0 0 0) (mkPnt 1 1 0)).
  set (extractor := mkHLRToShape (call_of (Some [edge])) (inl std_exception)
                                 (call_of None) (call_of None)
                                 (call_of None) (call_of None)).
  assert (Hst : hlr_stage shape 0 0 1 0 1 0 extractor)
    by (apply hlr_stage_from_above; [reflexivity | intros; reflexivity]).
  assert (Ht : extractor_throws_at extractor (one_visible_edge edge) 1
                                   std_exception).
  { split; [|reflexivity].
    cbn. constructor; [apply call_of_returns | constructor]. }
  assert (Hq : extractor_discretizes extractor).
  { unfold extractor_discretizes, extractor, hlr_groups.
    cbn [call_VCompound call_HCompound call_Rg1LineVCompound
         call_Rg1LineHCompound call_OutLineVCompound call_OutLineHCompound].
    repeat constructor; try apply call_of_discretizes.
    intros s Hs. discriminate. }
  assert (Hfc : first_compounds 1 (one_visible_edge edge) = one_visible_edge edge)
    by reflexivity.
  cbv zeta. splits.
  - rewrite (hlr_cut_result shape 0 0 1 0 1 0 1 extractor _ 1 std_exception
               Hst Ht) by (left; discriminate).
    cbn [hp_lines]. rewrite Hfc. exact sample_lines_extracted.
  - rewrite (hlr_cut_result shape 0 0 1 0 1 0 1 extractor _ 1 std_exception
               Hst Ht) by (left; discriminate).
    reflexivity.
  - destruct (hlr2_cut_result shape 0 0 1 0 1 0 1 0.01 extractor _ 1
                std_exception Hst Ht Hq) as (H1 & _).
    rewrite H1, Hfc.
    rewrite (hlr2_extract_all_one_line _ (mkPnt 0 0 0) (mkPnt 1 1 0)
               Distance_unit_diagonal).
    discriminate.
  - destruct (hlr2_cut_result shape 0 0 1 0 1 0 1 0.01 extractor _ 1
                std_exception Hst Ht Hq) as (_ & _ & _ & H4 & _).
    exact H4.
  - assert (Hs : section_stage shape 0 0 0 0 0 1 0 1 0 (mkPnt 1 0 0)
                   (mkPnt 0 1 0)
                   (mkFreeBounds
                      [wire_of square_wire;
                       [inr (mkPnt 2 2 0); inl std_exception]] []))
      by (apply section_stage_plane; [reflexivity | intros; reflexivity]).
    destruct (section_cut_closed shape 0 0 0 0 0 1 0 1 0 45 1 _ _ _
                [square_wire] [inr (mkPnt 2 2 0); inl std_exception] []
                [mkPnt 2 2 0] std_exception Hs eq_refl eq_refl)
      as (_ & H2 & _).
    rewrite H2.
    pose proof (section_process_facts (mkPnt 0 0 0) (mkPnt 1 0 0) (mkPnt 0 1 0)
                  45 1 [square_wire] []) as F.
    cbv zeta in F. destruct F as (_ & Fb & _).
    intros Hnil. rewrite Hnil in Fb. cbn [map filter] in Fb.
    rewrite project_square_wire in Fb.
    change (at_least 3 unit_square) with true in Fb. discriminate.
  - assert (Hs : section_stage shape 0 0 0 0 0 1 0 1 0 (mkPnt 1 0 0)
                   (mkPnt 0 1 0)
                   (mkFreeBounds
                      [wire_of square_wire;
                       [inr (mkPnt 2 2 0); inl std_exception]] []))
      by (apply section_stage_plane; [reflexivity | intros; reflexivity]).
    destruct (section_cut_closed shape 0 0 0 0 0 1 0 1 0 45 1 _ _ _
                [square_wire] [inr (mkPnt 2 2 0); inl std_exception] []
                [mkPnt 2 2 0] std_exception Hs eq_refl eq_refl)
      as (_ & _ & _ & H4 & _).
    exact H4.
Qed.

(** C6, amended.  A null shape makes all three entry points return without
    any primitive, curve or region.  A shape without faces and without edges
    makes [compute_hlr_projection] return without lines.  A view direction
    shorter than 1e-10 makes both HLR entry points return without
    primitives.  A section normal not longer than the kernel's resolution is
    refused by the kernel; the handler returns an empty result with a zeroed
    box.  Whatever is thrown inside an entry point is caught there.  An
    exception before the extraction (of the construction of a direction, of
    the hidden-line stage, of the section or of the free bounds) gives an
    empty result.  An exception during the extraction leaves in the result
    what was pushed before it: when the extraction call at position [k]
    throws, the lines, or the curves and polylines, of the [k] compounds
    before it, unscaled, with [num_edges] counting them and [num_lines],
    [num_arcs] and [num_polylines] still 0; when a vertex of a section wire
    has no point, the curves, regions and hatch count of the wires walked
    before it, with [num_regions] still 0.  Such a result need not be empty.
    After an exception the box is zeroed in [compute_hlr_projection], and in
    the other two when the exception is a [Standard_Failure]. *)
Theorem invalid_input_and_exceptions
    (shape : OcctShape)
    (dir_x dir_y dir_z up_x up_y up_z scale deflection : R)
    (ox oy oz nx ny nz hatch_angle hatch_spacing : R) :
  let r1 := compute_hlr_projection shape dir_x dir_y dir_z up_x up_y up_z scale in
  let r2 := compute_hlr_projection_v2 shape dir_x dir_y dir_z up_x up_y up_z
                                      scale deflection in
  let rs := compute_section_with_hatch shape ox oy oz nx ny nz up_x up_y up_z
                                       hatch_angle hatch_spacing in
  (is_null shape = true ->
   hp_lines r1 = [] /\ h2_curves r2 = [] /\ h2_polylines r2 = [] /\
   sr_curves rs = [] /\ sr_regions rs = []) /\
  (topo_faces shape = 0%nat -> topo_edges shape = 0%nat -> hp_lines r1 = []) /\
  (sqrt (dir_x * dir_x + dir_y * dir_y + dir_z * dir_z) < 1e-10 ->
   hp_lines r1 = [] /\ h2_curves r2 = [] /\ h2_polylines r2 = []) /\
  (is_null shape = false -> modulus nx ny nz <= gp_Resolution ->
   rs = mkSectionResult [] [] bbox_zero 0 0) /\
  (forall e : thrown,
     hlr_stage_throws shape dir_x dir_y dir_z up_x up_y up_z e ->
     hp_lines r1 = [] /\
     (topo_faces shape <> 0%nat \/ topo_edges shape <> 0%nat ->
      hp_bbox r1 = bbox_zero) /\
     h2_curves r2 = [] /\ h2_polylines r2 = [] /\
     (e = Standard_Failure -> h2_bbox r2 = bbox_zero)) /\
  (forall e : thrown,
     section_stage_throws shape ox oy oz nx ny nz up_x up_y up_z e ->
     sr_curves rs = [] /\ sr_regions rs = [] /\
     (e = Standard_Failure -> sr_bbox rs = bbox_zero)) /\
  (forall (extractor : HLRBRep_HLRToShape) (c : HLRCompounds) (k : nat)
          (e : thrown),
     hlr_stage shape dir_x dir_y dir_z up_x up_y up_z extractor ->
     extractor_throws_at extractor c k e ->
     (topo_faces shape <> 0%nat \/ topo_edges shape <> 0%nat ->
      r1 = mkHLRResult
             (fst (fst (hlr_extract_all (first_compounds k c) []
                                        bbox_sentinel)))
             bbox_zero) /\
     (extractor_discretizes extractor ->
      let a := hlr2_extract_all (first_compounds k c)
                                (effective_deflection deflection) in
      h2_curves r2 = cs_curves (fst a) /\
      h2_polylines r2 = cs_polylines (fst a) /\
      h2_num_edges r2 = snd a /\
      h2_num_lines r2 = 0%Z /\ h2_num_arcs r2 = 0%Z /\
      h2_num_polylines r2 = 0%Z /\
      (e = Standard_Failure -> h2_bbox r2 = bbox_zero) /\
      (e <> Standard_Failure -> h2_bbox r2 = cs_bbox (fst a)))) /\
  (forall (xAxis yAxis : gp_Pnt) (freeBounds : ShapeAnalysis_FreeBounds)
          (cw ow : list TopoDS_Wire) (wire : SectionWire)
          (rest : list SectionWire) (walked : list gp_Pnt) (e : thrown),
     section_stage shape ox oy oz nx ny nz up_x up_y up_z xAxis yAxis
                   freeBounds ->
     wire_points wire = (walked, Some e) ->
     (GetClosedWires freeBounds = map wire_of cw ++ wire :: rest /\ ow = []) \/
     (GetClosedWires freeBounds = map wire_of cw /\
      GetOpenWires freeBounds = map wire_of ow ++ wire :: rest) ->
     section_cut_short rs
       (section_process (mkPnt ox oy oz) xAxis yAxis hatch_angle hatch_spacing
                        cw ow) e) /\
  (exists shape' : OcctShape,
     let r1' := compute_hlr_projection shape' 0 0 1 0 1 0 1 in
     let r2' := compute_hlr_projection_v2 shape' 0 0 1 0 1 0 1 0.01 in
     let rs' := compute_section_with_hatch shape' 0 0 0 0 0 1 0 1 0 45 1 in
     hp_lines r1' <> [] /\ hp_bbox r1' = bbox_zero /\
     h2_curves r2' <> [] /\ h2_num_lines r2' = 0%Z /\
     sr_regions rs' <> [] /\ sr_num_regions rs' = 0%Z).
Proof.
  intros r1 r2 rs. subst r1 r2 rs. splits.
  - intros Hnull.
    unfold compute_hlr_projection, hlr_try, compute_hlr_projection_v2, hlr2_try,
           compute_section_with_hatch, section_try.
    rewrite Hnull. cbn. auto.
  - intros Hf He. unfold compute_hlr_projection, hlr_try, count_shape_topology.
    rewrite Hf, He. destruct (is_null shape); reflexivity.
  - intros Hlen.
    unfold compute_hlr_projection, hlr_try, compute_hlr_projection_v2, hlr2_try,
           count_shape_topology.
    rewrite (Rltb_true _ _ Hlen).
    destruct (is_null shape);
      destruct ((topo_faces shape =? 0)%nat && (topo_edges shape =? 0)%nat);
      cbn; auto.
  - intros Hnull Hmod. unfold compute_section_with_hatch, section_try, gp_Dir.
    rewrite Hnull, (Rleb_true _ _ Hmod). reflexivity.
  - intros e Hthrow.
    destruct (hlr_stage_throws_result shape dir_x dir_y dir_z up_x up_y up_z
                scale deflection e Hthrow) as (H2 & H1).
    unfold compute_hlr_projection_v2. rewrite H2.
    assert (Hl : hp_lines (compute_hlr_projection shape dir_x dir_y dir_z
                             up_x up_y up_z scale) = []).
    { destruct (Nat.eq_dec (topo_faces shape) 0) as [Hf|Hf];
        [destruct (Nat.eq_dec (topo_edges shape) 0) as [He|He]|].
      - unfold compute_hlr_projection, hlr_try, count_shape_topology.
        rewrite Hf, He. destruct (is_null shape); reflexivity.
      - unfold compute_hlr_projection. rewrite H1 by (right; exact He).
        reflexivity.
      - unfold compute_hlr_projection. rewrite H1 by (left; exact Hf).
        reflexivity. }
    split; [exact Hl|]. split.
    + intros Htopo. unfold compute_hlr_projection. rewrite (H1 Htopo).
      reflexivity.
    + destruct e; cbn; splits; auto; discriminate.
  - intros e Hthrow. unfold compute_section_with_hatch.
    rewrite (section_stage_throws_result _ _ _ _ _ _ _ _ _ _ hatch_angle
               hatch_spacing e Hthrow).
    destruct e; cbn; splits; auto; discriminate.
  - intros extractor c k e Hst Ht. split.
    + intros Htopo.
      apply (hlr_cut_result _ _ _ _ _ _ _ _ extractor c k e); assumption.
    + intros Hq.
      apply (hlr2_cut_result _ _ _ _ _ _ _ _ _ extractor c k e); assumption.
  - intros xAxis yAxis freeBounds cw ow wire rest walked e Hst Hw
           [(Hcw & ->)|(Hcw & How)].
    + eapply section_cut_closed; eassumption.
    + eapply section_cut_open; eassumption.
  - exists (sample_cut_shape (line_edge (mkPnt 0 0 0) (mkPnt 1 1 0))
                             std_exception).
    exact sample_cut_results.
Qed.

Lemma invalid_input_and_exceptions_witness :
  hp_lines (compute_hlr_projection null_shape 0 0 1 0 1 0 1) = [] /\
  h2_curves (compute_hlr_projection_v2 null_shape 0 0 1 0 1 0 1 0.01) = [] /\
  sr_regions (compute_section_with_hatch null_shape 0 0 0 0 0 1 0 1 0 45 1) = [].
Proof.
  destruct (invalid_input_and_exceptions null_shape 0 0 1 0 1 0 1 0.01
              0 0 0 0 0 1 45 1) as (Hnull & _).
  destruct (Hnull eq_refl) as (H1 & H2 & _ & _ & H5).
  split; [exact H1 | split; [exact H2 | exact H5]].
Defined.
